(* ===== verification/_CoqProject ===== *)
-Q . S2P
Prelude.v
Js.v
Bits.v
Decimal.v
Coalitions.v
TreasurySpec.v
Encoding.v
Judge.v
Evm.v
Squads.v
SdkArgs.v
GraphTs.v
GraphTsSample.v
SgText.v
SgJson.v
SgStore.v
SgRegistration.v
SgFeedbackDocument.v
SgBufi.v
SgCommerce.v
SgSettlement.v
SgIdentity.v
SgReputation.v
CreJson.v
CreParse.v
CreEvidence.v
CreCommitments.v
Abi.v
EvmAbi.v
AbiLayout.v
AbiSample.v
SessionKey.v
SessionKeyChecks.v
SessionKeyPlugin.v
SessionKeySpend.v
Grant.v
GrantSpend.v
GrantPresets.v
YieldCalls.v
YieldLive.v
AgentFace.v
GtPolicy.v
GatewayTreasury.v
GtSample.v
GtQuorum.v
GtSignature.v
GtAdmin.v
GtInvariant.v
Guard.v
GuardRefine.v
GuardPolicy.v
Float64.v
JsMap.v
UtConfig.v
UtIntent.v
Coordinator.v
UtValidate.v
UtWire.v
Async.v
UtFiles.v
UtSend.v
UtLegs.v
UtMachine.v
UtSafety.v
UtChain.v
LedgerSigner.v
LedgerMachine.v
LedgerSafety.v
LedgerAuthority.v
LedgerCreate.v
Conduit.v
ConduitSafety.v
AgentKit.v
AgentGate.v
AgentSafety.v
JsonText.v
AgentState.v
AgentFile.v
AgentContext.v
AgentSession.v
