(* ===== verification/Prelude.v ===== *)
(** * BUFI-6900: a verification library for its core

    BUFI-6900 is a kit for treasuries held by several owners and for agents
    that may spend on their behalf. This library models the parts of it that
    decide who may move what, the indexer that reports what moved, and the
    evidence documents derived from it, and proves what makes them correct.
    TypeScript code becomes functions over explicit state; a [throw] is
    [Throw] of the [result] monad below, a [BigInt] is a [Z], a binary64
    number a rational ([Float64]), an [async] function a program that suspends
    ([Async]). The Solidity of the session key plugin, of the treasury contract,
    of its guard for other accounts and of its conduits, and the Rust of the
    signing coordinator are modelled where the TypeScript's promises end in
    them.

    ** The parts and their files

    Language and libraries. [Prelude] (errors, record updates, automation),
    [Js] (numbers, [Set], stable sort, text), [Float64] (binary64), [JsMap]
    ([Map]), [Decimal], [Bits], [JsonText] ([JSON.stringify] with an indent,
    and reading it back), [Async] (suspendable programs with a
    rely-guarantee [wp], and a runner that lets others act at every
    suspension), [Abi] (contract words; viem as the class [Viem] with
    [ViemLaws]), [EvmAbi] (Solidity's ABI decoder), [AbiLayout] (the ABI's
    arrays, written and read back; [ViemParamLaws]), [AbiSample], [GraphTs]
    (graph-ts as a class with laws), [GraphTsSample].

    Weighted treasuries, [packages/weighted-treasury/src]. [Coalitions]
    ([coalitions.ts]: minimal winning coalitions by bit masks), [TreasurySpec]
    ([spec.ts], [validate.ts]), [Evm] ([evm.ts]), [Squads]
    ([squads/compile.ts]), [SdkArgs] ([squads/sdk-args.ts]), [Judge]
    ([judge.ts]), [Encoding] ([encoding.ts]). One specification of owners,
    weights and budgets is compiled to two chains. What the on-chain Squads
    program does with a policy is a parameter ([SquadsProgram], with its
    documented laws [SquadsLaws]); under them either compiled treasury lets a
    set of owners spend exactly when the weights do ([squads_parity],
    [backends_agree], [coalitions_reproduce_weights]).

    The session key plugin and the grants given to agents. [SessionKey],
    [SessionKeyChecks], [SessionKeyPlugin], [SessionKeySpend]
    ([contracts/src/bufi/v0.7/session]: storage, the checks of a user
    operation, the accounting of a run), [Grant]
    ([actions/plugins/sessionKey] of [packages/modular-wallets-core/src]),
    [GrantSpend], [GrantPresets] ([cascade/agentGrantPresets.ts]),
    [YieldCalls], [YieldLive] ([cascade/buildSpendFromYieldCalls.ts]),
    [AgentFace] (the plugin encoders, [buildAgentFaceCalls.ts],
    [buildTreasuryBootstrapCalls.ts], [toStackDeployment.ts]). The plugin
    refines a plain map from (account, key) to a policy
    ([plugin_refines_policies]); the updates the SDK encodes for a grant give
    the key that grant and nothing more ([granted_key_enforces_grant]), bound
    what it can spend over any history by the limit for every refresh interval
    begun ([granted_key_spending_bounded]) and let the payments it was made for
    through ([yield_payment_goes_through]); the install data of an agent face,
    decoded by the plugin, puts every agent under its own grant
    ([agent_face_enforces_grants]).

    The ultimate treasury, [apps/ultimate-treasury]. [UtConfig]
    ([shared/config.ts], [shared/types.ts]), [UtIntent] ([server/solana.ts],
    [evm.ts], [gateway.ts], [mint-log.ts]), [UtFiles] (the attestation files of
    [send.ts], as JSON text), [UtValidate] and [UtSend]
    ([server/send.ts] with the asynchronous parts of [evm.ts] and
    [solana.ts]), [Coordinator] ([tools/frost-delegate/src/main.rs]),
    [UtWire] (the encoder of the server against the decoder of the
    coordinator), [UtLegs], [UtMachine], [UtSafety] (the server as
    a machine). The state is the module's variables - the job table, the
    running job, the policy cache, the table of unminted attestations and its
    files - and each handler is a program over it; a step of the machine runs
    one of them from a suspension to the next, or restarts the server. The
    safety theorem quantifies over every interleaving, every answer of the
    network and any number of restarts: one send runs at a time
    ([one_send_at_a_time]), and a payment whose acceptance was received is not
    sent to Gateway again while it is unminted ([no_double_payment]); one whose
    acceptance was lost is ([lost_answer_sent_again]).

    The treasury contract, [contracts/src/bufi]. [GtPolicy] ([gateway-guard/GatewayIntentPolicy.sol]),
    [GatewayTreasury] ([gateway-treasury/GatewayTreasury.sol]: storage,
    constructor, ERC-1271 with its weighted quorum, administration), [GtSample]
    (a concrete chain), [GtQuorum] (the weighted quorum and its loop),
    [GtSignature] (what it signs), [GtAdmin],
    [GtInvariant] (the contract as a machine of transactions), [UtChain] (the
    parts of the server's [evm.ts] that read the contract and sign for it). A
    revert is an error that leaves the storage alone. The contract signs what
    its policy allows when a quorum approves, and nothing else
    ([treasury_signs_within_policy], [quorum_exact]); only a quorum administers
    it, after the timelock and once ([admin_changes_authorised]); and what the
    server tells its owners about a payment is what the contract decides
    ([server_predicts_treasury]). [Guard] is the same policy as an ERC-6900
    guard for Circle's accounts ([gateway-guard/GatewayIntentGuardCore.sol]
    with its v0.7 and v0.8 packagings): its storage, keyed by a hash of account
    and epoch, is a map of policies ([GuardRefine], [guard_refines_policies]),
    and what passes it is what the treasury contract with the same policy signs
    ([GuardPolicy], [guard_is_treasury_policy], [hooks_read_envelope]).
    [Conduit], [ConduitSafety] ([conduit/]): the contracts that carry out an
    intent with a treasury's tokens; whatever contract the intent calls, the
    treasury gains what was reviewed or nothing happens ([execute_delivers]).

    The Ledger swap signer, [packages/ledger/src/native/ledger-native.service.ts].
    [LedgerSigner] (the review of a swap, [createLedgerSwapSigner] and the
    operations of the signer as programs of [Async]), [LedgerMachine] (calls of
    a user interface interleaved at every suspension, the answers of device,
    wallet service and chain arbitrary), [LedgerSafety],
    [LedgerAuthority], [LedgerCreate]. The device is asked for the reviewed
    steps only, each once and in order ([device_authority]), one operation at a
    time ([one_operation]), never after [close] ([closed_is_shut]).

    The agent, [apps/agent/src]. [AgentKit] ([kit-stub.ts], the kit an agent
    runs against; its shapes are those of [kit-contract.ts]), [AgentGate]
    ([gate.ts], [facts.ts], [pods.ts], [quote.ts]), [AgentSafety] (the ledger
    over any history, the gate with others acting on the kit at every suspension,
    and that the nonce of the kit is not the one the conduit asks for); [AgentState], [AgentFile] ([state.ts]: schema, text and
    reading back), [AgentContext], [AgentSession] ([config.ts], [context.ts]: a
    session started from its file is the one that was left).

    The subgraph, [packages/subgraph-arc/src]. [SgText], [SgJson]
    ([shared/]), [SgStore] (the entity store of [schema.graphql]),
    [SgRegistration], [SgFeedbackDocument], [SgIdentity], [SgReputation]
    ([identity/]), [SgBufi] ([bufi/]), [SgCommerce] ([commerce/]),
    [SgSettlement] (what the order of the escrow's events does to the
    figures). Untrusted documents never abort a handler
    (the lemmas [registration_never_aborts], [feedback_document_never_aborts]).

    The evidence of [packages/cre/src/evidence.ts]. [CreJson], [CreParse]
    (canonical JSON and [JSON.parse]), [CreEvidence] (references and sealed
    tokens), [CreCommitments] (the five commitment builders and their reader).

    ** What the theorems show

    Equivalence: the compiled treasuries against the weights, the guard and
    the server against the treasury contract, the settlement figures against
    the order of events. Refinement: the plugin and the guard against a map of
    policies, a grant against its updates, the coordinator against the intent
    the server built, a resumed session against the one it continues. Safety
    and invariants: no recorded payment twice, one send and one device operation at a
    time, nothing signed that was not reviewed or approved, only a quorum
    administers. Round trips: evidence tokens, the agent's state file, the
    envelope of a guarded signature; as plain lemmas canonical JSON, base64,
    intents, SDK arguments. Functional behaviour, errors included: validation
    of a send request, the compilers, the quorum, the yield calls. Bounds:
    spending, timestamps. Termination: the quorum loop. Liveness: a yield
    payment goes through. Every theorem with hypotheses is followed by a
    witness that applies it to a concrete input.

    ** Parameters, bounds and fuel

    viem, zod, the Squads program, the linked set of session keys, graph-ts, the application
    packages the Ledger service calls, the sealing of tokens and the hash
    functions are classes or arguments; other contracts are too: token and
    vault contracts a world with the laws of ERC-20 and ERC-3009, address books
    and account loupes the environment of the guard. Their laws state
    documented behaviour and each class has an instance that satisfies them;
    that keccak256 has no collision is a hypothesis where it is needed.
    Trimming and letter case are those of ASCII. Loops whose
    bound the code states are written with that bound as fuel (ten balance
    polls, 36 retries, the 2^20 masks of at most 20 owners, one signature slot
    per 65 bytes); recursion on text
    that is not structural takes the length of the text as fuel and the lemmas
    prove it enough. Machine integers wrap where the code wraps: [uint256] and
    [uint48] in the plugin, [i32] in the subgraph, 32-bit masks in [Bits].

    ** Not modelled

    Network transports, key files, React components and HTTP routing (input
    and output only); cryptography (ECDSA, FROST rounds, WebAuthn, the sealing
    of tokens); ABI constant files ([packages/msca-recovery/src/abi],
    [modular-wallets-core/src/abis] but for the session key updates), mocks,
    tests and scripts; [packages/msca-recovery], a command line of viem and
    ethers calls; [packages/mock-circle], a stand-in for Circle's service;
    [packages/the-graph] and [packages/ens], queries and user interface; the
    Circle account implementations and the EIP-1193 provider wrappers of
    [modular-wallets-core], which forward to viem and to Circle; the Ledger
    transports; the [cre] catalogue, which is data, and its HTTP client; the
    v0.7 earn module and the v0.8 contracts; Circle's own contracts. *)

From Stdlib Require Export Ascii.
From stdpp Require Export base gmap strings list fin_maps pretty sorting.
From Stdlib Require Export ZArith Lia.

(** ** Scope and notation *)

Declare Scope bufi_scope.
Delimit Scope bufi_scope with bufi.
Global Open Scope Z_scope.
Global Open Scope bufi_scope.

(** ** Fallible code: a TypeScript [throw] is a value of the error type. *)

Inductive result (E A : Type) : Type :=
| Ok (a : A)
| Throw (e : E).
Arguments Ok {E A} a.
Arguments Throw {E A} e.

#[global] Instance result_ret E : MRet (result E) := λ A a, Ok a.
#[global] Instance result_bind E : MBind (result E) :=
  λ A B f m, match m with Ok a => f a | Throw e => Throw e end.
#[global] Instance result_fmap E : FMap (result E) :=
  λ A B f m, match m with Ok a => Ok (f a) | Throw e => Throw e end.

(** [if (c) throw e] *)
Definition throw_if {E} (c : bool) (e : E) : result E () :=
  if c then Throw e else Ok tt.

Definition is_ok {E A} (r : result E A) : bool :=
  match r with Ok _ => true | Throw _ => false end.

Lemma bind_ok {E A B} (m : result E A) (f : A → result E B) b :
  m ≫= f = Ok b ↔ ∃ a, m = Ok a ∧ f a = Ok b.
Proof.
  destruct m; simpl; split; intros H; [eauto | | done | ].
  - by destruct H as (? & [= ->] & ?).
  - by destruct H as (? & ? & ?).
Qed.

Lemma bind_throw {E A B} (m : result E A) (f : A → result E B) e :
  m ≫= f = Throw e ↔ m = Throw e ∨ ∃ a, m = Ok a ∧ f a = Throw e.
Proof.
  destruct m; simpl; split.
  - intros H. right. by exists a.
  - by intros [?|(? & [= <-] & ?)].
  - intros [= <-]. by left.
  - intros [[= <-]|(? & ? & _)]; done.
Qed.

Lemma throw_if_ok {E} c (e : E) u : throw_if c e = Ok u ↔ c = false.
Proof. destruct c, u; simpl; split; done. Qed.

Lemma throw_if_bind {E A} c (e : E) (k : () → result E A) :
  throw_if c e ≫= k = if c then Throw e else k tt.
Proof. by destruct c. Qed.

Lemma throw_if_bind_ok {E A} c (e : E) (k : () → result E A) r :
  throw_if c e ≫= k = Ok r ↔ c = false ∧ k tt = Ok r.
Proof. destruct c; simpl; split; naive_solver. Qed.

Lemma mret_ok {E A} (a b : A) : (mret a : result E A) = Ok b ↔ a = b.
Proof. split; [by intros [= ->] | by intros ->]. Qed.

Lemma ok_inj {E A} (a b : A) : (Ok a : result E A) = Ok b → a = b.
Proof. by intros [= ->]. Qed.

(** [l.map(f)] with an [f] that may throw: the first throw wins. *)
Lemma mapM_cons_result {E A B} (f : A → result E B) x l :
  mapM f (x :: l) = (y ← f x; k ← mapM f l; mret (y :: k)).
Proof. done. Qed.

Lemma mapM_ok {E A B} (f : A → result E B) l k :
  mapM f l = Ok k ↔ Forall2 (λ x y, f x = Ok y) l k.
Proof.
  revert k. induction l as [|x l IH]; intros k.
  - split; [intros [= <-]; constructor | by inversion 1].
  - rewrite mapM_cons_result. destruct (f x) as [y|e] eqn:Ef; cbn [mbind result_bind].
    + destruct (mapM f l) as [k'|e] eqn:El; cbn [mbind result_bind].
      * split; [intros [= <-]; constructor; [done|]; by apply IH|].
        inversion 1 as [|?? ?? Hx Hl]; subst. apply IH in Hl. unfold mret, result_ret. congruence.
      * split; [done|]. inversion 1 as [|?? ?? Hx Hl]; subst. by apply IH in Hl.
    + split; [done|]. inversion 1; congruence.
Qed.

Lemma mapM_ok_pure {E A B} (f : A → result E B) (P : A → Prop) (g : A → B) :
  (∀ x y, f x = Ok y ↔ P x ∧ y = g x) →
  ∀ l k, mapM f l = Ok k ↔ (∀ x, x ∈ l → P x) ∧ k = g <$> l.
Proof.
  intros Hf l k. rewrite mapM_ok. split.
  - induction 1 as [|x y l k Hx Hl [IH1 ->]]; [set_solver|].
    apply Hf in Hx as [Hx ->]. split; [|done]. intros z [->|]%elem_of_cons; auto.
  - intros [HP ->]. apply Forall2_fmap_r, Forall_Forall2_diag, Forall_forall.
    intros x Hx. apply Hf. auto.
Qed.

Lemma mapM_throws {E A B} (f : A → result E B) (Q : E → Prop) l e :
  (∀ x e', f x = Throw e' → Q e') → mapM f l = Throw e → Q e.
Proof.
  intros Hf. induction l as [|x l IH]; [done|]. rewrite mapM_cons_result.
  destruct (f x) as [y|e'] eqn:Ef; cbn [mbind result_bind].
  - destruct (mapM f l) as [k|e'']; cbn [mbind result_bind]; [done|]. auto.
  - intros [= <-]. by apply (Hf x).
Qed.

(** [l.map((x, i) => f(x))] over the indexed list. *)
Lemma fmap_imap_pair {A B} (f : A → B) l : (λ ir, f ir.2) <$> imap pair l = f <$> l.
Proof.
  apply list_eq. intros i. rewrite list_lookup_fmap, list_lookup_imap, list_lookup_fmap.
  by destruct (l !! i).
Qed.

Lemma forall_imap_pair {A} (P : A → Prop) l :
  (∀ ir, ir ∈ imap pair l → P ir.2) ↔ (∀ x, x ∈ l → P x).
Proof.
  split.
  - intros H x [i Hi]%list_elem_of_lookup. apply (H (i, x)), elem_of_lookup_imap. eauto.
  - intros H ir (i & x & -> & Hi)%elem_of_lookup_imap. apply H. by eapply list_elem_of_lookup_2.
Qed.

(** A map whose function succeeds everywhere, with a known value. *)
Lemma mapM_fmap {E A B} (f : A → result E B) (g : A → B) l :
  (∀ x, x ∈ l → f x = Ok (g x)) → mapM f l = Ok (g <$> l).
Proof.
  intros H. apply mapM_ok, Forall2_fmap_r, Forall_Forall2_diag, Forall_forall. done.
Qed.

(** ** Automation *)

Create HintDb bufi discriminated.

(** Takes apart a successful run of a monadic body, one bind at a time. *)
Ltac ok_step :=
  match goal with
  | H : _ ≫= _ = Ok _ |- _ =>
      let a := fresh "r" in let H1 := fresh "Hr" in
      apply bind_ok in H as (a & H1 & H)
  | H : throw_if _ _ = Ok ?u |- _ => apply throw_if_ok in H; try clear u
  | H : mret _ = Ok _ |- _ => apply ok_inj in H
  | H : Ok _ = Ok _ |- _ => apply ok_inj in H
  | H : Throw _ = Ok _ |- _ => discriminate H
  | H : _ || _ = false |- _ => apply orb_false_iff in H as [? ?]
  | H : negb _ = false |- _ => apply negb_false_iff in H
  | H : negb _ = true |- _ => apply negb_true_iff in H
  | H : _ && _ = true |- _ => apply andb_true_iff in H as [? ?]
  | H : bool_decide _ = true |- _ => apply bool_decide_eq_true in H
  | H : bool_decide _ = false |- _ => apply bool_decide_eq_false in H
  end.
Ltac ok_inv := repeat (ok_step; cbv beta in * ).

(** Turns boolean comparisons of integers into propositions. *)
Ltac zify_bool :=
  rewrite ?Z.ltb_lt, ?Z.ltb_ge, ?Z.leb_le, ?Z.leb_gt, ?Z.eqb_eq, ?Z.eqb_neq,
    ?Z.gtb_lt, ?Z.geb_le in *.

(** [lia] for goals with divisions and remainders by constants. *)
Ltac div_lia := Z.to_euclidean_division_equations; lia.

(** Evaluates the closed exponents of the powers of two in sight. *)
Ltac norm_exp :=
  repeat match goal with
  | |- context [2 ^ ?e] =>
      let x := eval vm_compute in e in progress (change (2 ^ e) with (2 ^ x))
  | H : context [2 ^ ?e] |- _ =>
      let x := eval vm_compute in e in progress (change (2 ^ e) with (2 ^ x) in H)
  end.

(** ** Sums over lists of integers *)

Fixpoint sumZ (l : list Z) : Z :=
  match l with [] => 0 | x :: l => x + sumZ l end.

Lemma sumZ_app l1 l2 : sumZ (l1 ++ l2) = sumZ l1 + sumZ l2.
Proof. induction l1 as [|x l1 IH]; simpl; lia. Qed.

Lemma sumZ_perm l1 l2 : l1 ≡ₚ l2 → sumZ l1 = sumZ l2.
Proof. induction 1; simpl; lia. Qed.

Lemma sumZ_nonneg l : Forall (Z.le 0) l → 0 ≤ sumZ l.
Proof. induction 1; simpl; lia. Qed.

Lemma sumZ_fmap_cons {A} (f : A → Z) x l :
  sumZ (f <$> x :: l) = f x + sumZ (f <$> l).
Proof. done. Qed.

(** A fold that accumulates a sum. *)
Lemma foldl_sum {A} (f : A → Z) (P : A → Prop) `{∀ x, Decision (P x)} l acc :
  foldl (λ s x, if decide (P x) then s + f x else s) acc l
  = acc + sumZ (f <$> filter P l).
Proof.
  revert acc. induction l as [|x l IH]; intros acc; simpl.
  - lia.
  - rewrite IH, filter_cons. destruct (decide (P x)); [rewrite sumZ_fmap_cons|]; lia.
Qed.

(** ** Filtering *)

Lemma filter_ext_in {A} (P Q : A → Prop) `{!∀ x, Decision (P x), !∀ x, Decision (Q x)} (l : list A) :
  (∀ x, x ∈ l → P x ↔ Q x) → filter P l = filter Q l.
Proof.
  induction l as [|x l IH]; intros HPQ; [done|]. rewrite !filter_cons.
  rewrite IH by set_solver. specialize (HPQ x ltac:(left)).
  by destruct (decide (P x)), (decide (Q x)); naive_solver.
Qed.

Lemma filter_none {A} (P : A → Prop) `{!∀ x, Decision (P x)} (l : list A) :
  (∀ x, x ∈ l → ¬ P x) → filter P l = [].
Proof.
  induction l as [|x l IH]; intros HP; [done|]. rewrite filter_cons, decide_False by (apply HP; left).
  apply IH. intros y Hy. apply HP. by right.
Qed.

Lemma Forall_filter_impl {A} (Q P : A → Prop) `{!∀ x, Decision (P x)} (l : list A) :
  Forall Q l → Forall Q (filter P l).
Proof.
  intros Hl. apply Forall_forall. intros x [_ Hx]%list_elem_of_filter.
  rewrite Forall_forall in Hl. auto.
Qed.

Lemma filter_fmap {A B} (f : A → B) (P : B → Prop) `{!∀ x, Decision (P x)} (l : list A) :
  filter P (f <$> l) = f <$> filter (λ x, P (f x)) l.
Proof.
  induction l as [|x l IH]; [done|]. rewrite fmap_cons, !filter_cons, IH.
  by destruct (decide (P (f x))).
Qed.

(** An injective-on-[l] image is selected exactly by the images of what is selected. *)
Lemma filter_image {A} `{Countable B} (f : A → B) (P : A → Prop) `{!∀ x, Decision (P x)} (l : list A) :
  NoDup (f <$> l) →
  filter (λ x, f x ∈ (list_to_set (f <$> filter P l) : gset B)) l = filter P l.
Proof.
  intros Hnd. apply filter_ext_in. intros x Hx.
  rewrite elem_of_list_to_set, list_elem_of_fmap. split.
  - intros (y & E & [HP Hy]%list_elem_of_filter).
    apply list_elem_of_lookup in Hx as [i Hi], Hy as [j Hj].
    assert (i = j) as ->; [|by simplify_eq].
    apply (NoDup_lookup (f <$> l) i j (f x)); [done|..]; rewrite list_lookup_fmap.
    + by rewrite Hi.
    + by rewrite Hj, E.
  - intros HP. exists x. rewrite list_elem_of_filter. done.
Qed.

Lemma filter_length_full {A} (P : A → Prop) `{!∀ x, Decision (P x)} (l : list A) :
  (length l ≤ length (filter P l))%nat ↔ Forall P l.
Proof.
  induction l as [|x l IH]; [done|]. rewrite filter_cons, Forall_cons, <- IH.
  pose proof (length_filter P l). destruct (decide (P x)); simpl; split; intuition lia.
Qed.

(** ** Record updates

    [Eta R] rebuilds a record from its projections; [r <| f := x |>] replaces one
    field, found by abstracting the projection out of the rebuilt record. *)

Class Eta (R : Type) := eta : R → R.
Class Setter {R T : Type} (proj : R → T) := set : (T → T) → R → R.
Arguments set {R T} proj {_} f r.

Ltac derive_setter :=
  match goal with
  | |- @Setter ?R ?T ?proj =>
      let e := constr:(_ : Eta R) in
      let e := eval hnf in e in
      let r := fresh "r" in
      let body := constr:(λ r : R, ltac:(
        let x := eval cbv beta in (e r) in
        let x := eval pattern (proj r) in x in
        match x with ?k _ => exact (λ f : T → T, k (f (proj r))) end)) in
      exact (λ f r, body r f)
  end.
#[export] Hint Extern 1 (Setter _) => derive_setter : typeclass_instances.

Notation "r <| proj := v |>" := (set proj (λ _, v) r)
  (at level 12, proj at level 10, v at level 200, left associativity,
   format "r  <| proj  :=  v |>") : bufi_scope.
Notation "r <| proj ::= f |>" := (set proj f r)
  (at level 12, proj at level 10, f at level 200, left associativity,
   format "r  <| proj  ::=  f |>") : bufi_scope.

(** ** Sums over maps *)

Section msum.
Context {A : Type}.
Implicit Types (f g : A → Z) (m : gmap string A).

(** Sum of [f] over the values of a map. *)
Definition msum f m : Z := map_fold (λ _ x acc, f x + acc) 0 m.

Lemma msum_empty f : msum f ∅ = 0.
Proof. apply map_fold_empty. Qed.

Lemma msum_insert f m i x : m !! i = None → msum f (<[i := x]> m) = f x + msum f m.
Proof.
  intros Hi. unfold msum. rewrite (map_fold_insert_L (λ _ x acc, f x + acc)); [done| |done].
  intros. lia.
Qed.

Lemma msum_delete f m i x : m !! i = Some x → msum f m = f x + msum f (delete i m).
Proof.
  intros Hi. rewrite <- (insert_delete_id m i x Hi) at 1. apply msum_insert, lookup_delete_eq.
Qed.

Lemma msum_update f m i x y :
  m !! i = Some x → msum f (<[i := y]> m) = msum f m - f x + f y.
Proof.
  intros Hi. rewrite (msum_delete f m i x Hi), (msum_delete f (<[i := y]> m) i y).
  - rewrite delete_insert_eq. lia.
  - apply lookup_insert_eq.
Qed.

Lemma msum_le f g m :
  (∀ i x, m !! i = Some x → f x ≤ g x) → msum f m ≤ msum g m.
Proof.
  induction m as [|i x m Hi IH] using map_ind; intros Hfg; [by rewrite !msum_empty|].
  rewrite !msum_insert by done. pose proof (Hfg i x (lookup_insert_eq _ _ _)).
  assert (msum f m ≤ msum g m); [|lia]. apply IH. intros j y Hj. apply (Hfg j).
  rewrite lookup_insert_ne; [done|]. intros ->. congruence.
Qed.

Lemma msum_nonneg f m : (∀ i x, m !! i = Some x → 0 ≤ f x) → 0 ≤ msum f m.
Proof.
  intros H. transitivity (msum (λ _, 0) m); [|by apply msum_le].
  induction m as [|i x m Hi IH] using map_ind; [by rewrite msum_empty|].
  rewrite msum_insert by done. assert (0 ≤ msum (λ _, 0) m); [|lia]. apply IH.
  intros j y Hj. apply (H j). rewrite lookup_insert_ne; [done|]. intros ->. congruence.
Qed.
End msum.
