(* ===== verification/Js.v ===== *)
(** * The part of JavaScript the modelled code uses

    Numbers as integers or not-integers, [Set] in insertion order, the stable
    [Array.prototype.sort], index-aware [filter], character classes of the
    code's regular expressions, [toLowerCase], integer rendering. Strings are
    sequences of 8-bit code units ([string]): the UTF-8 bytes of a text; the
    operations the model uses ([startsWith], [slice], character classes) only
    look at ASCII. *)

From S2P Require Import Prelude.

(** ** Numbers

    The code tests [Number.isInteger] before it does arithmetic on a number it
    was given, so a number is an exact integer or "not an integer" (a
    fraction, NaN, an infinity), which keeps only its [String(...)] text. *)
Inductive jsnum : Type :=
| JInt (z : Z)
| JNonInt (repr : string).

#[global] Instance jsnum_eq_dec : EqDecision jsnum.
Proof. solve_decision. Defined.

Definition isInteger (n : jsnum) : bool :=
  match n with JInt _ => true | JNonInt _ => false end.

(** [String(n)] *)
Definition numToString (n : jsnum) : string :=
  match n with JInt z => pretty z | JNonInt s => s end.

(** The integer of a number that passed [isInteger]; the default is never
    read by code that tested it. *)
Definition toZ (n : jsnum) : Z :=
  match n with JInt z => z | JNonInt _ => 0 end.

(** [!Number.isInteger(n) || n < lo || n > hi] is the negation of this. *)
Definition isIntegerIn (n : jsnum) (lo hi : Z) : bool :=
  match n with JInt z => (lo <=? z) && (z <=? hi) | JNonInt _ => false end.

Lemma isIntegerIn_spec n lo hi :
  isIntegerIn n lo hi = true ↔ ∃ z, n = JInt z ∧ lo ≤ z ≤ hi.
Proof.
  destruct n as [z|s]; simpl; split; intros H; try done.
  - apply andb_true_iff in H. zify_bool. eauto.
  - destruct H as (? & [= <-] & ?). apply andb_true_iff. zify_bool. done.
  - by destruct H as (? & ? & _).
Qed.

(** Built-in exceptions the code throws or lets through. *)
Inductive js_error : Type :=
| RangeError (message : string)
| TypeError (message : string)
| SyntaxError (message : string).

(** ** [Set] and [Array] *)

(** [set.add(x)]: a JS set iterates in insertion order. *)
Definition set_add `{EqDecision A} (s : list A) (x : A) : list A :=
  if decide (x ∈ s) then s else s ++ [x].

(** [[...new Set(l)]] *)
Definition js_set `{EqDecision A} (l : list A) : list A := foldl set_add [] l.

Lemma set_add_elem `{EqDecision A} (s : list A) x y :
  y ∈ set_add s x ↔ y ∈ s ∨ y = x.
Proof. unfold set_add. case_decide; set_solver. Qed.

Lemma set_add_nodup `{EqDecision A} (s : list A) x :
  NoDup s → NoDup (set_add s x).
Proof.
  unfold set_add. case_decide; [done|]. intros. apply NoDup_app.
  split_and!; [done | set_solver | apply NoDup_singleton].
Qed.

Lemma js_set_elem `{EqDecision A} (l : list A) y : y ∈ js_set l ↔ y ∈ l.
Proof.
  unfold js_set. enough (∀ s, y ∈ foldl set_add s l ↔ y ∈ s ∨ y ∈ l) as ->
    by set_solver.
  induction l as [|x l IH]; intros s; simpl; [set_solver|].
  rewrite IH, set_add_elem. set_solver.
Qed.

Lemma js_set_nodup `{EqDecision A} (l : list A) : NoDup (js_set l).
Proof.
  unfold js_set. assert (NoDup (@nil A)) as H by constructor. revert H.
  generalize (@nil A) as s.
  induction l as [|x l IH]; intros s; simpl; auto using set_add_nodup.
Qed.

Lemma js_set_nil `{EqDecision A} (l : list A) : js_set l = [] ↔ l = [].
Proof.
  split; [|by intros ->]. intros H. destruct l as [|x l]; [done|].
  assert (x ∈ js_set (x :: l)) as Hx by (apply js_set_elem; set_solver).
  rewrite H in Hx. set_solver.
Qed.

(** [l.filter((_, i) => P(i))], counting indices from [i]. *)
Fixpoint filter_i {A} (P : nat → bool) (i : nat) (l : list A) : list A :=
  match l with
  | [] => []
  | x :: l => if P i then x :: filter_i P (S i) l else filter_i P (S i) l
  end.

Lemma filter_i_elem {A} (P : nat → bool) (l : list A) i x :
  x ∈ filter_i P i l ↔ ∃ j, l !! j = Some x ∧ P (i + j)%nat = true.
Proof.
  revert i. induction l as [|y l IH]; intros i; simpl.
  - split; [set_solver | by intros (j & ? & _)].
  - assert (x ∈ filter_i P (S i) l ↔ ∃ j, (y :: l) !! S j = Some x ∧ P (i + S j)%nat = true) as HS.
    { rewrite IH. f_equiv; intros j. by rewrite Nat.add_succ_r. }
    destruct (P i) eqn:HP; [rewrite elem_of_cons|]; rewrite HS; split.
    + intros [->|(j & ?)]; [exists O; rewrite Nat.add_0_r; done | by exists (S j)].
    + intros ([|j] & Hl & ?); [left; by injection Hl | right; eauto].
    + intros (j & ?); by exists (S j).
    + intros ([|j] & Hl & Hj); [rewrite Nat.add_0_r in Hj; congruence | eauto].
Qed.

Lemma filter_i_sublist {A} (P : nat → bool) i (l : list A) :
  filter_i P i l `sublist_of` l.
Proof.
  revert i. induction l as [|x l IH]; intros i; simpl; [constructor|].
  destruct (P i); by constructor.
Qed.

Lemma filter_i_ext {A} (P Q : nat → bool) i (l : list A) :
  (∀ j, (i ≤ j < i + length l)%nat → P j = Q j) → filter_i P i l = filter_i Q i l.
Proof.
  revert i. induction l as [|x l IH]; intros i H; simpl; [done|].
  rewrite (H i) by (simpl; lia).
  rewrite (IH (S i)); [done|]. intros j Hj. apply H. simpl; lia.
Qed.

(** ** The stable sort, by a comparator that returns a number *)

Section sort.
  Context {A : Type} (cmp : A → A → Z).

Fixpoint sort_insert (x : A) (l : list A) : list A :=
    match l with
    | [] => [x]
    | y :: l' => if cmp x y <=? 0 then x :: l else y :: sort_insert x l'
    end.

Definition js_sort (l : list A) : list A := foldr sort_insert [] l.

Lemma sort_insert_perm x l : sort_insert x l ≡ₚ x :: l.
Proof.
    induction l as [|y l IH]; simpl; [done|].
    destruct (cmp x y <=? 0); [done|]. rewrite IH. constructor.
Qed.

Lemma js_sort_perm l : js_sort l ≡ₚ l.
Proof.
    induction l as [|x l IH]; simpl; [done|]. by rewrite sort_insert_perm, IH.
Qed.

  (** Sortedness needs the comparator to be total and transitive on the
      elements being sorted. *)
  Context (D : A → Prop).
  Hypothesis cmp_total : ∀ x y, D x → D y → cmp x y ≤ 0 ∨ cmp y x ≤ 0.
  Hypothesis cmp_trans : ∀ x y z, D x → D y → D z → cmp x y ≤ 0 → cmp y z ≤ 0 → cmp x z ≤ 0.

Let le (x y : A) : Prop := cmp x y ≤ 0.

Lemma sort_insert_sorted x l :
    D x → Forall D l → StronglySorted le l → StronglySorted le (sort_insert x l).
Proof.
    intros Hx Hl. induction 1 as [|y l Hs IH Hle]; simpl; [by repeat constructor|].
    inversion Hl; subst.
    destruct (cmp x y <=? 0) eqn:E; zify_bool.
    - constructor; [by constructor|]. constructor; [done|].
      rewrite Forall_forall in *. intros z Hz. apply (cmp_trans x y z); auto. by apply Hle.
    - constructor; [by apply IH|]. rewrite sort_insert_perm. constructor; [|done].
      destruct (cmp_total x y); auto; unfold le; lia.
Qed.

Lemma js_sort_sorted l : Forall D l → StronglySorted le (js_sort l).
Proof.
    induction 1 as [|x l Hx Hl IH]; simpl; [constructor|].
    apply sort_insert_sorted; [done| |done]. by rewrite js_sort_perm.
Qed.
End sort.

Lemma js_sort_elem {A} (cmp : A → A → Z) l x : x ∈ js_sort cmp l ↔ x ∈ l.
Proof. by rewrite js_sort_perm. Qed.

Lemma js_sort_nodup {A} (cmp : A → A → Z) l : NoDup l → NoDup (js_sort cmp l).
Proof. by rewrite js_sort_perm. Qed.

(** ** Strings *)

(** The double quote. *)
Definition q : string := String "034" "".

(** [!x] of an optional string: absent or empty. *)
Definition truthy (x : option string) : option string :=
  match x with Some EmptyString | None => None | Some s => Some s end.

Lemma truthy_some x s : truthy x = Some s ↔ x = Some s ∧ s ≠ "".
Proof.
  destruct x as [[|]|]; simpl; split; try done.
  - by intros [[= <-] ?].
  - by intros [= <-].
  - by intros [[= <-] ?].
  - by intros [? _].
Qed.

Definition code (c : ascii) : Z := Z.of_nat (Ascii.nat_of_ascii c).
Definition between (lo hi : Z) (c : ascii) : bool := (lo <=? code c) && (code c <=? hi).

Definition is_digit : ascii → bool := between 48 57.
Definition is_lower : ascii → bool := between 97 122.
Definition is_upper : ascii → bool := between 65 90.
(** [[0-9a-fA-F]] *)
Definition is_hex (c : ascii) : bool := is_digit c || between 97 102 c || between 65 70 c.

Fixpoint str_all (P : ascii → bool) (s : string) : bool :=
  match s with EmptyString => true | String c s => P c && str_all P s end.

Definition strlen (s : string) : Z := Z.of_nat (String.length s).

(** [s.startsWith(p)] *)
Fixpoint startsWith (p s : string) : bool :=
  match p, s with
  | EmptyString, _ => true
  | String a p, String b s => Ascii.eqb a b && startsWith p s
  | _, _ => false
  end.

(** [s.slice(n)] for [0 <= n] *)
Fixpoint str_drop (n : nat) (s : string) : string :=
  match n, s with
  | S n, String _ s => str_drop n s
  | _, _ => s
  end.

Definition lower_char (c : ascii) : ascii :=
  if is_upper c then Ascii.ascii_of_nat (Ascii.nat_of_ascii c + 32) else c.

(** [s.toLowerCase()] on ASCII *)
Fixpoint toLowerCase (s : string) : string :=
  match s with
  | EmptyString => EmptyString
  | String c s => String (lower_char c) (toLowerCase s)
  end.

Lemma lower_char_idem c : lower_char (lower_char c) = lower_char c.
Proof. by destruct c as [[] [] [] [] [] [] [] []]. Qed.

Lemma toLowerCase_idem s : toLowerCase (toLowerCase s) = toLowerCase s.
Proof. induction s as [|c s IH]; simpl; [done|]. by rewrite lower_char_idem, IH. Qed.

Lemma str_all_app P s1 s2 : str_all P (s1 +:+ s2) = str_all P s1 && str_all P s2.
Proof.
  induction s1 as [|c s1 IH]; [done|].
  change (String c s1 +:+ s2) with (String c (s1 +:+ s2)). simpl. rewrite IH.
  by destruct (P c).
Qed.

Lemma startsWith_app p s : startsWith p (p +:+ s) = true.
Proof.
  induction p as [|c p IH]; [done|].
  change (String c p +:+ s) with (String c (p +:+ s)). simpl. by rewrite Ascii.eqb_refl.
Qed.

Lemma str_drop_app p s : str_drop (String.length p) (p +:+ s) = s.
Proof.
  induction p as [|c p IH]; [done|].
  by change (String c p +:+ s) with (String c (p +:+ s)).
Qed.
