(* ===== verification/Bits.v ===== *)
(** * Bit masks: the lemmas behind [mask & (1 << i)], [m &= m - 1] and
    byte extraction. *)

From S2P Require Import Prelude.

(** [mask & (1 << i)] as a condition *)
Definition hasBit (mask : Z) (i : nat) : bool :=
  negb (Z.land mask (Z.shiftl 1 (Z.of_nat i)) =? 0).

Lemma hasBit_testbit mask i : hasBit mask i = Z.testbit mask (Z.of_nat i).
Proof.
  unfold hasBit. rewrite Z.shiftl_mul_pow2, Z.mul_1_l by lia.
  destruct (Z.testbit mask (Z.of_nat i)) eqn:E.
  - apply negb_true_iff, Z.eqb_neq. intros H.
    apply (f_equal (λ z, Z.testbit z (Z.of_nat i))) in H.
    rewrite Z.land_spec, E, Z.pow2_bits_true, Z.bits_0 in H by lia. done.
  - apply negb_false_iff, Z.eqb_eq, Z.bits_inj'. intros j Hj.
    rewrite Z.land_spec, Z.pow2_bits_eqb, Z.bits_0 by lia.
    destruct (Z.eqb_spec (Z.of_nat i) j) as [<-|]; [by rewrite E | by rewrite andb_false_r].
Qed.

(** The bits of a mask below a bound are all the mask has. *)
Lemma testbit_high a n i : 0 ≤ a < 2 ^ n → n ≤ i → Z.testbit a i = false.
Proof.
  intros Ha Hi. destruct (Z.eq_dec a 0) as [->|]; [apply Z.bits_0|].
  apply Z.bits_above_log2; [lia|]. enough (Z.log2 a < n) by lia.
  apply Z.log2_lt_pow2; lia.
Qed.

Lemma mask_ext a b (n : nat) :
  0 ≤ a < 2 ^ Z.of_nat n → 0 ≤ b < 2 ^ Z.of_nat n →
  (∀ i, (i < n)%nat → Z.testbit a (Z.of_nat i) = Z.testbit b (Z.of_nat i)) → a = b.
Proof.
  intros Ha Hb H. apply Z.bits_inj'. intros j Hj.
  destruct (Z.lt_ge_cases j (Z.of_nat n)).
  - rewrite <- (Z2Nat.id j) by lia. apply H. lia.
  - rewrite !(testbit_high _ (Z.of_nat n)); done.
Qed.

Lemma clearbit_lt a i : 0 ≤ a → 0 ≤ i → Z.testbit a i = true → 0 ≤ Z.clearbit a i < a.
Proof.
  intros Ha Hi Hb. rewrite Z.clearbit_spec'.
  assert (a - 2 ^ i = Z.ldiff a (2 ^ i)) as <-.
  { apply Z.sub_nocarry_ldiff. apply Z.bits_inj'. intros j Hj.
    rewrite Z.ldiff_spec, Z.pow2_bits_eqb, Z.bits_0 by lia.
    destruct (Z.eqb_spec i j) as [<-|]; [by rewrite Hb | done]. }
  assert (0 < 2 ^ i) by (apply Z.pow_pos_nonneg; lia).
  enough (2 ^ i ≤ a) by lia.
  destruct (Z.lt_ge_cases a (2 ^ i)); [|done].
  by rewrite (testbit_high a i i) in Hb by lia.
Qed.

(** The mask whose bits are the given booleans, lowest first. *)
Fixpoint mask_of (bs : list bool) : Z :=
  match bs with [] => 0 | b :: bs => Z.b2z b + 2 * mask_of bs end.

Lemma mask_of_bound bs : 0 ≤ mask_of bs < 2 ^ Z.of_nat (length bs).
Proof.
  induction bs as [|b bs IH]; simpl length; cbn [mask_of]; [lia|].
  rewrite Nat2Z.inj_succ, Z.pow_succ_r by lia. destruct b; simpl Z.b2z; lia.
Qed.

Lemma mask_of_testbit bs i :
  Z.testbit (mask_of bs) (Z.of_nat i) = default false (bs !! i).
Proof.
  revert i. induction bs as [|b bs IH]; intros i; cbn [mask_of]; [apply Z.bits_0|].
  destruct i as [|i].
  - by rewrite Z.add_b2z_double_bit0.
  - rewrite Nat2Z.inj_succ, <- Z.div2_bits by lia.
    by rewrite Z.add_b2z_double_div2, IH.
Qed.

(** Number of one bits among the lowest [n]. *)
Fixpoint bit_count (n : nat) (a : Z) : Z :=
  match n with O => 0 | S n => Z.b2z (Z.odd a) + bit_count n (Z.div2 a) end.

Lemma bit_count_0 n : bit_count n 0 = 0.
Proof. induction n; simpl; lia. Qed.

Lemma bit_count_nonneg n a : 0 ≤ bit_count n a ≤ Z.of_nat n.
Proof.
  revert a. induction n as [|n IH]; intros a; cbn [bit_count]; [lia|].
  specialize (IH (Z.div2 a)). destruct (Z.odd a); simpl Z.b2z; lia.
Qed.

Lemma bit_count_pos n a : 0 < a < 2 ^ Z.of_nat n → 0 < bit_count n a.
Proof.
  revert a. induction n as [|n IH]; intros a Ha; cbn [bit_count]; [simpl in Ha; lia|].
  rewrite Nat2Z.inj_succ, Z.pow_succ_r in Ha by lia.
  pose proof (bit_count_nonneg n (Z.div2 a)) as Hn.
  pose proof (Z.div2_odd a) as Hodd.
  destruct (Z.odd a); simpl Z.b2z in *; [lia|]. enough (0 < bit_count n (Z.div2 a)) by lia.
  apply IH. lia.
Qed.

Lemma land_pred_odd q : Z.land (2 * q + 1) (2 * q + 1 - 1) = 2 * q.
Proof.
  replace (2 * q + 1 - 1) with (2 * q) by lia. apply Z.bits_inj'. intros j Hj.
  rewrite Z.land_spec. destruct (Z.eq_dec j 0) as [->|].
  - by rewrite Z.testbit_even_0, andb_false_r.
  - replace j with (Z.succ (j - 1)) by lia.
    rewrite Z.testbit_odd_succ, Z.testbit_even_succ by lia. apply andb_diag.
Qed.

Lemma land_pred_even q : Z.land (2 * q) (2 * q - 1) = 2 * Z.land q (q - 1).
Proof.
  replace (2 * q - 1) with (2 * (q - 1) + 1) by lia. apply Z.bits_inj'. intros j Hj.
  rewrite Z.land_spec. destruct (Z.eq_dec j 0) as [->|].
  - by rewrite !Z.testbit_even_0.
  - replace j with (Z.succ (j - 1)) by lia.
    by rewrite Z.testbit_odd_succ, !Z.testbit_even_succ, Z.land_spec by lia.
Qed.

(** [m & (m - 1)] is a smaller mask with exactly one bit fewer. *)
Lemma land_pred_range a : 0 < a → 0 ≤ Z.land a (a - 1) < a.
Proof.
  intros Ha. split; [apply Z.land_nonneg; lia|].
  enough (Z.land a (a - 1) ≤ a - 1) by lia.
  rewrite Z.land_comm. pose proof (Z.sub_land_same_l (a - 1) a).
  enough (0 ≤ Z.land (a - 1) (Z.lnot a)) by lia. apply Z.land_nonneg. lia.
Qed.

Lemma div2_double q : Z.div2 (2 * q) = q.
Proof. rewrite Z.div2_div, Z.mul_comm. apply Z.div_mul. done. Qed.

Lemma bit_count_land_pred n a :
  0 < a < 2 ^ Z.of_nat n → bit_count n (Z.land a (a - 1)) = bit_count n a - 1.
Proof.
  revert a. induction n as [|n IH]; intros a Ha; [simpl in Ha; lia|].
  rewrite Nat2Z.inj_succ, Z.pow_succ_r in Ha by lia.
  pose proof (Z.div2_odd a) as Hodd. cbn [bit_count].
  set (q := Z.div2 a) in *. destruct (Z.odd a); simpl Z.b2z in *.
  - assert (Z.land a (a - 1) = 2 * q) as -> by (rewrite Hodd; apply land_pred_odd).
    rewrite Z.odd_mul, div2_double. simpl. lia.
  - assert (Z.land a (a - 1) = 2 * Z.land q (q - 1)) as ->.
    { rewrite Hodd, Z.add_0_r. apply land_pred_even. }
    rewrite Z.odd_mul, div2_double. simpl. rewrite IH by lia. lia.
Qed.

Lemma bit_count_mask_of bs :
  bit_count (length bs) (mask_of bs) = Z.of_nat (length (filter (λ b, b = true) bs)).
Proof.
  induction bs as [|b bs IH]; [done|]. cbn [length bit_count mask_of].
  rewrite Z.div2_div, Z.add_b2z_double_div2, IH, filter_cons, Z.odd_add_mul_2. destruct b; simpl; lia.
Qed.

#[export] Hint Rewrite hasBit_testbit mask_of_testbit : bufi.
