(* ===== verification/Decimal.v ===== *)
(** * Decimal text

    [toString] of an integer ([pretty]) and the value of a run of digits, with
    the lemmas that make entity ids, amounts and canonical decimals readable
    back. *)

From S2P Require Import Prelude.
From S2P Require Import Js.

(** Value of a run of digits, read left to right. *)
Fixpoint dec_value_from (acc : Z) (s : string) : Z :=
  match s with
  | EmptyString => acc
  | String c s => dec_value_from (acc * 10 + (code c - 48)) s
  end.
Definition dec_value (s : string) : Z := dec_value_from 0 s.

Lemma string_app_cons c s1 s2 : String c s1 +:+ s2 = String c (s1 +:+ s2).
Proof. done. Qed.

Lemma string_app_nil_r s : s +:+ "" = s.
Proof. induction s as [|c s IH]; [done|]. by rewrite string_app_cons, IH. Qed.

Lemma string_app_assoc s1 s2 s3 : (s1 +:+ s2) +:+ s3 = s1 +:+ (s2 +:+ s3).
Proof. induction s1 as [|c s1 IH]; [done|]. by rewrite !string_app_cons, IH. Qed.

Lemma string_length_app s1 s2 :
  String.length (s1 +:+ s2) = (String.length s1 + String.length s2)%nat.
Proof. induction s1 as [|c s1 IH]; [done|]. rewrite string_app_cons. simpl. by rewrite IH. Qed.

Lemma strlen_app s1 s2 : strlen (s1 +:+ s2) = strlen s1 + strlen s2.
Proof. unfold strlen. rewrite string_length_app. lia. Qed.

Lemma strlen_nonneg s : 0 ≤ strlen s.
Proof. unfold strlen. lia. Qed.

#[export] Hint Rewrite string_app_cons string_app_assoc string_app_nil_r strlen_app : bufi.

Lemma dec_value_app acc s1 s2 :
  dec_value_from acc (s1 +:+ s2) = dec_value_from (dec_value_from acc s1) s2.
Proof.
  revert acc. induction s1 as [|c s1 IH]; intros acc; [done|].
  rewrite string_app_cons. apply IH.
Qed.

Lemma dec_value_shift acc s :
  dec_value_from acc s = acc * 10 ^ strlen s + dec_value s.
Proof.
  unfold dec_value. revert acc. enough (∀ a b, dec_value_from (a + b) s
    = a * 10 ^ strlen s + dec_value_from b s) as H by (intros; by rewrite <- H, Z.add_0_r).
  unfold strlen. induction s as [|c s IH]; intros a b; cbn [dec_value_from String.length].
  - simpl. lia.
  - replace ((a + b) * 10 + (code c - 48)) with (a * 10 + (b * 10 + (code c - 48))) by lia.
    rewrite IH, Nat2Z.inj_succ, Z.pow_succ_r by lia. lia.
Qed.

Lemma digit_range c : is_digit c = true → 48 ≤ code c ≤ 57.
Proof. unfold is_digit, between. rewrite andb_true_iff. zify_bool. done. Qed.

Lemma dec_value_bound s : str_all is_digit s = true → 0 ≤ dec_value s < 10 ^ strlen s.
Proof.
  unfold strlen. induction s as [|c s IH]; cbn [str_all String.length]; [cbn; lia|].
  rewrite andb_true_iff. intros [Hc Hs]. apply digit_range in Hc. specialize (IH Hs).
  unfold dec_value. cbn [dec_value_from]. rewrite dec_value_shift.
  rewrite Nat2Z.inj_succ, Z.pow_succ_r by lia. unfold strlen. nia.
Qed.

(** ** [toString] of a natural number: digits, the right value, no leading zero *)

Definition leading_zero (s : string) : bool :=
  match s with String c (String _ _) => Ascii.eqb c "0"%char | _ => false end.

Record decimal_of (s : string) (x : Z) : Prop := {
  do_digits : str_all is_digit s = true;
  do_value : dec_value s = x;
  do_nonempty : s ≠ "";
  do_canonical : leading_zero s = false
}.

Lemma pretty_N_char_digit x :
  (x < 10)%N → is_digit (pretty_N_char x) = true ∧ code (pretty_N_char x) - 48 = Z.of_N x.
Proof.
  intros Hx. assert (x = 0 ∨ x = 1 ∨ x = 2 ∨ x = 3 ∨ x = 4 ∨ x = 5 ∨ x = 6 ∨ x = 7
    ∨ x = 8 ∨ x = 9)%N as H by lia.
  by destruct H as [->|[->|[->|[->|[->|[->|[->|[->|[->| ->]]]]]]]]].
Qed.

Lemma pretty_N_go_spec x s :
  (0 < x)%N → ∃ c p, pretty_N_go x s = String c p +:+ s ∧
    str_all is_digit (String c p) = true ∧ dec_value (String c p) = Z.of_N x ∧ c ≠ "0"%char.
Proof.
  revert s. induction (N.lt_wf_0 x) as [x _ IH]. intros s Hx.
  rewrite pretty_N_go_step by done.
  pose proof (N.mod_lt x 10 ltac:(done)) as Hm.
  destruct (pretty_N_char_digit (x mod 10)%N Hm) as [Hd Hv].
  set (d := pretty_N_char (x mod 10)%N) in *.
  assert (x = 10 * (x / 10) + x mod 10)%N as Hdm by (apply N.div_mod; done).
  destruct (N.eq_dec (x / 10) 0) as [E|Hq].
  - rewrite E, pretty_N_go_0. exists d, "". rewrite string_app_cons.
    split_and!; [done | simpl; by rewrite Hd | cbn; lia |].
    intros Hd0. assert (code d = 48) by by rewrite Hd0. lia.
  - destruct (IH (x / 10)%N) with (s := String d s) as (c & p & E & Hall & Hval & Hne);
      [apply N.div_lt; lia | lia |].
    exists c, (p +:+ String d ""). rewrite E. split_and!; [| | |done].
    + rewrite !string_app_cons, string_app_assoc. done.
    + simpl in *. rewrite str_all_app. simpl. rewrite Hd, andb_true_r. done.
    + unfold dec_value in *. rewrite <- string_app_cons, dec_value_app, Hval. cbn. lia.
Qed.

Lemma pretty_N_decimal (x : N) : decimal_of (pretty x) (Z.of_N x).
Proof.
  unfold pretty, pretty_N. case_decide as Hx; [by subst; split|].
  destruct (pretty_N_go_spec x "") as (c & p & E & Hall & Hval & Hne); [lia|].
  rewrite E, string_app_nil_r. split; [done..|]. simpl. destruct p; [done|].
  by apply Ascii.eqb_neq.
Qed.

Lemma pretty_Z_decimal (x : Z) : 0 ≤ x → decimal_of (pretty x) x.
Proof.
  intros Hx. destruct x as [|p|p]; [by split | apply (pretty_N_decimal (N.pos p)) | lia].
Qed.

Lemma dec_value_pretty (x : Z) : 0 ≤ x → dec_value (pretty x) = x.
Proof. intros Hx. apply (pretty_Z_decimal x Hx). Qed.

Lemma pretty_digits (x : Z) : 0 ≤ x → str_all is_digit (pretty x) = true.
Proof. intros Hx. apply (pretty_Z_decimal x Hx). Qed.

Lemma pretty_nonempty (x : Z) : pretty x ≠ "".
Proof.
  destruct (Z.le_gt_cases 0 x) as [Hx|Hx]; [apply (pretty_Z_decimal x Hx)|].
  by destruct x; try lia.
Qed.

Lemma pretty_neg (x : Z) : x < 0 → pretty x = "-" +:+ pretty (- x).
Proof. by destruct x. Qed.

(** A decimal text without superfluous zeros is determined by its value. *)
Lemma dec_value_inj s s' :
  String.length s = String.length s' → str_all is_digit s = true →
  str_all is_digit s' = true → dec_value s = dec_value s' → s = s'.
Proof.
  revert s'. induction s as [|c s IH]; intros [|c' s'] Hl; try done.
  cbn [str_all]. rewrite !andb_true_iff. intros [Hc Hs] [Hc' Hs'].
  unfold dec_value. cbn [dec_value_from]. rewrite !(dec_value_shift (0 * 10 + _)).
  injection Hl as Hl. pose proof (dec_value_bound s Hs) as Hb.
  pose proof (dec_value_bound s' Hs') as Hb'. unfold strlen in *. rewrite <- Hl in *.
  intros E. assert (code c = code c') as Ec by nia.
  f_equal; [|apply IH; try done; nia].
  unfold code in Ec. apply Nat2Z.inj in Ec.
  rewrite <- (Ascii.ascii_nat_embedding c), <- (Ascii.ascii_nat_embedding c'). congruence.
Qed.

Lemma dec_value_lower c s :
  str_all is_digit (String c s) = true → leading_zero (String c s) = false →
  s ≠ "" → 10 ^ strlen s ≤ dec_value (String c s).
Proof.
  cbn [str_all]. rewrite andb_true_iff. intros [Hc Hs] Hz Hne. apply digit_range in Hc.
  assert (code c ≠ 48) as Hc0.
  { intros E. destruct s; [done|]. cbn in Hz. apply Ascii.eqb_neq in Hz. destruct Hz.
    rewrite <- (Ascii.ascii_nat_embedding c). unfold code in E.
    by replace (Ascii.nat_of_ascii c) with 48%nat by lia. }
  unfold dec_value. cbn [dec_value_from]. rewrite dec_value_shift.
  pose proof (dec_value_bound s Hs). nia.
Qed.

Lemma decimal_length_le s s' x :
  decimal_of s x → decimal_of s' x → (String.length s ≤ String.length s')%nat.
Proof.
  intros [Hd Hv Hne Hc] [Hd' Hv' Hne' Hc'].
  destruct s as [|c [|c1 s]]; [done | destruct s'; [done | simpl; lia] |].
  pose proof (dec_value_lower c (String c1 s) Hd Hc ltac:(done)) as Hl.
  pose proof (dec_value_bound s' Hd') as Hb. unfold strlen in *.
  assert (10 ^ Z.of_nat (String.length (String c1 s)) < 10 ^ Z.of_nat (String.length s')) as H
    by lia.
  apply Z.pow_lt_mono_r_iff in H; [|lia..]. simpl in *. lia.
Qed.

Lemma decimal_of_unique s x : decimal_of s x → s = pretty x.
Proof.
  intros H. assert (0 ≤ x) as Hx by (destruct H as [Hd <- _ _]; by apply dec_value_bound).
  pose proof (pretty_Z_decimal x Hx) as H'.
  pose proof (decimal_length_le _ _ _ H H'). pose proof (decimal_length_le _ _ _ H' H).
  destruct H, H'. apply dec_value_inj; [lia|done..|congruence].
Qed.

(** ** Padding and trimming zeros *)

Fixpoint zeros (n : nat) : string :=
  match n with O => "" | S n => String "0" (zeros n) end.

(** [s.padStart(n, '0')] *)
Definition padStart0 (n : Z) (s : string) : string :=
  zeros (Z.to_nat (n - strlen s)) +:+ s.

(** [s.replace(/0+$/, '')] *)
Fixpoint trimZeros (s : string) : string :=
  match s with
  | EmptyString => ""
  | String c s =>
      match trimZeros s with
      | EmptyString => if Ascii.eqb c "0" then "" else String c ""
      | r => String c r
      end
  end.

Lemma strlen_zeros n : strlen (zeros n) = Z.of_nat n.
Proof. unfold strlen. induction n; simpl; lia. Qed.

Lemma zeros_digits n : str_all is_digit (zeros n) = true.
Proof. induction n; [done|]. simpl. by rewrite IHn. Qed.

Lemma dec_value_zeros acc n : dec_value_from acc (zeros n) = acc * 10 ^ Z.of_nat n.
Proof.
  revert acc. induction n as [|n IH]; intros acc; cbn [zeros dec_value_from]; [simpl; lia|].
  rewrite IH, Nat2Z.inj_succ, Z.pow_succ_r by lia. change (code "0") with 48. lia.
Qed.

Lemma padStart0_spec n x :
  0 ≤ x < 10 ^ n → 0 < n →
  str_all is_digit (padStart0 n (pretty x)) = true ∧
  dec_value (padStart0 n (pretty x)) = x ∧ strlen (padStart0 n (pretty x)) = n.
Proof.
  intros Hx Hn. unfold padStart0. destruct (pretty_Z_decimal x) as [Hd Hv Hne Hc]; [lia|].
  split_and!.
  - by rewrite str_all_app, zeros_digits, Hd.
  - unfold dec_value in *. rewrite dec_value_app, dec_value_zeros. by rewrite Z.mul_0_l.
  - rewrite strlen_app, strlen_zeros. assert (strlen (pretty x) ≤ n); [|lia].
    destruct (pretty x) as [|c s]; [done|]. destruct (decide (s = "")) as [->|Hs].
    { unfold strlen. simpl. lia. }
    pose proof (dec_value_lower c s Hd Hc Hs) as Hl.
    assert (10 ^ strlen s < 10 ^ n) as H by lia.
    pose proof (strlen_nonneg s). apply Z.pow_lt_mono_r_iff in H; [|lia..].
    unfold strlen in *. cbn [String.length]. lia.
Qed.

(** Trimming drops only zeros at the end, all of them. *)
Lemma trimZeros_spec s :
  ∃ k, s = trimZeros s +:+ zeros k ∧ ∀ p, trimZeros s ≠ p +:+ "0".
Proof.
  induction s as [|c s (k & E & Hl)]; simpl; [exists O; split; [done|]; by intros []|].
  destruct (trimZeros s) as [|c' r] eqn:Et.
  - destruct (Ascii.eqb_spec c "0") as [->|Hc].
    + exists (S k). split; [|by intros []]. rewrite E. done.
    + exists k. rewrite E at 1. split; [done|]. intros [|a [|b p]] Hp; [|done|done].
      injection Hp as ->. done.
  - exists k. rewrite E at 1. split; [done|]. intros [|a p] Hp; [done|].
    rewrite string_app_cons in Hp. injection Hp as -> Hp. by apply (Hl p).
Qed.

(** ** Signed decimals *)

(** The integer of a decimal text, with an optional minus sign. *)
Definition parseZ (s : string) : Z :=
  match s with
  | String c r => if Ascii.eqb c "-" then - dec_value r else dec_value s
  | EmptyString => 0
  end.

Lemma parseZ_pretty (z : Z) : parseZ (pretty z) = z.
Proof.
  destruct (Z.lt_ge_cases z 0) as [Hz|Hz].
  - rewrite pretty_neg by done.
    change ("-" +:+ pretty (- z)) with (String "-" (pretty (- z))).
    change (parseZ (String "-" (pretty (- z)))) with (- dec_value (pretty (- z))).
    rewrite dec_value_pretty; lia.
  - destruct (pretty_Z_decimal z Hz) as [Hd Hv Hne _]. unfold parseZ.
    destruct (pretty z) as [|c r]; [done|]. destruct (Ascii.eqb_spec c "-") as [->|]; done.
Qed.

Lemma pretty_Z_inj (x y : Z) : pretty x = pretty y → x = y.
Proof. intros H. by rewrite <- (parseZ_pretty x), <- (parseZ_pretty y), H. Qed.

Lemma string_app_inj s1 t1 s2 t2 :
  String.length t1 = String.length t2 → s1 +:+ t1 = s2 +:+ t2 → s1 = s2 ∧ t1 = t2.
Proof.
  revert s2. induction s1 as [|c s1 IH]; intros [|d s2] Hl E.
  - done.
  - apply (f_equal String.length) in E. rewrite !string_length_app in E. simpl in E. lia.
  - apply (f_equal String.length) in E. rewrite !string_length_app in E. simpl in E. lia.
  - rewrite !string_app_cons in E. injection E as -> E. by destruct (IH s2 Hl E) as [-> ->].
Qed.
