(* ===== verification/Coalitions.v ===== *)
(** * Minimal winning coalitions of a weighted threshold

    Models [packages/weighted-treasury/src/coalitions.ts]. Subsets of the
    owners are bit masks of an [int32] in the code; [n <= 20] is checked before
    any mask is built, so a mask and [1 << n] stay below [2 ^ 20] and no
    bit operation wraps. *)

From S2P Require Import Prelude.
From S2P Require Import Js.
From S2P Require Import Bits.

Record WeightedMember := { member_id : string; member_weight : Z }.

(** Hard ceiling on owners for enumeration: [2^n] subsets are walked. *)
Definition MAX_ENUMERABLE_OWNERS : Z := 20.

(** The reference rule both backends must match. *)
Definition isWinning (members : list WeightedMember) (thresholdWeight : Z)
    (ids : gset string) : bool :=
  let sum := foldl (λ sum member,
    if decide (member_id member ∈ ids) then sum + member_weight member else sum) 0 members in
  thresholdWeight <=? sum.

(** [for (let i = 0; i < n; i++) if (mask & (1 << i)) sum += members[i].weight] *)
Fixpoint weightOf_loop (members : list WeightedMember) (i : nat) (mask sum : Z) : Z :=
  match members with
  | [] => sum
  | m :: members =>
      weightOf_loop members (S i) mask (if hasBit mask i then sum + member_weight m else sum)
  end.

Definition weightOf (members : list WeightedMember) (mask : Z) : Z :=
  weightOf_loop members 0 mask 0.

(** [for (i = 0; i < n && minimal; i++) if (mask & (1 << i) && sum - w_i >= t) minimal = false] *)
Fixpoint minimal_loop (members : list WeightedMember) (i : nat) (mask sum t : Z)
    (minimal : bool) : bool :=
  match members with
  | [] => minimal
  | m :: members =>
      if minimal then
        minimal_loop members (S i) mask sum t
          (if hasBit mask i && (t <=? sum - member_weight m) then false else minimal)
      else minimal
  end.

(** The body of the loop over the masks: whether the mask is pushed. *)
Definition isMinimalWinning (members : list WeightedMember) (t mask : Z) : bool :=
  let sum := weightOf members mask in
  if sum <? t then false else minimal_loop members 0 mask sum t true.

(** [for (let m = mask; m; m &= m - 1) c++]; each turn clears one bit of an
    [int32], so 32 turns are enough (see [popcount_bits]). *)
Fixpoint popcount_loop (fuel : nat) (m c : Z) : Z :=
  match fuel with
  | O => c
  | S fuel => if m =? 0 then c else popcount_loop fuel (Z.land m (m - 1)) (c + 1)
  end.

Definition popcount (mask : Z) : Z := popcount_loop 32 mask 0.

(** Lexical order on member positions, from position [i] with [k] left. *)
Fixpoint lowBitOrder_loop (k : nat) (i a b : Z) : Z :=
  match k with
  | O => 0
  | S k =>
      let inA := Z.land (Z.shiftr a i) 1 in
      let inB := Z.land (Z.shiftr b i) 1 in
      if inA =? inB then lowBitOrder_loop k (i + 1) a b else inB - inA
  end.

Definition lowBitOrder (a b : Z) (n : nat) : Z := lowBitOrder_loop n 0 a b.

(** [popcount(a) - popcount(b) || lowBitOrder(a, b, n)] *)
Definition maskOrder (n : nat) (a b : Z) : Z :=
  let d := popcount a - popcount b in if d =? 0 then lowBitOrder a b n else d.

(** [members.filter((_, i) => mask & (1 << i)).map((m) => m.id)] *)
Definition coalitionOf (members : list WeightedMember) (mask : Z) : list string :=
  member_id <$> filter_i (hasBit mask) 0 members.

(** The masks pushed by the loop over [1 .. total - 1]. *)
Definition winningMasks (members : list WeightedMember) (t : Z) : list Z :=
  let total := Z.shiftl 1 (Z.of_nat (length members)) in
  filter (λ mask, isMinimalWinning members t mask = true) (seqZ 1 (total - 1)).

(** Every minimal winning coalition, each as member ids in input order. *)
Definition minimalWinningCoalitions (members : list WeightedMember)
    (thresholdWeight : Z) : result js_error (list (list string)) :=
  let n := length members in
  if MAX_ENUMERABLE_OWNERS <? Z.of_nat n then
    Throw (RangeError ("cannot enumerate coalitions for " +:+ pretty (Z.of_nat n)
      +:+ " owners (max " +:+ pretty MAX_ENUMERABLE_OWNERS +:+ ")"))
  else
    Ok (coalitionOf members <$> js_sort (maskOrder n) (winningMasks members thresholdWeight)).

Example coalitions_3_2_2_1 :
  minimalWinningCoalitions
    [{| member_id := "a"; member_weight := 3 |}; {| member_id := "b"; member_weight := 2 |};
     {| member_id := "c"; member_weight := 2 |}; {| member_id := "d"; member_weight := 1 |}] 5
  = Ok [["a"; "b"]; ["a"; "c"]; ["b"; "c"; "d"]].
Proof. vm_compute. reflexivity. Qed.

(** ** Weight of a selection of positions *)

(** Total weight of the members at the positions [P] selects. *)
Definition weight_sum (members : list WeightedMember) : Z :=
  sumZ (member_weight <$> members).

Lemma weight_sum_cons m members :
  weight_sum (m :: members) = member_weight m + weight_sum members.
Proof. done. Qed.

Lemma weightOf_loop_eq members i mask sum :
  weightOf_loop members i mask sum
  = sum + weight_sum (filter_i (hasBit mask) i members).
Proof.
  revert i sum. induction members as [|m members IH]; intros i sum; simpl.
  - change (weight_sum []) with 0. lia.
  - rewrite IH. destruct (hasBit mask i); rewrite ?weight_sum_cons; lia.
Qed.

Lemma weightOf_eq members mask :
  weightOf members mask = weight_sum (filter_i (hasBit mask) 0 members).
Proof. unfold weightOf. rewrite weightOf_loop_eq. lia. Qed.

Lemma isWinning_eq members t ids :
  isWinning members t ids
  = (t <=? weight_sum (filter (λ m, member_id m ∈ ids) members)).
Proof. unfold isWinning, weight_sum. by rewrite foldl_sum. Qed.

(** Selecting positions and selecting ids agree when the predicates do. *)
Lemma filter_i_filter (P : nat → bool) (ids : gset string) members i :
  (∀ j m, members !! j = Some m → P (i + j)%nat = bool_decide (member_id m ∈ ids)) →
  filter_i P i members = filter (λ m, member_id m ∈ ids) members.
Proof.
  revert i. induction members as [|m members IH]; intros i H; [done|].
  assert (filter_i P (S i) members = filter (λ m, member_id m ∈ ids) members) as E.
  { apply IH. intros j m' Hj. rewrite <- (H (S j) m' Hj). f_equal. lia. }
  specialize (H O m eq_refl). rewrite Nat.add_0_r in H.
  simpl. rewrite H, filter_cons, E. by case_bool_decide; case_decide.
Qed.

(** Dropping one selected position drops its weight. *)
Lemma weight_sum_drop (P Q : nat → bool) members i j m :
  members !! j = Some m → P (i + j)%nat = true →
  (∀ k, Q k = P k && negb (Nat.eqb k (i + j))) →
  weight_sum (filter_i Q i members) = weight_sum (filter_i P i members) - member_weight m.
Proof.
  revert i j. induction members as [|x members IH]; intros i j Hj HP HQ; [done|].
  destruct j as [|j]; simpl in Hj.
  - injection Hj as ->. rewrite Nat.add_0_r in *. simpl. rewrite HP, HQ, HP, Nat.eqb_refl.
    simpl. rewrite (filter_i_ext Q P); [rewrite weight_sum_cons; lia|].
    intros k Hk. rewrite HQ. replace (Nat.eqb k i) with false; [apply andb_true_r|].
    symmetry. apply Nat.eqb_neq. lia.
  - simpl. assert (Q i = P i) as ->.
    { rewrite HQ. replace (Nat.eqb i _) with false; [apply andb_true_r|].
      symmetry. apply Nat.eqb_neq. lia. }
    assert (weight_sum (filter_i Q (S i) members)
      = weight_sum (filter_i P (S i) members) - member_weight m) as E.
    { apply (IH (S i) j); [done | by rewrite Nat.add_succ_l, <- Nat.add_succ_r|].
      intros k. by rewrite HQ, Nat.add_succ_l, <- Nat.add_succ_r. }
    destruct (P i); [|done]. rewrite !weight_sum_cons. lia.
Qed.

Lemma weightOf_clear members mask j m :
  members !! j = Some m → hasBit mask j = true →
  weightOf members (Z.clearbit mask (Z.of_nat j)) = weightOf members mask - member_weight m.
Proof.
  intros Hj Hb. rewrite !weightOf_eq. apply (weight_sum_drop _ _ _ 0 j); [done..|].
  intros k. rewrite !hasBit_testbit, Z.clearbit_eqb. do 2 f_equal.
  apply eq_iff_eq_true. rewrite Nat.eqb_eq, Z.eqb_eq. lia.
Qed.

(** ** The minimality loop and the pushed masks *)

Lemma minimal_loop_spec members i mask sum t :
  minimal_loop members i mask sum t true = true ↔
  ∀ j m, members !! j = Some m → hasBit mask (i + j) = true → sum - member_weight m < t.
Proof.
  revert i. induction members as [|m members IH]; intros i; simpl; [done|].
  assert (∀ j m', (m :: members) !! S j = Some m' → hasBit mask (i + S j) = true →
    members !! j = Some m' ∧ hasBit mask (S i + j) = true) as HS.
  { intros j m' Hl Hb. by rewrite Nat.add_succ_r in Hb. }
  destruct (hasBit mask i && (t <=? sum - member_weight m)) eqn:E.
  - assert (minimal_loop members (S i) mask sum t false = false) as -> by by destruct members.
    apply andb_true_iff in E as [Hb Ht]. zify_bool. split; [done|]. intros H.
    specialize (H O m eq_refl). rewrite Nat.add_0_r in H. specialize (H Hb). lia.
  - rewrite IH. split.
    + intros H [|j] m' Hl Hb; [|by destruct (HS j m' Hl Hb); eapply (H j)].
      rewrite Nat.add_0_r in Hb. simpl in Hl. injection Hl as <-.
      rewrite Hb in E. simpl in E. zify_bool. lia.
    + intros H j m' Hl Hb. eapply (H (S j)); [done|]. by rewrite Nat.add_succ_r.
Qed.

(** A winning mask that stops winning when any one member leaves. *)
Definition minimal_mask (members : list WeightedMember) (t mask : Z) : Prop :=
  t ≤ weightOf members mask ∧
  ∀ j m, members !! j = Some m → hasBit mask j = true →
    weightOf members (Z.clearbit mask (Z.of_nat j)) < t.

Lemma isMinimalWinning_spec members t mask :
  isMinimalWinning members t mask = true ↔ minimal_mask members t mask.
Proof.
  unfold isMinimalWinning, minimal_mask.
  assert (weightOf members mask <? t = false ↔ t ≤ weightOf members mask) as Hlt
    by (zify_bool; lia).
  destruct (weightOf members mask <? t); [split; [done | by intros [?%Hlt _]]|].
  rewrite minimal_loop_spec. split.
  - intros H. split; [by apply Hlt|]. intros j m Hj Hb.
    rewrite (weightOf_clear _ _ _ m) by done. eauto.
  - intros [_ H] j m Hj Hb. rewrite <- (weightOf_clear _ _ j) by done. eauto.
Qed.

Lemma weightOf_0 members : weightOf members 0 = 0.
Proof.
  rewrite weightOf_eq. generalize O. induction members as [|m members IH]; intros i; [done|].
  cbn [filter_i]. rewrite hasBit_testbit, Z.bits_0. apply IH.
Qed.

Lemma winningMasks_spec members t mask :
  1 ≤ t →
  mask ∈ winningMasks members t ↔
  0 ≤ mask < 2 ^ Z.of_nat (length members) ∧ minimal_mask members t mask.
Proof.
  intros Ht. unfold winningMasks. rewrite Z.shiftl_mul_pow2, Z.mul_1_l by lia.
  rewrite list_elem_of_filter, elem_of_seqZ, isMinimalWinning_spec.
  split; [intros [? ?]; split; [lia | done]|]. intros [? Hm]. split; [done|].
  destruct (Z.eq_dec mask 0) as [->|]; [|lia].
  destruct Hm as [Hm _]. rewrite weightOf_0 in Hm. lia.
Qed.

Lemma winningMasks_nodup members t : NoDup (winningMasks members t).
Proof. unfold winningMasks. apply NoDup_filter, NoDup_seqZ. Qed.

(** Every winning mask contains a minimal winning mask. *)
Lemma minimal_submask members t mask :
  0 ≤ mask → t ≤ weightOf members mask →
  ∃ mask', 0 ≤ mask' ≤ mask ∧ minimal_mask members t mask' ∧
    ∀ i, hasBit mask' i = true → hasBit mask i = true.
Proof.
  intros Hm. pattern mask. apply Zlt_0_ind; [|done]. clear mask Hm.
  intros mask IH Hm Hw.
  destruct (minimal_loop members 0 mask (weightOf members mask) t true) eqn:E.
  - exists mask. split_and!; [lia | lia | | done]. apply isMinimalWinning_spec.
    unfold isMinimalWinning. replace (_ <? t) with false by (symmetry; zify_bool; lia). done.
  - assert (∃ j m, members !! j = Some m ∧ hasBit mask j = true ∧
      t ≤ weightOf members mask - member_weight m) as (j & m & Hj & Hb & Hle).
    { destruct (decide (Exists (λ jm, hasBit mask jm.1 = true ∧
        t ≤ weightOf members mask - member_weight jm.2) (imap pair members))) as [H|H].
      - apply Exists_exists in H as ([j m] & Hin & ? & ?).
        apply elem_of_lookup_imap in Hin as (? & ? & [= -> ->] & ?). eauto.
      - apply not_true_iff_false in E. destruct E. apply minimal_loop_spec.
        intros j m Hj Hb. apply Z.nle_gt. intros Hle. apply H, Exists_exists.
        exists (j, m). split; [|done]. apply elem_of_lookup_imap. eauto. }
    pose proof Hb as Hb'. rewrite hasBit_testbit in Hb'.
    destruct (clearbit_lt mask (Z.of_nat j)) as [??]; [lia..|done|].
    destruct (IH (Z.clearbit mask (Z.of_nat j))) as (mask' & ? & ? & Hsub);
      [lia | by rewrite (weightOf_clear _ _ _ m) |].
    exists mask'. split_and!; [lia | lia | done |]. intros i Hi. specialize (Hsub i Hi).
    rewrite hasBit_testbit in *. rewrite Z.clearbit_eqb in Hsub.
    by apply andb_true_iff in Hsub as [??].
Qed.

(** ** Masks and sets of ids *)

Section ids.
  Context (members : list WeightedMember) (t : Z).
  Context (Hnodup : NoDup (member_id <$> members)).

Lemma member_id_inj i j m m' :
    members !! i = Some m → members !! j = Some m' → member_id m = member_id m' → i = j.
Proof.
    intros Hi Hj He. eapply NoDup_lookup; [exact Hnodup| |]; rewrite list_lookup_fmap.
    - rewrite Hi. done.
    - rewrite Hj. simpl. by rewrite He.
Qed.

Lemma coalition_elem mask j m :
    members !! j = Some m → member_id m ∈ coalitionOf members mask ↔ hasBit mask j = true.
Proof.
    intros Hj. unfold coalitionOf. rewrite list_elem_of_fmap. split.
    - intros (m' & He & (j' & Hj' & Hb)%filter_i_elem).
      by rewrite (member_id_inj j j' m m').
    - intros Hb. exists m. split; [done|]. apply filter_i_elem. eauto.
Qed.

Lemma isWinning_coalition mask :
    isWinning members t (list_to_set (coalitionOf members mask))
    = (t <=? weightOf members mask).
Proof.
    rewrite isWinning_eq, weightOf_eq. do 2 f_equal. symmetry. apply filter_i_filter.
    intros j m Hj. apply eq_iff_eq_true. rewrite bool_decide_eq_true.
    by rewrite elem_of_list_to_set, (coalition_elem mask j m).
Qed.

Lemma coalition_clear mask j m :
    members !! j = Some m →
    (list_to_set (coalitionOf members (Z.clearbit mask (Z.of_nat j))) : gset string)
    = list_to_set (coalitionOf members mask) ∖ {[member_id m]}.
Proof.
    intros Hj. apply set_eq. intros id.
    rewrite elem_of_difference, elem_of_singleton, !elem_of_list_to_set.
    unfold coalitionOf. rewrite !list_elem_of_fmap. split.
    - intros (m' & -> & (k & Hk & Hb)%filter_i_elem). simpl in Hb.
      rewrite hasBit_testbit, Z.clearbit_eqb, <- hasBit_testbit in Hb.
      apply andb_true_iff in Hb as [Hb Hne]. apply negb_true_iff in Hne. zify_bool.
      split; [exists m'; split; [done|]; apply filter_i_elem; eauto|].
      intros He. apply Hne. f_equal. by eapply member_id_inj.
    - intros [(m' & -> & (k & Hk & Hb)%filter_i_elem) Hne]. exists m'. split; [done|].
      apply filter_i_elem. exists k. split; [done|]. simpl in *.
      rewrite hasBit_testbit, Z.clearbit_eqb, <- hasBit_testbit, Hb.
      apply negb_true_iff, Z.eqb_neq. intros [= Hjk%Nat2Z.inj]. subst. by simplify_eq.
Qed.

Lemma coalition_sub mask id : id ∈ coalitionOf members mask → id ∈ member_id <$> members.
Proof.
    unfold coalitionOf. rewrite !list_elem_of_fmap. intros (m & -> & Hm). exists m.
    split; [done|]. by eapply elem_of_sublist, filter_i_sublist.
Qed.

Lemma coalition_nodup mask : NoDup (coalitionOf members mask).
Proof.
    unfold coalitionOf. eapply sublist_NoDup; [exact Hnodup|].
    by apply fmap_sublist, filter_i_sublist.
Qed.

  (** A coalition determines its mask. *)
Lemma coalition_mask_inj a b :
    0 ≤ a < 2 ^ Z.of_nat (length members) → 0 ≤ b < 2 ^ Z.of_nat (length members) →
    (∀ id, id ∈ coalitionOf members a ↔ id ∈ coalitionOf members b) → a = b.
Proof.
    intros Ha Hb H. apply (mask_ext _ _ (length members)); [done..|]. intros i Hi.
    destruct (lookup_lt_is_Some_2 members i) as [m Hm]; [done|].
    rewrite <- !hasBit_testbit. apply eq_iff_eq_true.
    rewrite <- !(coalition_elem _ i m) by done. apply H.
Qed.
End ids.

(** The mask of the members whose id is in a set. *)
Definition set_mask (members : list WeightedMember) (ids : gset string) : Z :=
  mask_of ((λ m, bool_decide (member_id m ∈ ids)) <$> members).

Lemma set_mask_bound members ids :
  0 ≤ set_mask members ids < 2 ^ Z.of_nat (length members).
Proof.
  unfold set_mask. pose proof (mask_of_bound ((λ m, bool_decide (member_id m ∈ ids)) <$> members)) as H.
  by rewrite length_fmap in H.
Qed.

Lemma set_mask_bit members ids j m :
  members !! j = Some m → hasBit (set_mask members ids) j = bool_decide (member_id m ∈ ids).
Proof.
  intros Hj. unfold set_mask. by rewrite hasBit_testbit, mask_of_testbit, list_lookup_fmap, Hj.
Qed.

Lemma isWinning_set_mask members t ids :
  isWinning members t ids = (t <=? weightOf members (set_mask members ids)).
Proof.
  rewrite isWinning_eq, weightOf_eq. do 2 f_equal. symmetry. apply filter_i_filter.
  intros j m Hj. by apply set_mask_bit.
Qed.

Lemma coalition_set_mask members ids id :
  id ∈ coalitionOf members (set_mask members ids) ↔ id ∈ member_id <$> members ∧ id ∈ ids.
Proof.
  unfold coalitionOf. rewrite !list_elem_of_fmap. split.
  - intros (m & -> & (j & Hj & Hb)%filter_i_elem). simpl in Hb.
    rewrite (set_mask_bit _ _ _ m) in Hb by done. apply bool_decide_eq_true in Hb.
    split; [|done]. exists m. split; [done|]. by eapply list_elem_of_lookup_2.
  - intros [(m & -> & (j & Hj)%list_elem_of_lookup) Hin]. exists m. split; [done|].
    apply filter_i_elem. exists j. split; [done|]. rewrite (set_mask_bit _ _ _ m) by done.
    by apply bool_decide_eq_true.
Qed.

(** The weighted rule is monotone in the approving set. *)
Lemma isWinning_mono members t (ids1 ids2 : gset string) :
  Forall (λ m, 0 ≤ member_weight m) members → ids1 ⊆ ids2 →
  isWinning members t ids1 = true → isWinning members t ids2 = true.
Proof.
  intros Hw Hsub. rewrite !isWinning_eq. zify_bool.
  enough (weight_sum (filter (λ m, member_id m ∈ ids1) members)
    ≤ weight_sum (filter (λ m, member_id m ∈ ids2) members)) by lia.
  induction Hw as [|m members Hm _ IH]; [done|]. rewrite !filter_cons.
  repeat case_decide; rewrite ?weight_sum_cons; try lia. set_solver.
Qed.

(** ** [popcount] counts the selected members *)

Lemma popcount_loop_bits n fuel m c :
  0 ≤ m < 2 ^ Z.of_nat n → bit_count n m ≤ Z.of_nat fuel →
  popcount_loop fuel m c = c + bit_count n m.
Proof.
  revert m c. induction fuel as [|fuel IH]; intros m c Hm Hf; cbn [popcount_loop].
  - pose proof (bit_count_nonneg n m). lia.
  - destruct (Z.eqb_spec m 0) as [->|]; [rewrite bit_count_0; lia|].
    pose proof (land_pred_range m). rewrite IH; rewrite ?bit_count_land_pred by lia; lia.
Qed.

Lemma popcount_bits n m :
  (n ≤ 32)%nat → 0 ≤ m < 2 ^ Z.of_nat n → popcount m = bit_count n m.
Proof.
  intros Hn Hm. unfold popcount. pose proof (bit_count_nonneg n m).
  rewrite (popcount_loop_bits n); lia.
Qed.

(** The positions a mask selects among the first [k] from [i]. *)
Definition positions_from (i k : nat) (mask : Z) : list nat :=
  filter_i (hasBit mask) i (seq i k).
Definition positions (n : nat) (mask : Z) : list nat := positions_from 0 n mask.

Lemma positions_length i k mask :
  0 ≤ mask →
  Z.of_nat (length (positions_from i k mask)) = bit_count k (Z.shiftr mask (Z.of_nat i)).
Proof.
  unfold positions_from. intros Hm. revert i. induction k as [|k IH]; intros i; [done|].
  cbn [seq filter_i bit_count]. rewrite <- Z.bit0_odd, Z.shiftr_spec by lia.
  rewrite Z.div2_spec, Z.shiftr_shiftr, hasBit_testbit, Z.add_0_l by lia.
  specialize (IH (S i)). rewrite Nat2Z.inj_succ, <- Z.add_1_r in IH. rewrite <- IH.
  destruct (Z.testbit mask (Z.of_nat i)); simpl length; simpl Z.b2z; lia.
Qed.

Lemma coalition_positions members mask :
  coalitionOf members mask
  = omap (λ i, member_id <$> members !! i) (positions (length members) mask).
Proof.
  unfold coalitionOf, positions, positions_from.
  enough (∀ i (g : nat → option string),
    (∀ j m, members !! j = Some m → g (i + j)%nat = Some (member_id m)) →
    member_id <$> filter_i (hasBit mask) i members
    = omap g (filter_i (hasBit mask) i (seq i (length members)))) as H.
  { apply H. intros j m Hj. simpl. by rewrite Hj. }
  induction members as [|m members IH]; intros i g Hg; [done|]. cbn [length seq filter_i].
  pose proof (Hg O m eq_refl) as Hi. rewrite Nat.add_0_r in Hi.
  assert (member_id <$> filter_i (hasBit mask) (S i) members =
    omap g (filter_i (hasBit mask) (S i) (seq (S i) (length members)))) as E.
  { apply IH. intros j m' Hj. rewrite <- (Hg (S j) m' Hj). f_equal. lia. }
  destruct (hasBit mask i); [|done]. rewrite fmap_cons, E. simpl. by rewrite Hi.
Qed.

(** ** The comparator is the short-lexicographic order on positions *)

Fixpoint lex_le (p q : list nat) : Prop :=
  match p, q with
  | [], _ => True
  | _ :: _, [] => False
  | x :: p, y :: q => (x < y)%nat ∨ (x = y ∧ lex_le p q)
  end.

(** Smaller first; equal sizes in lexical order of member positions. *)
Definition shortlex_le (p q : list nat) : Prop :=
  (length p < length q)%nat ∨ (length p = length q ∧ lex_le p q).

Lemma bit_at a i : 0 ≤ i → Z.land (Z.shiftr a i) 1 = Z.b2z (Z.testbit a i).
Proof.
  intros Hi. change 1 with (Z.ones 1). rewrite Z.land_ones by lia. change (2 ^ 1) with 2.
  rewrite <- Z.bit0_mod, Z.shiftr_spec by lia. by rewrite Z.add_0_l.
Qed.

Lemma lowBitOrder_loop_step k i a b :
  0 ≤ i →
  lowBitOrder_loop (S k) i a b =
    match Z.testbit a i, Z.testbit b i with
    | true, false => -1
    | false, true => 1
    | _, _ => lowBitOrder_loop k (i + 1) a b
    end.
Proof.
  intros Hi. cbn [lowBitOrder_loop]. rewrite !bit_at by done.
  by destruct (Z.testbit a i), (Z.testbit b i).
Qed.

Lemma lowBitOrder_antisym k i a b :
  0 ≤ i → lowBitOrder_loop k i a b = - lowBitOrder_loop k i b a.
Proof.
  revert i. induction k as [|k IH]; intros i Hi; [done|].
  rewrite !lowBitOrder_loop_step by done. rewrite IH by lia.
  by destruct (Z.testbit a i), (Z.testbit b i).
Qed.

Lemma lowBitOrder_trans k i a b c :
  0 ≤ i → lowBitOrder_loop k i a b ≤ 0 → lowBitOrder_loop k i b c ≤ 0 →
  lowBitOrder_loop k i a c ≤ 0.
Proof.
  revert i. induction k as [|k IH]; intros i Hi; [done|].
  rewrite !lowBitOrder_loop_step by done. specialize (IH (i + 1)).
  destruct (Z.testbit a i), (Z.testbit b i), (Z.testbit c i); try lia; auto with lia.
Qed.

Lemma lowBitOrder_lex k i a b :
  lowBitOrder_loop k (Z.of_nat i) a b ≤ 0 →
  length (positions_from i k a) = length (positions_from i k b) →
  lex_le (positions_from i k a) (positions_from i k b).
Proof.
  unfold positions_from. revert i. induction k as [|k IH]; intros i; [done|].
  rewrite lowBitOrder_loop_step by lia. cbn [seq filter_i]. rewrite !hasBit_testbit.
  specialize (IH (S i)). rewrite Nat2Z.inj_succ, <- Z.add_1_r in IH.
  destruct (Z.testbit a (Z.of_nat i)), (Z.testbit b (Z.of_nat i)); simpl.
  - intros ? [= ?]. auto.
  - intros _ Hlen. destruct (filter_i (hasBit b) (S i) (seq (S i) k)) as [|x l] eqn:E; [done|].
    left. assert (x ∈ seq (S i) k) as Hx%elem_of_seq; [|lia].
    eapply elem_of_sublist, (filter_i_sublist (hasBit b) (S i)). rewrite E. constructor.
  - lia.
  - auto.
Qed.

Section order.
  Context (n : nat) (Hn : (n ≤ 32)%nat).
Let D (mask : Z) : Prop := 0 ≤ mask < 2 ^ Z.of_nat n.

Lemma popcount_positions mask :
    0 ≤ mask < 2 ^ Z.of_nat n → popcount mask = Z.of_nat (length (positions n mask)).
Proof.
    intros Hm. unfold positions. rewrite positions_length by lia.
    by rewrite Z.shiftr_0_r, (popcount_bits n).
Qed.

Lemma maskOrder_total a b : maskOrder n a b ≤ 0 ∨ maskOrder n b a ≤ 0.
Proof.
    unfold maskOrder, lowBitOrder. rewrite (lowBitOrder_antisym n 0 b a) by lia.
    destruct (Z.eqb_spec (popcount a - popcount b) 0),
      (Z.eqb_spec (popcount b - popcount a) 0); lia.
Qed.

Lemma maskOrder_trans a b c :
    maskOrder n a b ≤ 0 → maskOrder n b c ≤ 0 → maskOrder n a c ≤ 0.
Proof.
    unfold maskOrder, lowBitOrder.
    destruct (Z.eqb_spec (popcount a - popcount b) 0),
      (Z.eqb_spec (popcount b - popcount c) 0),
      (Z.eqb_spec (popcount a - popcount c) 0); try lia.
    apply lowBitOrder_trans. lia.
Qed.

Lemma maskOrder_shortlex a b :
    D a → D b → maskOrder n a b ≤ 0 → shortlex_le (positions n a) (positions n b).
Proof.
    intros Ha Hb. unfold maskOrder, shortlex_le. rewrite !popcount_positions by done.
    destruct (Z.eqb_spec (Z.of_nat (length (positions n a))
      - Z.of_nat (length (positions n b))) 0); [|lia].
    intros H. right. split; [lia|]. apply lowBitOrder_lex; [done | unfold positions in *; lia].
Qed.
End order.

(** The ids at a list of positions. *)
Definition ids_at (members : list WeightedMember) (p : list nat) : list string :=
  omap (λ i, member_id <$> members !! i) p.

(** ** What the enumeration promises *)

Section enumeration.
  Context (members : list WeightedMember) (t : Z) (cs : list (list string)).
  Context (Hnodup : NoDup (member_id <$> members)) (Ht : 1 ≤ t).
  Context (Hcs : minimalWinningCoalitions members t = Ok cs).

Lemma enumerated c :
    c ∈ cs ↔ ∃ mask, c = coalitionOf members mask ∧
      0 ≤ mask < 2 ^ Z.of_nat (length members) ∧ minimal_mask members t mask.
Proof using Hcs Ht.
    unfold minimalWinningCoalitions in Hcs. case_match; [done|]. injection Hcs as <-.
    rewrite list_elem_of_fmap. f_equiv; intros mask.
    by rewrite js_sort_elem, winningMasks_spec.
Qed.

Lemma enumerated_winning c :
    c ∈ cs → isWinning members t (list_to_set c) = true.
Proof using All.
    rewrite enumerated. intros (mask & -> & _ & [Hw _]).
    rewrite isWinning_coalition by done. by zify_bool.
Qed.

Lemma enumerated_minimal c id :
    c ∈ cs → id ∈ c → isWinning members t (list_to_set c ∖ {[id]}) = false.
Proof using All.
    rewrite enumerated. intros (mask & -> & _ & [_ Hmin]).
    unfold coalitionOf. rewrite list_elem_of_fmap.
    intros (m & -> & (j & Hj & Hb)%filter_i_elem). simpl in Hb.
    change (member_id <$> filter_i (hasBit mask) 0 members) with (coalitionOf members mask).
    rewrite <- (coalition_clear members Hnodup mask j m Hj), isWinning_coalition by done.
    zify_bool. eauto.
Qed.

Lemma enumerated_below (ids : gset string) :
    isWinning members t ids = true → ∃ c, c ∈ cs ∧ ∀ id, id ∈ c → id ∈ ids.
Proof using All.
    rewrite isWinning_set_mask. zify_bool. intros Hw.
    pose proof (set_mask_bound members ids) as Hb.
    destruct (minimal_submask members t (set_mask members ids)) as (mask & ? & Hmin & Hsub);
      [lia | done |].
    exists (coalitionOf members mask). split; [apply enumerated; eauto with lia|].
    intros id Hid. enough (id ∈ coalitionOf members (set_mask members ids)) as Hs
      by by apply coalition_set_mask in Hs as [_ ?].
    unfold coalitionOf in *. rewrite list_elem_of_fmap in *.
    destruct Hid as (m & -> & (j & Hj & Hbit)%filter_i_elem). exists m. split; [done|].
    apply filter_i_elem. eauto.
Qed.

Lemma enumerated_reproduce (ids : gset string) :
    Forall (λ m, 0 ≤ member_weight m) members →
    isWinning members t ids = true ↔ ∃ c, c ∈ cs ∧ ∀ id, id ∈ c → id ∈ ids.
Proof using All.
    intros Hw. split; [apply enumerated_below|]. intros (c & Hc & Hsub).
    apply (isWinning_mono _ _ (list_to_set c)); [done| |by apply enumerated_winning].
    intros id. rewrite elem_of_list_to_set. auto.
Qed.

  (** A coalition lists distinct owners, and at least one. *)
Lemma enumerated_ids c : c ∈ cs → c `sublist_of` (member_id <$> members).
Proof using Hcs Ht.
    rewrite enumerated. intros (mask & -> & _). unfold coalitionOf.
    apply fmap_sublist, filter_i_sublist.
Qed.

Lemma enumerated_nonempty c : c ∈ cs → c ≠ [].
Proof using All.
    intros Hc%enumerated_winning ->. rewrite isWinning_eq in Hc. zify_bool.
    rewrite (filter_ext_in _ (λ _, False)) in Hc by set_solver.
    assert (filter (λ _, False) members = []) as E by (clear; by induction members).
    rewrite E in Hc. change (weight_sum []) with 0 in Hc. lia.
Qed.

Lemma enumerated_nodup : NoDup (list_to_set (C := gset string) <$> cs).
Proof using All.
    pose proof Hcs as H. unfold minimalWinningCoalitions in H. case_match; [done|].
    injection H as <-. rewrite <- list_fmap_compose. apply NoDup_fmap_2_strong.
    - intros a b. rewrite !js_sort_elem, !winningMasks_spec by done.
      intros [Ha _] [Hb _] E. simpl in E. apply (coalition_mask_inj members); [done..|].
      intros id. rewrite <- !(elem_of_list_to_set (C := gset string)), E. done.
    - apply js_sort_nodup, winningMasks_nodup.
Qed.
End enumeration.

(** ** Properties *)

(** C3: the OR over the listed coalitions is the weighted rule: a set of owner
    ids reaches the threshold iff it contains one of the coalitions that
    [minimalWinningCoalitions] returns. *)
Theorem coalitions_reproduce_weights members t cs :
  NoDup (member_id <$> members) →
  Forall (λ m, 0 ≤ member_weight m) members →
  1 ≤ t →
  minimalWinningCoalitions members t = Ok cs →
  ∀ ids : gset string,
    isWinning members t ids = true ↔ ∃ c, c ∈ cs ∧ ∀ id, id ∈ c → id ∈ ids.
Proof.
  intros. by apply enumerated_reproduce.
Qed.

(** The list is exactly the set of minimal winning coalitions, each once: a
    set of owners wins and stops winning when any one member leaves iff it is
    the set of one listed coalition. *)
Theorem coalitions_exact members t cs :
  NoDup (member_id <$> members) →
  Forall (λ m, 0 ≤ member_weight m) members →
  1 ≤ t →
  minimalWinningCoalitions members t = Ok cs →
  NoDup (list_to_set (C := gset string) <$> cs) ∧
  ∀ S : gset string, S ⊆ list_to_set (member_id <$> members) →
    (isWinning members t S = true ∧ ∀ id, id ∈ S → isWinning members t (S ∖ {[id]}) = false)
    ↔ S ∈ list_to_set (C := gset string) <$> cs.
Proof.
  intros Hnd Hw Ht Hcs. split; [by eapply enumerated_nodup|].
  intros S HS. rewrite list_elem_of_fmap. split.
  - intros [Hwin Hmin].
    destruct (enumerated_below members t cs Hnd Ht Hcs S Hwin) as (c & Hc & Hsub).
    exists c. split; [|done]. apply set_eq. intros id. rewrite elem_of_list_to_set.
    split; [|by auto]. intros Hid. destruct (decide (id ∈ c)) as [|Hn]; [done|].
    assert (isWinning members t (S ∖ {[id]}) = true); [|specialize (Hmin id Hid); congruence].
    apply (isWinning_mono _ _ (list_to_set c)); [done| |by eapply enumerated_winning].
    intros x. rewrite elem_of_list_to_set, elem_of_difference, elem_of_singleton.
    intros Hx. split; [auto|]. intros ->. done.
  - intros (c & -> & Hc). split; [by eapply enumerated_winning|].
    intros id. rewrite elem_of_list_to_set. by eapply enumerated_minimal.
Qed.

(** the output order is deterministic: coalitions come as strictly described
    position lists, sorted by size and then lexicographically on member
    positions, and each coalition lists its ids in input order. *)
Lemma coalitions_sorted members t cs :
  minimalWinningCoalitions members t = Ok cs →
  ∃ ps : list (list nat),
    cs = ids_at members <$> ps ∧
    StronglySorted shortlex_le ps ∧
    Forall (λ p, p `sublist_of` seq 0 (length members)) ps.
Proof.
  unfold minimalWinningCoalitions. intros H. case_match eqn:E; [done|]. injection H as <-.
  unfold MAX_ENUMERABLE_OWNERS in E. zify_bool.
  set (n := length members) in *. set (ms := js_sort (maskOrder n) (winningMasks members t)).
  assert (Forall (λ m, 0 ≤ m < 2 ^ Z.of_nat n) ms) as HD.
  { apply Forall_forall. intros m. subst ms. rewrite js_sort_elem. unfold winningMasks.
    rewrite list_elem_of_filter, elem_of_seqZ, Z.shiftl_mul_pow2, Z.mul_1_l by lia.
    fold n. intros [_ ?]. lia. }
  exists (positions n <$> ms). split_and!.
  - rewrite <- list_fmap_compose. apply list_fmap_ext. intros ? m _. apply coalition_positions.
  - assert (StronglySorted (λ a b, maskOrder n a b ≤ 0) ms) as Hs.
    { apply (js_sort_sorted _ (λ _, True)).
      - intros a b _ _. apply (maskOrder_total n). lia.
      - intros a b c _ _ _. apply (maskOrder_trans n). lia.
      - by apply Forall_true. }
    clearbody ms. induction Hs as [|m ms Hs IH Hm]; [constructor|].
    apply Forall_cons in HD as [Hm' HD]. constructor; [auto|].
    apply Forall_fmap. rewrite Forall_forall in *. intros m2 Hin. simpl.
    apply maskOrder_shortlex; [lia | done | by apply HD | by apply Hm].
  - apply Forall_fmap, Forall_true. intros m. apply filter_i_sublist.
Qed.

(** enumeration is refused exactly above [MAX_ENUMERABLE_OWNERS] owners, with a
    [RangeError]; otherwise it returns. *)
Lemma coalitions_total members t :
  (length members ≤ 20)%nat ∧ (∃ cs, minimalWinningCoalitions members t = Ok cs) ∨
  (20 < length members)%nat ∧
    ∃ msg, minimalWinningCoalitions members t = Throw (RangeError msg).
Proof.
  unfold minimalWinningCoalitions, MAX_ENUMERABLE_OWNERS.
  destruct (Z.ltb_spec 20 (Z.of_nat (length members))); [right | left]; split; eauto; lia.
Qed.

Definition example_members : list WeightedMember :=
  [{| member_id := "a"; member_weight := 3 |}; {| member_id := "b"; member_weight := 2 |};
   {| member_id := "c"; member_weight := 2 |}; {| member_id := "d"; member_weight := 1 |}].

Lemma coalitions_reproduce_weights_witness :
  isWinning example_members 5 {["b"; "c"; "d"]} = true ↔
  ∃ c, c ∈ [["a"; "b"]; ["a"; "c"]; ["b"; "c"; "d"]] ∧ ∀ id, id ∈ c → id ∈ ({["b"; "c"; "d"]} : gset string).
Proof.
  apply (coalitions_reproduce_weights example_members 5).
  - by apply (bool_decide_unpack _); vm_compute.
  - repeat constructor; simpl; lia.
  - lia.
  - vm_compute. reflexivity.
Defined.

Lemma coalitions_exact_witness :
  NoDup (list_to_set (C := gset string) <$> [["a"; "b"]; ["a"; "c"]; ["b"; "c"; "d"]]).
Proof.
  apply (coalitions_exact example_members 5).
  - by apply (bool_decide_unpack _); vm_compute.
  - repeat constructor; simpl; lia.
  - lia.
  - vm_compute. reflexivity.
Defined.

Lemma coalitions_sorted_witness :
  ∃ ps : list (list nat),
    [["a"; "b"]; ["a"; "c"]; ["b"; "c"; "d"]]
    = ids_at example_members <$> ps ∧
    StronglySorted shortlex_le ps ∧
    Forall (λ p, p `sublist_of` seq 0 (length example_members)) ps.
Proof. apply (coalitions_sorted example_members 5). vm_compute. reflexivity. Defined.
