(* ===== verification/TreasurySpec.v ===== *)
(** * The chain-neutral treasury spec and its validation

    Models [packages/weighted-treasury/src/spec.ts] and [validate.ts]. *)

From S2P Require Import Prelude.
From S2P Require Import Js.
From S2P Require Import Coalitions.

Definition MAX_WEIGHT : Z := 1000000.
Definition MAX_EVM_OWNERS : Z := 1000.

Record TreasuryOwner := {
  owner_id : string;
  owner_weight : jsnum;
  owner_evm : option string;
  owner_solana : option string
}.

Record AllowedRecipient := {
  recipient_label : option string;
  recipient_evm : option string;
  recipient_solana : option string
}.

Inductive Period := oneTime | daily | weekly | monthly | custom (customSeconds : jsnum).

Record Budget := { maxPerPeriod : Z; period : Period; maxPerUse : option Z }.

Record TreasuryAsset := {
  symbol : string;
  solanaMint : option string;
  solanaDecimals : option jsnum;
  budget : option Budget
}.

Record WeightedTreasurySpec := {
  version : jsnum;
  owners : list TreasuryOwner;
  thresholdWeight : jsnum;
  allowlist : list AllowedRecipient;
  assets : list TreasuryAsset;
  adminTimelockSeconds : jsnum
}.

Inductive backend := evm | squads | spec.

(** What a compiler throws: [SpecNotExpressible], or a built-in exception that
    passes through it. *)
Inductive compile_error :=
| SpecNotExpressible (b : backend) (reason : string)
| JsError (e : js_error).

Definition specFail {A} (reason : string) : result compile_error A :=
  Throw (SpecNotExpressible spec reason).

(** [/^0x[0-9a-fA-F]{40}$/] *)
Definition isEvmAddress (value : string) : bool :=
  startsWith "0x" value && (strlen value =? 42) && str_all is_hex (str_drop 2 value).

(** [[1-9A-HJ-NP-Za-km-z]] *)
Definition is_base58 (c : ascii) : bool :=
  between 49 57 c || between 65 72 c || between 74 78 c || between 80 90 c
  || between 97 107 c || between 109 122 c.

(** [/^[1-9A-HJ-NP-Za-km-z]{32,44}$/] *)
Definition isSolanaKey (value : string) : bool :=
  str_all is_base58 value && (32 <=? strlen value) && (strlen value <=? 44).

(** An optional field that is present and fails its check. *)
Definition present_invalid {A} (check : A → bool) (o : option A) : bool :=
  match o with Some x => negb (check x) | None => false end.

(** The loop over the owners, with the ids seen and the weight so far. *)
Fixpoint validateOwners (owners : list TreasuryOwner) (ids : gset string) (total : Z)
    : result compile_error Z :=
  match owners with
  | [] => Ok total
  | owner :: owners =>
      let who := "owner " +:+ q +:+ owner_id owner +:+ q in
      throw_if (bool_decide (owner_id owner ∈ ids))
        (SpecNotExpressible spec ("duplicate owner id " +:+ q +:+ owner_id owner +:+ q)) ≫= λ _,
      throw_if (negb (isIntegerIn (owner_weight owner) 1 MAX_WEIGHT))
        (SpecNotExpressible spec
          (who +:+ " weight must be an integer in [1, " +:+ pretty MAX_WEIGHT +:+ "]")) ≫= λ _,
      throw_if (present_invalid isEvmAddress (owner_evm owner))
        (SpecNotExpressible spec (who +:+ " has an invalid EVM address")) ≫= λ _,
      throw_if (present_invalid isSolanaKey (owner_solana owner))
        (SpecNotExpressible spec (who +:+ " has an invalid Solana key")) ≫= λ _,
      validateOwners owners ({[owner_id owner]} ∪ ids) (total + toZ (owner_weight owner))
  end.

(** [typeof period === 'object' && (!Number.isInteger(s) || s <= 0)] *)
Definition badCustomPeriod (p : Period) : bool :=
  match p with
  | custom (JInt z) => z <=? 0
  | custom (JNonInt _) => true
  | _ => false
  end.

Definition validateBudget (sym : string) (b : Budget) : result compile_error () :=
  throw_if (maxPerPeriod b <=? 0)
    (SpecNotExpressible spec (sym +:+ ": budget.maxPerPeriod must be positive")) ≫= λ _,
  throw_if (present_invalid (λ u, (0 <? u) && (u <=? maxPerPeriod b)) (maxPerUse b))
    (SpecNotExpressible spec (sym +:+ ": budget.maxPerUse must be in (0, maxPerPeriod]")) ≫= λ _,
  throw_if (badCustomPeriod (period b))
    (SpecNotExpressible spec (sym +:+ ": custom period must be a positive integer of seconds")).

Fixpoint validateAssets (assets : list TreasuryAsset) : result compile_error () :=
  match assets with
  | [] => Ok tt
  | asset :: assets =>
      match budget asset with
      | None => validateAssets assets
      | Some b => validateBudget (symbol asset) b ≫= λ _, validateAssets assets
      end
  end.

(** Backend-independent checks; throws on the first problem. *)
Definition validateSpec (s : WeightedTreasurySpec) : result compile_error () :=
  throw_if (bool_decide (version s ≠ JInt 1))
    (SpecNotExpressible spec ("unsupported spec version " +:+ numToString (version s))) ≫= λ _,
  throw_if (Nat.eqb (length (owners s)) 0)
    (SpecNotExpressible spec "at least one owner is required") ≫= λ _,
  validateOwners (owners s) ∅ 0 ≫= λ total,
  throw_if (negb (isIntegerIn (thresholdWeight s) 1 total))
    (SpecNotExpressible spec ("thresholdWeight must be an integer in [1, " +:+ pretty total
      +:+ "] (the sum of owner weights)")) ≫= λ _,
  throw_if (Nat.eqb (length (allowlist s)) 0)
    (SpecNotExpressible spec
      "allowlist must not be empty (empty means nobody; Squads would read it as anybody)") ≫= λ _,
  throw_if (Nat.eqb (length (assets s)) 0)
    (SpecNotExpressible spec "at least one asset is required") ≫= λ _,
  validateAssets (assets s) ≫= λ _,
  throw_if (negb (isIntegerIn (adminTimelockSeconds s) 0 4294967295))
    (SpecNotExpressible spec "adminTimelockSeconds must be a u32").

(** ** The abstract well-formedness of a spec *)

Record valid_owner (o : TreasuryOwner) : Prop := {
  vo_weight : ∃ w, owner_weight o = JInt w ∧ 1 ≤ w ≤ MAX_WEIGHT;
  vo_evm : ∀ a, owner_evm o = Some a → isEvmAddress a = true;
  vo_solana : ∀ k, owner_solana o = Some k → isSolanaKey k = true
}.

Record valid_budget (b : Budget) : Prop := {
  vb_cap : 0 < maxPerPeriod b;
  vb_use : ∀ u, maxPerUse b = Some u → 0 < u ≤ maxPerPeriod b;
  vb_period : ∀ n, period b = custom n → ∃ z, n = JInt z ∧ 0 < z
}.

Definition total_weight (os : list TreasuryOwner) : Z :=
  sumZ ((λ o, toZ (owner_weight o)) <$> os).

Record valid_spec (s : WeightedTreasurySpec) : Prop := {
  vs_version : version s = JInt 1;
  vs_owners : owners s ≠ [];
  vs_ids : NoDup (owner_id <$> owners s);
  vs_each : Forall valid_owner (owners s);
  vs_threshold : ∃ t, thresholdWeight s = JInt t ∧ 1 ≤ t ≤ total_weight (owners s);
  vs_allowlist : allowlist s ≠ [];
  vs_assets : assets s ≠ [];
  vs_budgets : ∀ a b, a ∈ assets s → budget a = Some b → valid_budget b;
  vs_timelock : ∃ l, adminTimelockSeconds s = JInt l ∧ 0 ≤ l ≤ 4294967295
}.

(** The owners of a spec as the members the coalition enumeration reads. *)
Definition spec_members (s : WeightedTreasurySpec) : list WeightedMember :=
  (λ o, {| member_id := owner_id o; member_weight := toZ (owner_weight o) |}) <$> owners s.

Lemma present_invalid_false {A} (check : A → bool) o :
  present_invalid check o = false ↔ ∀ x, o = Some x → check x = true.
Proof.
  destruct o as [x|]; simpl; [|done]. rewrite negb_false_iff.
  split; [by intros ? ? [= <-] | auto].
Qed.

Lemma valid_owner_checks o :
  valid_owner o ↔
  isIntegerIn (owner_weight o) 1 MAX_WEIGHT = true ∧
  present_invalid isEvmAddress (owner_evm o) = false ∧
  present_invalid isSolanaKey (owner_solana o) = false.
Proof.
  rewrite !present_invalid_false, isIntegerIn_spec.
  split; [by intros [] | by intros (? & ? & ?); split].
Qed.

Lemma validateOwners_spec os ids total r :
  validateOwners os ids total = Ok r ↔
  NoDup (owner_id <$> os) ∧ (∀ o, o ∈ os → owner_id o ∉ ids) ∧
  Forall valid_owner os ∧ r = total + total_weight os.
Proof.
  revert ids total. induction os as [|o os IH]; intros ids total; cbn [validateOwners].
  - unfold total_weight. split; [intros [= <-] | intros (_ & _ & _ & ->); f_equal; simpl; lia].
    split_and!; [constructor | set_solver | constructor | simpl; lia].
  - rewrite !throw_if_bind, fmap_cons, NoDup_cons, Forall_cons, valid_owner_checks.
    change (total_weight (o :: os)) with (toZ (owner_weight o) + total_weight os).
    case_bool_decide as Hin; [split; [done|]; intros (_ & H & _); by destruct (H o); [left|]|].
    destruct (isIntegerIn _ _ _); simpl; [|split; [done | naive_solver]].
    destruct (present_invalid isEvmAddress _); [split; [done | naive_solver]|].
    destruct (present_invalid isSolanaKey _); [split; [done | naive_solver]|].
    rewrite IH. setoid_rewrite list_elem_of_fmap. setoid_rewrite elem_of_cons.
    rewrite Z.add_assoc. set_solver.
Qed.

Lemma validateBudget_spec sym b : validateBudget sym b = Ok tt ↔ valid_budget b.
Proof.
  unfold validateBudget. rewrite !throw_if_bind.
  assert (badCustomPeriod (period b) = false ↔ ∀ n, period b = custom n → ∃ z, n = JInt z ∧ 0 < z) as Hp.
  { destruct (period b) as [| | | |[z|s]]; simpl; try (split; [done | done]).
    - zify_bool. split; [intros ? ? [= <-]; eauto|]. intros H.
      by destruct (H _ eq_refl) as (? & [= <-] & ?).
    - split; [done|]. intros H. by destruct (H _ eq_refl) as (? & ? & ?). }
  assert (present_invalid (λ u, (0 <? u) && (u <=? maxPerPeriod b)) (maxPerUse b) = false
    ↔ ∀ u, maxPerUse b = Some u → 0 < u ≤ maxPerPeriod b) as Hu.
  { rewrite present_invalid_false.
    split; intros H u Hu; specialize (H u Hu); rewrite andb_true_iff in *; by zify_bool. }
  destruct (Z.leb_spec (maxPerPeriod b) 0); [split; [done | intros []; lia]|].
  destruct (present_invalid _ _); [split; [done|]; by intros [_ ?%Hu _]|].
  rewrite throw_if_ok, Hp. split; [|by intros []]. intros. split; [done|by apply Hu|done].
Qed.

Lemma validateAssets_spec l :
  validateAssets l = Ok tt ↔ ∀ a b, a ∈ l → budget a = Some b → valid_budget b.
Proof.
  induction l as [|a l IH]; simpl; [set_solver|].
  destruct (budget a) as [b|] eqn:Eb.
  - destruct (validateBudget (symbol a) b) as [[]|] eqn:Ev; simpl.
    + apply validateBudget_spec in Ev. rewrite IH. split.
      * intros H a' b' [->|]%elem_of_cons ?; [congruence | eauto].
      * intros H a' b' ??. eapply H; [by right | done].
    + split; [done|]. intros H. assert (valid_budget b) as Hb by (eapply H; [by left | done]).
      apply (validateBudget_spec (symbol a)) in Hb. congruence.
  - rewrite IH. split.
    + intros H a' b' [->|]%elem_of_cons ?; [congruence | eauto].
    + intros H a' b' ??. eapply H; [by right | done].
Qed.

Lemma validateSpec_ok s : validateSpec s = Ok tt ↔ valid_spec s.
Proof.
  unfold validateSpec. split.
  - intros H. ok_inv.
    apply validateOwners_spec in Hr1 as (Hnd & _ & Hall & ->).
    destruct r5. pose proof (proj1 (validateAssets_spec _) Hr5) as Hb.
    rewrite ?isIntegerIn_spec, ?Nat.eqb_neq, ?Z.add_0_l in *.
    split; try done; try (by intros E; rewrite E in * ). by apply dec_stable.
  - intros [Hv Ho Hids Heach Hth Hal Has Hb Htl].
    assert (validateOwners (owners s) ∅ 0 = Ok (total_weight (owners s))) as Hok.
    { apply validateOwners_spec. split_and!; [done | set_solver | done | lia]. }
    apply validateAssets_spec in Hb. apply isIntegerIn_spec in Hth, Htl.
    rewrite !throw_if_bind_ok, Hok, bool_decide_eq_false, Hv. cbn [mbind result_bind].
    rewrite !throw_if_bind_ok, Hb, Hth, Htl. cbn [mbind result_bind negb].
    rewrite !Nat.eqb_neq, !length_zero_iff_nil. split_and!; auto.
Qed.

(** A rejection is always a [SpecNotExpressible] of the backend [spec]. *)
Lemma validateOwners_throws os ids total e :
  validateOwners os ids total = Throw e → ∃ reason, e = SpecNotExpressible spec reason.
Proof.
  revert ids total. induction os as [|o os IH]; intros ids total; cbn [validateOwners]; [done|].
  rewrite !throw_if_bind. repeat (case_match; [intros [= <-]; eauto|]). apply IH.
Qed.

Lemma validateAssets_throws l e :
  validateAssets l = Throw e → ∃ reason, e = SpecNotExpressible spec reason.
Proof.
  induction l as [|a l IH]; cbn [validateAssets]; [done|].
  destruct (budget a) as [b|]; [|done]. unfold validateBudget. rewrite !throw_if_bind.
  repeat (case_match; [intros [= <-]; eauto|]). unfold throw_if.
  case_match; cbn [mbind result_bind]; [intros [= <-]; eauto | done].
Qed.

Lemma validateSpec_throws s e :
  validateSpec s = Throw e → ∃ reason, e = SpecNotExpressible spec reason.
Proof.
  unfold validateSpec. rewrite !throw_if_bind. repeat (case_match; [intros [= <-]; eauto|]).
  destruct (validateOwners _ _ _) as [total|] eqn:Eo; cbn [mbind result_bind];
    [|intros [= <-]; by eapply validateOwners_throws].
  rewrite !throw_if_bind. repeat (case_match; [intros [= <-]; eauto|]).
  destruct (validateAssets _) as [[]|] eqn:Ea; cbn [mbind result_bind];
    [|intros [= <-]; by eapply validateAssets_throws].
  unfold throw_if. case_match; [intros [= <-]; eauto | done].
Qed.

(** ** Properties *)

(** [validateSpec] accepts a spec iff it is well formed (version 1, at least one
    owner, distinct owner ids, integer weights in [1, 10^6], well-formed keys
    where present, a threshold between 1 and the total weight, non-empty
    allowlist and assets, sane budgets, a u32 admin timelock); every other spec is
    refused with a [SpecNotExpressible] of the backend [spec]. *)
Theorem validateSpec_correct s :
  valid_spec s ∧ validateSpec s = Ok tt ∨
  ¬ valid_spec s ∧ ∃ reason, validateSpec s = Throw (SpecNotExpressible spec reason).
Proof.
  pose proof (validateSpec_ok s) as Hok.
  destruct (validateSpec s) as [[]|e] eqn:E; [left | right].
  - split; [by apply Hok | done].
  - split; [intros [=]%Hok|]. apply validateSpec_throws in E as [reason ->]. eauto.
Qed.

Definition payroll : AllowedRecipient :=
  {| recipient_label := Some "payroll"; recipient_evm := Some "0xEe";
     recipient_solana := Some "PayrollWallet" |}.
Definition usdc : TreasuryAsset :=
  {| symbol := "USDC"; solanaMint := Some "UsdcMint"; solanaDecimals := Some (JInt 6);
     budget := None |}.

(** A spec with weights 3, 2, 2, 1 and threshold 5 that both backends can express. *)
Definition example_spec : WeightedTreasurySpec :=
  let own i w e k := {| owner_id := i; owner_weight := JInt w; owner_evm := Some e; owner_solana := Some k |} in
  {| version := JInt 1;
     owners :=
       [own "a" 3 "0xAAAAAAAAAAAAAAAAAAAAAAAAAAAAAAAAAAAAAAAA" "AAAAAAAAAAAAAAAAAAAAAAAAAAAAAAAA";
        own "b" 2 "0xBBBBBBBBBBBBBBBBBBBBBBBBBBBBBBBBBBBBBBBB" "BBBBBBBBBBBBBBBBBBBBBBBBBBBBBBBB";
        own "c" 2 "0xCCCCCCCCCCCCCCCCCCCCCCCCCCCCCCCCCCCCCCCC" "CCCCCCCCCCCCCCCCCCCCCCCCCCCCCCCC";
        own "d" 1 "0xDDDDDDDDDDDDDDDDDDDDDDDDDDDDDDDDDDDDDDDD" "DDDDDDDDDDDDDDDDDDDDDDDDDDDDDDDD"];
     thresholdWeight := JInt 5;
     allowlist := [payroll];
     assets := [usdc];
     adminTimelockSeconds := JInt 3600 |}.
