(* ===== verification/Encoding.v ===== *)
(** * The 256-bit big-endian encoding of the Gateway burn intent

    Models [packages/weighted-treasury/src/encoding.ts]. *)

From S2P Require Import Prelude.
From S2P Require Import Js.

(** [view.setBigUint64(i * 8, v, false)]: eight bytes, most significant first. *)
Definition setBigUint64 (v : Z) : list Z :=
  (λ k, Z.land (Z.shiftr v (8 * (7 - k))) 255) <$> seqZ 0 8.

(** The four 64-bit words, most significant first. *)
Definition u256_bytes (v : Z) : list Z :=
  mjoin ((λ i, setBigUint64 (Z.land (Z.shiftr v (64 * (3 - i))) 18446744073709551615))
          <$> seqZ 0 4).

Definition u256be (v : Z) : result js_error (list Z) :=
  throw_if ((v <? 0) || negb (Z.shiftr v 256 =? 0))
    (RangeError ("value " +:+ pretty v +:+ " does not fit in uint256")) ≫= λ _,
  mret (u256_bytes v).

(** The integer a big-endian byte string denotes. *)
Definition be_value (bs : list Z) : Z := foldl (λ acc b, acc * 256 + b) 0 bs.

Lemma byte_of v n : 0 ≤ n → Z.land (Z.shiftr v n) 255 = (v / 2 ^ n) mod 2 ^ 8.
Proof. intros. change 255 with (Z.ones 8). rewrite Z.land_ones, Z.shiftr_div_pow2; lia. Qed.

Lemma word_of v n :
  0 ≤ n → Z.land (Z.shiftr v n) 18446744073709551615 = (v / 2 ^ n) mod 2 ^ 64.
Proof.
  intros. change 18446744073709551615 with (Z.ones 64).
  rewrite Z.land_ones, Z.shiftr_div_pow2; lia.
Qed.

Lemma be_value_app acc bs1 bs2 :
  foldl (λ acc b, acc * 256 + b) acc (bs1 ++ bs2)
  = foldl (λ acc b, acc * 256 + b) (foldl (λ acc b, acc * 256 + b) acc bs1) bs2.
Proof. apply foldl_app. Qed.

(** One digit of width [w] of a number, and the digits above it. *)
Lemma digit_step v n w :
  0 ≤ w → 0 ≤ n → v / 2 ^ n = v / 2 ^ (n + w) * 2 ^ w + (v / 2 ^ n) mod 2 ^ w.
Proof.
  intros. rewrite Z.pow_add_r, <- Z.div_div by lia.
  pose proof (Z.div_mod (v / 2 ^ n) (2 ^ w)). lia.
Qed.

Lemma setBigUint64_value acc v :
  0 ≤ v < 2 ^ 64 → foldl (λ acc b, acc * 256 + b) acc (setBigUint64 v) = acc * 2 ^ 64 + v.
Proof.
  intros Hv. unfold setBigUint64. change (seqZ 0 8) with [0; 1; 2; 3; 4; 5; 6; 7].
  cbn [fmap list_fmap foldl]. rewrite !byte_of by lia.
  pose proof (λ n, digit_step v n 8 ltac:(lia)) as H.
  pose proof (H 0 ltac:(lia)). pose proof (H 8 ltac:(lia)). pose proof (H 16 ltac:(lia)). pose proof (H 24 ltac:(lia)).
  pose proof (H 32 ltac:(lia)). pose proof (H 40 ltac:(lia)). pose proof (H 48 ltac:(lia)). pose proof (H 56 ltac:(lia)).
  pose proof (Z.div_small v (2 ^ 64) Hv). clear H. norm_exp.
  change (2 ^ 0) with 1 in *. rewrite Z.div_1_r in *. lia.
Qed.

Lemma setBigUint64_bytes v : Forall (λ b, 0 ≤ b < 256) (setBigUint64 v).
Proof.
  apply Forall_forall. intros b. unfold setBigUint64. rewrite list_elem_of_fmap.
  intros (k & -> & Hk%elem_of_seqZ). rewrite byte_of by lia. apply Z.mod_pos_bound. lia.
Qed.

Lemma u256_bytes_words v :
  let w i := setBigUint64 ((v / 2 ^ (64 * (3 - i))) mod 2 ^ 64) in
  u256_bytes v = w 0 ++ w 1 ++ w 2 ++ w 3.
Proof.
  cbv beta zeta. rewrite <- !word_of by lia. unfold u256_bytes. by rewrite <- (app_nil_r (setBigUint64 (Z.land (v ≫ (64 * (3 - 3))) _))).
Qed.

#[local] Opaque setBigUint64.

Lemma u256_bytes_value v : 0 ≤ v < 2 ^ 256 → be_value (u256_bytes v) = v.
Proof.
  intros Hv. rewrite u256_bytes_words. unfold be_value.
  rewrite !be_value_app, !setBigUint64_value by (apply Z.mod_pos_bound; lia).
  pose proof (λ n, digit_step v n 64 ltac:(lia)) as H.
  pose proof (H 0 ltac:(lia)). pose proof (H 64 ltac:(lia)).
  pose proof (H 128 ltac:(lia)). pose proof (H 192 ltac:(lia)).
  pose proof (Z.div_small v (2 ^ 256) Hv). clear H. norm_exp.
  change (2 ^ 0) with 1 in *. rewrite Z.div_1_r in *. lia.
Qed.

Lemma u256_bytes_range v : length (u256_bytes v) = 32%nat ∧ Forall (λ b, 0 ≤ b < 256) (u256_bytes v).
Proof. split; [done|]. rewrite u256_bytes_words, !Forall_app. auto using setBigUint64_bytes. Qed.

Lemma shiftr_256_zero v : 0 ≤ v → (Z.shiftr v 256 =? 0) = (v <? 2 ^ 256).
Proof.
  intros. rewrite Z.shiftr_div_pow2 by lia. apply Bool.eq_iff_eq_true. zify_bool.
  split; intros; [|by apply Z.div_small].
  pose proof (Z_div_mod_eq_full v (2 ^ 256)). pose proof (Z.mod_pos_bound v (2 ^ 256)). lia.
Qed.

(** ** Properties *)

(** [u256be] accepts exactly the unsigned 256-bit integers; it then returns 32
    bytes whose big-endian value is the input, and otherwise throws a
    [RangeError]. *)
Theorem u256be_correct v :
  if decide (0 ≤ v < 2 ^ 256) then
    ∃ bs, u256be v = Ok bs ∧ length bs = 32%nat ∧ Forall (λ b, 0 ≤ b < 256) bs ∧ be_value bs = v
  else u256be v
    = Throw (RangeError ("value " +:+ pretty v +:+ " does not fit in uint256")).
Proof.
  unfold u256be. case_decide as Hv.
  - rewrite shiftr_256_zero by lia. destruct (Z.ltb_spec v 0); [lia|].
    destruct (Z.ltb_spec v (2 ^ 256)); [|lia]. exists (u256_bytes v).
    destruct (u256_bytes_range v). split_and!; auto using u256_bytes_value.
  - destruct (Z.ltb_spec v 0); [done|]. rewrite shiftr_256_zero by lia.
    destruct (Z.ltb_spec v (2 ^ 256)); [lia|done].
Qed.
