(* ===== verification/Judge.v ===== *)
(** * The reference rule for a spend

    Models [packages/weighted-treasury/src/judge.ts]: what the EVM side would
    do with a spend, and the rendering of base units in its explanation. *)

From S2P Require Import Prelude.
From S2P Require Import Js.
From S2P Require Import Decimal.
From S2P Require Import Coalitions.

(** BigInt division truncates towards zero ([Z.quot], [Z.rem]); [BigInt(d)] of a
    fraction and [10n ** d] of a negative [d] are range errors. *)
Definition units (value : Z) (decimals : jsnum) : result js_error string :=
  match decimals with
  | JNonInt s =>
      Throw (RangeError ("The number " +:+ s
        +:+ " cannot be converted to a BigInt because it is not an integer"))
  | JInt d =>
      if d =? 0 then mret (pretty value) else
      throw_if (d <? 0) (RangeError "Exponent must be non-negative") ≫= λ _,
      let base := 10 ^ d in
      let frac := trimZeros (padStart0 d (pretty (Z.rem value base))) in
      mret (if decide (frac = "") then pretty (Z.quot value base)
            else pretty (Z.quot value base) +:+ "." +:+ frac)
  end.

Record SpendInput := {
  si_owners : list WeightedMember;
  si_thresholdWeight : Z;
  si_approvers : gset string;
  si_destinationAllowlisted : bool;
  si_amount : Z;
  si_available : Z;
  si_decimals : option jsnum
}.

Record SpendOutcome := { pass : bool; why : string }.

Definition expectedSpendOutcome (input : SpendInput) : result js_error SpendOutcome :=
  let decimals := default (JInt 0) (si_decimals input) in
  if negb (isWinning (si_owners input) (si_thresholdWeight input) (si_approvers input)) then
    let weight := foldl (λ sum o, sum + member_weight o) 0
      (filter (λ o, member_id o ∈ si_approvers input) (si_owners input)) in
    mret {| pass := false;
            why := "weight " +:+ pretty weight +:+ " < " +:+ pretty (si_thresholdWeight input) |}
  else if negb (si_destinationAllowlisted input) then
    mret {| pass := false; why := "destination is not on the allowlist" |}
  else if si_available input <? si_amount input then
    a ← units (si_available input) decimals;
    b ← units (si_amount input) decimals;
    mret {| pass := false; why := "vault holds " +:+ a +:+ ", less than " +:+ b |}
  else mret {| pass := true; why := "weight reached, R is allowlisted" |}.

(** [Math.max(0, approvedAt + timeLock - chainNow)] on whole seconds *)
Definition timelockRemaining (approvedAt timeLock chainNow : Z) : Z :=
  Z.max 0 (approvedAt + timeLock - chainNow).

Example units_ex : units 1500000 (JInt 6) = Ok "1.5" ∧ units 2000000 (JInt 6) = Ok "2"
  ∧ units 1 (JInt 6) = Ok "0.000001" ∧ units 42 (JInt 0) = Ok "42"
  ∧ units (-15) (JInt 1) = Ok "-1.-5".
Proof. by vm_compute. Qed.

Lemma units_ok value d : 0 ≤ d → ∃ s, units value (JInt d) = Ok s.
Proof.
  intros Hd. unfold units. destruct (Z.eqb_spec d 0); [by eexists|].
  destruct (Z.ltb_spec d 0); [lia|]. by eexists.
Qed.

(** The digits kept after the point stand for the remainder. *)
Lemma trimmed_fraction d x :
  0 < d → 0 ≤ x < 10 ^ d →
  let frac := trimZeros (padStart0 d (pretty x)) in
  str_all is_digit frac = true ∧ strlen frac ≤ d ∧
  x = dec_value frac * 10 ^ (d - strlen frac) ∧ (∀ p, frac ≠ p +:+ "0").
Proof.
  intros Hd Hx frac. destruct (padStart0_spec d x) as (Hall & Hv & Hlen); [lia..|].
  destruct (trimZeros_spec (padStart0 d (pretty x))) as (k & E & Hlast).
  fold frac in E, Hlast. rewrite E in Hall, Hv, Hlen.
  rewrite str_all_app in Hall. apply andb_true_iff in Hall as [Hall _].
  rewrite strlen_app, strlen_zeros in Hlen.
  unfold dec_value in Hv. rewrite dec_value_app, dec_value_zeros in Hv.
  split_and!; [done | lia | | done]. unfold dec_value.
  by replace (d - strlen frac) with (Z.of_nat k) by lia.
Qed.

(** ** Properties *)

(** The verdict passes exactly when the approvers' weight reaches the
    threshold, the destination is allowlisted and the vault holds the amount;
    with whole non-negative decimals it always returns a verdict. *)
Theorem expectedSpendOutcome_pass input :
  (∀ d, si_decimals input = Some d → ∃ z, d = JInt z ∧ 0 ≤ z) →
  ∃ o, expectedSpendOutcome input = Ok o ∧
    (pass o = true ↔
      isWinning (si_owners input) (si_thresholdWeight input) (si_approvers input) = true ∧
      si_destinationAllowlisted input = true ∧ si_amount input ≤ si_available input).
Proof.
  intros Hd. unfold expectedSpendOutcome.
  destruct (isWinning _ _ _); simpl;
    [|by eexists; split; [|split; [|intros (? & ? & ?)]]].
  destruct (si_destinationAllowlisted input); simpl;
    [|by eexists; split; [|split; [|intros (? & ? & ?)]]].
  destruct (Z.ltb_spec (si_available input) (si_amount input)) as [Hlt|Hge];
    [|by eexists; split; [|split]].
  assert (∃ z, default (JInt 0) (si_decimals input) = JInt z ∧ 0 ≤ z) as (z & -> & Hz).
  { destruct (si_decimals input) as [d|] eqn:E; simpl; [by apply Hd | by exists 0]. }
  destruct (units_ok (si_available input) z Hz) as (a & ->).
  destruct (units_ok (si_amount input) z Hz) as (b & ->).
  eexists; split; [done|]. split; [done | lia].
Qed.

Definition spend_ex : SpendInput :=
  {| si_owners := example_members; si_thresholdWeight := 5; si_approvers := {["a"; "b"]};
     si_destinationAllowlisted := true; si_amount := 25; si_available := 20;
     si_decimals := Some (JInt 1) |}.

Lemma expectedSpendOutcome_pass_witness :
  expectedSpendOutcome spend_ex
    = Ok {| pass := false; why := "vault holds 2, less than 2.5" |} ∧
  ∃ o, expectedSpendOutcome spend_ex = Ok o ∧
    (pass o = true ↔ isWinning example_members 5 (si_approvers spend_ex) = true ∧
      si_destinationAllowlisted spend_ex = true ∧ si_amount spend_ex ≤ si_available spend_ex).
Proof.
  split; [by vm_compute|]. apply (expectedSpendOutcome_pass spend_ex).
  intros d [= <-]. exists 1. split; [done | lia].
Defined.

(** the amount text reads back: for a non-negative balance and [d] decimals,
    [units] gives an integer part and at most [d] fraction digits without a
    trailing zero whose value times 10^d is the balance, with the point exactly
    when there is a fraction. *)
Lemma units_reads_back value d s :
  0 ≤ value → 0 ≤ d → units value (JInt d) = Ok s →
  ∃ whole frac,
    s = (if decide (frac = "") then pretty whole else pretty whole +:+ "." +:+ frac) ∧
    0 ≤ whole ∧ str_all is_digit frac = true ∧ strlen frac ≤ d ∧
    (∀ p, frac ≠ p +:+ "0") ∧
    value = whole * 10 ^ d + dec_value frac * 10 ^ (d - strlen frac).
Proof.
  intros Hv Hd Hs. unfold units in Hs. destruct (Z.eqb_spec d 0) as [->|Hne].
  - injection Hs as <-. exists value, "".
    split_and!; [done | done | done | done | by intros [] | change (value = value * 1 + 0 * 1); lia].
  - destruct (Z.ltb_spec d 0); [lia|]. injection Hs as <-.
    assert (0 < 10 ^ d) as Hp by (apply Z.pow_pos_nonneg; lia).
    rewrite Z.rem_mod_nonneg, Z.quot_div_nonneg by lia.
    pose proof (Z.mod_pos_bound value (10 ^ d) Hp) as Hm.
    destruct (trimmed_fraction d (value mod 10 ^ d)) as (Hall & Hlen & Hval & Hlast); [lia..|].
    exists (value / 10 ^ d), (trimZeros (padStart0 d (pretty (value mod 10 ^ d)))).
    split_and!; [done | by apply Z.div_pos | done..|].
    rewrite <- Hval. pose proof (Z.div_mod value (10 ^ d)). lia.
Qed.

Lemma units_reads_back_witness :
  ∃ whole frac,
    "1.05" = (if decide (frac = "") then pretty whole else pretty whole +:+ "." +:+ frac) ∧
    0 ≤ whole ∧ str_all is_digit frac = true ∧ strlen frac ≤ 3 ∧
    (∀ p, frac ≠ p +:+ "0") ∧
    1050 = whole * 10 ^ 3 + dec_value frac * 10 ^ (3 - strlen frac).
Proof. apply (units_reads_back 1050 3); [lia | lia | by vm_compute]. Defined.
