(* ===== verification/Evm.v ===== *)
(** * The EVM backend

    Models [packages/weighted-treasury/src/evm.ts]: a spec compiled to the
    install inputs of the weighted multisig and the address book plugins. *)

From S2P Require Import Prelude.
From S2P Require Import Js.
From S2P Require Import Decimal.
From S2P Require Import Coalitions.
From S2P Require Import TreasurySpec.

Record EvmOwner := { eo_address : string; eo_weight : Z }.

Record EvmTreasuryConfig := {
  ec_owners : list EvmOwner;
  ec_thresholdWeight : Z;
  ec_allowlist : list string;
  ec_notes : list string
}.

Definition evmFail {A} (reason : string) : result compile_error A :=
  Throw (SpecNotExpressible evm reason).

(** [spec.owners.map(...)] *)
Definition evmOwner (owner : TreasuryOwner) : result compile_error EvmOwner :=
  match truthy (owner_evm owner) with
  | None => evmFail ("owner " +:+ q +:+ owner_id owner +:+ q +:+ " has no EVM address")
  | Some a => mret {| eo_address := toLowerCase a; eo_weight := toZ (owner_weight owner) |}
  end.

(** The loop that refuses a repeated address. *)
Fixpoint distinctAddresses (owners : list EvmOwner) (seen : gset string)
    : result compile_error () :=
  match owners with
  | [] => mret tt
  | o :: owners =>
      throw_if (bool_decide (eo_address o ∈ seen))
        (SpecNotExpressible evm ("EVM address " +:+ eo_address o +:+ " appears on two owners")) ≫= λ _,
      distinctAddresses owners ({[eo_address o]} ∪ seen)
  end.

(** [spec.allowlist.map((recipient, i) => ...)] *)
Definition evmRecipient (ir : nat * AllowedRecipient) : result compile_error string :=
  match truthy (recipient_evm ir.2) with
  | None => evmFail ("allowlist entry " +:+ default (pretty ir.1) (recipient_label ir.2)
      +:+ " has no EVM address")
  | Some a => mret (toLowerCase a)
  end.

(** The loop that refuses budgets. *)
Fixpoint refuseBudgets (assets : list TreasuryAsset) : result compile_error () :=
  match assets with
  | [] => mret tt
  | asset :: assets =>
      match budget asset with
      | Some _ => evmFail (symbol asset +:+ ": per-period budgets have no EVM enforcement on the weighted multisig; remove the budget or enforce it with a session-key grant")
      | None => refuseBudgets assets
      end
  end.

Definition evmNotes (s : WeightedTreasurySpec) : list string :=
  if 0 <? toZ (adminTimelockSeconds s) then
    ["adminTimelockSeconds=" +:+ numToString (adminTimelockSeconds s) +:+ " applies on Squads only; Circle's weighted multisig executes admin changes immediately"]
  else [].

Definition compileEvm (s : WeightedTreasurySpec) : result compile_error EvmTreasuryConfig :=
  validateSpec s ≫= λ _,
  throw_if (MAX_EVM_OWNERS <? Z.of_nat (length (owners s)))
    (SpecNotExpressible evm ("more than " +:+ pretty MAX_EVM_OWNERS +:+ " owners")) ≫= λ _,
  owners' ← mapM evmOwner (owners s);
  distinctAddresses owners' ∅ ≫= λ _,
  allowlist' ← mapM evmRecipient (imap pair (allowlist s));
  refuseBudgets (assets s) ≫= λ _,
  mret {| ec_owners := owners'; ec_thresholdWeight := toZ (thresholdWeight s);
          ec_allowlist := js_set allowlist'; ec_notes := evmNotes s |}.

(** ** What a spec needs to compile to EVM *)

(** The lower-cased EVM address of an owner or recipient that has one. *)
Definition lowerEvm (x : option string) : string := toLowerCase (default "" x).

Record evm_expressible (s : WeightedTreasurySpec) : Prop := {
  ee_count : (length (owners s) ≤ 1000)%nat;
  ee_address : ∀ o, o ∈ owners s → truthy (owner_evm o) ≠ None;
  ee_distinct : NoDup ((λ o, lowerEvm (owner_evm o)) <$> owners s);
  ee_recipients : ∀ r, r ∈ allowlist s → truthy (recipient_evm r) ≠ None;
  ee_budgets : ∀ a, a ∈ assets s → budget a = None
}.

Definition evm_config (s : WeightedTreasurySpec) : EvmTreasuryConfig :=
  {| ec_owners := (λ o, {| eo_address := lowerEvm (owner_evm o); eo_weight := toZ (owner_weight o) |})
       <$> owners s;
     ec_thresholdWeight := toZ (thresholdWeight s);
     ec_allowlist := js_set ((λ r, lowerEvm (recipient_evm r)) <$> allowlist s);
     ec_notes := evmNotes s |}.

Lemma evmOwner_ok o e :
  evmOwner o = Ok e ↔ truthy (owner_evm o) ≠ None ∧
    e = {| eo_address := lowerEvm (owner_evm o); eo_weight := toZ (owner_weight o) |}.
Proof.
  unfold evmOwner, lowerEvm. destruct (truthy (owner_evm o)) as [a|] eqn:E.
  - apply truthy_some in E as [-> _]. simpl. rewrite mret_ok. naive_solver.
  - split; [done|]. by intros [? _].
Qed.

Lemma evmRecipient_ok ir a :
  evmRecipient ir = Ok a ↔ truthy (recipient_evm ir.2) ≠ None ∧ a = lowerEvm (recipient_evm ir.2).
Proof.
  unfold evmRecipient, lowerEvm. destruct (truthy (recipient_evm ir.2)) as [b|] eqn:E.
  - apply truthy_some in E as [-> _]. simpl. rewrite mret_ok. naive_solver.
  - split; [done|]. by intros [? _].
Qed.

Lemma distinctAddresses_spec l seen :
  distinctAddresses l seen = Ok tt ↔
  NoDup (eo_address <$> l) ∧ ∀ o, o ∈ l → eo_address o ∉ seen.
Proof.
  revert seen. induction l as [|o l IH]; intros seen; cbn [distinctAddresses].
  - split; [|done]. intros _. split; [constructor | set_solver].
  - rewrite throw_if_bind_ok, bool_decide_eq_false, IH, fmap_cons, NoDup_cons.
    setoid_rewrite elem_of_cons. setoid_rewrite list_elem_of_fmap. set_solver.
Qed.

Lemma refuseBudgets_spec l : refuseBudgets l = Ok tt ↔ ∀ a, a ∈ l → budget a = None.
Proof.
  induction l as [|a l IH]; cbn [refuseBudgets]; [set_solver|].
  destruct (budget a) eqn:E; [split; [done|] | rewrite IH]; set_solver.
Qed.

Lemma evmOwners_ok os k :
  mapM evmOwner os = Ok k ↔ (∀ o, o ∈ os → truthy (owner_evm o) ≠ None) ∧
    k = (λ o, {| eo_address := lowerEvm (owner_evm o); eo_weight := toZ (owner_weight o) |}) <$> os.
Proof. rewrite (mapM_ok_pure evmOwner _ _ evmOwner_ok). done. Qed.

Lemma evmRecipients_ok l k :
  mapM evmRecipient (imap pair l) = Ok k ↔
  (∀ r, r ∈ l → truthy (recipient_evm r) ≠ None) ∧ k = (λ r, lowerEvm (recipient_evm r)) <$> l.
Proof.
  rewrite (mapM_ok_pure evmRecipient _ _ evmRecipient_ok).
  rewrite (forall_imap_pair (λ r, truthy (recipient_evm r) ≠ None)).
  by rewrite (fmap_imap_pair (λ r, lowerEvm (recipient_evm r))).
Qed.

Lemma compileEvm_ok s c :
  compileEvm s = Ok c ↔ valid_spec s ∧ evm_expressible s ∧ c = evm_config s.
Proof.
  unfold compileEvm. rewrite <- validateSpec_ok, bind_ok.
  assert (∀ P : () → Prop, (∃ a, validateSpec s = Ok a ∧ P a) ↔ validateSpec s = Ok tt ∧ P tt) as ->.
  { split; [intros ([] & ? & ?) | intros [? ?]]; eauto. }
  f_equiv. rewrite throw_if_bind_ok, bind_ok. setoid_rewrite evmOwners_ok.
  setoid_rewrite bind_ok. setoid_rewrite bind_ok. setoid_rewrite evmRecipients_ok.
  setoid_rewrite bind_ok. setoid_rewrite mret_ok. split.
  - intros (Hn & k & [Ho ->] & [] & Hd & al & [Hr ->] & [] & Hb & <-).
    split; [|done]. apply distinctAddresses_spec in Hd as [Hd _].
    rewrite <- list_fmap_compose in Hd. split; [|done..|by apply refuseBudgets_spec].
    unfold MAX_EVM_OWNERS in Hn. zify_bool. lia.
  - intros [[Hn Ho Hd Hr Hb] ->]. unfold MAX_EVM_OWNERS. split; [zify_bool; lia|].
    eexists. split; [done|]. exists tt. split.
    { apply distinctAddresses_spec. rewrite <- list_fmap_compose. set_solver. }
    eexists. split; [done|]. exists tt. split; [by apply refuseBudgets_spec | done].
Qed.

Lemma evmOwners_throws os e :
  mapM evmOwner os = Throw e → ∃ reason, e = SpecNotExpressible evm reason.
Proof.
  apply (mapM_throws _ (λ e, ∃ reason, e = SpecNotExpressible evm reason)). intros o e'. unfold evmOwner, evmFail. case_match; [done|].
  intros [= <-]. eauto.
Qed.

Lemma evmRecipients_throws l e :
  mapM evmRecipient l = Throw e → ∃ reason, e = SpecNotExpressible evm reason.
Proof.
  apply (mapM_throws _ (λ e, ∃ reason, e = SpecNotExpressible evm reason)). intros o e'. unfold evmRecipient, evmFail. case_match; [done|].
  intros [= <-]. eauto.
Qed.

Lemma distinctAddresses_throws l seen e :
  distinctAddresses l seen = Throw e → ∃ reason, e = SpecNotExpressible evm reason.
Proof.
  revert seen. induction l as [|o l IH]; intros seen; cbn [distinctAddresses]; [done|].
  rewrite throw_if_bind. case_match; [intros [= <-]; eauto | apply IH].
Qed.

Lemma refuseBudgets_throws l e :
  refuseBudgets l = Throw e → ∃ reason, e = SpecNotExpressible evm reason.
Proof.
  induction l as [|a l IH]; cbn [refuseBudgets]; [done|].
  case_match; [intros [= <-]; eauto | done].
Qed.

Lemma compileEvm_throws s e :
  compileEvm s = Throw e → ∃ b reason, e = SpecNotExpressible b reason ∧
    (b = spec ∨ b = evm).
Proof.
  assert (∀ b, (∃ reason, e = SpecNotExpressible b reason) → b = spec ∨ b = evm →
    ∃ b reason, e = SpecNotExpressible b reason ∧ (b = spec ∨ b = evm)) as Hb by naive_solver.
  unfold compileEvm. intros H.
  apply bind_throw in H as [H|(_ & _ & H)]; [apply (Hb spec); [by eapply validateSpec_throws | by left]|].
  apply (Hb evm); [|by right].
  apply bind_throw in H as [H|(_ & _ & H)];
    [unfold throw_if in H; case_match; [injection H as <-; by eexists | done]|].
  apply bind_throw in H as [H|(? & _ & H)]; [by eapply evmOwners_throws|].
  apply bind_throw in H as [H|(_ & _ & H)]; [by eapply distinctAddresses_throws|].
  apply bind_throw in H as [H|(? & _ & H)]; [by eapply evmRecipients_throws|].
  apply bind_throw in H as [H|(_ & _ & H)]; [by eapply refuseBudgets_throws | done].
Qed.

(** The owners of a config as weighted members identified by their address. *)
Definition config_members (c : EvmTreasuryConfig) : list WeightedMember :=
  (λ o, {| member_id := eo_address o; member_weight := eo_weight o |}) <$> ec_owners c.

(** The addresses of the owners whose ids are in [ids]. *)
Definition addresses_of (s : WeightedTreasurySpec) (ids : gset string) : gset string :=
  list_to_set ((λ o, lowerEvm (owner_evm o)) <$> filter (λ o, owner_id o ∈ ids) (owners s)).

Lemma evm_quorum s ids :
  evm_expressible s →
  isWinning (config_members (evm_config s)) (ec_thresholdWeight (evm_config s)) (addresses_of s ids)
  = isWinning (spec_members s) (toZ (thresholdWeight s)) ids.
Proof.
  intros He. rewrite !isWinning_eq. cbn [ec_thresholdWeight evm_config]. f_equal.
  unfold config_members, spec_members, addresses_of. cbn [ec_owners evm_config].
  rewrite <- list_fmap_compose, !filter_fmap. unfold compose. cbn [member_id eo_address].
  rewrite filter_image by apply He. unfold weight_sum. by rewrite <- !list_fmap_compose.
Qed.

(** ** Properties *)

(** C36: [compileEvm] compiles exactly the well-formed specs that EVM can express (at
    most 1000 owners, an EVM address for every owner and recipient, distinct
    owners after lower-casing, no budget), to the owners in order with their
    weights and the lower-cased allowlist; every other spec is refused with a
    [SpecNotExpressible]. *)
Theorem compileEvm_correct s :
  valid_spec s ∧ evm_expressible s ∧ compileEvm s = Ok (evm_config s) ∨
  ¬ (valid_spec s ∧ evm_expressible s) ∧
    ∃ b reason, compileEvm s = Throw (SpecNotExpressible b reason) ∧ (b = spec ∨ b = evm).
Proof.
  pose proof (compileEvm_ok s) as Hok.
  destruct (compileEvm s) as [c|e] eqn:E; [left | right].
  - destruct (proj1 (Hok c) eq_refl) as (? & ? & ->). done.
  - split; [intros [H1 H2]; discriminate (proj2 (Hok (evm_config s)) (conj H1 (conj H2 eq_refl)))|].
    apply compileEvm_throws in E as (b & reason & -> & ?). eauto.
Qed.

(** The compiled config means what the spec means: a group of owners reaches
    the installed threshold with its addresses iff it reaches the spec's
    threshold, and the address book holds, once each and lower-cased, exactly
    the spec's recipients. *)
Theorem evm_parity s c :
  compileEvm s = Ok c →
  (∀ ids, isWinning (config_members c) (ec_thresholdWeight c) (addresses_of s ids)
          = isWinning (spec_members s) (toZ (thresholdWeight s)) ids) ∧
  NoDup (ec_allowlist c) ∧
  ∀ a, a ∈ ec_allowlist c ↔
    ∃ r raw, r ∈ allowlist s ∧ recipient_evm r = Some raw ∧ raw ≠ "" ∧ a = toLowerCase raw.
Proof.
  intros (Hv & He & ->)%compileEvm_ok. split_and!.
  - intros ids. by apply evm_quorum.
  - apply js_set_nodup.
  - intros a. cbn [ec_allowlist evm_config]. rewrite js_set_elem, list_elem_of_fmap.
    destruct He as [_ _ _ Hr _]. split.
    + intros (r & -> & Hin). specialize (Hr r Hin).
      destruct (truthy (recipient_evm r)) as [raw|] eqn:E; [|done].
      apply truthy_some in E as [E Hne]. exists r, raw. unfold lowerEvm. by rewrite E.
    + intros (r & raw & Hin & E & _ & ->). exists r. unfold lowerEvm. by rewrite E.
Qed.

Lemma evm_parity_witness :
  isWinning (config_members (evm_config example_spec)) 5 (addresses_of example_spec {["a"; "c"]})
    = isWinning (spec_members example_spec) 5 {["a"; "c"]} ∧
  "0xee" ∈ ec_allowlist (evm_config example_spec).
Proof.
  split; [|by apply (bool_decide_unpack _); vm_compute].
  assert (compileEvm example_spec = Ok (evm_config example_spec)) as H by by vm_compute.
  exact (proj1 (evm_parity example_spec (evm_config example_spec) H) {["a"; "c"]}).
Defined.
