(* ===== verification/Squads.v ===== *)
(** * The Solana backend: Squads smart accounts

    Models [packages/weighted-treasury/src/squads/compile.ts] (a spec compiled to
    a settings account and one spending-limit policy per minimal winning
    coalition and asset). *)

From S2P Require Import Prelude.
From S2P Require Import Js.
From S2P Require Import Coalitions.
From S2P Require Import TreasurySpec.
From S2P Require Import Judge.
From S2P Require Import Evm.

Definition SMART_ACCOUNT_PROGRAM_ID : string := "SMRTzfY6DfH5ik3TKiyLFfXexV8uSG3d2UksSCYdunG".
Definition NATIVE_SOL_MINT : string := "11111111111111111111111111111111".
Definition ALL_PERMISSIONS : Z := 7.
Definition U64_MAX : Z := Z.shiftl 1 64 - 1.
Definition DEFAULT_MAX_POLICIES : Z := 64.

Inductive SquadsPeriod := OneTime | Daily | Weekly | Monthly | Custom (seconds : Z).

Record SquadsSigner := { key : string; mask : Z }.
#[global] Instance SquadsSigner_eq_dec : EqDecision SquadsSigner.
Proof. solve_decision. Defined.

Record TimeConstraints := {
  start : Z; expiration : option Z; sq_period : SquadsPeriod; accumulateUnused : bool
}.
Record QuantityConstraints := {
  q_maxPerPeriod : Z; q_maxPerUse : Z; enforceExactQuantity : bool
}.
Record SpendingLimit := {
  mint : string;
  sourceAccountIndex : Z;
  destinations : list string;
  timeConstraints : TimeConstraints;
  quantityConstraints : QuantityConstraints
}.

Record SquadsSpendingLimitPolicy := {
  coalition : list string;
  asset : string;
  signers : list SquadsSigner;
  threshold : Z;
  timeLock : Z;
  payload : SpendingLimit
}.

Record SquadsSettings := { set_signers : list SquadsSigner; set_threshold : Z; set_timeLock : Z }.

Record SquadsTreasuryPlan := {
  programId : string;
  settings : SquadsSettings;
  policies : list SquadsSpendingLimitPolicy;
  plan_sourceAccountIndex : Z;
  plan_notes : list string
}.

Record CompileSquadsOptions := { opt_maxPolicies : option Z; opt_sourceAccountIndex : option Z }.

Definition squadsFail {A} (reason : string) : result compile_error A :=
  Throw (SpecNotExpressible squads reason).

(** The values of a [Map]. *)
Definition map_values (m : gmap string string) : list string := (map_to_list m).*2.

(** The loop that fills [keyOf]. *)
Fixpoint keyOf_loop (os : list TreasuryOwner) (keyOf : gmap string string)
    : result compile_error (gmap string string) :=
  match os with
  | [] => mret keyOf
  | owner :: os =>
      match truthy (owner_solana owner) with
      | None => squadsFail ("owner " +:+ q +:+ owner_id owner +:+ q +:+ " has no Solana key")
      | Some k =>
          throw_if (bool_decide (k ∈ map_values keyOf))
            (SpecNotExpressible squads ("Solana key " +:+ k +:+ " appears on two owners")) ≫= λ _,
          keyOf_loop os (<[owner_id owner := k]> keyOf)
      end
  end.

(** [recipient.solana ?? fail(...)]: only an absent wallet fails. *)
Definition squadsRecipient (ir : nat * AllowedRecipient) : result compile_error string :=
  match recipient_solana ir.2 with
  | None => squadsFail ("allowlist entry " +:+ default (pretty ir.1) (recipient_label ir.2)
      +:+ " has no Solana wallet")
  | Some w => mret w
  end.

(** [BigInt(period.customSeconds)] is only reached with a validated integer. *)
Definition toSquadsPeriod (p : Period) : SquadsPeriod :=
  match p with
  | custom n => Custom (toZ n)
  | oneTime => OneTime
  | daily => Daily
  | weekly => Weekly
  | monthly => Monthly
  end.

(** The ids come from the owners, so [keyOf.get(id)!] is never undefined. *)
Definition signerOf (keyOf : gmap string string) (id : string) : SquadsSigner :=
  {| key := default "undefined" (keyOf !! id); mask := ALL_PERMISSIONS |}.

(** The mint of an asset, or the refusal. *)
Definition assetMint (a : TreasuryAsset) : result compile_error string :=
  m ← match solanaMint a with
      | Some m => mret (if decide (m = "native") then NATIVE_SOL_MINT else m)
      | None => squadsFail (symbol a +:+ " has no Solana mint")
      end;
  throw_if (bool_decide (m = NATIVE_SOL_MINT)
            && match solanaDecimals a with Some d => bool_decide (d ≠ JInt 9) | None => false end)
    (SpecNotExpressible squads "native SOL transfers require decimals = 9") ≫= λ _,
  mret m.

Definition policyFor (keyOf : gmap string string) (dests : list string) (index : Z)
    (a : TreasuryAsset) (m : string) (c : list string) : SquadsSpendingLimitPolicy :=
  {| coalition := c;
     asset := symbol a;
     signers := signerOf keyOf <$> c;
     threshold := Z.of_nat (length c);
     timeLock := 0;
     payload := {|
       mint := m;
       sourceAccountIndex := index;
       destinations := dests;
       timeConstraints := {|
         start := 0; expiration := None;
         sq_period := match budget a with Some b => toSquadsPeriod (period b) | None => Daily end;
         accumulateUnused := false |};
       quantityConstraints := {|
         q_maxPerPeriod := match budget a with Some b => maxPerPeriod b | None => U64_MAX end;
         q_maxPerUse := default 0 (budget a ≫= maxPerUse);
         enforceExactQuantity := false |} |} |}.

(** The two nested loops that push the policies. *)
Fixpoint policies_loop (keyOf : gmap string string) (dests : list string) (index : Z)
    (cs : list (list string)) (assets : list TreasuryAsset)
    : result compile_error (list SquadsSpendingLimitPolicy) :=
  match assets with
  | [] => mret []
  | a :: assets =>
      m ← assetMint a;
      rest ← policies_loop keyOf dests index cs assets;
      mret ((policyFor keyOf dests index a m <$> cs) ++ rest)
  end.

Definition lift_js {A} (r : result js_error A) : result compile_error A :=
  match r with Ok a => Ok a | Throw e => Throw (JsError e) end.

Definition squadsNotes (s : WeightedTreasurySpec) (ncs policyCount : Z) : list string :=
  ["admin (owners, weights, allowlist) requires ALL " +:+ pretty (Z.of_nat (length (owners s)))
     +:+ " owners on Squads, stricter than the weighted quorum on EVM";
   "the settings quorum (all owners) can also run arbitrary vault transactions, as the EVM quorum can by uninstalling the AddressBook";
   pretty ncs +:+ " minimal winning coalition(s) × " +:+ pretty (Z.of_nat (length (assets s)))
     +:+ " asset(s) = " +:+ pretty policyCount +:+ " policies"]
  ++ (if decide (adminTimelockSeconds s = JInt 0)
      then ["adminTimelockSeconds is 0: an approved admin change lands immediately"] else []).

Definition compileSquads (s : WeightedTreasurySpec) (options : CompileSquadsOptions)
    : result compile_error SquadsTreasuryPlan :=
  validateSpec s ≫= λ _,
  let maxPolicies := default DEFAULT_MAX_POLICIES (opt_maxPolicies options) in
  let index := default 0 (opt_sourceAccountIndex options) in
  keyOf ← keyOf_loop (owners s) ∅;
  raw ← mapM squadsRecipient (imap pair (allowlist s));
  let dests := js_set raw in
  throw_if (Nat.eqb (length dests) 0)
    (SpecNotExpressible squads "empty destinations would allow any address") ≫= λ _,
  cs ← lift_js (minimalWinningCoalitions (spec_members s) (toZ (thresholdWeight s)));
  let ncs := Z.of_nat (length cs) in
  let policyCount := ncs * Z.of_nat (length (assets s)) in
  throw_if (maxPolicies <? policyCount)
    (SpecNotExpressible squads (pretty ncs +:+ " minimal coalitions × "
      +:+ pretty (Z.of_nat (length (assets s))) +:+ " assets = " +:+ pretty policyCount
      +:+ " policies, over the cap of " +:+ pretty maxPolicies
      +:+ "; flatten the weights or reduce assets")) ≫= λ _,
  ps ← policies_loop keyOf dests index cs (assets s);
  mret {| programId := SMART_ACCOUNT_PROGRAM_ID;
          settings := {| set_signers := (λ o, signerOf keyOf (owner_id o)) <$> owners s;
                         set_threshold := Z.of_nat (length (owners s));
                         set_timeLock := toZ (adminTimelockSeconds s) |};
          policies := ps;
          plan_sourceAccountIndex := index;
          plan_notes := squadsNotes s ncs policyCount |}.

(** ** What a spec needs to compile to Squads *)

Definition solanaKey (o : TreasuryOwner) : string := default "" (owner_solana o).

Definition mintOf (a : TreasuryAsset) : string :=
  let m := default "" (solanaMint a) in if decide (m = "native") then NATIVE_SOL_MINT else m.

Definition coalitions_of (s : WeightedTreasurySpec) : list (list string) :=
  match minimalWinningCoalitions (spec_members s) (toZ (thresholdWeight s)) with
  | Ok cs => cs
  | Throw _ => []
  end.

Definition policy_count (s : WeightedTreasurySpec) : Z :=
  Z.of_nat (length (coalitions_of s)) * Z.of_nat (length (assets s)).

Record squads_expressible (s : WeightedTreasurySpec) (options : CompileSquadsOptions) : Prop := {
  se_key : ∀ o, o ∈ owners s → truthy (owner_solana o) ≠ None;
  se_distinct : NoDup (solanaKey <$> owners s);
  se_wallets : ∀ r, r ∈ allowlist s → recipient_solana r ≠ None;
  se_count : (length (owners s) ≤ 20)%nat;
  se_cap : policy_count s ≤ default DEFAULT_MAX_POLICIES (opt_maxPolicies options);
  se_mints : ∀ a, a ∈ assets s → solanaMint a ≠ None ∧
    (mintOf a = NATIVE_SOL_MINT → ∀ d, solanaDecimals a = Some d → d = JInt 9)
}.

(** [keyOf] after the loop. *)
Definition key_map (os : list TreasuryOwner) (m : gmap string string) : gmap string string :=
  foldl (λ m o, <[owner_id o := solanaKey o]> m) m os.

Definition squads_plan (s : WeightedTreasurySpec) (options : CompileSquadsOptions)
    : SquadsTreasuryPlan :=
  let index := default 0 (opt_sourceAccountIndex options) in
  let keyOf := key_map (owners s) ∅ in
  let dests := js_set ((λ r, default "" (recipient_solana r)) <$> allowlist s) in
  {| programId := SMART_ACCOUNT_PROGRAM_ID;
     settings := {| set_signers := (λ o, signerOf keyOf (owner_id o)) <$> owners s;
                    set_threshold := Z.of_nat (length (owners s));
                    set_timeLock := toZ (adminTimelockSeconds s) |};
     policies := assets s ≫= λ a, policyFor keyOf dests index a (mintOf a) <$> coalitions_of s;
     plan_sourceAccountIndex := index;
     plan_notes := squadsNotes s (Z.of_nat (length (coalitions_of s))) (policy_count s) |}.

Lemma map_values_empty v : v ∉ map_values ∅.
Proof. unfold map_values. rewrite map_to_list_empty. apply not_elem_of_nil. Qed.

Lemma map_values_insert (m : gmap string string) i x v :
  m !! i = None → v ∈ map_values (<[i := x]> m) ↔ v = x ∨ v ∈ map_values m.
Proof.
  intros Hi. unfold map_values. rewrite map_to_list_insert by done. simpl. by rewrite elem_of_cons.
Qed.

Lemma truthy_solana o : truthy (owner_solana o) ≠ None ↔ truthy (owner_solana o) = Some (solanaKey o).
Proof.
  unfold solanaKey. destruct (truthy (owner_solana o)) as [k|] eqn:E; [|done].
  apply truthy_some in E as [-> _]. done.
Qed.

Lemma keyOf_loop_ok os m m' :
  NoDup (owner_id <$> os) → (∀ o, o ∈ os → m !! owner_id o = None) →
  keyOf_loop os m = Ok m' ↔
    (∀ o, o ∈ os → truthy (owner_solana o) ≠ None) ∧ NoDup (solanaKey <$> os) ∧
    (∀ o, o ∈ os → solanaKey o ∉ map_values m) ∧ m' = key_map os m.
Proof.
  revert m. induction os as [|o os IH]; intros m; cbn [keyOf_loop].
  - intros _ _. split; [intros [= <-] | by intros (_ & _ & _ & ->)].
    split_and!; [set_solver | constructor | set_solver | done].
  - rewrite !fmap_cons, !NoDup_cons. intros [Hni Hnd] Hm.
    assert (m !! owner_id o = None) as Hmo by set_solver.
    destruct (truthy (owner_solana o)) as [k|] eqn:Ek.
    + assert (k = solanaKey o) as ->.
      { apply truthy_some in Ek as [E _]. unfold solanaKey. by rewrite E. }
      rewrite throw_if_bind_ok, bool_decide_eq_false, IH; [|done|].
      * setoid_rewrite (map_values_insert _ _ _ _ Hmo). setoid_rewrite elem_of_cons.
        rewrite list_elem_of_fmap. cbn [key_map foldl]. fold (key_map os).
        split.
        -- intros (H1 & H2 & H3 & H4 & ->). split; [intros o' [->|?]; [by rewrite Ek | auto]|].
           split; [split; [intros (o' & ? & ?); naive_solver | done]|].
           split; [|done]. intros o' [->|?]; naive_solver.
        -- intros (H1 & [H2 H3] & H4 & ->). split_and!; auto.
           intros o' Hin [E|?]; [apply H2; eauto | by apply (H4 o'); auto].
      * intros o' Hin. rewrite lookup_insert_ne; [set_solver|]. intros E. apply Hni.
        rewrite E. by apply list_elem_of_fmap_2.
    + split; [done|]. intros (H & _). destruct (H o); [left | done].
Qed.

Lemma key_map_lookup os m :
  NoDup (owner_id <$> os) →
  (∀ o, o ∈ os → key_map os m !! owner_id o = Some (solanaKey o)) ∧
  (∀ id, id ∉ owner_id <$> os → key_map os m !! id = m !! id).
Proof.
  revert m. induction os as [|o os IH]; intros m; [set_solver|].
  rewrite fmap_cons, NoDup_cons. intros [Hni Hnd]. cbn [key_map foldl]. fold (key_map os).
  destruct (IH (<[owner_id o := solanaKey o]> m) Hnd) as [IH1 IH2]. split.
  - intros o' [->|Hin]%elem_of_cons; [|auto]. rewrite IH2 by done. apply lookup_insert_eq.
  - intros id [Hne Hid]%not_elem_of_cons. rewrite IH2 by done. by apply lookup_insert_ne.
Qed.

Lemma squadsRecipients_ok l k :
  mapM squadsRecipient (imap pair l) = Ok k ↔
  (∀ r, r ∈ l → recipient_solana r ≠ None) ∧ k = (λ r, default "" (recipient_solana r)) <$> l.
Proof.
  rewrite (mapM_ok_pure squadsRecipient (λ ir, recipient_solana ir.2 ≠ None)
    (λ ir, default "" (recipient_solana ir.2))).
  - rewrite (forall_imap_pair (λ r, recipient_solana r ≠ None)).
    by rewrite (fmap_imap_pair (λ r, default "" (recipient_solana r))).
  - intros ir y. unfold squadsRecipient. destruct (recipient_solana ir.2); simpl.
    + rewrite mret_ok. naive_solver.
    + split; [done | by intros [? _]].
Qed.

Lemma assetMint_ok a m :
  assetMint a = Ok m ↔ (solanaMint a ≠ None ∧
    (mintOf a = NATIVE_SOL_MINT → ∀ d, solanaDecimals a = Some d → d = JInt 9)) ∧ m = mintOf a.
Proof.
  unfold assetMint, mintOf. destruct (solanaMint a) as [m0|]; simpl; [|split; [done | naive_solver]].
  set (m1 := if decide (m0 = "native") then NATIVE_SOL_MINT else m0).
  rewrite throw_if_bind_ok, mret_ok, andb_false_iff, bool_decide_eq_false.
  destruct (solanaDecimals a) as [d|]; [|naive_solver].
  rewrite bool_decide_eq_false. destruct (decide (d = JInt 9)), (decide (m1 = NATIVE_SOL_MINT));
    naive_solver.
Qed.

Lemma policies_loop_ok keyOf dests index cs l ps :
  policies_loop keyOf dests index cs l = Ok ps ↔
  (∀ a, a ∈ l → solanaMint a ≠ None ∧
    (mintOf a = NATIVE_SOL_MINT → ∀ d, solanaDecimals a = Some d → d = JInt 9)) ∧
  ps = l ≫= λ a, policyFor keyOf dests index a (mintOf a) <$> cs.
Proof.
  revert ps. induction l as [|a l IH]; intros ps; cbn [policies_loop].
  - rewrite mret_ok. set_solver.
  - rewrite bind_cons. split.
    + intros H. ok_inv. apply assetMint_ok in Hr as [Ha ->]. apply IH in Hr0 as [Hl ->]. subst ps.
      split; [|done]. intros a' [->|?]%elem_of_cons; auto.
    + intros [Ha ->].
      rewrite (proj2 (assetMint_ok a (mintOf a))) by (split; [apply Ha; left | done]).
      cbn [mbind result_bind].
      rewrite (proj2 (IH _)) by (split; [intros; apply Ha; by right | done]). done.
Qed.

Lemma coalitions_of_ok s cs :
  minimalWinningCoalitions (spec_members s) (toZ (thresholdWeight s)) = Ok cs ↔
  (length (owners s) ≤ 20)%nat ∧ cs = coalitions_of s.
Proof.
  unfold coalitions_of, minimalWinningCoalitions, spec_members, MAX_ENUMERABLE_OWNERS.
  rewrite length_fmap. destruct (Z.ltb_spec 20 (Z.of_nat (length (owners s)))) as [H|H].
  - split; [done | intros [? _]; lia].
  - split; [intros [= <-]; split; [lia | done] | by intros [_ ->]].
Qed.

Lemma compileSquads_ok s options plan :
  compileSquads s options = Ok plan ↔
  valid_spec s ∧ squads_expressible s options ∧ plan = squads_plan s options.
Proof.
  unfold compileSquads. split.
  - intros H. ok_inv. destruct r. apply validateSpec_ok in Hr. split; [done|].
    pose proof (vs_ids _ Hr) as Hids.
    apply keyOf_loop_ok in Hr0 as (Hk & Hd & _ & ->); [|done | by intros; apply lookup_empty].
    apply squadsRecipients_ok in Hr1 as [Hw ->].
    destruct (minimalWinningCoalitions _ _) as [cs|e] eqn:Ecs; [|done]. apply ok_inj in Hr3 as <-.
    apply coalitions_of_ok in Ecs as [Hn ->].
    apply policies_loop_ok in Hr5 as [Hm ->]. split; [|by rewrite <- H].
    split; try done. unfold policy_count. by zify_bool.
  - intros (Hv & [Hk Hd Hw Hn Hc Hm] & ->).
    rewrite (proj2 (validateSpec_ok s) Hv). cbn [mbind result_bind].
    rewrite (proj2 (keyOf_loop_ok (owners s) ∅ _ (vs_ids _ Hv) (λ o _, lookup_empty _))
      (conj Hk (conj Hd (conj (λ o _, map_values_empty _) eq_refl)))). cbn [mbind result_bind].
    rewrite (proj2 (squadsRecipients_ok _ _) (conj Hw eq_refl)). cbn [mbind result_bind].
    rewrite throw_if_bind.
    destruct (Nat.eqb_spec (length (js_set ((λ r, default "" (recipient_solana r)) <$> allowlist s))) 0)
      as [E|_].
    { apply length_zero_iff_nil, js_set_nil, fmap_nil_inv in E. by destruct (vs_allowlist _ Hv). }
    rewrite (proj2 (coalitions_of_ok s _) (conj Hn eq_refl)). cbn [lift_js mbind result_bind].
    rewrite throw_if_bind. unfold policy_count in Hc.
    destruct (Z.ltb_spec (default DEFAULT_MAX_POLICIES (opt_maxPolicies options))
      (Z.of_nat (length (coalitions_of s)) * Z.of_nat (length (assets s)))); [lia|].
    rewrite (proj2 (policies_loop_ok _ _ _ _ _ _) (conj Hm eq_refl)). done.
Qed.

(** ** The Squads Smart Account Program

    The on-chain program is not part of this repository, so it is a parameter:
    [accepts p ks spent x] says whether the program lets the co-signers [ks] use
    the policy [p] for the payment [x], where [spent w] is what this policy has
    already paid out in the window [w] current at the time of the payment.
    [SquadsLaws] states what its documentation, as the compiler's comments and
    docs/WEIGHTED-TREASURY-SQUADS.md quote it, says of a spending-limit policy. *)

Record PolicySpend := {
  ps_mint : string; ps_source : Z; ps_destination : string; ps_amount : Z;
  ps_available : Z; ps_now : Z
}.

(** The windows of the program, under the names the spec uses. *)
Definition periodName (p : SquadsPeriod) : Period :=
  match p with
  | OneTime => oneTime
  | Daily => daily
  | Weekly => weekly
  | Monthly => monthly
  | Custom n => custom (JInt n)
  end.

Class SquadsProgram :=
  accepts : SquadsSpendingLimitPolicy → gset string → (Period → Z) → PolicySpend → bool.

(** The limits of a policy that a payment it accepts has respected. *)
Record within_limits (p : SquadsSpendingLimitPolicy) (spent : Period → Z) (x : PolicySpend)
    : Prop := {
  wl_mint : ps_mint x = mint (payload p);
  wl_source : ps_source x = sourceAccountIndex (payload p);
  wl_destination : destinations (payload p) = [] ∨ ps_destination x ∈ destinations (payload p);
  wl_available : ps_amount x ≤ ps_available x;
  wl_period : spent (periodName (sq_period (timeConstraints (payload p)))) + ps_amount x
    ≤ q_maxPerPeriod (quantityConstraints (payload p));
  wl_use : q_maxPerUse (quantityConstraints (payload p)) = 0
    ∨ ps_amount x ≤ q_maxPerUse (quantityConstraints (payload p))
}.

(** A policy with nothing beyond those limits in the way of a payment: no
    timelock, begun, never expiring, any amount up to the caps. *)
Record unrestricted (p : SquadsSpendingLimitPolicy) (x : PolicySpend) : Prop := {
  un_timeLock : timeLock p = 0;
  un_start : start (timeConstraints (payload p)) ≤ ps_now x;
  un_expiration : expiration (timeConstraints (payload p)) = None;
  un_unused : accumulateUnused (timeConstraints (payload p)) = false;
  un_exact : enforceExactQuantity (quantityConstraints (payload p)) = false
}.

Class SquadsLaws (program : SquadsProgram) : Prop := {
  (** An accepted payment is co-signed by signers of the policy alone
      ([NotASigner]), by the policy's threshold of them ([InvalidSignerCount]),
      within its limits ([InvalidDestination], the caps, the mint and the vault
      of the policy, what the vault holds). *)
  accepts_limits p ks spent x :
    accepts p ks spent x = true →
    (∀ k, k ∈ ks → k ∈ key <$> signers p) ∧ threshold p ≤ Z.of_nat (size ks) ∧
    within_limits p spent x;
  (** A payment of something within the limits of an unrestricted policy is
      accepted when its threshold of signers, each with the permissions to
      initiate, vote and execute, co-sign it. *)
  accepts_cosigned p ks spent x :
    (∀ k, k ∈ ks → {| key := k; mask := ALL_PERMISSIONS |} ∈ signers p) →
    threshold p ≤ Z.of_nat (size ks) → unrestricted p x → within_limits p spent x →
    0 < ps_amount x → accepts p ks spent x = true
}.

(** The keys of the owners whose ids are in [ids]. *)
Definition keys_of (s : WeightedTreasurySpec) (ids : gset string) : gset string :=
  list_to_set (solanaKey <$> filter (λ o, owner_id o ∈ ids) (owners s)).

(** What a spec lets a coalition that has spent [spent] of an asset still spend of
    it at once: the rest of the budget's period, or of a day's u64 where the
    asset has no budget, and never more than the per-use cap. *)
Definition within_budget (a : TreasuryAsset) (spent : Period → Z) (amount : Z) : Prop :=
  match budget a with
  | None => spent daily + amount ≤ U64_MAX
  | Some b => spent (period b) + amount ≤ maxPerPeriod b ∧ ∀ u, maxPerUse b = Some u → amount ≤ u
  end.

Definition recipient_of (s : WeightedTreasurySpec) (dest : string) : Prop :=
  ∃ r, r ∈ allowlist s ∧ recipient_solana r = Some dest.

Lemma NoDup_fmap_sub {A B} (f : A → B) l k :
  NoDup l → (∀ x, x ∈ l → x ∈ k) → NoDup (f <$> k) → NoDup (f <$> l).
Proof.
  intros Hl Hsub Hk. apply NoDup_fmap_2_strong; [|done]. intros x y Hx Hy E.
  apply Hsub, list_elem_of_lookup in Hx as [i Hi]. apply Hsub, list_elem_of_lookup in Hy as [j Hj].
  assert (i = j) as ->; [|congruence].
  apply (NoDup_lookup (f <$> k) i j (f x)); [done|..]; rewrite list_lookup_fmap.
  - by rewrite Hi.
  - by rewrite Hj, E.
Qed.

(** The position of an element of two nested loops over [l] and [cs]. *)
Lemma lookup_bind_fmap {A B C} (f : A → C → B) (cs : list C) (l : list A) i y :
  (l ≫= λ a, f a <$> cs) !! i = Some y ↔
  ∃ j k a c, i = (j * length cs + k)%nat ∧ l !! j = Some a ∧ cs !! k = Some c ∧ y = f a c.
Proof.
  revert i. induction l as [|a l IH]; intros i.
  { split; [done | by intros (j & k & a & c & _ & ? & _)]. }
  rewrite bind_cons, lookup_app_Some, IH, length_fmap, list_lookup_fmap, fmap_Some. split.
  - intros [(c & ? & ->) | (Hle & j & k & a' & c & E & ? & ? & ->)].
    + by exists 0%nat, i, a, c.
    + exists (S j), k, a', c. split_and!; try done. lia.
  - intros ([|j] & k & a' & c & -> & Hj & Hk & ->).
    + injection Hj as ->. left. by exists c.
    + right. split; [lia|]. exists j, k, a', c. split_and!; try done. lia.
Qed.

Section plan.
  Context (s : WeightedTreasurySpec) (options : CompileSquadsOptions).
  Hypothesis Hv : valid_spec s.
  Hypothesis He : squads_expressible s options.

Let keyOf := key_map (owners s) ∅.

Lemma signerOf_owner o :
    o ∈ owners s → signerOf keyOf (owner_id o) = {| key := solanaKey o; mask := ALL_PERMISSIONS |}.
Proof using Hv.
    intros Ho. unfold signerOf, keyOf.
    by rewrite (proj1 (key_map_lookup _ ∅ (vs_ids _ Hv))).
Qed.

Lemma owner_by_id id : id ∈ owner_id <$> owners s → ∃ o, o ∈ owners s ∧ id = owner_id o.
Proof. rewrite list_elem_of_fmap. naive_solver. Qed.

Lemma keys_of_spec ids o : o ∈ owners s → solanaKey o ∈ keys_of s ids ↔ owner_id o ∈ ids.
Proof using He.
    intros Ho. pose proof (filter_image solanaKey (λ o, owner_id o ∈ ids) (owners s)
      (se_distinct _ _ He)) as E.
    assert (o ∈ filter (λ x, solanaKey x ∈ keys_of s ids) (owners s)
      ↔ o ∈ filter (λ o, owner_id o ∈ ids) (owners s)) as H by (unfold keys_of; by rewrite E).
    rewrite !list_elem_of_filter in H. tauto.
Qed.

Lemma coalition_facts c :
    c ∈ coalitions_of s →
    c ≠ [] ∧ NoDup c ∧ ∀ id, id ∈ c → ∃ o, o ∈ owners s ∧ id = owner_id o.
Proof using Hv He.
    intros Hc. pose proof (proj2 (coalitions_of_ok s _) (conj (se_count _ _ He) eq_refl)) as Hcs.
    destruct (vs_threshold _ Hv) as (t & Et & Ht).
    assert (1 ≤ toZ (thresholdWeight s)) as Ht' by (rewrite Et; simpl; lia).
    assert (member_id <$> spec_members s = owner_id <$> owners s) as Em
      by (unfold spec_members; by rewrite <- list_fmap_compose).
    pose proof (enumerated_ids _ _ _ Ht' Hcs c Hc) as Hsub. rewrite Em in Hsub.
    split_and!.
    - apply (enumerated_nonempty (spec_members s) (toZ (thresholdWeight s)) (coalitions_of s));
        [rewrite Em; apply Hv | done..].
    - eapply sublist_NoDup; [apply Hv | done].
    - intros id Hid. apply owner_by_id. by eapply elem_of_sublist.
Qed.

Let dests := js_set ((λ r, default "" (recipient_solana r)) <$> allowlist s).

Lemma dests_spec d : d ∈ dests ↔ recipient_of s d.
Proof using He.
    unfold dests, recipient_of. rewrite js_set_elem, list_elem_of_fmap. split.
    - intros (r & -> & Hr). pose proof (se_wallets _ _ He r Hr).
      destruct (recipient_solana r) eqn:E; [|done]. exists r. by rewrite E.
    - intros (r & Hr & E). exists r. by rewrite E.
Qed.

Lemma dests_nonempty : dests ≠ [].
Proof using Hv. intros E%js_set_nil%fmap_nil_inv. by destruct (vs_allowlist _ Hv). Qed.

Lemma policy_signers c :
    c ∈ coalitions_of s → ∃ os, c = owner_id <$> os ∧ (∀ o, o ∈ os → o ∈ owners s) ∧
      signerOf keyOf <$> c = (λ o, {| key := solanaKey o; mask := ALL_PERMISSIONS |}) <$> os.
Proof using Hv He.
    intros (_ & _ & Hids)%coalition_facts.
    induction c as [|id c IH]; [exists []; set_solver|].
    destruct IH as (os & -> & Hos & E); [by intros; apply Hids; right|].
    destruct (Hids id) as (o & Ho & ->); [left|]. exists (o :: os).
    rewrite !fmap_cons, E, signerOf_owner by done. set_solver.
Qed.

(** Some of the owners [ids] can co-sign a policy of the coalition [c] iff they
    include it. *)
Lemma policy_cosigned c a m index ids :
    c ∈ coalitions_of s →
    let p := policyFor keyOf dests index a m c in
    (∀ ks, ks ⊆ keys_of s ids → (∀ k, k ∈ ks → k ∈ key <$> signers p) →
       threshold p ≤ Z.of_nat (size ks) → ∀ id, id ∈ c → id ∈ ids) ∧
    ((∀ id, id ∈ c → id ∈ ids) → ∃ ks, ks ⊆ keys_of s ids ∧
       (∀ k, k ∈ ks → {| key := k; mask := ALL_PERMISSIONS |} ∈ signers p) ∧
       threshold p ≤ Z.of_nat (size ks)).
Proof using Hv He.
    intros Hc. destruct (coalition_facts c Hc) as (_ & Hnd & _).
    destruct (policy_signers c Hc) as (os & -> & Hos & E). apply NoDup_fmap_1 in Hnd.
    assert (NoDup (solanaKey <$> os)) as Hk
      by (apply (NoDup_fmap_sub solanaKey os (owners s)); [done..|apply He]).
    assert (size (list_to_set (solanaKey <$> os) : gset string) = length os) as Hsize
      by (by rewrite size_list_to_set, length_fmap).
    cbn [signers threshold policyFor]. rewrite E, length_fmap. split.
    - intros ks Hsub Hkeys Hn id (o & -> & Ho)%list_elem_of_fmap.
      assert (ks = list_to_set (solanaKey <$> os)) as ->.
      { apply set_subseteq_size_eq; [|lia]. intros k Hin%Hkeys.
        rewrite <- list_fmap_compose in Hin. by apply elem_of_list_to_set. }
      apply (keys_of_spec ids o); [auto|]. apply Hsub, elem_of_list_to_set.
      by apply list_elem_of_fmap_2.
    - intros Hids. exists (list_to_set (solanaKey <$> os)). split_and!; [..|lia].
      + intros k (o & -> & Ho)%elem_of_list_to_set%list_elem_of_fmap.
        apply keys_of_spec; [auto|]. by apply Hids, list_elem_of_fmap_2.
      + intros k (o & -> & Ho)%elem_of_list_to_set%list_elem_of_fmap.
        apply list_elem_of_fmap. eauto.
Qed.

Lemma period_name p : (∀ n, p = custom n → ∃ z, n = JInt z ∧ 0 < z) → periodName (toSquadsPeriod p) = p.
Proof. destruct p as [| | | |n]; try done. intros H. by destruct (H n eq_refl) as (z & -> & _). Qed.

(** The limits of a compiled policy are the spec's. *)
Lemma policy_limits a index c spent x :
    a ∈ assets s →
    within_limits (policyFor keyOf dests index a (mintOf a) c) spent x ↔
    ps_mint x = mintOf a ∧ ps_source x = index ∧ recipient_of s (ps_destination x) ∧
    ps_amount x ≤ ps_available x ∧ within_budget a spent (ps_amount x).
Proof using Hv He.
    intros Ha. assert (within_budget a spent (ps_amount x) ↔
      let p := policyFor keyOf dests index a (mintOf a) c in
      spent (periodName (sq_period (timeConstraints (payload p)))) + ps_amount x
        ≤ q_maxPerPeriod (quantityConstraints (payload p)) ∧
      (q_maxPerUse (quantityConstraints (payload p)) = 0
       ∨ ps_amount x ≤ q_maxPerUse (quantityConstraints (payload p)))) as ->.
    { unfold within_budget. cbn. destruct (budget a) as [b|] eqn:Eb; cbn; [|tauto].
      pose proof (vs_budgets _ Hv a b Ha Eb) as [_ Hu Hp]. rewrite period_name by done.
      destruct (maxPerUse b) as [u|]; cbn; [|naive_solver].
      specialize (Hu u eq_refl). split; [intros [? H]; split; [done|right; auto] |].
      intros [? [?|?]]; (split; [done|]); intros ? [= <-]; [lia|done]. }
    rewrite <- dests_spec. pose proof dests_nonempty. split.
    - intros []. cbn [payload policyFor destinations mint sourceAccountIndex] in *. tauto.
    - intros (? & ? & ? & ? & ? & ?). split; try done. by right.
Qed.

Lemma plan_policy_lookup i p :
    policies (squads_plan s options) !! i = Some p ↔
    ∃ j k a c, i = (j * length (coalitions_of s) + k)%nat ∧ assets s !! j = Some a ∧
      coalitions_of s !! k = Some c ∧
      p = policyFor keyOf dests (default 0 (opt_sourceAccountIndex options)) a (mintOf a) c.
Proof. apply lookup_bind_fmap. Qed.

Lemma spec_wins ids :
    isWinning (spec_members s) (toZ (thresholdWeight s)) ids = true ↔
    ∃ c, c ∈ coalitions_of s ∧ ∀ id, id ∈ c → id ∈ ids.
Proof using Hv He.
    destruct (vs_threshold _ Hv) as (t & Et & Ht).
    apply enumerated_reproduce.
    - unfold spec_members. rewrite <- list_fmap_compose. apply Hv.
    - rewrite Et. simpl. lia.
    - apply coalitions_of_ok. split; [apply He | done].
    - unfold spec_members. apply Forall_fmap, (Forall_impl _ _ _ (vs_each _ Hv)).
      intros o [(w & E & ?) _ _]. unfold compose. cbn. rewrite E. simpl. lia.
Qed.

Context {program : SquadsProgram} {laws : SquadsLaws program}.

(** Some policy of the plan lets some of the owners [ids] co-sign the payment. *)
Definition plan_accepts (plan : SquadsTreasuryPlan) (ids : gset string)
    (spent : nat → Period → Z) (x : PolicySpend) : Prop :=
  ∃ i p ks, policies plan !! i = Some p ∧ ks ⊆ keys_of s ids ∧ accepts p ks (spent i) x = true.

(** [a] is an asset of the payment's mint, [c] a coalition among [ids], and what
    [c] has spent of [a] leaves room for the payment. *)
Definition funded (ids : gset string) (spent : nat → Period → Z) (x : PolicySpend) : Prop :=
  ∃ j k a c, assets s !! j = Some a ∧ ps_mint x = mintOf a ∧
    coalitions_of s !! k = Some c ∧ (∀ id, id ∈ c → id ∈ ids) ∧
    within_budget a (spent (j * length (coalitions_of s) + k)%nat) (ps_amount x).

Lemma plan_accepts_spec ids spent x :
    0 < ps_amount x → 0 ≤ ps_now x →
    plan_accepts (squads_plan s options) ids spent x ↔
    ps_source x = default 0 (opt_sourceAccountIndex options) ∧
    recipient_of s (ps_destination x) ∧ ps_amount x ≤ ps_available x ∧ funded ids spent x.
Proof using Hv He laws.
    intros Ham Hnow. unfold plan_accepts, funded. split.
    - intros (i & p & ks & (j & k & a & c & -> & Hj & Hk & ->)%plan_policy_lookup & Hks & Hacc).
      pose proof (list_elem_of_lookup_2 _ _ _ Hj) as Ha.
      pose proof (list_elem_of_lookup_2 _ _ _ Hk) as Hc.
      apply accepts_limits in Hacc as (Hsig & Hth & Hl).
      apply policy_limits in Hl as (? & ? & ? & ? & ?); [|done]. split_and!; try done.
      exists j, k, a, c. split_and!; try done.
      by apply (proj1 (policy_cosigned c a (mintOf a)
        (default 0 (opt_sourceAccountIndex options)) ids Hc) ks).
    - intros (Hs & Hd & Hav & j & k & a & c & Hj & Hm & Hk & Hids & Hb).
      pose proof (list_elem_of_lookup_2 _ _ _ Hj) as Ha.
      pose proof (list_elem_of_lookup_2 _ _ _ Hk) as Hc.
      destruct (proj2 (policy_cosigned c a (mintOf a)
        (default 0 (opt_sourceAccountIndex options)) ids Hc) Hids) as (ks & Hks & Hsig & Hth).
      eexists _, _, ks. split; [apply plan_policy_lookup; by eexists j, k, a, c|]. split; [done|].
      apply accepts_cosigned; [done | done | by split | | done]. by apply policy_limits.
Qed.

Lemma funded_wins ids spent x : funded ids spent x →
    isWinning (spec_members s) (toZ (thresholdWeight s)) ids = true.
Proof using Hv He.
    intros (j & k & a & c & _ & _ & Hk & Hids & _). apply spec_wins. exists c.
    split; [by eapply list_elem_of_lookup_2 | done].
Qed.
End plan.

Lemma keyOf_loop_throws os m e :
  keyOf_loop os m = Throw e → ∃ reason, e = SpecNotExpressible squads reason.
Proof.
  revert m. induction os as [|o os IH]; intros m; cbn [keyOf_loop]; [done|].
  case_match; [|intros [= <-]; by eexists].
  rewrite throw_if_bind. case_match; [intros [= <-]; by eexists | apply IH].
Qed.

Lemma policies_loop_throws keyOf dests index cs l e :
  policies_loop keyOf dests index cs l = Throw e → ∃ reason, e = SpecNotExpressible squads reason.
Proof.
  induction l as [|a l IH]; cbn [policies_loop]; [done|].
  intros [H|(m & _ & [H|(rest & _ & H)]%bind_throw)]%bind_throw; [|auto|done].
  unfold assetMint in H. apply bind_throw in H as [H|(m & _ & H)].
  - destruct (solanaMint a); [done|]. injection H as <-. by eexists.
  - rewrite throw_if_bind in H. case_match; [|done]. injection H as <-. by eexists.
Qed.

(** Why a compilation stops. *)
Inductive squads_refusal (s : WeightedTreasurySpec) : compile_error → Prop :=
| refused_spec reason : squads_refusal s (SpecNotExpressible spec reason)
| refused_squads reason : squads_refusal s (SpecNotExpressible squads reason)
| refused_owners msg : (20 < length (owners s))%nat → squads_refusal s (JsError (RangeError msg)).

Lemma compileSquads_throws s options e :
  compileSquads s options = Throw e → squads_refusal s e.
Proof.
  assert (∀ e, (∃ reason, e = SpecNotExpressible squads reason) → squads_refusal s e) as Hsq
    by (intros ? [? ->]; constructor).
  unfold compileSquads. intros [H|(_ & _ & H)]%bind_throw.
  { apply validateSpec_throws in H as [? ->]. constructor. }
  apply bind_throw in H as [H|(keyOf & _ & H)]; [apply Hsq; by eapply keyOf_loop_throws|].
  apply bind_throw in H as [H|(raw & _ & H)].
  { apply Hsq. revert H. apply (mapM_throws _ (λ e, ∃ reason, e = SpecNotExpressible squads reason)).
    intros ir e'. unfold squadsRecipient, squadsFail. case_match; [done|].
    intros [= <-]. by eexists. }
  apply bind_throw in H as [H|(_ & _ & H)].
  { unfold throw_if in H. case_match; [injection H as <-; constructor | done]. }
  apply bind_throw in H as [H|(cs & _ & H)].
  { revert H. unfold minimalWinningCoalitions, spec_members, MAX_ENUMERABLE_OWNERS.
    rewrite length_fmap. case_match; intros [= <-]. constructor. zify_bool. lia. }
  apply bind_throw in H as [H|(_ & _ & H)].
  { unfold throw_if in H. case_match; [injection H as <-; constructor | done]. }
  apply bind_throw in H as [H|(ps & _ & H)]; [|done].
  apply Hsq. by eapply policies_loop_throws.
Qed.

Lemma length_policies {A B C} (f : A → C → B) (cs : list C) (l : list A) :
  length (l ≫= λ a, f a <$> cs) = (length cs * length l)%nat.
Proof.
  induction l as [|a l IH]; [simpl; lia|]. rewrite bind_cons, length_app, length_fmap, IH.
  simpl. lia.
Qed.

(** ** Properties *)

(** C37: [compileSquads] compiles exactly the well-formed specs Squads can express
    (a distinct Solana key per owner, a wallet per recipient, at most 20 owners,
    at most [maxPolicies] policies, a mint per asset, 9 decimals for native SOL),
    to one policy per asset and minimal coalition in order; every other spec is
    refused, and with more than 20 owners the refusal can be the enumerator's
    [RangeError]. *)
Theorem compileSquads_correct s options :
  valid_spec s ∧ squads_expressible s options ∧
    compileSquads s options = Ok (squads_plan s options) ∨
  ¬ (valid_spec s ∧ squads_expressible s options) ∧
    ∃ e, compileSquads s options = Throw e ∧ squads_refusal s e.
Proof.
  pose proof (compileSquads_ok s options) as Hok.
  destruct (compileSquads s options) as [plan|e] eqn:E; [left | right].
  - destruct (proj1 (Hok plan) eq_refl) as (? & ? & ->). done.
  - split; [|exists e; split; [done | by eapply compileSquads_throws]].
    intros [H1 H2]. discriminate (proj2 (Hok _) (conj H1 (conj H2 eq_refl))).
Qed.

(** The wallets of the allowlist. *)
Definition wallets (s : WeightedTreasurySpec) : list string := omap recipient_solana (allowlist s).

Lemma wallets_spec s dest : dest ∈ wallets s ↔ recipient_of s dest.
Proof. unfold wallets, recipient_of. rewrite list_elem_of_omap. done. Qed.

(** C1: for any on-chain program with the documented behaviour of Squads spending
    limits (a parameter with [SquadsLaws], not modelled), whatever the policies
    have already paid out: some of the owners [ids] can co-sign a payment of a
    positive amount through a compiled policy iff it leaves the plan's vault,
    [expectedSpendOutcome] passes it, and a minimal coalition among [ids] and an
    asset of the payment's mint have room for it: what that coalition already
    spent of it in the budget's period plus the amount within the budget, and the
    amount within the per-use cap (without a budget, within a u64 a day). *)
Theorem squads_parity {program : SquadsProgram} {laws : SquadsLaws program} s options plan ids spent x :
  compileSquads s options = Ok plan → 0 < ps_amount x → 0 ≤ ps_now x →
  plan_accepts s plan ids spent x ↔
  ps_source x = default 0 (opt_sourceAccountIndex options) ∧ funded s ids spent x ∧
  ∃ o, expectedSpendOutcome
         {| si_owners := spec_members s; si_thresholdWeight := toZ (thresholdWeight s);
            si_approvers := ids;
            si_destinationAllowlisted := bool_decide (ps_destination x ∈ wallets s);
            si_amount := ps_amount x; si_available := ps_available x; si_decimals := None |} = Ok o ∧
       pass o = true.
Proof.
  intros (Hv & He & ->)%compileSquads_ok Ham Hnow.
  rewrite (plan_accepts_spec s options Hv He) by done.
  apply and_iff_compat_l. split.
  - intros (Hd & Hav & Hf). split; [done|]. unfold expectedSpendOutcome. cbn.
    rewrite (funded_wins s options Hv He ids spent x Hf).
    rewrite bool_decide_eq_true_2 by by apply wallets_spec. cbn.
    destruct (Z.ltb_spec (ps_available x) (ps_amount x)); [lia|]. by eexists.
  - intros (Hf & o & E & Hp). revert E. unfold expectedSpendOutcome. cbn.
    rewrite (funded_wins s options Hv He ids spent x Hf). cbn.
    case_bool_decide as Hw; cbn; [|by intros [= <-]].
    destruct (Z.ltb_spec (ps_available x) (ps_amount x)); cbn; [by intros [= <-]|].
    intros _. split; [by apply wallets_spec | done].
Qed.

(** C2: both backends compiled from one spec authorise the same groups: for any
    on-chain program with the documented behaviour of Squads spending limits, a
    payment out of the plan's vault in the mint of an asset of the spec (whose
    assets carry no budget, or it would not compile to EVM), to
    an allowlisted recipient's wallet, of an amount the vault holds and a day's
    u64 has room for, is one some of the owners [ids] can co-sign iff their EVM
    addresses reach the weighted threshold of the compiled EVM configuration;
    and the recipient's EVM address is in its book. *)
Theorem backends_agree {program : SquadsProgram} {laws : SquadsLaws program} s options c plan ids a r spent x :
  compileEvm s = Ok c → compileSquads s options = Ok plan →
  a ∈ assets s → r ∈ allowlist s → ps_mint x = mintOf a →
  recipient_solana r = Some (ps_destination x) →
  ps_source x = default 0 (opt_sourceAccountIndex options) →
  0 < ps_amount x ≤ ps_available x → 0 ≤ ps_now x →
  (∀ i, spent i daily + ps_amount x ≤ U64_MAX) →
  (plan_accepts s plan ids spent x ↔
    isWinning (config_members c) (ec_thresholdWeight c) (addresses_of s ids) = true) ∧
  lowerEvm (recipient_evm r) ∈ ec_allowlist c.
Proof.
  intros (Hv & He & ->)%compileEvm_ok (_ & Hs & ->)%compileSquads_ok Ha Hr Hm Hd Hsrc [Ham Hav]
    Hnow Hday. split.
  - rewrite (plan_accepts_spec s options Hv Hs) by done. rewrite evm_quorum by done. split.
    + intros (_ & _ & _ & Hf). by apply (funded_wins s options Hv Hs ids spent x).
    + intros (cl & Hcl & Hids)%(spec_wins s options Hv Hs). split_and!; try done; [by exists r|].
      apply list_elem_of_lookup in Ha as [j Hj]. apply list_elem_of_lookup in Hcl as [k Hk].
      exists j, k, a, cl. split_and!; try done.
      unfold within_budget. by rewrite (ee_budgets _ He a (list_elem_of_lookup_2 _ _ _ Hj)).
  - cbn [ec_allowlist evm_config]. rewrite js_set_elem, list_elem_of_fmap. eauto.
Qed.

(** A compiled plan is well formed: the settings need all owners with pairwise
    distinct keys; the policies number coalitions times assets within the cap;
    each policy needs all its signers, at least one and at most all owners, with
    distinct keys, names at least one destination, none twice, never applies a
    timelock and, on native SOL, belongs to an asset of 9 decimals. *)
Theorem squads_plan_wellformed s options plan :
  compileSquads s options = Ok plan →
  NoDup (key <$> set_signers (settings plan)) ∧
  set_threshold (settings plan) = Z.of_nat (length (set_signers (settings plan))) ∧
  Z.of_nat (length (policies plan)) ≤ default DEFAULT_MAX_POLICIES (opt_maxPolicies options) ∧
  ∀ p, p ∈ policies plan →
    threshold p = Z.of_nat (length (signers p)) ∧ 1 ≤ threshold p ≤ set_threshold (settings plan) ∧
    NoDup (key <$> signers p) ∧ (∀ sg, sg ∈ signers p → sg ∈ set_signers (settings plan)) ∧
    destinations (payload p) ≠ [] ∧ NoDup (destinations (payload p)) ∧ timeLock p = 0.
Proof.
  intros (Hv & He & ->)%compileSquads_ok.
  assert (set_signers (settings (squads_plan s options))
    = (λ o, {| key := solanaKey o; mask := ALL_PERMISSIONS |}) <$> owners s) as Es.
  { apply list_fmap_ext. intros i o Ho%list_elem_of_lookup_2. by apply signerOf_owner. }
  rewrite Es. cbn [settings squads_plan set_threshold]. rewrite length_fmap. split_and!.
  - rewrite <- list_fmap_compose. apply He.
  - done.
  - pose proof (se_cap _ _ He) as Hc. unfold policy_count in Hc.
    cbn [policies squads_plan]. rewrite length_policies. lia.
  - intros p [i (j & k & a & c & _ & _ & Hc%list_elem_of_lookup_2 & ->)%plan_policy_lookup]%list_elem_of_lookup.
    destruct (coalition_facts s options Hv He c Hc) as (Hne & Hnd & _).
    destruct (policy_signers s options Hv He c Hc) as (os & -> & Hos & E).
    cbn [threshold signers policyFor payload destinations timeLock]. rewrite E, !length_fmap.
    assert (NoDup os) as Hndo by by apply NoDup_fmap_1 in Hnd.
    assert (length os ≤ length (owners s))%nat.
    { by apply submseteq_length, NoDup_submseteq. }
    split_and!; try done.
    + destruct os; [done | simpl; lia].
    + lia.
    + rewrite <- list_fmap_compose. apply (NoDup_fmap_sub solanaKey os (owners s)); [done..|apply He].
    + intros sg (o & -> & Ho)%list_elem_of_fmap. apply list_elem_of_fmap. eauto.
    + by apply dests_nonempty.
    + apply js_set_nodup.
Qed.

Definition no_options : CompileSquadsOptions :=
  {| opt_maxPolicies := None; opt_sourceAccountIndex := None |}.

(** A program with the documented behaviour, for the witnesses. *)
Definition sample_program : SquadsProgram := λ p ks spent x,
  let sl := payload p in
  let q := quantityConstraints sl in
  let t := timeConstraints sl in
  bool_decide (set_Forall (λ k, {| key := k; mask := ALL_PERMISSIONS |} ∈ signers p) ks)
  && (threshold p <=? Z.of_nat (size ks))
  && bool_decide (ps_mint x = mint sl) && bool_decide (ps_source x = sourceAccountIndex sl)
  && bool_decide (destinations sl = [] ∨ ps_destination x ∈ destinations sl)
  && (ps_amount x <=? ps_available x)
  && (spent (periodName (sq_period t)) + ps_amount x <=? q_maxPerPeriod q)
  && bool_decide (q_maxPerUse q = 0 ∨ ps_amount x ≤ q_maxPerUse q)
  && (timeLock p =? 0) && (start t <=? ps_now x)
  && match expiration t with None => true | Some e => ps_now x <? e end
  && (0 <? ps_amount x).

Lemma sample_program_laws : SquadsLaws sample_program.
Proof.
  split; unfold accepts, sample_program; intros p ks spent x.
  - rewrite !andb_true_iff, !bool_decide_eq_true. intros H. zify_bool.
    destruct_and! H. split_and!; [|done|by split].
    intros k Hk. apply list_elem_of_fmap. exists {| key := k; mask := ALL_PERMISSIONS |}. auto.
  - intros Hsig Hth [] [] Ham. rewrite !andb_true_iff, !bool_decide_eq_true. zify_bool.
    rewrite un_expiration0. split_and!; done.
Qed.

(** A payment of 70 USDC out of the first vault of the sample treasury, which
    holds 100. *)
Definition sample_spend : PolicySpend :=
  {| ps_mint := mintOf usdc; ps_source := 0; ps_destination := "PayrollWallet";
     ps_amount := 70; ps_available := 100; ps_now := 1 |}.

Lemma squads_parity_witness :
  plan_accepts (program := sample_program) example_spec (squads_plan example_spec no_options)
    {["b"; "c"; "d"]} (λ _ _, 0) sample_spend ↔
  ps_source sample_spend = 0 ∧ funded example_spec {["b"; "c"; "d"]} (λ _ _, 0) sample_spend ∧
  ∃ o, expectedSpendOutcome
         {| si_owners := spec_members example_spec;
            si_thresholdWeight := toZ (thresholdWeight example_spec);
            si_approvers := {["b"; "c"; "d"]};
            si_destinationAllowlisted := bool_decide ("PayrollWallet" ∈ wallets example_spec);
            si_amount := 70; si_available := 100; si_decimals := None |} = Ok o ∧ pass o = true.
Proof.
  apply (@squads_parity sample_program sample_program_laws example_spec no_options
    (squads_plan example_spec no_options)); [by vm_compute | done | done].
Defined.

Lemma backends_agree_witness :
  (plan_accepts (program := sample_program) example_spec (squads_plan example_spec no_options)
      {["a"; "d"]} (λ _ _, 0) sample_spend ↔
    isWinning (config_members (evm_config example_spec)) 5
      (addresses_of example_spec {["a"; "d"]}) = true) ∧
  lowerEvm (recipient_evm payroll) ∈ ec_allowlist (evm_config example_spec).
Proof.
  assert (compileEvm example_spec = Ok (evm_config example_spec)) as H1 by by vm_compute.
  assert (compileSquads example_spec no_options = Ok (squads_plan example_spec no_options)) as H2
    by by vm_compute.
  apply (@backends_agree sample_program sample_program_laws example_spec no_options _ _
    {["a"; "d"]} usdc payroll (λ _ _, 0) sample_spend H1 H2); try done; by left.
Defined.

Lemma squads_plan_wellformed_witness :
  Z.of_nat (length (policies (squads_plan example_spec no_options))) ≤ 64 ∧
  NoDup (key <$> set_signers (settings (squads_plan example_spec no_options))).
Proof.
  assert (compileSquads example_spec no_options = Ok (squads_plan example_spec no_options)) as H
    by by vm_compute.
  destruct (squads_plan_wellformed example_spec no_options _ H) as (H1 & _ & H2 & _). by split.
Defined.
