(* ===== verification/SdkArgs.v ===== *)
(** * The Squads plan as SDK arguments

    Models [packages/weighted-treasury/src/squads/sdk-args.ts]. The runtime types
    [PublicKey] and [BN] are the caller's: a section parameter with the two
    constructors, which may throw. *)

From S2P Require Import Prelude.
From S2P Require Import Js.
From S2P Require Import Decimal.
From S2P Require Import Squads.

Section sdk.
  Context {PK BNT : Type}.
  (** [new rt.PublicKey(value)] and [new rt.BN(value)] *)
  Context (PublicKey : string → result js_error PK) (BN : string → result js_error BNT).

Record SdkSigner := { sdk_key : PK; sdk_mask : Z }.

Inductive SdkPeriod := SdkPlain (p : SquadsPeriod) | SdkCustom (seconds : BNT).

Record SdkPolicyCreate := {
  seed : Z;
  sdk_mint : PK;
  sdk_sourceAccountIndex : Z;
  sdk_destinations : list PK;
  sdk_start : BNT;
  sdk_expiration : option BNT;
  sdk_period : SdkPeriod;
  sdk_accumulateUnused : bool;
  sdk_maxPerPeriod : BNT;
  sdk_maxPerUse : BNT;
  sdk_enforceExactQuantity : bool;
  sdk_signers : list SdkSigner;
  sdk_threshold : Z;
  sdk_timeLock : Z
}.

Definition toSdkSigners (signers : list SquadsSigner) : result js_error (list SdkSigner) :=
  mapM (λ s, k ← PublicKey (key s); mret {| sdk_key := k; sdk_mask := mask s |}) signers.

Definition toSdkPeriod (p : SquadsPeriod) : result js_error SdkPeriod :=
  match p with
  | Custom n => b ← BN (pretty n); mret (SdkCustom b)
  | p => mret (SdkPlain p)
  end.

(** [startTimestamp], [expirationArgs] and [usageState] are the constant [null]. *)
Definition toSdkPolicyCreateAction (policy : SquadsSpendingLimitPolicy) (seed : Z)
    : result js_error SdkPolicyCreate :=
  let f := payload policy in
  let tc := timeConstraints f in
  let qc := quantityConstraints f in
  m ← PublicKey (mint f);
  ds ← mapM PublicKey (destinations f);
  st ← BN (pretty (start tc));
  ex ← match expiration tc with None => mret None | Some e => b ← BN (pretty e); mret (Some b) end;
  pe ← toSdkPeriod (sq_period tc);
  mp ← BN (pretty (q_maxPerPeriod qc));
  mu ← BN (pretty (q_maxPerUse qc));
  sg ← toSdkSigners (signers policy);
  mret {| seed := seed; sdk_mint := m; sdk_sourceAccountIndex := sourceAccountIndex f;
          sdk_destinations := ds; sdk_start := st; sdk_expiration := ex; sdk_period := pe;
          sdk_accumulateUnused := accumulateUnused tc; sdk_maxPerPeriod := mp;
          sdk_maxPerUse := mu; sdk_enforceExactQuantity := enforceExactQuantity qc;
          sdk_signers := sg; sdk_threshold := threshold policy; sdk_timeLock := timeLock policy |}.

(** [plan.policies.map((policy, i) => toSdkPolicyCreateAction(policy, firstSeed + i, rt))] *)
Definition toSdkPolicyCreateActions (plan : SquadsTreasuryPlan) (firstSeed : option Z)
    : result js_error (list SdkPolicyCreate) :=
  mapM (λ ip, toSdkPolicyCreateAction ip.2 (default 1 firstSeed + Z.of_nat ip.1))
    (imap pair (policies plan)).

(** ** Reading the arguments back *)

(** How the chain side reads the two runtime types. *)
Context (toBase58 : PK → string) (toInteger : BNT → Z).
Hypothesis PublicKey_text : ∀ s k, PublicKey s = Ok k → toBase58 k = s.
Hypothesis BN_decimal : ∀ z b, BN (pretty z) = Ok b → toInteger b = z.

Definition readPeriod (p : SdkPeriod) : SquadsPeriod :=
  match p with SdkPlain p => p | SdkCustom b => Custom (toInteger b) end.

(** The on-chain part of a policy: everything but the labels [coalition], [asset]. *)
Definition readPolicy (c : list string) (a : string) (x : SdkPolicyCreate)
    : SquadsSpendingLimitPolicy :=
  {| coalition := c; asset := a;
     signers := (λ s, {| key := toBase58 (sdk_key s); mask := sdk_mask s |}) <$> sdk_signers x;
     threshold := sdk_threshold x; timeLock := sdk_timeLock x;
     payload := {|
       mint := toBase58 (sdk_mint x);
       sourceAccountIndex := sdk_sourceAccountIndex x;
       destinations := toBase58 <$> sdk_destinations x;
       timeConstraints := {|
         start := toInteger (sdk_start x); expiration := toInteger <$> sdk_expiration x;
         sq_period := readPeriod (sdk_period x); accumulateUnused := sdk_accumulateUnused x |};
       quantityConstraints := {|
         q_maxPerPeriod := toInteger (sdk_maxPerPeriod x);
         q_maxPerUse := toInteger (sdk_maxPerUse x);
         enforceExactQuantity := sdk_enforceExactQuantity x |} |} |}.

Lemma mapM_read {A B} (f : A → result js_error B) (g : B → A) l k :
  (∀ x y, f x = Ok y → g y = x) → mapM f l = Ok k → g <$> k = l.
Proof.
  intros Hf Hm. apply mapM_ok in Hm. induction Hm as [|x y l k Hx Hl IH]; [done|].
  by rewrite fmap_cons, IH, (Hf _ _ Hx).
Qed.

Lemma readPeriod_ok p x : toSdkPeriod p = Ok x → readPeriod x = p.
Proof using BN_decimal.
  destruct p; cbn; try (by intros [= <-]). intros H. ok_inv. subst x. simpl.
  by rewrite (BN_decimal _ _ Hr).
Qed.

Lemma toSdkSigners_read sg x :
  toSdkSigners sg = Ok x →
  (λ s, {| key := toBase58 (sdk_key s); mask := sdk_mask s |}) <$> x = sg.
Proof using PublicKey_text.
  apply mapM_read. intros [k m] y H. ok_inv. subst y. simpl. by rewrite (PublicKey_text _ _ Hr).
Qed.

Lemma action_read policy n x :
  toSdkPolicyCreateAction policy n = Ok x →
  seed x = n ∧ readPolicy (coalition policy) (asset policy) x = policy.
Proof using BN_decimal PublicKey_text.
  unfold toSdkPolicyCreateAction. intros H. ok_inv. subst x. split; [done|].
  destruct policy as [c a sg th tl [mi si ds [st ex pe au] [mp mu en]]]. cbn in *.
  apply readPeriod_ok in Hr3. apply toSdkSigners_read in Hr6.
  apply PublicKey_text in Hr. apply (mapM_read _ toBase58) in Hr0; [|done].
  apply BN_decimal in Hr1, Hr4, Hr5. unfold readPolicy. cbn. rewrite Hr6, Hr3, Hr, Hr0, Hr1, Hr4, Hr5.
  destruct ex as [e|]; [|by injection Hr2 as <-].
  apply bind_ok in Hr2 as (b & Hb & [= <-]). simpl. by rewrite (BN_decimal _ _ Hb).
Qed.

(** The SDK actions carry the plan: one action per policy in plan order, seeds
    consecutive from [firstSeed] (1 by default), and reading the keys and
    amounts of each action back gives the policy's on-chain part. *)
Theorem sdk_actions_faithful plan firstSeed acts :
  toSdkPolicyCreateActions plan firstSeed = Ok acts →
  seed <$> acts = seqZ (default 1 firstSeed) (Z.of_nat (length (policies plan))) ∧
  Forall2 (λ p x, readPolicy (coalition p) (asset p) x = p) (policies plan) acts.
Proof using BN_decimal PublicKey_text.
  intros H%mapM_ok. assert (length acts = length (policies plan)) as Hlen.
  { apply Forall2_length in H. by rewrite length_imap in H. }
  assert (∀ i p x, policies plan !! i = Some p → acts !! i = Some x →
    seed x = default 1 firstSeed + Z.of_nat i ∧ readPolicy (coalition p) (asset p) x = p) as Hi.
  { intros i p x Hp Hx. apply action_read.
    apply (Forall2_lookup_lr _ _ _ i (i, p) x H); [by rewrite list_lookup_imap, Hp | done]. }
  split.
  - apply list_eq. intros i. rewrite list_lookup_fmap.
    destruct (acts !! i) as [x|] eqn:Ex; simpl.
    + destruct (policies plan !! i) as [p|] eqn:Ep.
      * rewrite lookup_seqZ_lt by (apply lookup_lt_Some in Ex; lia).
        by destruct (Hi i p x Ep Ex) as [-> _].
      * apply lookup_lt_Some in Ex. apply lookup_ge_None in Ep. lia.
    + apply lookup_ge_None in Ex. by rewrite lookup_seqZ_ge by lia.
  - apply Forall2_same_length_lookup. split; [lia|]. intros i p x Hp Hx.
    by apply (Hi i p x).
Qed.
End sdk.

Definition example_actions : list (SdkPolicyCreate (PK := string) (BNT := Z)) :=
  match toSdkPolicyCreateActions (λ s, Ok s) (λ s, Ok (parseZ s))
    (squads_plan TreasurySpec.example_spec no_options) (Some 4) with
  | Ok acts => acts
  | Throw _ => []
  end.

Lemma sdk_actions_faithful_witness :
  length example_actions = 3%nat ∧
  seed <$> example_actions = seqZ 4 3.
Proof.
  split; [by vm_compute|].
  assert (toSdkPolicyCreateActions (λ s, Ok s) (λ s, Ok (parseZ s))
    (squads_plan TreasurySpec.example_spec no_options) (Some 4) = Ok example_actions) as H
    by by vm_compute.
  destruct (sdk_actions_faithful (λ s, Ok s) (λ s, Ok (parseZ s)) (λ s, s) (λ z, z)
    ltac:(by intros s k [= <-])
    ltac:(by intros z b [= <-]; rewrite parseZ_pretty) _ _ _ H) as [E _].
  exact E.
Defined.
