(* ===== verification/GraphTs.v ===== *)
(** * The graph-ts runtime the subgraph's mappings call

    Types of AssemblyScript and graph-ts that the mappings handle ([f64],
    [JSONValue], [TypedMap], the event and the data source context), and a class
    of the graph-ts functions the model takes as parameters, with the documented
    behaviour it relies on. *)

From S2P Require Import Prelude.
From S2P Require Import Js.
From S2P Require Import Decimal.

(** A WebAssembly trap: graph-node aborts the handler. *)
Inductive trap := Trap (reason : string).
Notation wasm := (result trap).

(** ** [f64]: finite values are [m * 2 ^ e] *)

Inductive f64 := Finite (m e : Z) | Infinite (negative : bool) | NaN.

(** [f < z], [f >= z], [f > z] for an integer constant [z]: false on NaN. *)
Definition f64_lt (f : f64) (z : Z) : bool :=
  match f with
  | Finite m e => if 0 <=? e then m * 2 ^ e <? z else m <? z * 2 ^ (- e)
  | Infinite neg => neg
  | NaN => false
  end.
Definition f64_gt (f : f64) (z : Z) : bool :=
  match f with
  | Finite m e => if 0 <=? e then z <? m * 2 ^ e else z * 2 ^ (- e) <? m
  | Infinite neg => negb neg
  | NaN => false
  end.
Definition f64_ge (f : f64) (z : Z) : bool :=
  match f with NaN => false | _ => negb (f64_lt f z) end.

(** [f == Math.floor(f)] *)
Definition f64_whole (f : f64) : bool :=
  match f with
  | Finite m e => (0 <=? e) || (m mod 2 ^ (- e) =? 0)
  | Infinite _ => true
  | NaN => false
  end.

(** [f as i64] or [f as i32]: truncation, which traps outside the type. *)
Definition f64_as_int (bits : Z) (f : f64) : wasm Z :=
  match f with
  | Finite m e =>
      let z := if 0 <=? e then m * 2 ^ e else Z.quot m (2 ^ (- e)) in
      throw_if (negb ((- 2 ^ (bits - 1) <=? z) && (z <? 2 ^ (bits - 1))))
        (Trap "integer overflow") ≫= λ _, mret z
  | _ => Throw (Trap "invalid conversion to integer")
  end.

(** The integer value of a whole [f64]. *)
Definition f64_int (f : f64) : Z :=
  match f with
  | Finite m e => if 0 <=? e then m * 2 ^ e else Z.quot m (2 ^ (- e))
  | _ => 0
  end.

Lemma f64_whole_value m e :
  f64_whole (Finite m e) = true → 0 ≤ e ∨ e < 0 ∧ m = f64_int (Finite m e) * 2 ^ (- e).
Proof.
  simpl. rewrite orb_true_iff. destruct (Z.leb_spec 0 e); [by left|].
  intros [?|Hm]; [done|]. right. split; [done|]. zify_bool.
  assert (0 < 2 ^ (- e)) as Hp by (apply Z.pow_pos_nonneg; lia).
  pose proof (Z.div_mod m (2 ^ (- e))) as Hd. rewrite Hm in Hd.
  assert (m = m / 2 ^ (- e) * 2 ^ (- e)) as E by lia.
  rewrite E at 2. rewrite Z.quot_mul by lia. lia.
Qed.

(** On a whole finite value the comparisons are those of its integer. *)
Lemma f64_lt_int m e z :
  f64_whole (Finite m e) = true → f64_lt (Finite m e) z = (f64_int (Finite m e) <? z).
Proof.
  intros Hw. pose proof (f64_whole_value _ _ Hw) as [He|[He E]]; unfold f64_lt, f64_int in *;
    destruct (Z.leb_spec 0 e); try lia.
  assert (0 < 2 ^ (- e)) as Hp by (apply Z.pow_pos_nonneg; lia).
  set (w := Z.quot m (2 ^ (- e))) in *. apply Bool.eq_iff_eq_true. zify_bool. nia.
Qed.

Lemma f64_gt_int m e z :
  f64_whole (Finite m e) = true → f64_gt (Finite m e) z = (z <? f64_int (Finite m e)).
Proof.
  intros Hw. pose proof (f64_whole_value _ _ Hw) as [He|[He E]]; unfold f64_gt, f64_int in *;
    destruct (Z.leb_spec 0 e); try lia.
  assert (0 < 2 ^ (- e)) as Hp by (apply Z.pow_pos_nonneg; lia).
  set (w := Z.quot m (2 ^ (- e))) in *. apply Bool.eq_iff_eq_true. zify_bool. nia.
Qed.

(** A whole value the type can hold converts without a trap. *)
Lemma f64_as_int_ok bits f :
  f64_whole f = true → (∀ neg, f ≠ Infinite neg) →
  - 2 ^ (bits - 1) ≤ f64_int f < 2 ^ (bits - 1) → f64_as_int bits f = Ok (f64_int f).
Proof.
  intros Hw Hi Hr. destruct f as [m e|neg|]; [|by destruct (Hi neg)|done].
  unfold f64_as_int, f64_int in *. rewrite throw_if_bind.
  rewrite (proj2 (Z.leb_le _ _) (proj1 Hr)), (proj2 (Z.ltb_lt _ _) (proj2 Hr)). done.
Qed.

(** ** [JSONValue] and [TypedMap] *)

Inductive JSONValue :=
| JNull
| JBool (b : bool)
| JNumber (text : string)
| JString (s : string)
| JArray (items : list JSONValue)
| JObject (entries : list (string * JSONValue)).

(** A [TypedMap<string, JSONValue>]: its entries in document order. *)
Notation TypedMap := (list (string * JSONValue)).

(** [map.get(key)]: the first entry with that key, or null. *)
Fixpoint get (key : string) (m : TypedMap) : option JSONValue :=
  match m with
  | [] => None
  | (k, v) :: m => if decide (k = key) then Some v else get key m
  end.

(** [JSONValueKind] *)
Inductive JSONValueKind := NULL | BOOL | NUMBER | STRING | ARRAY | OBJECT.
#[global] Instance JSONValueKind_eq_dec : EqDecision JSONValueKind.
Proof. solve_decision. Defined.

Definition kind_of (v : JSONValue) : JSONValueKind :=
  match v with
  | JNull => NULL | JBool _ => BOOL | JNumber _ => NUMBER
  | JString _ => STRING | JArray _ => ARRAY | JObject _ => OBJECT
  end.

(** The accessors of a [JSONValue] trap on another kind. *)
Definition toBool (v : JSONValue) : wasm bool :=
  match v with JBool b => Ok b | _ => Throw (Trap "JSON value is not a boolean.") end.
Definition toStr (v : JSONValue) : wasm string :=
  match v with JString s => Ok s | _ => Throw (Trap "JSON value is not a string.") end.
Definition toArray (v : JSONValue) : wasm (list JSONValue) :=
  match v with JArray l => Ok l | _ => Throw (Trap "JSON value is not an array.") end.
Definition toObject (v : JSONValue) : wasm TypedMap :=
  match v with JObject m => Ok m | _ => Throw (Trap "JSON value is not an object.") end.

(** ** The functions of graph-ts *)

Class GraphTs := {
  (** [crypto.keccak256] *)
  keccak256 : string → string;
  (** [ByteArray.toHexString] *)
  toHexString : string → string;
  (** [Bytes.fromHexString] *)
  fromHexString : string → string;
  (** [Bytes.concatI32] *)
  concatI32 : string → Z → string;
  (** [BigInt.toI64] *)
  toI64 : Z → Z;
  (** [String.UTF8.decode] and [Bytes.toString] *)
  utf8 : string → string;
  (** [json.try_fromString] *)
  try_fromString : string → option JSONValue;
  (** the double nearest to the text of a JSON number ([JSONValue.toF64]) *)
  strtod : string → f64;
  (** [f64.toString] *)
  f64_toString : f64 → string;
  BigDecimal : Type;
  (** [value.divDecimal(BigInt.fromI32(10).pow(decimals).toBigDecimal())] *)
  divPow10 : Z → Z → BigDecimal;
  bd_neg : BigDecimal → BigDecimal;
  (** [BigDecimal.fromString] *)
  bd_fromString : string → wasm BigDecimal
}.

(** [JSONValue.toF64] *)
Definition toF64 `{GraphTs} (v : JSONValue) : wasm f64 :=
  match v with JNumber t => Ok (strtod t) | _ => Throw (Trap "JSON value is not a number.") end.

(** A plain decimal: an optional minus sign, digits, at most one dot, some digit. *)
Definition plain_decimal (s : string) : Prop :=
  ∃ sign a b, (sign = "" ∨ sign = "-") ∧ str_all is_digit a = true ∧ str_all is_digit b = true ∧
    ((s = sign +:+ a ∧ a ≠ "") ∨ (s = sign +:+ a +:+ "." +:+ b ∧ (a ≠ "" ∨ b ≠ ""))).

(** Documented behaviour the proofs rely on. *)
Class GraphTsLaws `{GraphTs} : Prop := {
  toHexString_inj : ∀ a b, toHexString a = toHexString b → a = b;
  (** hex text has no [:] in it *)
  toHexString_colon : ∀ a, str_all (λ c, negb (Ascii.eqb c ":")) (toHexString a) = true;
  (** four bytes are appended *)
  concatI32_inj : ∀ a b i j, - 2 ^ 31 ≤ i < 2 ^ 31 → - 2 ^ 31 ≤ j < 2 ^ 31 →
    concatI32 a i = concatI32 b j → a = b ∧ i = j;
  toI64_small : ∀ z, - 2 ^ 63 ≤ z < 2 ^ 63 → toI64 z = z;
  bd_fromString_plain : ∀ s, plain_decimal s → ∃ d, bd_fromString s = Ok d
}.

(** ** Events and the data source *)

Record Event := {
  address : string;
  blockNumber : Z;
  blockTimestamp : Z;
  txHash : string;
  logIndex : Z
}.

(** [dataSource.network()] and [dataSource.context()] *)
Record DataSource := {
  network : string;
  chainId : Z;
  paymentToken : string;
  identityRegistry : string
}.

(** [Address.zero()]: twenty zero bytes. *)
Fixpoint zero_bytes (n : nat) : string :=
  match n with O => "" | S n => String "000" (zero_bytes n) end.
Definition zeroAddress : string := zero_bytes 20.

(** [event.block.timestamp.toI64()] *)
Definition now `{GraphTs} (ev : Event) : Z := toI64 (blockTimestamp ev).

(** [event.transaction.hash.concatI32(event.logIndex.toI32())] *)
Definition logId `{GraphTs} (ev : Event) : string := concatI32 (txHash ev) (logIndex ev).
