(* ===== verification/GraphTsSample.v ===== *)
(** * A concrete graph-ts runtime

    One instance of [GraphTs] with its laws, used to evaluate the theorems of
    the subgraph on concrete inputs. The hash is the identity and the JSON
    reader is a small fixed one; hex text, [concatI32] and [toI64] are real. *)

From S2P Require Import Prelude.
From S2P Require Import Js.
From S2P Require Import Decimal.
From S2P Require Import GraphTs.

Definition hex_digit (n : Z) : ascii :=
  Ascii.ascii_of_nat (Z.to_nat (if n <? 10 then 48 + n else 87 + n)).

Fixpoint hex_bytes (s : string) : string :=
  match s with
  | EmptyString => ""
  | String c s => String (hex_digit (code c / 16)) (String (hex_digit (code c mod 16)) (hex_bytes s))
  end.

(** Four bytes, least significant first. *)
Definition i32_bytes (i : Z) : string :=
  foldr (λ k out, String (Ascii.ascii_of_nat (Z.to_nat ((i / 2 ^ (8 * k)) mod 256))) out) ""
    [0; 1; 2; 3].

Definition wrap64 (z : Z) : Z := (z + 2 ^ 63) mod 2 ^ 64 - 2 ^ 63.

Definition sample_ts : GraphTs := {|
  keccak256 := λ s, s;
  toHexString := λ s, "0x" +:+ hex_bytes s;
  fromHexString := λ s, s;
  concatI32 := λ s i, s +:+ i32_bytes i;
  toI64 := wrap64;
  utf8 := λ s, s;
  try_fromString := λ s, if startsWith "{" s
    then Some (JObject [("name", JString s); ("s", JNumber "810"); ("v", JNumber "1")]) else None;
  strtod := λ s, Finite (parseZ s) 0;
  f64_toString := λ _, "f64";
  BigDecimal := Z * Z;
  divPow10 := λ v d, (v, d);
  bd_neg := λ x, (- x.1, x.2);
  bd_fromString := λ s, Ok (parseZ s, 0)
|}.

Definition from_hex_digit (c : ascii) : Z := if code c <? 58 then code c - 48 else code c - 87.

Lemma hex_pair c :
  from_hex_digit (hex_digit (code c / 16)) * 16 + from_hex_digit (hex_digit (code c mod 16)) = code c.
Proof. by destruct c as [[] [] [] [] [] [] [] []]. Qed.

Lemma code_inj c d : code c = code d → c = d.
Proof.
  unfold code. intros E%Nat2Z.inj.
  by rewrite <- (Ascii.ascii_nat_embedding c), <- (Ascii.ascii_nat_embedding d), E.
Qed.

Lemma hex_bytes_inj a b : hex_bytes a = hex_bytes b → a = b.
Proof.
  revert b. induction a as [|c a IH]; intros [|d b] E; cbn [hex_bytes] in E; try done.
  injection E as E1 E2 E3. f_equal; [|auto]. apply code_inj.
  by rewrite <- (hex_pair c), <- (hex_pair d), E1, E2.
Qed.

Lemma hex_digits_no_colon c :
  Ascii.eqb (hex_digit (code c / 16)) ":" || Ascii.eqb (hex_digit (code c mod 16)) ":" = false.
Proof. by destruct c as [[] [] [] [] [] [] [] []]. Qed.

Lemma ascii_of_byte_inj x y :
  0 ≤ x < 256 → 0 ≤ y < 256 →
  Ascii.ascii_of_nat (Z.to_nat x) = Ascii.ascii_of_nat (Z.to_nat y) → x = y.
Proof.
  intros Hx Hy E. apply (f_equal Ascii.nat_of_ascii) in E.
  rewrite !Ascii.nat_ascii_embedding in E by lia. lia.
Qed.

Lemma i32_bytes_inj i j :
  - 2 ^ 31 ≤ i < 2 ^ 31 → - 2 ^ 31 ≤ j < 2 ^ 31 → i32_bytes i = i32_bytes j → i = j.
Proof.
  intros Hi Hj E. unfold i32_bytes in E. cbn [foldr] in E. injection E as E0 E1 E2 E3.
  apply ascii_of_byte_inj in E0, E1, E2, E3; try (apply Z.mod_pos_bound; lia).
  norm_exp. change (2 ^ 0) with 1 in *. div_lia.
Qed.

Lemma sample_laws : GraphTsLaws (H := sample_ts).
Proof.
  split; cbn.
  - intros a b E. injection E as E. by apply hex_bytes_inj.
  - intros a. change (str_all (λ c, negb (Ascii.eqb c ":")) (hex_bytes a) = true).
    induction a as [|c a IH]; [done|]. cbn [hex_bytes str_all]. rewrite IH.
    pose proof (hex_digits_no_colon c) as Hc. apply orb_false_iff in Hc as [-> ->]. done.
  - intros a b i j Hi Hj E. apply string_app_inj in E as [-> E]; [|done].
    split; [done|]. by apply i32_bytes_inj.
  - intros z Hz. unfold wrap64. rewrite Z.mod_small by lia. lia.
  - intros s _. by eexists.
Qed.
