(* ===== verification/SgText.v ===== *)
(** * Subgraph: text helpers

    Models [packages/subgraph-arc/src/shared/]: [base64.ts], [bytes.ts],
    [caip.ts], [timestamp.ts], [uri.ts], and the entity ids of
    [identity/agent.ts], [identity/registry.ts], [identity/feedback.ts],
    [commerce/agentic-commerce.ts] and [commerce/job.ts]. *)

From S2P Require Import Prelude.
From S2P Require Import Js.
From S2P Require Import Decimal.
From S2P Require Import GraphTs.
From S2P Require Import GraphTsSample.

(** ** Splitting *)

(** [s.indexOf(c)] with what precedes and follows the first occurrence. *)
Fixpoint cut (c : ascii) (s : string) : option (string * string) :=
  match s with
  | EmptyString => None
  | String d s =>
      if Ascii.eqb d c then Some ("", s)
      else match cut c s with Some (a, b) => Some (String d a, b) | None => None end
  end.

(** [s.split(c)] *)
Fixpoint split (c : ascii) (s : string) : list string :=
  match s with
  | EmptyString => [""]
  | String d s =>
      if Ascii.eqb d c then "" :: split c s
      else match split c s with
           | x :: l => String d x :: l
           | [] => [String d ""]
           end
  end.

(** [l.join(sep)] *)
Fixpoint join (sep : string) (l : list string) : string :=
  match l with
  | [] => ""
  | [x] => x
  | x :: l => x +:+ sep +:+ join sep l
  end.

Definition no_char (c : ascii) (s : string) : Prop := str_all (λ d, negb (Ascii.eqb d c)) s = true.

Lemma no_char_cons c d s : no_char c (String d s) ↔ d ≠ c ∧ no_char c s.
Proof.
  unfold no_char. simpl. rewrite andb_true_iff, negb_true_iff, Ascii.eqb_neq. done.
Qed.

Lemma split_nonempty c s : split c s ≠ [].
Proof. destruct s as [|d s]; simpl; [done|]. case_match; [done|]. by destruct (split c s). Qed.

Lemma join_cons sep x l : l ≠ [] → join sep (x :: l) = x +:+ sep +:+ join sep l.
Proof. by destruct l. Qed.

Lemma join_split c s : join (String c "") (split c s) = s.
Proof.
  induction s as [|d s IH]; simpl; [done|].
  destruct (Ascii.eqb_spec d c) as [->|Hd].
  - rewrite join_cons by apply split_nonempty. by rewrite IH.
  - destruct (split c s) as [|x l] eqn:E; [by destruct (split_nonempty c s)|].
    rewrite <- IH. destruct l as [|y l]; done.
Qed.

Lemma split_sep c a s : no_char c a → split c (a +:+ String c s) = a :: split c s.
Proof.
  induction a as [|d a IH]; intros H.
  - change ("" +:+ String c s) with (String c s). cbn [split]. by rewrite Ascii.eqb_refl.
  - apply no_char_cons in H as [Hd H]. rewrite string_app_cons. cbn [split].
    destruct (Ascii.eqb_spec d c); [done|]. by rewrite (IH H).
Qed.

Lemma split_none c a : no_char c a → split c a = [a].
Proof.
  induction a as [|d a IH]; intros H; [done|]. apply no_char_cons in H as [Hd H]. cbn [split].
  destruct (Ascii.eqb_spec d c); [done|]. by rewrite (IH H).
Qed.

Lemma cut_sep c a s : no_char c a → cut c (a +:+ String c s) = Some (a, s).
Proof.
  induction a as [|d a IH]; intros H.
  - change ("" +:+ String c s) with (String c s). cbn [cut]. by rewrite Ascii.eqb_refl.
  - apply no_char_cons in H as [Hd H]. rewrite string_app_cons. cbn [cut].
    destruct (Ascii.eqb_spec d c); [done|]. by rewrite (IH H).
Qed.

(** A delimited prefix is determined by the whole. *)
Lemma delimited_inj c a1 a2 s1 s2 :
  no_char c a1 → no_char c a2 →
  a1 +:+ String c s1 = a2 +:+ String c s2 → a1 = a2 ∧ s1 = s2.
Proof.
  intros H1 H2 E. pose proof (cut_sep c a1 s1 H1) as C1. rewrite E, cut_sep in C1 by done.
  by simplify_eq.
Qed.

Lemma digits_no_char c s : is_digit c = false → str_all is_digit s = true → no_char c s.
Proof.
  intros Hc. induction s as [|d s IH]; [done|]. simpl. rewrite andb_true_iff. intros [Hd Hs].
  apply no_char_cons. split; [congruence | auto].
Qed.

Lemma pretty_no_colon (z : Z) : no_char ":" (pretty z).
Proof.
  destruct (Z.le_gt_cases 0 z).
  - by apply digits_no_char, pretty_digits.
  - rewrite pretty_neg by lia. apply no_char_cons. split; [done|].
    apply digits_no_char; [done|]. apply pretty_digits. lia.
Qed.

Lemma split_app c a s : split c (a +:+ String c s) = split c a ++ split c s.
Proof.
  induction a as [|d a IH].
  - change ("" +:+ String c s) with (String c s). cbn [split]. by rewrite Ascii.eqb_refl.
  - rewrite string_app_cons. cbn [split]. rewrite IH. destruct (Ascii.eqb d c); [done|].
    pose proof (split_nonempty c a). by destruct (split c a).
Qed.

(** ** Timestamps *)

Definition MAX_TIMESTAMP_SECONDS : Z := 253402300799.

Section text.
Context `{GraphTs}.

Definition toTimestampSeconds (value : Z) : Z :=
  if value <? 0 then 0
  else if MAX_TIMESTAMP_SECONDS <? value then MAX_TIMESTAMP_SECONDS
  else toI64 value.

(** [value.equals(Bytes.fromUint8Array(new Uint8Array(value.length)))] *)
Definition isZeroHash (value : string) : bool :=
  bool_decide (value = zero_bytes (String.length value)).

(** ** CAIP-10 *)
Record Caip10 := {
  caip_namespace : option string; caip_chainId : option string; caip_reference : option string
}.

(** [rest] is [parts.slice(2)]. *)
Definition parseCaip10 (value : string) : Caip10 :=
  match split ":" value with
  | ns :: chain :: (_ :: _) as rest =>
      {| caip_namespace := Some ns; caip_chainId := Some chain;
         caip_reference := Some (join ":" rest) |}
  | _ => {| caip_namespace := None; caip_chainId := None; caip_reference := None |}
  end.

Definition toEip155Caip10 (chain : Z) (addr : string) : string :=
  "eip155:" +:+ pretty chain +:+ ":" +:+ toHexString addr.

(** ** Entity ids: decimal and hex parts joined with [:] *)

Definition registryEntityId (chain : Z) (addr : string) : string :=
  pretty chain +:+ ":" +:+ toHexString addr.
Definition agenticCommerceEntityId (chain : Z) (addr : string) : string :=
  pretty chain +:+ ":" +:+ toHexString addr.
Definition agentEntityId (chain : Z) (registry : string) (agentId : Z) : string :=
  pretty chain +:+ ":" +:+ toHexString registry +:+ ":" +:+ pretty agentId.
Definition jobEntityId (chain : Z) (contract : string) (jobId : Z) : string :=
  pretty chain +:+ ":" +:+ toHexString contract +:+ ":" +:+ pretty jobId.
Definition feedbackEntityId (chain : Z) (registry : string) (agentId : Z) (client : string)
    (feedbackIndex : Z) : string :=
  pretty chain +:+ ":" +:+ toHexString registry +:+ ":" +:+ pretty agentId +:+ ":"
    +:+ toHexString client +:+ ":" +:+ pretty feedbackIndex.

(** ** URIs *)

Definition URI_KIND_NONE : string := "NONE".
Definition URI_KIND_DATA : string := "DATA".
Definition URI_KIND_IPFS : string := "IPFS".
Definition URI_KIND_ARWEAVE : string := "ARWEAVE".
Definition URI_KIND_HTTPS : string := "HTTPS".
Definition URI_KIND_HTTP : string := "HTTP".
Definition URI_KIND_OTHER : string := "OTHER".

Definition classifyUri (uri : string) : string :=
  if strlen uri =? 0 then URI_KIND_NONE else
  let lower := toLowerCase uri in
  if startsWith "data:" lower then URI_KIND_DATA
  else if startsWith "ipfs://" lower then URI_KIND_IPFS
  else if startsWith "ar://" lower then URI_KIND_ARWEAVE
  else if startsWith "https://" lower then URI_KIND_HTTPS
  else if startsWith "http://" lower then URI_KIND_HTTP
  else URI_KIND_OTHER.

(** ** Base64 *)

Definition ALPHABET : string :=
  "ABCDEFGHIJKLMNOPQRSTUVWXYZabcdefghijklmnopqrstuvwxyz0123456789+/".

Fixpoint indexOf_from (i : Z) (c : ascii) (s : string) : Z :=
  match s with
  | EmptyString => -1
  | String d s => if Ascii.eqb d c then i else indexOf_from (i + 1) c s
  end.

(** [ALPHABET.indexOf(c)] *)
Definition alphabetIndex (c : ascii) : Z := indexOf_from 0 c ALPHABET.

Fixpoint withoutWhitespace (s : string) : string :=
  match s with
  | EmptyString => ""
  | String c s =>
      let isWhitespace := (code c =? 32) || (code c =? 9) || (code c =? 10) || (code c =? 13) in
      if isWhitespace then withoutWhitespace s else String c (withoutWhitespace s)
  end.

(** What [significantLength] keeps: the text without its trailing [=]. *)
Fixpoint significant (s : string) : string :=
  match s with
  | EmptyString => ""
  | String c s =>
      match significant s with
      | EmptyString => if Ascii.eqb c "=" then "" else String c ""
      | r => String c r
      end
  end.

(** The first four characters and the rest. *)
Fixpoint str_take (n : nat) (s : string) : string :=
  match n, s with
  | S n, String c s => String c (str_take n s)
  | _, _ => ""
  end.

(** [buffer = (buffer << 6) | value] over a chunk; null on a foreign character. *)
Fixpoint chunkBuffer (buffer : Z) (chunk : string) : option Z :=
  match chunk with
  | EmptyString => Some buffer
  | String c chunk =>
      let value := alphabetIndex c in
      if value <? 0 then None else chunkBuffer (Z.lor (Z.shiftl buffer 6) value) chunk
  end.

Definition byte_char (z : Z) : ascii := Ascii.ascii_of_nat (Z.to_nat z).

(** The bytes of a chunk: [byteCount] of the three of its 24-bit frame. *)
Definition chunkBytes (chunk : string) : option string :=
  buffer ← chunkBuffer 0 chunk;
  let chunkBits := strlen chunk * 6 in
  let buffer := Z.shiftl buffer (24 - chunkBits) in
  let byteCount := Z.to_nat (chunkBits / 8) in
  Some (foldr (λ i out, String (byte_char (Z.land (Z.shiftr buffer (16 - Z.of_nat i * 8)) 255)) out)
          "" (seq 0 byteCount)).

(** The loop over the chunks; each turn takes at least one character. *)
Fixpoint decode_loop (fuel : nat) (s : string) : option string :=
  match fuel with
  | O => Some ""
  | S fuel =>
      match s with
      | EmptyString => Some ""
      | _ =>
          bytes ← chunkBytes (str_take 4 s);
          rest ← decode_loop fuel (str_drop 4 s);
          Some (bytes +:+ rest)
      end
  end.

Definition base64Decode (input : string) : option string :=
  let text := significant (withoutWhitespace input) in
  decode_loop (String.length text) text.

Definition base64DecodeToString (input : string) : option string :=
  utf8 <$> base64Decode input.

(** ** data: URIs *)

Definition hasBase64Marker (meta : string) : bool :=
  existsb (λ s, bool_decide (toLowerCase s = "base64")) (split ";" meta).

Definition decodeDataUri (uri : string) : option string :=
  if negb (startsWith "data:" (toLowerCase uri)) then None else
  match cut "," (str_drop 5 uri) with
  | None => None
  | Some (meta, payload) =>
      let looksLikePlainJson := startsWith "{" payload || startsWith "[" payload in
      if hasBase64Marker meta && negb looksLikePlainJson then base64DecodeToString payload
      else Some payload
  end.
End text.

Example base64_ex :
  base64Decode "aGVsbG8=" = Some "hello" ∧ base64Decode "aGVs bG8" = Some "hello" ∧
  base64Decode "aGVs*G8" = None ∧ base64Decode "====" = Some "".
Proof. by vm_compute. Qed.

(** ** Base64: the reference encoder *)

Definition enc_char (i : Z) : ascii := default "="%char (String.get (Z.to_nat i) ALPHABET).

(** Three bytes as four sextets, without the padding. *)
Fixpoint encode_groups (s : string) : string :=
  match s with
  | String a (String b (String c r)) =>
      let '(x, y, z) := (code a, code b, code c) in
      String (enc_char (x / 4)) (String (enc_char (x mod 4 * 16 + y / 16))
        (String (enc_char (y mod 16 * 4 + z / 64)) (String (enc_char (z mod 64)) (encode_groups r))))
  | String a (String b EmptyString) =>
      let '(x, y) := (code a, code b) in
      String (enc_char (x / 4)) (String (enc_char (x mod 4 * 16 + y / 16))
        (String (enc_char (y mod 16 * 4)) ""))
  | String a EmptyString =>
      let x := code a in String (enc_char (x / 4)) (String (enc_char (x mod 4 * 16)) "")
  | EmptyString => ""
  end.

Definition base64Encode (s : string) : string :=
  encode_groups s +:+
  match Z.of_nat (String.length s) mod 3 with 1 => "==" | 2 => "=" | _ => "" end.

Lemma enc_char_facts i :
  0 ≤ i < 64 →
  alphabetIndex (enc_char i) = i ∧ enc_char i ≠ "="%char ∧
  (code (enc_char i) =? 32) || (code (enc_char i) =? 9) || (code (enc_char i) =? 10)
    || (code (enc_char i) =? 13) = false ∧ enc_char i ≠ "{"%char ∧ enc_char i ≠ "["%char.
Proof.
  intros Hi.
  assert (forallb (λ i, (alphabetIndex (enc_char i) =? i) && negb (Ascii.eqb (enc_char i) "=")
    && negb ((code (enc_char i) =? 32) || (code (enc_char i) =? 9) || (code (enc_char i) =? 10)
       || (code (enc_char i) =? 13))
    && negb (Ascii.eqb (enc_char i) "{") && negb (Ascii.eqb (enc_char i) "[")) (seqZ 0 64) = true)
    as H by by vm_compute.
  rewrite forallb_forall in H. specialize (H i).
  rewrite !andb_true_iff, !negb_true_iff, !Ascii.eqb_neq, Z.eqb_eq in H.
  destruct H as [[[[? ?] ?] ?] ?]; [|done]. apply list_elem_of_In, elem_of_seqZ. lia.
Qed.

Lemma lor_shiftl b v n : 0 ≤ n → 0 ≤ v < 2 ^ n → Z.lor (Z.shiftl b n) v = b * 2 ^ n + v.
Proof.
  intros Hn Hv. rewrite <- Z.shiftl_mul_pow2 by done. symmetry. apply Z.add_nocarry_lor.
  apply Z.bits_inj'. intros i Hi. rewrite Z.land_spec, Z.bits_0.
  destruct (Z.lt_ge_cases i n).
  - by rewrite Z.shiftl_spec_low.
  - assert (Z.testbit v i = false) as ->; [|apply andb_false_r].
    rewrite <- (Z.mod_small v (2 ^ n) Hv). apply Z.mod_pow2_bits_high. lia.
Qed.

Lemma chunkBuffer_enc b i s :
  0 ≤ i < 64 → chunkBuffer b (String (enc_char i) s) = chunkBuffer (b * 64 + i) s.
Proof.
  intros Hi. cbn [chunkBuffer]. destruct (enc_char_facts i Hi) as [-> _].
  destruct (Z.ltb_spec i 0); [lia|]. by rewrite lor_shiftl by lia.
Qed.

Lemma code_range c : 0 ≤ code c < 256.
Proof. unfold code. pose proof (Ascii.nat_ascii_bounded c). lia. Qed.

Lemma byte_char_code c : byte_char (code c) = c.
Proof. unfold byte_char, code. by rewrite Nat2Z.id, Ascii.ascii_nat_embedding. Qed.

(** The frame's byte [i] of a buffer [f]. *)
Lemma frame_byte f k c :
  0 ≤ k → (f / 2 ^ k) mod 256 = code c → byte_char (Z.land (Z.shiftr f k) 255) = c.
Proof.
  intros Hk E. change 255 with (Z.ones 8). rewrite Z.land_ones, Z.shiftr_div_pow2 by lia.
  change (2 ^ 8) with 256. by rewrite E, byte_char_code.
Qed.

Lemma chunkBytes_3 a b c :
  chunkBytes (encode_groups (String a (String b (String c "")))) = Some (String a (String b (String c ""))).
Proof.
  pose proof (code_range a). pose proof (code_range b). pose proof (code_range c).
  cbn [encode_groups]. unfold chunkBytes. rewrite !chunkBuffer_enc by div_lia.
  cbn [chunkBuffer mbind option_bind]. change (strlen _ * 6) with 24.
  change (24 - 24) with 0. change (Z.to_nat (24 / 8)) with 3%nat.
  cbn [seq foldr]. rewrite Z.shiftl_mul_pow2 by lia.
  apply (f_equal Some), (f_equal2 String); [|apply (f_equal2 String); [|apply (f_equal2 String); [|done]]];
    (apply frame_byte; [lia | norm_exp; div_lia]).
Qed.

Lemma chunkBytes_2 a b :
  chunkBytes (encode_groups (String a (String b ""))) = Some (String a (String b "")).
Proof.
  pose proof (code_range a). pose proof (code_range b).
  cbn [encode_groups]. unfold chunkBytes. rewrite !chunkBuffer_enc by div_lia.
  cbn [chunkBuffer mbind option_bind]. change (strlen _ * 6) with 18.
  change (24 - 18) with 6. change (Z.to_nat (18 / 8)) with 2%nat.
  cbn [seq foldr]. rewrite Z.shiftl_mul_pow2 by lia.
  apply (f_equal Some), (f_equal2 String); [|apply (f_equal2 String); [|done]];
    (apply frame_byte; [lia | norm_exp; div_lia]).
Qed.

Lemma chunkBytes_1 a : chunkBytes (encode_groups (String a "")) = Some (String a "").
Proof.
  pose proof (code_range a).
  cbn [encode_groups]. unfold chunkBytes. rewrite !chunkBuffer_enc by div_lia.
  cbn [chunkBuffer mbind option_bind]. change (strlen _ * 6) with 12.
  change (24 - 12) with 12. change (Z.to_nat (12 / 8)) with 1%nat.
  cbn [seq foldr]. rewrite Z.shiftl_mul_pow2 by lia.
  apply (f_equal Some), (f_equal2 String); [|done].
  apply frame_byte; [lia | norm_exp; div_lia].
Qed.

Lemma triple_ind (P : string → Prop) :
  P "" → (∀ a, P (String a "")) → (∀ a b, P (String a (String b ""))) →
  (∀ a b c r, P r → P (String a (String b (String c r)))) → ∀ s, P s.
Proof.
  intros H0 H1 H2 H3. enough (∀ n s, (String.length s ≤ n)%nat → P s) as H by eauto.
  induction n as [|n IH]; intros s Hs; [by destruct s; [|simpl in Hs; lia]|].
  destruct s as [|a [|b [|c r]]]; auto. apply H3, IH. simpl in Hs. lia.
Qed.

(** A character of the alphabet: kept by both cleaning passes. *)
Definition sextet_char (c : ascii) : Prop := ∃ i, 0 ≤ i < 64 ∧ c = enc_char i.

Lemma enc_sextet i : 0 ≤ i < 64 → sextet_char (enc_char i).
Proof. by exists i. Qed.

Lemma sextets a b c :
  let '(x, y, z) := (code a, code b, code c) in
  0 ≤ x / 4 < 64 ∧ 0 ≤ x mod 4 * 16 + y / 16 < 64 ∧ 0 ≤ y mod 16 * 4 + z / 64 < 64 ∧
  0 ≤ z mod 64 < 64 ∧ 0 ≤ y mod 16 * 4 < 64 ∧ 0 ≤ x mod 4 * 16 < 64.
Proof.
  pose proof (code_range a). pose proof (code_range b). pose proof (code_range c).
  split_and!; div_lia.
Qed.

Lemma clean_cons c s :
  sextet_char c →
  significant (withoutWhitespace (String c s)) = String c (significant (withoutWhitespace s)).
Proof.
  intros (i & Hi & ->). destruct (enc_char_facts i Hi) as (_ & He & Hw & _).
  cbn [withoutWhitespace]. rewrite Hw. cbn [significant].
  destruct (significant (withoutWhitespace s)); [|done].
  by destruct (Ascii.eqb_spec (enc_char i) "=").
Qed.

Lemma clean_groups s pad :
  significant (withoutWhitespace pad) = "" →
  significant (withoutWhitespace (encode_groups s +:+ pad)) = encode_groups s.
Proof.
  intros Hp. induction s as [|a|a b|a b c r IH] using triple_ind; [done|..];
    cbn [encode_groups]; rewrite ?string_app_cons.
  - destruct (sextets a a a) as (? & _ & _ & _ & _ & ?).
    rewrite !clean_cons by by apply enc_sextet. change ("" +:+ pad) with pad. by rewrite Hp.
  - destruct (sextets a b b) as (? & ? & _ & _ & ? & _).
    rewrite !clean_cons by by apply enc_sextet. change ("" +:+ pad) with pad. by rewrite Hp.
  - destruct (sextets a b c) as (? & ? & ? & ? & _ & _).
    rewrite !clean_cons by by apply enc_sextet. by rewrite IH.
Qed.

Lemma decode_loop_groups s fuel :
  (String.length (encode_groups s) ≤ fuel)%nat → decode_loop fuel (encode_groups s) = Some s.
Proof.
  revert fuel. induction s as [|a|a b|a b c r IH] using triple_ind; intros fuel Hf.
  - by destruct fuel.
  - pose proof (chunkBytes_1 a) as E. cbn [encode_groups] in *. simpl in Hf.
    destruct fuel as [|fuel]; [lia|]. cbn [decode_loop str_take str_drop]. rewrite E.
    by destruct fuel.
  - pose proof (chunkBytes_2 a b) as E. cbn [encode_groups] in *. simpl in Hf.
    destruct fuel as [|fuel]; [lia|]. cbn [decode_loop str_take str_drop]. rewrite E.
    by destruct fuel.
  - pose proof (chunkBytes_3 a b c) as E. cbn [encode_groups] in *. cbn [String.length] in Hf.
    destruct fuel as [|fuel]; [lia|]. cbn [decode_loop str_take str_drop]. rewrite E.
    cbn [mbind option_bind]. rewrite IH by lia. done.
Qed.

Lemma base64Decode_encode s : base64Decode (base64Encode s) = Some s.
Proof.
  unfold base64Decode, base64Encode. rewrite clean_groups.
  - by apply decode_loop_groups.
  - repeat case_match; done.
Qed.

Lemma groups_head s c r :
  encode_groups s = String c r → c ≠ "{"%char ∧ c ≠ "["%char.
Proof.
  assert (∀ a, enc_char (code a / 4) ≠ "{"%char ∧ enc_char (code a / 4) ≠ "["%char) as Hc.
  { intros a. destruct (sextets a a a) as (Ha & _).
    by destruct (enc_char_facts _ Ha) as (_ & _ & _ & ? & ?). }
  destruct s as [|a [|b [|d s]]]; simpl; intros [= <- <-]; apply Hc.
Qed.

(** ** Properties *)

Section properties.
Context `{GraphTsLaws}.

(** A timestamp read from event parameters is stored in the range graph-node
    accepts, 0 to 9999-12-31T23:59:59Z, unchanged when already inside it, clamped
    to the nearer end otherwise (a [uint64] maximum included). *)
Theorem toTimestampSeconds_clamps v :
  toTimestampSeconds v = Z.max 0 (Z.min v MAX_TIMESTAMP_SECONDS) ∧
  0 ≤ toTimestampSeconds v ≤ MAX_TIMESTAMP_SECONDS.
Proof.
  unfold toTimestampSeconds, MAX_TIMESTAMP_SECONDS in *.
  destruct (Z.ltb_spec v 0); [lia|]. destruct (Z.ltb_spec 253402300799 v); [lia|].
  rewrite toI64_small; lia.
Qed.

Lemma toHexString_no_colon a : no_char ":" (toHexString a).
Proof. apply toHexString_colon. Qed.

Lemma prefix_inj (c1 : Z) a1 r1 (c2 : Z) a2 r2 :
  pretty c1 +:+ ":" +:+ toHexString a1 +:+ ":" +:+ r1
  = pretty c2 +:+ ":" +:+ toHexString a2 +:+ ":" +:+ r2 → c1 = c2 ∧ a1 = a2 ∧ r1 = r2.
Proof.
  intros E. change (pretty c1 +:+ String ":" (toHexString a1 +:+ String ":" r1)
    = pretty c2 +:+ String ":" (toHexString a2 +:+ String ":" r2)) in E.
  apply delimited_inj in E as [Hc E]; [|apply pretty_no_colon..].
  apply delimited_inj in E as [Ha E]; [|apply toHexString_no_colon..].
  by apply pretty_Z_inj in Hc; apply toHexString_inj in Ha.
Qed.

Lemma agentEntityId_inj c1 a1 i1 c2 a2 i2 :
  agentEntityId c1 a1 i1 = agentEntityId c2 a2 i2 → c1 = c2 ∧ a1 = a2 ∧ i1 = i2.
Proof. intros (? & ? & ?%pretty_Z_inj)%prefix_inj. done. Qed.

Lemma jobEntityId_inj c1 a1 i1 c2 a2 i2 :
  jobEntityId c1 a1 i1 = jobEntityId c2 a2 i2 → c1 = c2 ∧ a1 = a2 ∧ i1 = i2.
Proof. intros (? & ? & ?%pretty_Z_inj)%prefix_inj. done. Qed.

Lemma feedbackEntityId_inj c1 r1 a1 x1 i1 c2 r2 a2 x2 i2 :
  feedbackEntityId c1 r1 a1 x1 i1 = feedbackEntityId c2 r2 a2 x2 i2 →
  c1 = c2 ∧ r1 = r2 ∧ a1 = a2 ∧ x1 = x2 ∧ i1 = i2.
Proof.
  intros (-> & -> & E)%prefix_inj. apply prefix_inj in E as (-> & -> & ->%pretty_Z_inj). done.
Qed.

(** entity ids never collide: the chain id, the contract address and the number
    of an agent or a job, and all five parts of a feedback, can be read back from
    the id, across chains that share a contract address. *)
Lemma entity_ids_injective c1 a1 i1 c2 a2 i2 x1 y1 x2 y2 :
  (agentEntityId c1 a1 i1 = agentEntityId c2 a2 i2 ↔ c1 = c2 ∧ a1 = a2 ∧ i1 = i2) ∧
  (jobEntityId c1 a1 i1 = jobEntityId c2 a2 i2 ↔ c1 = c2 ∧ a1 = a2 ∧ i1 = i2) ∧
  (feedbackEntityId c1 a1 i1 x1 y1 = feedbackEntityId c2 a2 i2 x2 y2 ↔
    c1 = c2 ∧ a1 = a2 ∧ i1 = i2 ∧ x1 = x2 ∧ y1 = y2) ∧
  (registryEntityId c1 a1 = registryEntityId c2 a2 ↔ c1 = c2 ∧ a1 = a2).
Proof.
  split_and!.
  - split; [apply agentEntityId_inj | by intros (-> & -> & ->)].
  - split; [apply jobEntityId_inj | by intros (-> & -> & ->)].
  - split; [apply feedbackEntityId_inj | by intros (-> & -> & -> & -> & ->)].
  - split; [|by intros (-> & ->)]. unfold registryEntityId. intros E.
    destruct (delimited_inj ":" _ _ _ _ (pretty_no_colon c1) (pretty_no_colon c2) E) as [E1 E2].
    by apply pretty_Z_inj in E1; apply toHexString_inj in E2.
Qed.

(** [parseCaip10] reads back what [toEip155Caip10] writes, and never loses text:
    three parts joined with colons are the input, and fewer than two colons give
    no parts at all. *)
Lemma parseCaip10_roundtrip chain addr v :
  parseCaip10 (toEip155Caip10 chain addr)
    = {| caip_namespace := Some "eip155"; caip_chainId := Some (pretty chain);
         caip_reference := Some (toHexString addr) |} ∧
  match caip_namespace (parseCaip10 v), caip_chainId (parseCaip10 v), caip_reference (parseCaip10 v) with
  | Some n, Some c, Some r => v = n +:+ ":" +:+ c +:+ ":" +:+ r
  | None, None, None => (length (split ":" v) < 3)%nat
  | _, _, _ => False
  end.
Proof.
  split.
  - unfold parseCaip10, toEip155Caip10.
    change ("eip155:" +:+ pretty chain +:+ ":" +:+ toHexString addr)
      with ("eip155" +:+ String ":" (pretty chain +:+ String ":" (toHexString addr))).
    rewrite (split_sep ":" "eip155") by done.
    rewrite (split_sep ":" (pretty chain)) by apply pretty_no_colon.
    by rewrite split_none by apply toHexString_no_colon.
  - pose proof (join_split ":" v) as E. unfold parseCaip10.
    destruct (split ":" v) as [|n [|c [|r l]]]; cbn [caip_namespace]; [simpl; lia..|].
    cbn [caip_chainId caip_reference].
    rewrite <- E, join_cons by done. by rewrite join_cons by done.
Qed.

(** Base64 text decodes to the bytes it encodes, padded or not, and a [data:]
    URI labelled [;base64] yields the text it carries. *)
Theorem base64_roundtrip s mime :
  base64Decode (base64Encode s) = Some s ∧ base64Decode (encode_groups s) = Some s ∧
  (no_char "," mime →
   decodeDataUri ("data:" +:+ mime +:+ ";base64," +:+ base64Encode s) = Some (utf8 s)).
Proof.
  split_and!.
  - apply base64Decode_encode.
  - unfold base64Decode. pose proof (clean_groups s "" eq_refl) as E.
    rewrite string_app_nil_r in E. rewrite E. by apply decode_loop_groups.
  - intros Hm. unfold decodeDataUri.
    assert (startsWith "data:" (toLowerCase ("data:" +:+ mime +:+ ";base64," +:+ base64Encode s))
      = true) as ->.
    { change (toLowerCase ("data:" +:+ ?r)) with ("data:" +:+ toLowerCase r). apply startsWith_app. }
    cbn [negb]. change 5%nat with (String.length "data:"). rewrite str_drop_app.
    replace (mime +:+ ";base64," +:+ base64Encode s)
      with ((mime +:+ ";base64") +:+ String "," (base64Encode s))
      by by rewrite string_app_assoc.
    rewrite cut_sep.
    2: { unfold no_char in *. rewrite str_all_app, Hm. done. }
    assert (hasBase64Marker (mime +:+ ";base64") = true) as ->.
    { unfold hasBase64Marker. apply existsb_exists. exists "base64". split; [|done].
      apply list_elem_of_In. change ";base64" with (String ";" "base64").
      rewrite split_app. apply elem_of_app. right. by left. }
    assert (startsWith "{" (base64Encode s) || startsWith "[" (base64Encode s) = false) as ->.
    { unfold base64Encode. destruct (encode_groups s) as [|c r] eqn:E.
      - repeat case_match; done.
      - destruct (groups_head s c r E). rewrite string_app_cons. cbn [startsWith].
        destruct (Ascii.eqb_spec "{" c), (Ascii.eqb_spec "[" c); try done; congruence. }
    cbn [negb andb]. unfold base64DecodeToString. by rewrite base64Decode_encode.
Qed.
End properties.

#[local] Instance sample_inst : GraphTs := sample_ts.

Lemma toTimestampSeconds_clamps_witness :
  toTimestampSeconds 18446744073709551615 = 253402300799 ∧
  0 ≤ toTimestampSeconds 18446744073709551615 ≤ MAX_TIMESTAMP_SECONDS.
Proof. exact (@toTimestampSeconds_clamps sample_ts sample_laws 18446744073709551615). Defined.

Lemma entity_ids_injective_witness :
  agentEntityId 1 "registry" 11 = agentEntityId 11 "registry" 1 ↔
  1 = 11 ∧ "registry" = "registry" ∧ 11 = 1.
Proof.
  exact (proj1 (@entity_ids_injective sample_ts sample_laws 1 "registry" 11 11 "registry" 1 "" 0 "" 0)).
Defined.

Lemma parseCaip10_roundtrip_witness :
  parseCaip10 (toEip155Caip10 5042002 "12345678901234567890")
    = {| caip_namespace := Some "eip155"; caip_chainId := Some "5042002";
         caip_reference := Some "0x3132333435363738393031323334353637383930" |}.
Proof. exact (proj1 (@parseCaip10_roundtrip sample_ts sample_laws 5042002 "12345678901234567890" "")). Defined.

Lemma base64_roundtrip_witness :
  decodeDataUri "data:application/json;base64,eyJuYW1lIjoiYiJ9"
    = Some ("{" +:+ q +:+ "name" +:+ q +:+ ":" +:+ q +:+ "b" +:+ q +:+ "}").
Proof.
  exact (proj2 (proj2 (@base64_roundtrip sample_ts
    ("{" +:+ q +:+ "name" +:+ q +:+ ":" +:+ q +:+ "b" +:+ q +:+ "}") "application/json")) eq_refl).
Defined.
