(* ===== verification/SgJson.v ===== *)
(** * Subgraph: guarded readers of untrusted JSON

    Models [packages/subgraph-arc/src/shared/json.ts]. A null [JSONValue] of the
    code is [None]; an accessor that would trap is [Throw (Trap _)], and the
    theorems show that no reader ever reaches one. *)

From S2P Require Import Prelude.
From S2P Require Import Js.
From S2P Require Import Decimal.
From S2P Require Import GraphTs.
From S2P Require Import GraphTsSample.

Section json.
Context `{GraphTs}.

(** [value == null || value.isNull() || value.kind != k] *)
Definition notKind (k : JSONValueKind) (value : option JSONValue) : bool :=
  match value with
  | None => true
  | Some v => bool_decide (kind_of v = NULL) || negb (bool_decide (kind_of v = k))
  end.

(** The value behind a null check. *)
Definition the (value : option JSONValue) : JSONValue := default JNull value.

Definition asObject (value : option JSONValue) : wasm (option TypedMap) :=
  if notKind OBJECT value then mret None
  else m ← toObject (the value); mret (Some m).

Definition asArray (value : option JSONValue) : wasm (list JSONValue) :=
  if notKind ARRAY value then mret [] else toArray (the value).

(** The loops that push what reads and skip the rest. *)
Fixpoint collect {A} (read : option JSONValue → wasm (option A)) (items : list JSONValue)
    : wasm (list A) :=
  match items with
  | [] => mret []
  | x :: items =>
      obj ← read (Some x);
      out ← collect read items;
      mret match obj with None => out | Some o => o :: out end
  end.

Definition asObjectArray (value : option JSONValue) : wasm (list TypedMap) :=
  items ← asArray value; collect asObject items.

Definition asString (value : option JSONValue) : wasm (option string) :=
  if notKind STRING value then mret None
  else s ← toStr (the value); mret (Some s).

(** [JsonBool] and [JsonI32]: a flag and a value. *)
Record JsonBool := { jb_present : bool; jb_value : bool }.
Record JsonI32 := { ji_present : bool; ji_value : Z }.

Definition asBool (value : option JSONValue) : wasm JsonBool :=
  if notKind BOOL value then mret {| jb_present := false; jb_value := false |}
  else b ← toBool (the value); mret {| jb_present := true; jb_value := b |}.

Definition asStringArray (value : option JSONValue) : wasm (list string) :=
  items ← asArray value; collect asString items.

Definition asWholeBigInt (value : option JSONValue) : wasm (option Z) :=
  if notKind NUMBER value then mret None else
  asFloat ← toF64 (the value);
  if f64_lt asFloat 0 || negb (f64_whole asFloat) || f64_ge asFloat 9223372036854775808
  then mret None
  else i ← f64_as_int 64 asFloat; mret (Some i).

Definition asWholeI32 (value : option JSONValue) (min max : Z) : wasm JsonI32 :=
  let absent := {| ji_present := false; ji_value := 0 |} in
  if notKind NUMBER value then mret absent else
  asFloat ← toF64 (the value);
  if negb (f64_whole asFloat) then mret absent
  else if f64_lt asFloat min || f64_gt asFloat max then mret absent
  else i ← f64_as_int 32 asFloat; mret {| ji_present := true; ji_value := i |}.

Definition asStringOrNumber (value : option JSONValue) : wasm (option string) :=
  s ← asString value;
  match s with
  | Some s => mret (Some s)
  | None => n ← asWholeBigInt value; mret (pretty <$> n)
  end.

(** ** Rendering *)

Definition numberToText (value : JSONValue) : wasm string :=
  asFloat ← toF64 value;
  if f64_ge asFloat (-9223372036854775808) && f64_lt asFloat 9223372036854775808
     && f64_whole asFloat
  then i ← f64_as_int 64 asFloat; mret (pretty i)
  else mret (f64_toString asFloat).

Definition backslash : ascii := "\".

(** The loop of [quoteJsonString]. *)
Fixpoint escape (s : string) : string :=
  match s with
  | EmptyString => ""
  | String c s =>
      if Ascii.eqb c "034" || Ascii.eqb c backslash then String backslash (String c (escape s))
      else if Ascii.eqb c "010" then String backslash (String "n" (escape s))
      else String c (escape s)
  end.

Definition quoteJsonString (value : string) : string := q +:+ escape value +:+ q.

(** The rendered items, separated by commas. *)
Fixpoint commas (l : list string) : string :=
  match l with
  | [] => ""
  | [x] => x
  | x :: l => x +:+ "," +:+ commas l
  end.

Fixpoint toJsonText (value : JSONValue) : wasm string :=
  match value with
  | JNull => mret "null"
  | JBool b => mret (if b then "true" else "false")
  | JString s => mret (quoteJsonString s)
  | JNumber _ => numberToText value
  | JArray items =>
      out ← (fix go (l : list JSONValue) : wasm (list string) :=
               match l with
               | [] => mret []
               | x :: l => t ← toJsonText x; r ← go l; mret (t :: r)
               end) items;
      mret ("[" +:+ commas out +:+ "]")
  | JObject entries =>
      out ← (fix go (l : list (string * JSONValue)) : wasm (list string) :=
               match l with
               | [] => mret []
               | (k, x) :: l =>
                   t ← toJsonText x; r ← go l; mret ((quoteJsonString k +:+ ":" +:+ t) :: r)
               end) entries;
      mret ("{" +:+ commas out +:+ "}")
  end.

Record JsonValueDescription := { jd_value : string; jd_valueType : string }.

Definition describeJsonValue (value : JSONValue) : wasm JsonValueDescription :=
  if bool_decide (kind_of value = STRING) then
    s ← toStr value; mret {| jd_value := s; jd_valueType := "STRING" |}
  else if bool_decide (kind_of value = BOOL) then
    b ← toBool value;
    mret {| jd_value := if (b : bool) then "true" else "false"; jd_valueType := "BOOLEAN" |}
  else if bool_decide (kind_of value = NUMBER) then
    t ← numberToText value; mret {| jd_value := t; jd_valueType := "NUMBER" |}
  else
    t ← toJsonText value; mret {| jd_value := t; jd_valueType := "JSON" |}.

(** The loop of [isDecimalString], from its index on. *)
Fixpoint decimal_loop (s : string) (sawDigit sawDot : bool) : bool :=
  match s with
  | EmptyString => sawDigit
  | String c s =>
      if Ascii.eqb c "." then (if sawDot then false else decimal_loop s sawDigit true)
      else if negb (is_digit c) then false
      else decimal_loop s true sawDot
  end.

Definition isDecimalString (value : string) : bool :=
  match value with
  | EmptyString => false
  | String c rest =>
      let tail := if Ascii.eqb c "-" then rest else value in
      match tail with
      | EmptyString => false
      | _ => decimal_loop tail false false
      end
  end.

(** ** The readers never trap *)

Definition safe {A} (m : wasm A) : Prop := ∃ a, m = Ok a.

Lemma safe_ret {A} (a : A) : safe (mret a : wasm A).
Proof. by exists a. Qed.

Lemma safe_bind {A B} (m : wasm A) (f : A → wasm B) :
  safe m → (∀ a, m = Ok a → safe (f a)) → safe (m ≫= f).
Proof. intros [a ->] Hf. by apply Hf. Qed.

Lemma notKind_false k value :
  notKind k value = false → ∃ v, value = Some v ∧ kind_of v = k.
Proof.
  destruct value as [v|]; simpl; [|done]. rewrite orb_false_iff, negb_false_iff.
  intros [_ ?%bool_decide_eq_true]. eauto.
Qed.

Lemma asObject_safe value : safe (asObject value).
Proof.
  unfold asObject. destruct (notKind OBJECT value) eqn:E; [apply safe_ret|].
  apply notKind_false in E as (v & -> & E). destruct v; try done. by eexists.
Qed.

Lemma asArray_safe value : safe (asArray value).
Proof.
  unfold asArray. destruct (notKind ARRAY value) eqn:E; [apply safe_ret|].
  apply notKind_false in E as (v & -> & E). destruct v; try done. by eexists.
Qed.

Lemma asString_safe value : safe (asString value).
Proof.
  unfold asString. destruct (notKind STRING value) eqn:E; [apply safe_ret|].
  apply notKind_false in E as (v & -> & E). destruct v; try done. by eexists.
Qed.

Lemma asBool_safe value : safe (asBool value).
Proof.
  unfold asBool. destruct (notKind BOOL value) eqn:E; [apply safe_ret|].
  apply notKind_false in E as (v & -> & E). destruct v; try done. by eexists.
Qed.

Lemma collect_safe {A} (read : option JSONValue → wasm (option A)) items :
  (∀ v, safe (read v)) → safe (collect read items).
Proof.
  intros Hr. induction items as [|x items IH]; [apply safe_ret|].
  apply safe_bind; [done|]. intros o _. apply safe_bind; [done|]. intros out _. apply safe_ret.
Qed.

Lemma asObjectArray_safe value : safe (asObjectArray value).
Proof.
  apply safe_bind; [apply asArray_safe|]. intros. apply collect_safe, asObject_safe.
Qed.

Lemma asStringArray_safe value : safe (asStringArray value).
Proof.
  apply safe_bind; [apply asArray_safe|]. intros. apply collect_safe, asString_safe.
Qed.

Lemma toF64_kind v : kind_of v = NUMBER → ∃ t, v = JNumber t ∧ toF64 v = Ok (strtod t).
Proof. destruct v; try done. eauto. Qed.

(** Within the range check, a whole [f64] converts. *)
Lemma checked_as_int bits f lo hi :
  f64_whole f = true → f64_lt f lo = false → f64_gt f hi = false →
  - 2 ^ (bits - 1) ≤ lo → hi < 2 ^ (bits - 1) →
  f64_as_int bits f = Ok (f64_int f) ∧ lo ≤ f64_int f ≤ hi.
Proof.
  intros Hw Hlo Hhi Hb1 Hb2. destruct f as [m e|neg|]; [|by destruct neg|done].
  rewrite f64_lt_int in Hlo by done. rewrite f64_gt_int in Hhi by done. zify_bool.
  split; [|lia]. apply f64_as_int_ok; [done|by intros ?|lia].
Qed.

Lemma f64_ge_gt f z : f64_whole f = true → f64_ge f z = false → f64_gt f (z - 1) = false.
Proof.
  destruct f as [m e|neg|]; [|by destruct neg|done]. intros Hw. unfold f64_ge.
  rewrite f64_lt_int, f64_gt_int by done. rewrite negb_false_iff. zify_bool. lia.
Qed.

Lemma asWholeBigInt_spec value :
  ∃ r, asWholeBigInt value = Ok r ∧ (∀ n, r = Some n → 0 ≤ n < 2 ^ 63).
Proof.
  unfold asWholeBigInt. destruct (notKind NUMBER value) eqn:E; [by eexists|].
  apply notKind_false in E as (v & -> & E). destruct (toF64_kind v E) as (t & -> & HF).
  change (the (Some (JNumber t))) with (JNumber t). rewrite HF.
  cbn [mbind result_bind]. destruct (_ || _) eqn:Ec; [by eexists|].
  rewrite !orb_false_iff, negb_false_iff in Ec. destruct Ec as [[Hlt Hw] Hge].
  apply f64_ge_gt in Hge; [|done].
  destruct (checked_as_int 64 (strtod t) 0 (9223372036854775808 - 1)) as [-> Hr]; try done.
  eexists. split; [done|]. intros n [= <-]. lia.
Qed.

Lemma asWholeI32_spec value min max :
  - 2 ^ 31 ≤ min → max < 2 ^ 31 →
  ∃ r, asWholeI32 value min max = Ok r ∧ (ji_present r = true → min ≤ ji_value r ≤ max).
Proof.
  intros Hmin Hmax. unfold asWholeI32.
  destruct (notKind NUMBER value) eqn:E; [by eexists|].
  apply notKind_false in E as (v & -> & E). destruct (toF64_kind v E) as (t & -> & HF).
  change (the (Some (JNumber t))) with (JNumber t). rewrite HF.
  cbn [mbind result_bind]. destruct (f64_whole (strtod t)) eqn:Hw; [|by eexists].
  cbn [negb]. destruct (_ || _) eqn:Ec; [by eexists|].
  rewrite !orb_false_iff in Ec. destruct Ec as [Hlt Hgt].
  destruct (checked_as_int 32 (strtod t) min max) as [-> Hr]; try done.
  eexists. split; [done|]. by intros _.
Qed.

Lemma asWholeBigInt_safe value : safe (asWholeBigInt value).
Proof. destruct (asWholeBigInt_spec value) as (r & ? & _). by exists r. Qed.

Lemma asStringOrNumber_safe value : safe (asStringOrNumber value).
Proof.
  apply safe_bind; [apply asString_safe|]. intros [s|] _; [apply safe_ret|].
  apply safe_bind; [apply asWholeBigInt_safe|]. intros. apply safe_ret.
Qed.

Lemma numberToText_safe t : safe (numberToText (JNumber t)).
Proof.
  unfold numberToText. cbn [toF64 mbind result_bind].
  destruct (_ && _) eqn:Ec; [|apply safe_ret].
  rewrite !andb_true_iff in Ec. destruct Ec as [[Hge Hlt] Hw].
  apply safe_bind; [|intros; apply safe_ret].
  destruct (strtod t) as [m e|neg|]; [|by destruct neg|done].
  unfold f64_ge in Hge. rewrite negb_true_iff in Hge.
  rewrite f64_lt_int in Hge, Hlt by done. zify_bool.
  exists (f64_int (Finite m e)). apply f64_as_int_ok; [done | by intros ? | lia].
Qed.

Lemma JSONValue_ind' (P : JSONValue → Prop) :
  P JNull → (∀ b, P (JBool b)) → (∀ t, P (JNumber t)) → (∀ s, P (JString s)) →
  (∀ l, Forall P l → P (JArray l)) → (∀ m, Forall (λ kv, P kv.2) m → P (JObject m)) →
  ∀ v, P v.
Proof.
  intros Hn Hb Ht Hs Ha Ho. fix IH 1.
  intros [|b|t|s|items|entries]; [exact Hn | apply Hb | apply Ht | apply Hs | |].
  - apply Ha. induction items as [|x items IHi]; constructor; [apply IH | exact IHi].
  - apply Ho. induction entries as [|[k v] entries IHe]; constructor; [apply IH | exact IHe].
Qed.

Lemma toJsonText_safe value : safe (toJsonText value).
Proof.
  induction value as [|b|t|s|l IH|m IH] using JSONValue_ind'; try apply safe_ret.
  - apply numberToText_safe.
  - cbn [toJsonText]. apply safe_bind; [|intros; apply safe_ret].
    induction IH as [|x l Hx Hl IH']; [apply safe_ret|].
    apply safe_bind; [done|]. intros t _. apply safe_bind; [done|]. intros. apply safe_ret.
  - cbn [toJsonText]. apply safe_bind; [|intros; apply safe_ret].
    induction IH as [|[k x] l Hx Hl IH']; [apply safe_ret|].
    apply safe_bind; [done|]. intros t _. apply safe_bind; [done|]. intros. apply safe_ret.
Qed.

Lemma describeJsonValue_safe value : safe (describeJsonValue value).
Proof.
  destruct value as [|b|t|s|l|m]; try by eexists.
  - apply (safe_bind (numberToText (JNumber t))); [apply numberToText_safe|].
    intros. apply safe_ret.
  - apply (safe_bind (toJsonText (JArray l))); [apply toJsonText_safe|]. intros. apply safe_ret.
  - apply (safe_bind (toJsonText (JObject m))); [apply toJsonText_safe|]. intros. apply safe_ret.
Qed.

(** ** Decimal text *)

Lemma decimal_loop_dot s sawDigit :
  decimal_loop s sawDigit true = true →
  str_all is_digit s = true ∧ (sawDigit = true ∨ s ≠ "").
Proof.
  revert sawDigit. induction s as [|c s IH]; intros sawDigit; cbn [decimal_loop str_all];
    [by destruct sawDigit; auto|].
  destruct (Ascii.eqb c "."); [done|]. destruct (is_digit c) eqn:Ec; [|done]. cbn [negb].
  intros [Hs _]%IH. rewrite Hs. split; [done|]. by right.
Qed.

Lemma decimal_loop_plain s sawDigit :
  decimal_loop s sawDigit false = true →
  ∃ a b, str_all is_digit a = true ∧ str_all is_digit b = true ∧
    ((s = a ∧ (sawDigit = true ∨ a ≠ "")) ∨
     (s = a +:+ "." +:+ b ∧ (sawDigit = true ∨ a ≠ "" ∨ b ≠ ""))).
Proof.
  revert sawDigit. induction s as [|c s IH]; intros sawDigit; cbn [decimal_loop].
  - intros ->. exists "", "". split_and!; try done. left. auto.
  - destruct (Ascii.eqb_spec c ".") as [->|Hc].
    + intros [Hs Hd]%decimal_loop_dot. exists "", s. split_and!; [done..|]. right.
      split; [done|]. destruct Hd; auto.
    + destruct (is_digit c) eqn:Ec; [|done]. cbn [negb].
      intros (a & b & Ha & Hb & Hs)%IH. exists (String c a), b. cbn [str_all].
      rewrite Ec, Ha. split_and!; [done..|].
      destruct Hs as [[-> _]|[-> _]]; [left | right]; (split; [done|]); right; auto.
Qed.

Lemma isDecimalString_plain s : isDecimalString s = true → plain_decimal s.
Proof.
  unfold isDecimalString, plain_decimal. destruct s as [|c r]; [done|].
  assert (∀ t, decimal_loop t false false = true → ∃ a b, str_all is_digit a = true ∧
    str_all is_digit b = true ∧ ((t = a ∧ a ≠ "") ∨ (t = a +:+ "." +:+ b ∧ (a ≠ "" ∨ b ≠ ""))))
    as Ht by (intros t (a & b & ? & ? & ?)%decimal_loop_plain; exists a, b; naive_solver).
  destruct (Ascii.eqb_spec c "-") as [->|Hc].
  - destruct r as [|d r]; [done|]. intros (a & b & Ha & Hb & Hs)%Ht. exists "-", a, b.
    split_and!; [by right | done | done |].
    destruct Hs as [[E ?]|[E ?]]; rewrite E; [left | right]; done.
  - intros (a & b & Ha & Hb & Hs)%Ht. exists "", a, b. split_and!; [by left | done | done |].
    destruct Hs as [[E ?]|[E ?]]; rewrite E; [left | right]; done.
Qed.

Lemma digit_not c : is_digit c = true → c ≠ "."%char ∧ c ≠ "-"%char.
Proof. intros Hc. by split; intros ->. Qed.

Lemma decimal_loop_digits a t sawDigit sawDot :
  str_all is_digit a = true →
  decimal_loop (a +:+ t) sawDigit sawDot = decimal_loop t (sawDigit || negb (bool_decide (a = ""))) sawDot.
Proof.
  revert sawDigit. induction a as [|c a IH]; intros sawDigit Ha.
  - change ("" +:+ t) with t. by rewrite orb_false_r.
  - cbn [str_all] in Ha. apply andb_true_iff in Ha as [Hc Ha].
    rewrite string_app_cons. cbn [decimal_loop]. destruct (digit_not c Hc) as [Hd _].
    destruct (Ascii.eqb_spec c "."); [done|]. rewrite Hc. cbn [negb]. rewrite IH by done.
    by rewrite orb_true_r.
Qed.

Lemma plain_isDecimalString s : plain_decimal s → isDecimalString s = true.
Proof.
  intros (sign & a & b & Hs & Ha & Hb & E).
  assert (∃ t, s = sign +:+ t ∧ t ≠ "" ∧ decimal_loop t false false = true ∧
    (∀ r, t ≠ String "-" r)) as (u & -> & Hu & Hloop & Hm).
  { assert (∀ r x, a +:+ x = String "-" r → a = "" ∧ x = String "-" r) as Hhead.
    { intros r x Hx. destruct a as [|c a]; [done|]. cbn [str_all] in Ha.
      apply andb_true_iff in Ha as [Hc _]. injection Hx as -> _. done. }
    destruct E as [[-> Hne]|[-> Hne]].
    - exists a. split_and!; [done..| |].
      + rewrite <- (string_app_nil_r a), decimal_loop_digits by done.
        by rewrite bool_decide_eq_false_2.
      + intros r Hr. rewrite <- (string_app_nil_r a) in Hr. by apply Hhead in Hr as [_ ?].
    - exists (a +:+ "." +:+ b). split_and!; [done | by destruct a | |].
      + rewrite decimal_loop_digits by done. change ("." +:+ b) with (String "." b).
        cbn [decimal_loop]. change (Ascii.eqb "." ".") with true. cbv iota.
        rewrite <- (string_app_nil_r b), decimal_loop_digits by done.
        cbn [decimal_loop orb].
        destruct (decide (a = "")) as [->|]; [|by rewrite bool_decide_eq_false_2].
        destruct Hne as [?|?]; [done|]. by rewrite (bool_decide_eq_false_2 (b = "")), orb_true_r.
      + intros r Hr. by apply Hhead in Hr as [_ ?]. }
  destruct Hs as [-> | ->].
  - change ("" +:+ u) with u. destruct u as [|c u]; [done|]. cbn [isDecimalString].
    destruct (Ascii.eqb_spec c "-") as [->|]; [by destruct (Hm u)|]. done.
  - change ("-" +:+ u) with (String "-" u). cbn [isDecimalString].
    change (Ascii.eqb "-" "-") with true. cbv iota. by destruct u.
Qed.

(** ** Properties *)

(** No document can abort a handler: every reader returns on every JSON value,
    whatever its kind; a whole number read for an agent id lies in [0, 2^63) and
    one read as [i32] lies in the range asked for. *)
Theorem readers_never_trap value v min max :
  - 2 ^ 31 ≤ min → max < 2 ^ 31 →
  safe (asObject value) ∧ safe (asObjectArray value) ∧ safe (asString value) ∧
  safe (asBool value) ∧ safe (asStringArray value) ∧ safe (asStringOrNumber value) ∧
  safe (describeJsonValue v) ∧
  (∃ r, asWholeBigInt value = Ok r ∧ ∀ n, r = Some n → 0 ≤ n < 2 ^ 63) ∧
  (∃ r, asWholeI32 value min max = Ok r ∧ (ji_present r = true → min ≤ ji_value r ≤ max)).
Proof.
  intros. split_and!; auto using asObject_safe, asObjectArray_safe, asString_safe, asBool_safe,
    asStringArray_safe, asStringOrNumber_safe, describeJsonValue_safe, asWholeBigInt_spec,
    asWholeI32_spec.
Qed.

(** [isDecimalString] accepts exactly the plain decimals [BigDecimal.fromString]
    takes: an optional minus sign, digits with at most one dot, some digit. *)
Lemma isDecimalString_correct s : isDecimalString s = true ↔ plain_decimal s.
Proof. split; [apply isDecimalString_plain | apply plain_isDecimalString]. Qed.
End json.

Lemma readers_never_trap_witness :
  safe (asObject (Some (JArray []))) ∧
  (∃ r, asWholeI32 (H := sample_ts) (Some (JNumber "300")) 0 255 = Ok r ∧
    (ji_present r = true → 0 ≤ ji_value r ≤ 255)).
Proof.
  split.
  - exact (proj1 (@readers_never_trap sample_ts (Some (JArray [])) JNull 0 255 ltac:(lia) ltac:(lia))).
  - exact (proj2 (proj2 (proj2 (proj2 (proj2 (proj2 (proj2 (proj2
      (@readers_never_trap sample_ts (Some (JNumber "300")) JNull 0 255 ltac:(lia) ltac:(lia)))))))))).
Defined.
