(* ===== verification/SgStore.v ===== *)
(** * Subgraph: the entity store

    The entities of [packages/subgraph-arc/schema.graphql] the mappings write,
    one record each, and the store. A loaded entity is a copy: [Entity.load(id)]
    reads the map, [entity.save()] inserts at the entity's id, and a field the
    schema derives is left out. The id of an entity is the key it is stored
    under. A triple [xAt], [xAtBlock], [xAtTransaction] is a [Stamp], the four
    log fields of an immutable record are a [Log]. Timeseries points have no id
    and are kept in the order written. *)

From S2P Require Import Prelude.
From S2P Require Import GraphTs.

Inductive JobStatus := OPEN | FUNDED | SUBMITTED | COMPLETED | REJECTED | EXPIRED.
#[global] Instance JobStatus_eq_dec : EqDecision JobStatus.
Proof. solve_decision. Defined.

Inductive JobEventKind :=
| EV_CREATED | EV_PROVIDER_SET | EV_BUDGET_SET | EV_FUNDED | EV_SUBMITTED | EV_COMPLETED
| EV_REJECTED | EV_EXPIRED | EV_PAYMENT_RELEASED | EV_EVALUATOR_FEE_PAID | EV_REFUNDED.

Record Stamp := { st_at : Z; st_block : Z; st_transaction : string }.
Record Log := { l_blockNumber : Z; l_timestamp : Z; l_transactionHash : string; l_logIndex : Z }.

Section store.
Context `{GraphTs}.

(** Agent wallet address to workspace identity; keyed by the address. *)
Record WalletBinding := {
  wb_account : string;
  wb_agent : string;
  wb_boundAt : Z;
  wb_boundAtTransaction : string
}.

(** The escrow contract's counters and configuration. *)
Record AgenticCommerce := {
  ac_network : string;
  ac_chainId : Z;
  ac_implementation : option string;
  ac_paymentToken : string;
  ac_platformFeeBP : Z;
  ac_platformTreasury : option string;
  ac_evaluatorFeeBP : Z;
  ac_jobCount : Z;
  ac_settledJobCount : Z;
  ac_settledVolume : Z;
  ac_refundedVolume : Z;
  ac_createdAt : Z;
  ac_updatedAt : Z
}.
#[global] Instance AgenticCommerce_eta : Eta AgenticCommerce := λ r,
  {| ac_network := ac_network r; ac_chainId := ac_chainId r; ac_implementation :=
  ac_implementation r; ac_paymentToken := ac_paymentToken r; ac_platformFeeBP := ac_platformFeeBP
  r; ac_platformTreasury := ac_platformTreasury r; ac_evaluatorFeeBP := ac_evaluatorFeeBP r;
  ac_jobCount := ac_jobCount r; ac_settledJobCount := ac_settledJobCount r; ac_settledVolume :=
  ac_settledVolume r; ac_refundedVolume := ac_refundedVolume r; ac_createdAt := ac_createdAt r;
  ac_updatedAt := ac_updatedAt r |}.

(** Current state of one escrow job. *)
Record Job := {
  job_agenticCommerce : string;
  job_jobId : Z;
  job_status : JobStatus;
  job_client : string;
  job_provider : option string;
  job_evaluator : string;
  job_clientAgent : option string;
  job_providerAgent : option string;
  job_engagement : option string;
  job_expiresAt : Z;
  job_submittedAt : option Z;
  job_budget : Z;
  job_paymentToken : string;
  job_hook : option string;
  job_description : string;
  job_providerPayment : Z;
  job_evaluatorFeePaid : Z;
  job_refundedAmount : Z;
  job_settled : bool;
  job_settledAt : option Z;
  job_deliverable : option string;
  job_completionReason : option string;
  job_rejectionReason : option string;
  job_created : Stamp;
  job_updated : Stamp
}.
#[global] Instance Job_eta : Eta Job := λ r,
  {| job_agenticCommerce := job_agenticCommerce r; job_jobId := job_jobId r; job_status :=
  job_status r; job_client := job_client r; job_provider := job_provider r; job_evaluator :=
  job_evaluator r; job_clientAgent := job_clientAgent r; job_providerAgent := job_providerAgent r;
  job_engagement := job_engagement r; job_expiresAt := job_expiresAt r; job_submittedAt :=
  job_submittedAt r; job_budget := job_budget r; job_paymentToken := job_paymentToken r; job_hook
  := job_hook r; job_description := job_description r; job_providerPayment := job_providerPayment
  r; job_evaluatorFeePaid := job_evaluatorFeePaid r; job_refundedAmount := job_refundedAmount r;
  job_settled := job_settled r; job_settledAt := job_settledAt r; job_deliverable :=
  job_deliverable r; job_completionReason := job_completionReason r; job_rejectionReason :=
  job_rejectionReason r; job_created := job_created r; job_updated := job_updated r |}.

(** Immutable record of one event of a job. *)
Record JobEvent := {
  je_agenticCommerce : string;
  je_job : string;
  je_kind : JobEventKind;
  je_actor : option string;
  je_address : option string;
  je_amount : option Z;
  je_data : option string;
  je_log : Log
}.
#[global] Instance JobEvent_eta : Eta JobEvent := λ r,
  {| je_agenticCommerce := je_agenticCommerce r; je_job := je_job r; je_kind := je_kind r;
  je_actor := je_actor r; je_address := je_address r; je_amount := je_amount r; je_data := je_data
  r; je_log := je_log r |}.

(** A hook and whether it is allowed. *)
Record HookAllowlistEntry := {
  he_agenticCommerce : string;
  he_hook : string;
  he_allowed : bool;
  he_updated : Stamp
}.
#[global] Instance HookAllowlistEntry_eta : Eta HookAllowlistEntry := λ r,
  {| he_agenticCommerce := he_agenticCommerce r; he_hook := he_hook r; he_allowed := he_allowed r;
  he_updated := he_updated r |}.

(** One client to provider edge of the reputation graph. *)
Record Engagement := {
  en_client : string;
  en_provider : string;
  en_jobCount : Z;
  en_settledJobCount : Z;
  en_settledVolume : Z;
  en_refundedVolume : Z;
  en_lastSettledJob : option string;
  en_lastSettledAt : option Z;
  en_feedbackCount : Z;
  en_verifiedFeedbackCount : Z;
  en_lastFeedbackAt : option Z;
  en_firstSeenAt : Z;
  en_updatedAt : Z
}.
#[global] Instance Engagement_eta : Eta Engagement := λ r,
  {| en_client := en_client r; en_provider := en_provider r; en_jobCount := en_jobCount r;
  en_settledJobCount := en_settledJobCount r; en_settledVolume := en_settledVolume r;
  en_refundedVolume := en_refundedVolume r; en_lastSettledJob := en_lastSettledJob r;
  en_lastSettledAt := en_lastSettledAt r; en_feedbackCount := en_feedbackCount r;
  en_verifiedFeedbackCount := en_verifiedFeedbackCount r; en_lastFeedbackAt := en_lastFeedbackAt
  r; en_firstSeenAt := en_firstSeenAt r; en_updatedAt := en_updatedAt r |}.

(** One timeseries point per settlement or refund. *)
Record AgentMetricPoint := {
  mp_timestamp : Z;
  mp_agent : string;
  mp_kind : string;
  mp_amount : Z
}.

(** Current state of an ERC-8004 identity. *)
Record Agent := {
  ag_registry : string;
  ag_agentId : Z;
  ag_owner : option string;
  ag_approved : option string;
  ag_agentWallet : option string;
  ag_isBurned : bool;
  ag_agentURI : string;
  ag_agentURIKind : string;
  ag_uriRevision : Z;
  ag_registration : option string;
  ag_feedbackCount : Z;
  ag_activeFeedbackCount : Z;
  ag_responseCount : Z;
  ag_verifiedFeedbackCount : Z;
  ag_bufiScore : option Z;
  ag_bufiScoreVersion : option Z;
  ag_bufiScoreDate : option string;
  ag_bufiScoreHash : option string;
  ag_bufiScoreUpdatedAt : option Z;
  ag_jobsAsClient : Z;
  ag_jobsAsProvider : Z;
  ag_settledAsClient : Z;
  ag_settledAsProvider : Z;
  ag_settledVolumeAsClient : Z;
  ag_settledVolumeAsProvider : Z;
  ag_refundedVolumeAsClient : Z;
  ag_created : Stamp;
  ag_updated : Stamp
}.
#[global] Instance Agent_eta : Eta Agent := λ r,
  {| ag_registry := ag_registry r; ag_agentId := ag_agentId r; ag_owner := ag_owner r; ag_approved
  := ag_approved r; ag_agentWallet := ag_agentWallet r; ag_isBurned := ag_isBurned r; ag_agentURI
  := ag_agentURI r; ag_agentURIKind := ag_agentURIKind r; ag_uriRevision := ag_uriRevision r;
  ag_registration := ag_registration r; ag_feedbackCount := ag_feedbackCount r;
  ag_activeFeedbackCount := ag_activeFeedbackCount r; ag_responseCount := ag_responseCount r;
  ag_verifiedFeedbackCount := ag_verifiedFeedbackCount r; ag_bufiScore := ag_bufiScore r;
  ag_bufiScoreVersion := ag_bufiScoreVersion r; ag_bufiScoreDate := ag_bufiScoreDate r;
  ag_bufiScoreHash := ag_bufiScoreHash r; ag_bufiScoreUpdatedAt := ag_bufiScoreUpdatedAt r;
  ag_jobsAsClient := ag_jobsAsClient r; ag_jobsAsProvider := ag_jobsAsProvider r;
  ag_settledAsClient := ag_settledAsClient r; ag_settledAsProvider := ag_settledAsProvider r;
  ag_settledVolumeAsClient := ag_settledVolumeAsClient r; ag_settledVolumeAsProvider :=
  ag_settledVolumeAsProvider r; ag_refundedVolumeAsClient := ag_refundedVolumeAsClient r;
  ag_created := ag_created r; ag_updated := ag_updated r |}.

(** Latest value of one metadata key. *)
Record AgentMetadata := {
  am_agent : string;
  am_key : string;
  am_keyHash : string;
  am_value : string;
  am_updated : Stamp
}.
#[global] Instance AgentMetadata_eta : Eta AgentMetadata := λ r,
  {| am_agent := am_agent r; am_key := am_key r; am_keyHash := am_keyHash r; am_value := am_value
  r; am_updated := am_updated r |}.

(** Immutable record of one metadata write. *)
Record AgentMetadataRevision := {
  amr_agent : string;
  amr_key : string;
  amr_keyHash : string;
  amr_value : string;
  amr_log : Log
}.

(** Immutable record of one agent URI. *)
Record AgentURIRevision := {
  aur_agent : string;
  aur_revision : Z;
  aur_uri : string;
  aur_uriKind : string;
  aur_updatedBy : string;
  aur_registration : option string;
  aur_log : Log
}.

(** Immutable record of one transfer or burn. *)
Record AgentTransfer := {
  atr_agent : string;
  atr_from : string;
  atr_to : string;
  atr_log : Log
}.

(** Immutable record of one approval. *)
Record AgentApprovalChange := {
  aac_agent : string;
  aac_owner : string;
  aac_approved : string;
  aac_log : Log
}.

(** Latest approval-for-all state. *)
Record OperatorApproval := {
  oa_owner : string;
  oa_operator : string;
  oa_approved : bool;
  oa_updated : Stamp
}.
#[global] Instance OperatorApproval_eta : Eta OperatorApproval := λ r,
  {| oa_owner := oa_owner r; oa_operator := oa_operator r; oa_approved := oa_approved r;
  oa_updated := oa_updated r |}.

(** Immutable record of one approval-for-all. *)
Record OperatorApprovalChange := {
  oac_owner : string;
  oac_operator : string;
  oac_approved : bool;
  oac_log : Log
}.

(** Identity registry counters. *)
Record IdentityRegistry := {
  ir_network : string;
  ir_chainId : Z;
  ir_agentRegistry : string;
  ir_agentCount : Z;
  ir_unburnedAgentCount : Z;
  ir_createdAt : Z;
  ir_updatedAt : Z
}.
#[global] Instance IdentityRegistry_eta : Eta IdentityRegistry := λ r,
  {| ir_network := ir_network r; ir_chainId := ir_chainId r; ir_agentRegistry := ir_agentRegistry
  r; ir_agentCount := ir_agentCount r; ir_unburnedAgentCount := ir_unburnedAgentCount r;
  ir_createdAt := ir_createdAt r; ir_updatedAt := ir_updatedAt r |}.

(** Reputation registry counters. *)
Record ReputationRegistry := {
  rr_network : string;
  rr_chainId : Z;
  rr_identityRegistry : string;
  rr_feedbackCount : Z;
  rr_activeFeedbackCount : Z;
  rr_responseCount : Z;
  rr_createdAt : Z;
  rr_updatedAt : Z
}.
#[global] Instance ReputationRegistry_eta : Eta ReputationRegistry := λ r,
  {| rr_network := rr_network r; rr_chainId := rr_chainId r; rr_identityRegistry :=
  rr_identityRegistry r; rr_feedbackCount := rr_feedbackCount r; rr_activeFeedbackCount :=
  rr_activeFeedbackCount r; rr_responseCount := rr_responseCount r; rr_createdAt := rr_createdAt
  r; rr_updatedAt := rr_updatedAt r |}.

(** Current state of one feedback item. *)
Record Feedback := {
  fb_registry : string;
  fb_agent : string;
  fb_client : string;
  fb_clientAgent : option string;
  fb_verified : bool;
  fb_evidence : option string;
  fb_feedbackIndex : Z;
  fb_value : Z;
  fb_valueDecimals : Z;
  fb_normalizedValue : BigDecimal;
  fb_tag1 : string;
  fb_tag1Hash : string;
  fb_tag2 : string;
  fb_endpoint : string;
  fb_feedbackURI : string;
  fb_feedbackURIKind : string;
  fb_feedbackHash : string;
  fb_hasFeedbackHash : bool;
  fb_document : option string;
  fb_isRevoked : bool;
  fb_revokedAt : option Z;
  fb_revokedAtBlock : option Z;
  fb_revokedAtTransaction : option string;
  fb_responseCount : Z;
  fb_created : Stamp;
  fb_createdAtLogIndex : Z
}.
#[global] Instance Feedback_eta : Eta Feedback := λ r,
  {| fb_registry := fb_registry r; fb_agent := fb_agent r; fb_client := fb_client r;
  fb_clientAgent := fb_clientAgent r; fb_verified := fb_verified r; fb_evidence := fb_evidence r;
  fb_feedbackIndex := fb_feedbackIndex r; fb_value := fb_value r; fb_valueDecimals :=
  fb_valueDecimals r; fb_normalizedValue := fb_normalizedValue r; fb_tag1 := fb_tag1 r;
  fb_tag1Hash := fb_tag1Hash r; fb_tag2 := fb_tag2 r; fb_endpoint := fb_endpoint r; fb_feedbackURI
  := fb_feedbackURI r; fb_feedbackURIKind := fb_feedbackURIKind r; fb_feedbackHash :=
  fb_feedbackHash r; fb_hasFeedbackHash := fb_hasFeedbackHash r; fb_document := fb_document r;
  fb_isRevoked := fb_isRevoked r; fb_revokedAt := fb_revokedAt r; fb_revokedAtBlock :=
  fb_revokedAtBlock r; fb_revokedAtTransaction := fb_revokedAtTransaction r; fb_responseCount :=
  fb_responseCount r; fb_created := fb_created r; fb_createdAtLogIndex := fb_createdAtLogIndex r
  |}.

(** Immutable record of one response. *)
Record FeedbackResponse := {
  fr_feedback : string;
  fr_responder : string;
  fr_responseURI : string;
  fr_responseURIKind : string;
  fr_responseHash : string;
  fr_hasResponseHash : bool;
  fr_log : Log
}.

(** One timeseries point per feedback or revocation. *)
Record FeedbackMetricPoint := {
  fmp_timestamp : Z;
  fmp_registry : string;
  fmp_agent : string;
  fmp_tag1 : string;
  fmp_tag2 : string;
  fmp_feedbackCountDelta : Z;
  fmp_valueDelta : BigDecimal
}.

(** A parsed agent document. *)
Record AgentRegistration := {
  reg_agent : string;
  reg_sourceURI : string;
  reg_sourceURIKind : string;
  reg_contentHash : string;
  reg_rawJSON : string;
  reg_profileType : option string;
  reg_name : option string;
  reg_description : option string;
  reg_image : option string;
  reg_active : option bool;
  reg_x402Support : option bool;
  reg_usedLegacyEndpointsField : bool
}.

(** One service of a document. *)
Record AgentService := {
  svc_registration : string;
  svc_position : Z;
  svc_kind : string;
  svc_name : string;
  svc_endpoint : string;
  svc_version : option string;
  svc_capabilitiesInferred : bool
}.

(** One feature of a service. *)
Record AgentServiceFeature := {
  sf_service : string;
  sf_position : Z;
  sf_kind : string;
  sf_value : string
}.

(** One custom field of a service. *)
Record AgentServiceAttribute := {
  sa_service : string;
  sa_position : Z;
  sa_key : string;
  sa_value : string;
  sa_valueType : string
}.

(** One registry reference of a document. *)
Record AgentRegistrationReference := {
  ref_registration : string;
  ref_position : Z;
  ref_agentRegistry : string;
  ref_namespace : option string;
  ref_chainId : option string;
  ref_registryAddress : option string;
  ref_agentId : option Z
}.

(** One trust model of a document. *)
Record AgentTrust := {
  tr_registration : string;
  tr_position : Z;
  tr_kind : string;
  tr_name : string
}.

(** A parsed feedback document. *)
Record FeedbackDocument := {
  doc_feedback : string;
  doc_sourceURI : string;
  doc_sourceURIKind : string;
  doc_contentHash : string;
  doc_rawJSON : string;
  doc_agentRegistry : option string;
  doc_agentId : option Z;
  doc_clientAddress : option string;
  doc_createdAt : option string;
  doc_value : option BigDecimal;
  doc_valueDecimals : option Z;
  doc_tag1 : option string;
  doc_tag2 : option string;
  doc_endpoint : option string;
  doc_reasoning : option string;
  doc_context : option string;
  doc_task : option string;
  doc_a2aContextId : option string;
  doc_a2aTaskId : option string;
  doc_proofOfPayment : option string
}.

(** One feature of a feedback document. *)
Record FeedbackDocumentFeature := {
  df_document : string;
  df_position : Z;
  df_kind : string;
  df_value : string
}.

(** The payment proof of a document. *)
Record PaymentProof := {
  pp_document : string;
  pp_fromAddress : option string;
  pp_toAddress : option string;
  pp_chainId : option string;
  pp_transactionHash : option string;
  pp_transactionSignature : option string;
  pp_amount : option string;
  pp_currency : option string;
  pp_protocol : option string;
  pp_timestamp : option string;
  pp_decimals : option Z
}.

(** One attachment of a document. *)
Record FeedbackAttachment := {
  att_document : string;
  att_position : Z;
  att_name : string;
  att_uri : string;
  att_uriKind : string;
  att_mimeType : string;
  att_size : option Z;
  att_description : option string;
  att_uploadedAt : option string
}.

(** The store: one map per entity type, and the timeseries. [Account] has no
    field but its id. *)
Record Store := {
  accounts : gset string;
  walletBindings : gmap string WalletBinding;
  agenticCommerces : gmap string AgenticCommerce;
  jobs : gmap string Job;
  jobEvents : gmap string JobEvent;
  hooks : gmap string HookAllowlistEntry;
  engagements : gmap string Engagement;
  agents : gmap string Agent;
  metadatas : gmap string AgentMetadata;
  metadataRevisions : gmap string AgentMetadataRevision;
  uriRevisions : gmap string AgentURIRevision;
  transfers : gmap string AgentTransfer;
  approvalChanges : gmap string AgentApprovalChange;
  operatorApprovals : gmap string OperatorApproval;
  operatorApprovalChanges : gmap string OperatorApprovalChange;
  identityRegistries : gmap string IdentityRegistry;
  reputationRegistries : gmap string ReputationRegistry;
  feedbacks : gmap string Feedback;
  responses : gmap string FeedbackResponse;
  registrations : gmap string AgentRegistration;
  services : gmap string AgentService;
  serviceFeatures : gmap string AgentServiceFeature;
  serviceAttributes : gmap string AgentServiceAttribute;
  registrationReferences : gmap string AgentRegistrationReference;
  trusts : gmap string AgentTrust;
  documents : gmap string FeedbackDocument;
  documentFeatures : gmap string FeedbackDocumentFeature;
  paymentProofs : gmap string PaymentProof;
  attachments : gmap string FeedbackAttachment;
  metricPoints : list AgentMetricPoint;
  feedbackPoints : list FeedbackMetricPoint
}.
#[global] Instance Store_eta : Eta Store := λ s,
  {| accounts := accounts s; walletBindings := walletBindings s; agenticCommerces :=
  agenticCommerces s; jobs := jobs s; jobEvents := jobEvents s; hooks := hooks s; engagements :=
  engagements s; agents := agents s; metadatas := metadatas s; metadataRevisions :=
  metadataRevisions s; uriRevisions := uriRevisions s; transfers := transfers s; approvalChanges
  := approvalChanges s; operatorApprovals := operatorApprovals s; operatorApprovalChanges :=
  operatorApprovalChanges s; identityRegistries := identityRegistries s; reputationRegistries :=
  reputationRegistries s; feedbacks := feedbacks s; responses := responses s; registrations :=
  registrations s; services := services s; serviceFeatures := serviceFeatures s; serviceAttributes
  := serviceAttributes s; registrationReferences := registrationReferences s; trusts := trusts s;
  documents := documents s; documentFeatures := documentFeatures s; paymentProofs := paymentProofs
  s; attachments := attachments s; metricPoints := metricPoints s; feedbackPoints :=
  feedbackPoints s |}.

Definition emptyStore : Store :=
  {| accounts := ∅; walletBindings := ∅; agenticCommerces := ∅; jobs := ∅; jobEvents := ∅; hooks
  := ∅; engagements := ∅; agents := ∅; metadatas := ∅; metadataRevisions := ∅; uriRevisions := ∅;
  transfers := ∅; approvalChanges := ∅; operatorApprovals := ∅; operatorApprovalChanges := ∅;
  identityRegistries := ∅; reputationRegistries := ∅; feedbacks := ∅; responses := ∅;
  registrations := ∅; services := ∅; serviceFeatures := ∅; serviceAttributes := ∅;
  registrationReferences := ∅; trusts := ∅; documents := ∅; documentFeatures := ∅; paymentProofs
  := ∅; attachments := ∅; metricPoints := []; feedbackPoints := [] |}.

(** The stamp and the log fields an event gives a record. *)
Definition stamp (ev : Event) : Stamp :=
  {| st_at := now ev; st_block := blockNumber ev; st_transaction := txHash ev |}.
Definition logOf (ev : Event) : Log :=
  {| l_blockNumber := blockNumber ev; l_timestamp := now ev; l_transactionHash := txHash ev;
     l_logIndex := logIndex ev |}.
End store.
