(* ===== verification/SgRegistration.v ===== *)
(** * Subgraph: agent registration documents

    Models [packages/subgraph-arc/src/identity/registration.ts]: a [data:] agent
    URI parsed into its entity tree. The content is agent-controlled; the
    theorem at the end says no document aborts the handler. *)

From S2P Require Import Prelude.
From S2P Require Import Js.
From S2P Require Import GraphTs.
From S2P Require Import SgText.
From S2P Require Import SgJson.
From S2P Require Import SgStore.

Section registration.
Context `{GraphTs}.

(** [for (let i = 0; i < l.length; i++) f(i, l[i])] over the store. *)
Fixpoint each_i {A} (f : Z → A → Store → wasm Store) (i : Z) (l : list A) (s : Store) : wasm Store :=
  match l with
  | [] => mret s
  | x :: l => s ← f i x s; each_i f (i + 1) l s
  end.

Definition classifyServiceKind (name : string) : string :=
  let lower := toLowerCase name in
  if decide (lower = "web") then "WEB"
  else if decide (lower = "a2a") then "A2A"
  else if decide (lower = "mcp") then "MCP"
  else if decide (lower = "webmcp") then "WEBMCP"
  else if decide (lower = "x402") then "X402"
  else if decide (lower = "oasf") then "OASF"
  else if decide (lower = "ens") then "ENS"
  else if decide (lower = "did") then "DID"
  else if decide (lower = "email") then "EMAIL"
  else if decide (lower = "agentwallet") then "AGENT_WALLET"
  else "CUSTOM".

Definition classifyTrustKind (name : string) : string :=
  let lower := toLowerCase name in
  if decide (lower = "reputation") then "REPUTATION"
  else if decide (lower = "crypto-economic") then "CRYPTO_ECONOMIC"
  else if decide (lower = "tee-attestation") then "TEE_ATTESTATION"
  else if decide (lower = "social-graph") then "SOCIAL_GRAPH"
  else "CUSTOM".

(** The loop that saves a list of features, and the next free position. *)
Fixpoint saveServiceFeatures (serviceId : string) (position : Z) (kind : string)
    (values : list string) (s : Store) : Z * Store :=
  match values with
  | [] => (position, s)
  | v :: values =>
      let feature := {| sf_service := serviceId; sf_position := position; sf_kind := kind;
                        sf_value := v |} in
      saveServiceFeatures serviceId (position + 1) kind values
        (s <| serviceFeatures ::= insert (concatI32 serviceId position) feature |>)
  end.

(** One of the consecutive calls: the kind and the document field it reads. *)
Definition saveFeatureField (serviceId : string) (service : TypedMap) (kf : string * string)
    (ps : Z * Store) : wasm (Z * Store) :=
  values ← asStringArray (get kf.2 service);
  mret (saveServiceFeatures serviceId ps.1 kf.1 values ps.2).

Definition SERVICE_FEATURE_FIELDS : list (string * string) :=
  [("CAPABILITY", "capabilities"); ("MCP_TOOL", "mcpTools"); ("MCP_PROMPT", "mcpPrompts");
   ("MCP_RESOURCE", "mcpResources"); ("A2A_SKILL", "a2aSkills"); ("OASF_SKILL", "skills");
   ("OASF_DOMAIN", "domains")].

Fixpoint saveFeatureFields (serviceId : string) (service : TypedMap)
    (fields : list (string * string)) (ps : Z * Store) : wasm (Z * Store) :=
  match fields with
  | [] => mret ps
  | kf :: fields =>
      ps ← saveFeatureField serviceId service kf ps; saveFeatureFields serviceId service fields ps
  end.

Definition KNOWN_SERVICE_KEYS : list string :=
  ["name"; "endpoint"; "version"; "capabilities"; "mcpTools"; "mcpPrompts"; "mcpResources";
   "a2aSkills"; "skills"; "domains"].

Fixpoint saveServiceAttributes (serviceId : string) (entries : TypedMap) (position : Z) (s : Store)
    : wasm Store :=
  match entries with
  | [] => mret s
  | (key, value) :: entries =>
      if bool_decide (key ∈ KNOWN_SERVICE_KEYS)
      then saveServiceAttributes serviceId entries position s
      else
        described ← describeJsonValue value;
        let attribute := {| sa_service := serviceId; sa_position := position; sa_key := key;
                            sa_value := jd_value described; sa_valueType := jd_valueType described |} in
        saveServiceAttributes serviceId entries (position + 1)
          (s <| serviceAttributes ::= insert (concatI32 serviceId position) attribute |>)
  end.

Definition saveAgentService (registrationId : string) (position : Z) (service : TypedMap) (s : Store)
    : wasm Store :=
  name ← asString (get "name" service);
  endpoint ← asString (get "endpoint" service);
  match name, endpoint with
  | Some name, Some endpoint =>
      let id := concatI32 registrationId position in
      version ← asString (get "version" service);
      let entity := {| svc_registration := registrationId; svc_position := position;
                       svc_kind := classifyServiceKind name; svc_name := name;
                       svc_endpoint := endpoint; svc_version := version;
                       svc_capabilitiesInferred := false |} in
      let s := s <| services ::= insert id entity |> in
      ps ← saveFeatureFields id service SERVICE_FEATURE_FIELDS (0, s);
      saveServiceAttributes id service 0 ps.2
  | _, _ => mret s
  end.

Definition saveAgentRegistrationReference (registrationId : string) (position : Z)
    (reference : TypedMap) (s : Store) : wasm Store :=
  agentRegistry ← asString (get "agentRegistry" reference);
  match agentRegistry with
  | None => mret s
  | Some agentRegistry =>
      let caip10 := parseCaip10 agentRegistry in
      agentId ← asWholeBigInt (get "agentId" reference);
      let entity := {| ref_registration := registrationId; ref_position := position;
                       ref_agentRegistry := agentRegistry; ref_namespace := caip_namespace caip10;
                       ref_chainId := caip_chainId caip10;
                       ref_registryAddress := caip_reference caip10; ref_agentId := agentId |} in
      mret (s <| registrationReferences ::= insert (concatI32 registrationId position) entity |>)
  end.

Definition saveAgentTrust (registrationId : string) (position : Z) (name : string) (s : Store)
    : wasm Store :=
  let entity := {| tr_registration := registrationId; tr_position := position;
                   tr_kind := classifyTrustKind name; tr_name := name |} in
  mret (s <| trusts ::= insert (concatI32 registrationId position) entity |>).

(** [null] or an explicit JSON null. *)
Definition isNullish (v : option JSONValue) : bool :=
  match v with None => true | Some v => bool_decide (kind_of v = NULL) end.

Definition presentBool (b : JsonBool) : option bool :=
  if jb_present b then Some (jb_value b) else None.

(** The id of the document and the store with its entity tree; [None] when the URI
    is no [data:] URI or carries no JSON object. *)
Definition resolveAgentRegistration (agentId sourceURI sourceURIKind : string) (s : Store)
    : wasm (option string * Store) :=
  if negb (bool_decide (sourceURIKind = URI_KIND_DATA)) then mret (None, s) else
  match decodeDataUri sourceURI with
  | None => mret (None, s)
  | Some rawJSON =>
      let id := keccak256 (agentId +:+ sourceURI) in
      if bool_decide (is_Some (registrations s !! id)) then mret (Some id, s) else
      match try_fromString rawJSON with
      | None => mret (None, s)
      | Some parsed =>
          obj ← asObject (Some parsed);
          match obj with
          | None => mret (None, s)
          | Some obj =>
              profileType ← asString (get "type" obj);
              name ← asString (get "name" obj);
              description ← asString (get "description" obj);
              image ← asString (get "image" obj);
              active ← asBool (get "active" obj);
              x402Support ← asBool (get "x402Support" obj);
              let servicesField := get "services" obj in
              let usedServices := negb (isNullish servicesField) in
              let usedLegacy := negb usedServices && bool_decide (is_Some (get "endpoints" obj)) in
              let servicesValue := if usedServices then servicesField else get "endpoints" obj in
              services ← asObjectArray servicesValue;
              s ← each_i (saveAgentService id) 0 services s;
              registrations' ← asObjectArray (get "registrations" obj);
              s ← each_i (saveAgentRegistrationReference id) 0 registrations' s;
              supportedTrust ← asStringArray (get "supportedTrust" obj);
              s ← each_i (saveAgentTrust id) 0 supportedTrust s;
              let registration := {|
                reg_agent := agentId; reg_sourceURI := sourceURI;
                reg_sourceURIKind := sourceURIKind; reg_contentHash := keccak256 rawJSON;
                reg_rawJSON := rawJSON; reg_profileType := profileType; reg_name := name;
                reg_description := description; reg_image := image;
                reg_active := presentBool active; reg_x402Support := presentBool x402Support;
                reg_usedLegacyEndpointsField := usedLegacy |} in
              mret (Some id, s <| registrations ::= insert id registration |>)
          end
      end
  end.

(** ** What a document can write *)

(** [s'] differs from [s] only in the six entity types of a registration. *)
Definition registration_frame (s s' : Store) : Prop :=
  s' = s <| registrations := registrations s' |> <| services := services s' |>
         <| serviceFeatures := serviceFeatures s' |> <| serviceAttributes := serviceAttributes s' |>
         <| registrationReferences := registrationReferences s' |> <| trusts := trusts s' |>.

#[local] Instance registration_frame_refl : Reflexive registration_frame.
Proof. intros s. unfold registration_frame. by destruct s. Qed.

#[local] Instance registration_frame_trans : Transitive registration_frame.
Proof. intros s1 s2 s3 H12 H23. unfold registration_frame in *. rewrite H23, H12. done. Qed.

(** A step that returns, within the frame. *)
Definition framed (s : Store) (m : wasm Store) : Prop := ∃ s', m = Ok s' ∧ registration_frame s s'.

Lemma framed_ret s s' : registration_frame s s' → framed s (mret s').
Proof. by exists s'. Qed.

Lemma framed_bind s m (f : Store → wasm Store) :
  framed s m → (∀ s', registration_frame s s' → framed s' (f s')) → framed s (m ≫= f).
Proof.
  intros (s1 & -> & H1) Hf. destruct (Hf s1 H1) as (s2 & E & H2). exists s2.
  split; [done | by trans s1].
Qed.

Lemma framed_read {A} s (m : wasm A) (f : A → wasm Store) :
  safe m → (∀ a, framed s (f a)) → framed s (m ≫= f).
Proof. intros [a ->] Hf. apply Hf. Qed.

Lemma each_i_framed {A} (f : Z → A → Store → wasm Store) i l s :
  (∀ i x s, framed s (f i x s)) → framed s (each_i f i l s).
Proof.
  intros Hf. revert i s. induction l as [|x l IH]; intros i s; [by apply framed_ret|].
  apply framed_bind; [apply Hf|]. auto.
Qed.

Lemma saveServiceFeatures_frame sid p k vs s :
  registration_frame s (saveServiceFeatures sid p k vs s).2.
Proof.
  revert p s. induction vs as [|v vs IH]; intros p s; [done|].
  cbn [saveServiceFeatures]. etrans; [|apply IH]. by destruct s.
Qed.

Lemma saveFeatureFields_frame sid svc fields ps :
  ∃ ps', saveFeatureFields sid svc fields ps = Ok ps' ∧ registration_frame ps.2 ps'.2.
Proof.
  revert ps. induction fields as [|kf fields IH]; intros ps; [by exists ps|].
  cbn [saveFeatureFields]. unfold saveFeatureField.
  destruct (asStringArray_safe (get kf.2 svc)) as [vs ->]. cbn [mbind result_bind].
  destruct (IH (saveServiceFeatures sid ps.1 kf.1 vs ps.2)) as (ps' & E & Hf).
  exists ps'. split; [exact E|]. etrans; [apply saveServiceFeatures_frame | exact Hf].
Qed.

Lemma saveServiceAttributes_framed sid entries p s :
  framed s (saveServiceAttributes sid entries p s).
Proof.
  revert p s. induction entries as [|[k v] entries IH]; intros p s; [by apply framed_ret|].
  cbn [saveServiceAttributes]. case_bool_decide; [apply IH|].
  apply framed_read; [apply describeJsonValue_safe|]. intros d.
  destruct (IH (p + 1) (s <| serviceAttributes ::= insert (concatI32 sid p)
    {| sa_service := sid; sa_position := p; sa_key := k; sa_value := jd_value d;
       sa_valueType := jd_valueType d |} |>)) as (s' & E & Hf).
  exists s'. split; [exact E|]. etrans; [|exact Hf]. by destruct s.
Qed.

Lemma saveAgentService_framed rid p service s : framed s (saveAgentService rid p service s).
Proof.
  unfold saveAgentService. apply framed_read; [apply asString_safe|]. intros [name|];
    (apply framed_read; [apply asString_safe|]); [|by intros; apply framed_ret].
  intros [endpoint|]; [|by apply framed_ret]. apply framed_read; [apply asString_safe|].
  intros version. set (s1 := s <| services ::= _ |>).
  destruct (saveFeatureFields_frame (concatI32 rid p) service SERVICE_FEATURE_FIELDS (0, s1))
    as (ps & -> & Hf). cbn [mbind result_bind].
  destruct (saveServiceAttributes_framed (concatI32 rid p) service 0 ps.2) as (s2 & -> & H2).
  exists s2. split; [done|]. etrans; [|exact H2]. etrans; [|exact Hf]. by destruct s.
Qed.

Lemma saveAgentRegistrationReference_framed rid p reference s :
  framed s (saveAgentRegistrationReference rid p reference s).
Proof.
  unfold saveAgentRegistrationReference. apply framed_read; [apply asString_safe|].
  intros [r|]; [|by apply framed_ret]. apply framed_read; [apply asWholeBigInt_safe|].
  intros n. apply framed_ret. by destruct s.
Qed.

Lemma saveAgentTrust_framed rid p name s : framed s (saveAgentTrust rid p name s).
Proof. apply framed_ret. by destruct s. Qed.

(** What [resolveAgentRegistration] returns on a [data:] URI with a JSON object. *)
Lemma resolve_object agentId sourceURI rawJSON obj s :
  decodeDataUri sourceURI = Some rawJSON → try_fromString rawJSON = Some (JObject obj) →
  ∃ s' reg, resolveAgentRegistration agentId sourceURI URI_KIND_DATA s
      = Ok (Some (keccak256 (agentId +:+ sourceURI)), s') ∧
    registration_frame s s' ∧
    registrations s' !! keccak256 (agentId +:+ sourceURI) = Some reg ∧
    (registrations s !! keccak256 (agentId +:+ sourceURI) = None →
     reg_agent reg = agentId ∧ reg_rawJSON reg = rawJSON ∧ reg_sourceURI reg = sourceURI).
Proof.
  intros Hd Hp. unfold resolveAgentRegistration. rewrite bool_decide_eq_true_2 by done.
  cbn [negb]. rewrite Hd. case_bool_decide as Hr.
  { destruct Hr as [reg Hr]. exists s, reg. split_and!; try done. intros E. congruence. }
  rewrite Hp. change (asObject (Some (JObject obj))) with (Ok (Some obj) : wasm (option TypedMap)).
  cbn [mbind result_bind].
  destruct (asString_safe (get "type" obj)) as [pt ->], (asString_safe (get "name" obj)) as [nm ->],
    (asString_safe (get "description" obj)) as [de ->], (asString_safe (get "image" obj)) as [im ->],
    (asBool_safe (get "active" obj)) as [ab ->], (asBool_safe (get "x402Support" obj)) as [xb ->].
  cbn [mbind result_bind].
  set (sv := if negb (isNullish (get "services" obj)) then get "services" obj else get "endpoints" obj).
  destruct (asObjectArray_safe sv) as [svs ->]. cbn [mbind result_bind].
  set (id := keccak256 (agentId +:+ sourceURI)) in *.
  destruct (each_i_framed (saveAgentService id) 0 svs s) as (s1 & -> & H1);
    [intros; apply saveAgentService_framed|]. cbn [mbind result_bind].
  destruct (asObjectArray_safe (get "registrations" obj)) as [rs ->]. cbn [mbind result_bind].
  destruct (each_i_framed (saveAgentRegistrationReference id) 0 rs s1) as (s2 & -> & H2);
    [intros; apply saveAgentRegistrationReference_framed|]. cbn [mbind result_bind].
  destruct (asStringArray_safe (get "supportedTrust" obj)) as [ts ->]. cbn [mbind result_bind].
  destruct (each_i_framed (saveAgentTrust id) 0 ts s2) as (s3 & -> & H3);
    [intros; apply saveAgentTrust_framed|]. cbn [mbind result_bind].
  eexists _, _. split; [done|]. split_and!.
  - trans s1; [done|]. trans s2; [done|]. trans s3; [done|]. by destruct s3.
  - cbn. apply lookup_insert_eq.
  - done.
Qed.

(** ** Properties *)

(** No agent document can abort a handler or touch chain state: for every URI the
    parser returns; it writes only the six registration entity types; and it
    returns the document's id exactly when the URI is a [data:] URI whose payload
    is a JSON object (or a document already stored under that id), in which case
    the document is stored under that id. *)
Theorem registration_never_aborts agentId sourceURI sourceURIKind s :
  ∃ r s', resolveAgentRegistration agentId sourceURI sourceURIKind s = Ok (r, s') ∧
    registration_frame s s' ∧
    (∀ id, r = Some id → id = keccak256 (agentId +:+ sourceURI) ∧ is_Some (registrations s' !! id)) ∧
    (is_Some r ↔ sourceURIKind = URI_KIND_DATA ∧ ∃ rawJSON, decodeDataUri sourceURI = Some rawJSON ∧
       (is_Some (registrations s !! keccak256 (agentId +:+ sourceURI)) ∨
        ∃ obj, try_fromString rawJSON = Some (JObject obj))).
Proof.
  assert (∀ P : Prop, ¬ P → ∃ r s', Ok (None, s) = (Ok (r, s') : wasm (option string * Store)) ∧
    registration_frame s s' ∧ (∀ id, r = Some id → id = keccak256 (agentId +:+ sourceURI) ∧
      is_Some (registrations s' !! id)) ∧ (is_Some r ↔ P)) as Hnone.
  { intros P HP. exists None, s. split_and!; [done..|]. split; [by intros []|done]. }
  destruct (decide (sourceURIKind = URI_KIND_DATA)) as [->|Hk].
  2: { unfold resolveAgentRegistration. rewrite bool_decide_eq_false_2 by done.
       apply Hnone. by intros [? _]. }
  destruct (decodeDataUri sourceURI) as [raw|] eqn:Ed.
  2: { unfold resolveAgentRegistration. rewrite bool_decide_eq_true_2, Ed by done.
       apply Hnone. by intros (_ & ? & ? & _). }
  set (id := keccak256 (agentId +:+ sourceURI)).
  destruct (registrations s !! id) as [reg|] eqn:Er.
  { unfold resolveAgentRegistration. rewrite bool_decide_eq_true_2, Ed by done. cbn [negb].
    rewrite bool_decide_eq_true_2 by (by exists reg). exists (Some id), s.
    split_and!; [done | done | by intros ? [= <-]; eauto |]. split; [eauto 6 | eauto]. }
  destruct (try_fromString raw) as [v|] eqn:Ep.
  2: { unfold resolveAgentRegistration. rewrite bool_decide_eq_true_2, Ed by done. cbn [negb].
       fold id. rewrite Er, bool_decide_eq_false_2 by (by intros []). rewrite Ep.
       apply Hnone. intros (_ & r' & [= <-] & [[]|[obj ?]]); congruence. }
  destruct v as [| | | | |obj].
  6: { destruct (resolve_object agentId sourceURI raw obj s Ed Ep) as (s' & reg & -> & Hf & Hr & _).
       exists (Some id), s'. split_and!; [done | done | by intros ? [= <-]; eauto |].
       split; [eauto 8 | eauto]. }
  all: unfold resolveAgentRegistration; rewrite bool_decide_eq_true_2, Ed by done; cbn [negb];
    fold id; rewrite Er, bool_decide_eq_false_2 by (by intros []); rewrite Ep;
    apply Hnone; intros (_ & r' & [= <-] & [[]|[obj ?]]); congruence.
Qed.
End registration.
