(* ===== verification/SgFeedbackDocument.v ===== *)
(** * Subgraph: feedback documents

    Models [packages/subgraph-arc/src/identity/feedback-document.ts]: a [data:]
    feedback URI parsed into its entity tree. *)

From S2P Require Import Prelude.
From S2P Require Import Js.
From S2P Require Import GraphTs.
From S2P Require Import GraphTsSample.
From S2P Require Import SgText.
From S2P Require Import SgJson.
From S2P Require Import SgStore.
From S2P Require Import SgRegistration.

Section feedback_document.
Context `{GraphTs}.

Definition firstNonNull (a b : option string) : option string :=
  match a with Some _ => a | None => b end.

Definition saveFeature (documentId : string) (position : Z) (kind value : string) (s : Store)
    : Z * Store :=
  let feature := {| df_document := documentId; df_position := position; df_kind := kind;
                    df_value := value |} in
  (position + 1, s <| documentFeatures ::= insert (concatI32 documentId position) feature |>).

Fixpoint saveFeatureList (documentId : string) (position : Z) (kind : string)
    (values : list string) (s : Store) : Z * Store :=
  match values with
  | [] => (position, s)
  | v :: values =>
      let '(position, s) := saveFeature documentId position kind v s in
      saveFeatureList documentId position kind values s
  end.

Definition listOfStrings (obj : TypedMap) (key : string) : wasm (list string) :=
  asStringArray (get key obj).

(** [const v = asString(obj.get(key)); if (v != null) position = saveFeature(...)] *)
Definition saveScalar (documentId kind : string) (obj : TypedMap) (key : string) (ps : Z * Store)
    : wasm (Z * Store) :=
  v ← asString (get key obj);
  mret match v with Some v => saveFeature documentId ps.1 kind v ps.2 | None => ps end.

(** [position = saveFeatureList(..., kind, listOfStrings(obj, key))] *)
Definition saveStrings (documentId kind : string) (obj : TypedMap) (key : string) (ps : Z * Store)
    : wasm (Z * Store) :=
  vs ← listOfStrings obj key;
  mret (saveFeatureList documentId ps.1 kind vs ps.2).

(** [if (obj != null) { ... }] *)
Definition whenSome (obj : option TypedMap) (f : TypedMap → Z * Store → wasm (Z * Store))
    (ps : Z * Store) : wasm (Z * Store) :=
  match obj with Some obj => f obj ps | None => mret ps end.

Definition saveFeatures (documentId : string) (obj : TypedMap) (a2a : option TypedMap) (s : Store)
    : wasm (Z * Store) :=
  oasf ← asObject (get "oasf" obj);
  mcp ← asObject (get "mcp" obj);
  ps ← whenSome a2a (λ a2a, saveStrings documentId "A2A_SKILL" a2a "skills") (0, s);
  ps ← whenSome oasf (λ oasf ps,
         ps ← saveStrings documentId "OASF_SKILL" oasf "skills" ps;
         saveStrings documentId "OASF_DOMAIN" oasf "domains" ps) ps;
  ps ← saveScalar documentId "OASF_DOMAIN" obj "domain" ps;
  ps ← saveScalar documentId "SKILL" obj "skill" ps;
  ps ← saveScalar documentId "MCP_CAPABILITY" obj "capability" ps;
  whenSome mcp (λ mcp ps,
    ps ← saveScalar documentId "MCP_TOOL" mcp "tool" ps;
    ps ← saveScalar documentId "MCP_PROMPT" mcp "prompt" ps;
    ps ← saveScalar documentId "MCP_RESOURCE" mcp "resource" ps;
    saveScalar documentId "MCP_COMPLETION" mcp "completion" ps) ps.

Definition presentI32 (n : JsonI32) : option Z := if ji_present n then Some (ji_value n) else None.

Definition savePaymentProof (documentId : string) (proof : TypedMap) (s : Store) : wasm Store :=
  fromAddress ← asString (get "fromAddress" proof);
  toAddress ← asString (get "toAddress" proof);
  chainId ← asStringOrNumber (get "chainId" proof);
  txHash ← asString (get "txHash" proof);
  transactionHash ← asString (get "transactionHash" proof);
  txSignature ← asString (get "txSignature" proof);
  transactionSignature ← asString (get "transactionSignature" proof);
  amount ← asString (get "amount" proof);
  currency ← asString (get "currency" proof);
  protocol ← asString (get "protocol" proof);
  timestamp ← asString (get "timestamp" proof);
  decimals ← asWholeI32 (get "decimals" proof) 0 255;
  let entity := {| pp_document := documentId; pp_fromAddress := fromAddress;
                   pp_toAddress := toAddress; pp_chainId := chainId;
                   pp_transactionHash := firstNonNull txHash transactionHash;
                   pp_transactionSignature := firstNonNull txSignature transactionSignature;
                   pp_amount := amount; pp_currency := currency; pp_protocol := protocol;
                   pp_timestamp := timestamp; pp_decimals := presentI32 decimals |} in
  mret (s <| paymentProofs ::= insert documentId entity |>).

Definition saveAttachment (documentId : string) (position : Z) (attachment : TypedMap) (s : Store)
    : wasm Store :=
  name ← asString (get "name" attachment);
  uri ← asString (get "uri" attachment);
  mimeType ← asString (get "mimeType" attachment);
  match name, uri, mimeType with
  | Some name, Some uri, Some mimeType =>
      size ← asWholeBigInt (get "size" attachment);
      description ← asString (get "description" attachment);
      uploadedAt ← asString (get "uploadedAt" attachment);
      let entity := {| att_document := documentId; att_position := position; att_name := name;
                       att_uri := uri; att_uriKind := classifyUri uri; att_mimeType := mimeType;
                       att_size := size; att_description := description;
                       att_uploadedAt := uploadedAt |} in
      mret (s <| attachments ::= insert (concatI32 documentId position) entity |>)
  | _, _, _ => mret s
  end.

(** [value != null && isDecimalString(value) ? BigDecimal.fromString(value) : unset] *)
Definition documentValue (value : option string) : wasm (option BigDecimal) :=
  match value with
  | Some v => if isDecimalString v then d ← bd_fromString v; mret (Some d) else mret None
  | None => mret None
  end.

(** [a2a != null ? firstNonNull(a2a.get(k1), obj.get(k2)) : obj.get(k2)] *)
Definition a2aField (a2a : option TypedMap) (obj : TypedMap) (k1 k2 : string)
    : wasm (option string) :=
  match a2a with
  | Some a2a => x ← asString (get k1 a2a); y ← asString (get k2 obj); mret (firstNonNull x y)
  | None => asString (get k2 obj)
  end.

Definition resolveFeedbackDocument (feedbackId sourceURI sourceURIKind : string) (s : Store)
    : wasm (option string * Store) :=
  if negb (bool_decide (sourceURIKind = URI_KIND_DATA)) then mret (None, s) else
  match decodeDataUri sourceURI with
  | None => mret (None, s)
  | Some rawJSON =>
      let id := keccak256 (feedbackId +:+ sourceURI) in
      if bool_decide (is_Some (documents s !! id)) then mret (Some id, s) else
      match try_fromString rawJSON with
      | None => mret (None, s)
      | Some parsed =>
          obj ← asObject (Some parsed);
          match obj with
          | None => mret (None, s)
          | Some obj =>
              agentRegistry ← asString (get "agentRegistry" obj);
              agentId ← asWholeBigInt (get "agentId" obj);
              clientAddress ← asString (get "clientAddress" obj);
              createdAt ← asString (get "createdAt" obj);
              value ← asString (get "value" obj);
              value' ← documentValue value;
              valueDecimals ← asWholeI32 (get "valueDecimals" obj) 0 18;
              tag1 ← asString (get "tag1" obj);
              tag2 ← asString (get "tag2" obj);
              endpoint ← asString (get "endpoint" obj);
              reasoning ← asString (get "reasoning" obj);
              context ← asString (get "context" obj);
              task ← asString (get "task" obj);
              a2a ← asObject (get "a2a" obj);
              a2aContextId ← a2aField a2a obj "contextId" "a2aContextId";
              a2aTaskId ← a2aField a2a obj "taskId" "a2aTaskId";
              paymentProof ← asObject (get "proofOfPayment" obj);
              let document := {|
                doc_feedback := feedbackId; doc_sourceURI := sourceURI;
                doc_sourceURIKind := sourceURIKind; doc_contentHash := keccak256 rawJSON;
                doc_rawJSON := rawJSON; doc_agentRegistry := agentRegistry; doc_agentId := agentId;
                doc_clientAddress := clientAddress; doc_createdAt := createdAt;
                doc_value := value'; doc_valueDecimals := presentI32 valueDecimals;
                doc_tag1 := tag1; doc_tag2 := tag2; doc_endpoint := endpoint;
                doc_reasoning := reasoning; doc_context := context; doc_task := task;
                doc_a2aContextId := a2aContextId; doc_a2aTaskId := a2aTaskId;
                doc_proofOfPayment := match paymentProof with Some _ => Some id | None => None end |} in
              let s := s <| documents ::= insert id document |> in
              s ← match paymentProof with Some p => savePaymentProof id p s | None => mret s end;
              attachments' ← asObjectArray (get "attachments" obj);
              s ← each_i (saveAttachment id) 0 attachments' s;
              ps ← saveFeatures id obj a2a s;
              mret (Some id, ps.2)
          end
      end
  end.

(** ** What a document can write *)

Definition document_frame (s s' : Store) : Prop :=
  s' = s <| documents := documents s' |> <| documentFeatures := documentFeatures s' |>
         <| paymentProofs := paymentProofs s' |> <| attachments := attachments s' |>.

#[local] Instance document_frame_refl : Reflexive document_frame.
Proof. intros s. unfold document_frame. by destruct s. Qed.

#[local] Instance document_frame_trans : Transitive document_frame.
Proof. intros s1 s2 s3 H12 H23. unfold document_frame in *. rewrite H23, H12. done. Qed.

(** The documents' own map is only written at the top. *)
Definition part_frame (s s' : Store) : Prop := document_frame s s' ∧ documents s' = documents s.

#[local] Instance part_frame_refl : Reflexive part_frame.
Proof. by split. Qed.

#[local] Instance part_frame_trans : Transitive part_frame.
Proof. intros s1 s2 s3 [? E1] [? E2]. split; [by trans s2 | congruence]. Qed.

Definition kept (s : Store) (m : wasm Store) : Prop := ∃ s', m = Ok s' ∧ part_frame s s'.
Definition kept_at (s : Store) (m : wasm (Z * Store)) : Prop :=
  ∃ ps, m = Ok ps ∧ part_frame s ps.2.

Lemma kept_read {A} s (m : wasm A) (f : A → wasm Store) :
  safe m → (∀ a, kept s (f a)) → kept s (m ≫= f).
Proof. intros [a ->] Hf. apply Hf. Qed.

Lemma kept_at_bind s m (f : Z * Store → wasm (Z * Store)) :
  kept_at s m → (∀ ps, kept_at ps.2 (f ps)) → kept_at s (m ≫= f).
Proof.
  intros (ps & -> & H1) Hf. destruct (Hf ps) as (ps' & E & H2). exists ps'.
  split; [exact E | by trans ps.2].
Qed.

Lemma saveFeature_frame d p k v s : part_frame s (saveFeature d p k v s).2.
Proof. split; [by destruct s | done]. Qed.

Lemma saveFeatureList_frame d p k vs s : part_frame s (saveFeatureList d p k vs s).2.
Proof.
  revert p s. induction vs as [|v vs IH]; intros p s; [done|]. cbn [saveFeatureList].
  pose proof (saveFeature_frame d p k v s) as Hf. destruct (saveFeature d p k v s) as [p' s'].
  etrans; [exact Hf | apply IH].
Qed.

Lemma saveScalar_kept d k obj key ps : kept_at ps.2 (saveScalar d k obj key ps).
Proof.
  unfold saveScalar. destruct (asString_safe (get key obj)) as [v ->]. eexists. split; [done|].
  destruct v; [apply saveFeature_frame | done].
Qed.

Lemma saveStrings_kept d k obj key ps : kept_at ps.2 (saveStrings d k obj key ps).
Proof.
  unfold saveStrings, listOfStrings. destruct (asStringArray_safe (get key obj)) as [vs ->].
  eexists. split; [done | apply saveFeatureList_frame].
Qed.

Lemma whenSome_kept obj f ps :
  (∀ obj ps, kept_at ps.2 (f obj ps)) → kept_at ps.2 (whenSome obj f ps).
Proof. intros Hf. destruct obj; [apply Hf|]. by exists ps. Qed.

Lemma saveFeatures_kept d obj a2a s : kept_at s (saveFeatures d obj a2a s).
Proof.
  unfold saveFeatures. destruct (asObject_safe (get "oasf" obj)) as [oasf ->],
    (asObject_safe (get "mcp" obj)) as [mcp ->]. cbn [mbind result_bind].
  change s with ((0, s).2) at 1.
  apply kept_at_bind; [apply whenSome_kept; intros; apply saveStrings_kept|]. intros ps1.
  apply kept_at_bind.
  { apply whenSome_kept. intros o ps. apply kept_at_bind; [apply saveStrings_kept|].
    intros. apply saveStrings_kept. }
  intros ps2. do 3 (apply kept_at_bind; [apply saveScalar_kept | intros ?]).
  apply whenSome_kept. intros m qs. do 3 (apply kept_at_bind; [apply saveScalar_kept | intros ?]).
  apply saveScalar_kept.
Qed.

Lemma savePaymentProof_kept d proof s : kept s (savePaymentProof d proof s).
Proof.
  unfold savePaymentProof.
  repeat (apply kept_read; [first [apply asString_safe | apply asStringOrNumber_safe]|]; intros ?).
  apply kept_read.
  { destruct (asWholeI32_spec (get "decimals" proof) 0 255) as (r & ? & _); [lia..|]. by exists r. }
  intros n. eexists. split; [done|]. split; [by destruct s | done].
Qed.

Lemma saveAttachment_kept d p att s : kept s (saveAttachment d p att s).
Proof.
  unfold saveAttachment.
  repeat (apply kept_read; [apply asString_safe|]; intros ?).
  case_match; [|by exists s]. case_match; [|by exists s]. case_match; [|by exists s].
  apply kept_read; [apply asWholeBigInt_safe|]. intros ?.
  repeat (apply kept_read; [apply asString_safe|]; intros ?).
  eexists. split; [done|]. split; [by destruct s | done].
Qed.

Lemma each_i_kept {A} (f : Z → A → Store → wasm Store) i l s :
  (∀ i x s, kept s (f i x s)) → kept s (each_i f i l s).
Proof.
  intros Hf. revert i s. induction l as [|x l IH]; intros i s; [by exists s|].
  cbn [each_i]. destruct (Hf i x s) as (s1 & -> & H1). cbn [mbind result_bind].
  destruct (IH (i + 1) s1) as (s2 & E & H2). exists s2. split; [exact E | by trans s1].
Qed.

Lemma a2aField_safe a2a obj k1 k2 : safe (a2aField a2a obj k1 k2).
Proof.
  destruct a2a as [a2a|]; [|apply asString_safe]. unfold a2aField.
  apply safe_bind; [apply asString_safe|]. intros. apply safe_bind; [apply asString_safe|].
  intros. apply safe_ret.
Qed.

Lemma asWholeI32_safe value lo hi : - 2 ^ 31 ≤ lo → hi < 2 ^ 31 → safe (asWholeI32 value lo hi).
Proof. intros. destruct (asWholeI32_spec value lo hi) as (r & ? & _); [done..|]. by exists r. Qed.

Section laws.
Context {laws : GraphTsLaws}.

Lemma documentValue_safe value : safe (documentValue value).
Proof using laws.
  destruct value as [v|]; [|apply safe_ret]. cbn [documentValue].
  destruct (isDecimalString v) eqn:E; [|apply safe_ret].
  apply isDecimalString_plain, bd_fromString_plain in E as [d ->]. apply safe_ret.
Qed.

(** A read that returns, in front of a continuation. *)
Lemma read_safe {A B} (m : wasm A) (f : A → wasm B) (P : wasm B → Prop) :
  safe m → (∀ a, P (f a)) → P (m ≫= f).
Proof. intros [a ->] Hf. apply Hf. Qed.

Definition resolved (feedbackId sourceURI rawJSON : string) (s : Store)
    (m : wasm (option string * Store)) : Prop :=
  let id := keccak256 (feedbackId +:+ sourceURI) in
  ∃ s' doc, m = Ok (Some id, s') ∧ document_frame s s' ∧ documents s' = <[id := doc]> (documents s) ∧
    doc_feedback doc = feedbackId ∧ doc_rawJSON doc = rawJSON ∧ doc_sourceURI doc = sourceURI.

Lemma resolve_document_object feedbackId sourceURI rawJSON obj s :
  decodeDataUri sourceURI = Some rawJSON → try_fromString rawJSON = Some (JObject obj) →
  documents s !! keccak256 (feedbackId +:+ sourceURI) = None →
  resolved feedbackId sourceURI rawJSON s
    (resolveFeedbackDocument feedbackId sourceURI URI_KIND_DATA s).
Proof using laws.
  intros Hd Hp Hn. unfold resolveFeedbackDocument. rewrite bool_decide_eq_true_2 by done.
  cbn [negb]. rewrite Hd, Hn, bool_decide_eq_false_2 by (by intros []). rewrite Hp.
  change (asObject (Some (JObject obj))) with (Ok (Some obj) : wasm (option TypedMap)).
  cbn [mbind result_bind].
  repeat (apply (read_safe _ _ (resolved feedbackId sourceURI rawJSON s)); [first
    [apply asString_safe | apply asWholeBigInt_safe | apply documentValue_safe
    | apply asWholeI32_safe; lia | apply asObject_safe | apply a2aField_safe] |]; intros ?).
  set (id := keccak256 (feedbackId +:+ sourceURI)). set (s1 := s <| documents ::= _ |>).
  assert (document_frame s s1) as H1 by by destruct s.
  match goal with |- resolved _ _ _ _ (match ?p with Some _ => _ | None => _ end ≫= _) =>
    assert (kept s1 (match p with Some p => savePaymentProof id p s1 | None => mret s1 end)) as Hp2
      by (destruct p; [apply savePaymentProof_kept | by exists s1]) end.
  destruct Hp2 as (s2 & -> & [H2 E2]). cbn [mbind result_bind].
  destruct (asObjectArray_safe (get "attachments" obj)) as [atts ->]. cbn [mbind result_bind].
  destruct (each_i_kept (saveAttachment id) 0 atts s2) as (s3 & -> & [H3 E3]);
    [intros; apply saveAttachment_kept|]. cbn [mbind result_bind].
  match goal with |- resolved _ _ _ _ (saveFeatures ?d ?o ?a ?x ≫= _) =>
    destruct (saveFeatures_kept d o a x) as (ps & -> & [H4 E4]) end.
  eexists ps.2, _. split_and!; [done | | rewrite E4, E3, E2; done | done..].
  trans s1; [done|]. trans s2; [done|]. by trans s3.
Qed.

(** ** Properties *)

(** No feedback document can abort a handler or touch chain state: the parser
    returns for every URI, writes only the four document entity types, and
    returns the id of a stored document exactly when the [data:] payload is a
    JSON object or a document is already stored under that id. *)
Theorem feedback_document_never_aborts feedbackId sourceURI sourceURIKind s :
  ∃ r s', resolveFeedbackDocument feedbackId sourceURI sourceURIKind s = Ok (r, s') ∧
    document_frame s s' ∧
    (∀ id, r = Some id → id = keccak256 (feedbackId +:+ sourceURI) ∧ is_Some (documents s' !! id)) ∧
    (is_Some r ↔ sourceURIKind = URI_KIND_DATA ∧ ∃ rawJSON, decodeDataUri sourceURI = Some rawJSON ∧
       (is_Some (documents s !! keccak256 (feedbackId +:+ sourceURI)) ∨
        ∃ obj, try_fromString rawJSON = Some (JObject obj))).
Proof using laws.
  assert (∀ P : Prop, ¬ P → ∃ r s', Ok (None, s) = (Ok (r, s') : wasm (option string * Store)) ∧
    document_frame s s' ∧ (∀ id, r = Some id → id = keccak256 (feedbackId +:+ sourceURI) ∧
      is_Some (documents s' !! id)) ∧ (is_Some r ↔ P)) as Hnone.
  { intros P HP. exists None, s. split_and!; [done..|]. split; [by intros []|done]. }
  destruct (decide (sourceURIKind = URI_KIND_DATA)) as [->|Hk].
  2: { unfold resolveFeedbackDocument. rewrite bool_decide_eq_false_2 by done.
       apply Hnone. by intros [? _]. }
  destruct (decodeDataUri sourceURI) as [raw|] eqn:Ed.
  2: { unfold resolveFeedbackDocument. rewrite bool_decide_eq_true_2, Ed by done.
       apply Hnone. by intros (_ & ? & ? & _). }
  set (id := keccak256 (feedbackId +:+ sourceURI)).
  destruct (documents s !! id) as [doc|] eqn:Er.
  { unfold resolveFeedbackDocument. rewrite bool_decide_eq_true_2, Ed by done. cbn [negb].
    rewrite bool_decide_eq_true_2 by (by exists doc). exists (Some id), s.
    split_and!; [done | done | by intros ? [= <-]; eauto |]. split; [eauto 6 | eauto]. }
  destruct (try_fromString raw) as [v|] eqn:Ep.
  2: { unfold resolveFeedbackDocument. rewrite bool_decide_eq_true_2, Ed by done. cbn [negb].
       fold id. rewrite Er, bool_decide_eq_false_2 by (by intros []). rewrite Ep.
       apply Hnone. intros (_ & r' & [= <-] & [[]|[obj ?]]); congruence. }
  destruct v as [| | | | |obj].
  6: { destruct (resolve_document_object feedbackId sourceURI raw obj s Ed Ep Er)
         as (s' & doc & -> & Hf & Hr & _). exists (Some id), s'.
       split_and!; [done | done | |].
       - intros ? [= <-]. split; [done|]. rewrite Hr, lookup_insert_eq. eauto.
       - split; [eauto 8 | eauto]. }
  all: unfold resolveFeedbackDocument; rewrite bool_decide_eq_true_2, Ed by done; cbn [negb];
    fold id; rewrite Er, bool_decide_eq_false_2 by (by intros []); rewrite Ep;
    apply Hnone; intros (_ & r' & [= <-] & [[]|[obj ?]]); congruence.
Qed.
End laws.
End feedback_document.

Lemma feedback_document_never_aborts_witness :
  decodeDataUri (H := sample_ts) "data:application/json,{a}" = Some "{a}" ∧
  ∃ r s', resolveFeedbackDocument (H := sample_ts) "fb" "data:application/json,{a}" URI_KIND_DATA
      emptyStore = Ok (r, s') ∧ is_Some r.
Proof.
  split; [by vm_compute|].
  destruct (@feedback_document_never_aborts sample_ts sample_laws "fb" "data:application/json,{a}"
    URI_KIND_DATA emptyStore) as (r & s' & E & _ & _ & Hr).
  exists r, s'. split; [exact E|]. apply Hr. split; [done|].
  exists "{a}". split; [by vm_compute|]. right. eexists. by vm_compute.
Defined.
