(* ===== verification/SgBufi.v ===== *)
(** * Subgraph: accounts, wallet bindings, engagements, metrics, scores

    Models [packages/subgraph-arc/src/shared/account.ts] and
    [packages/subgraph-arc/src/bufi/]: [engagement.ts], [metrics.ts],
    [score.ts], [wallet-binding.ts]. An entity object of the code is the pair
    of its id and its fields; a loaded one is a copy of the store's. *)

From S2P Require Import Prelude.
From S2P Require Import Js.
From S2P Require Import GraphTs.
From S2P Require Import GraphTsSample.
From S2P Require Import SgJson.
From S2P Require Import SgStore.

Section bufi.
Context `{GraphTs}.

(** ** Accounts *)

(** [getOrCreateAccount(a)]; the account's id is the address. *)
Definition getOrCreateAccount (a : string) (s : Store) : Store :=
  if decide (a ∈ accounts s) then s else s <| accounts ::= λ m, {[a]} ∪ m |>.

(** ** Wallet bindings *)

Definition bindWallet (agent : string) (wallet : string) (ev : Event) (s : Store) : Store :=
  let s := getOrCreateAccount wallet s in
  let binding := {| wb_account := wallet; wb_agent := agent; wb_boundAt := now ev;
                    wb_boundAtTransaction := txHash ev |} in
  s <| walletBindings ::= insert wallet binding |>.

(** [store.remove('WalletBinding', wallet.toHexString())] names the entity by the
    hex text of its id. *)
Definition unbindWallet (agent : string) (wallet : option string) (s : Store) : Store :=
  match wallet with
  | None => s
  | Some w =>
      match walletBindings s !! w with
      | None => s
      | Some binding =>
          if decide (wb_agent binding = agent) then s <| walletBindings ::= delete w |> else s
      end
  end.

(** The workspace behind an address. *)
Definition resolveAgentByWallet (a : string) (s : Store) : option (string * Agent) :=
  match walletBindings s !! a with
  | None => None
  | Some binding => ag ← agents s !! wb_agent binding; Some (wb_agent binding, ag)
  end.

(** ** Engagements *)

Definition engagementId (client provider : string) : string := keccak256 (client +:+ provider).

(** The engagement of two workspaces, not saved when new. *)
Definition getOrCreateEngagement (client provider : string) (timestamp : Z) (s : Store)
    : string * Engagement :=
  let id := engagementId client provider in
  match engagements s !! id with
  | Some e => (id, e)
  | None =>
      (id, {| en_client := client; en_provider := provider; en_jobCount := 0;
              en_settledJobCount := 0; en_settledVolume := 0; en_refundedVolume := 0;
              en_lastSettledJob := None; en_lastSettledAt := None; en_feedbackCount := 0;
              en_verifiedFeedbackCount := 0; en_lastFeedbackAt := None;
              en_firstSeenAt := toI64 timestamp; en_updatedAt := toI64 timestamp |})
  end.

(** ** Metrics *)

Definition METRIC_SETTLED_AS_PROVIDER : string := "SETTLED_AS_PROVIDER".
Definition METRIC_SETTLED_AS_CLIENT : string := "SETTLED_AS_CLIENT".
Definition METRIC_REFUNDED_AS_CLIENT : string := "REFUNDED_AS_CLIENT".

Definition recordAgentMetric (agent kind : string) (amount timestamp : Z) (s : Store) : Store :=
  s <| metricPoints ::= λ l, l ++ [{| mp_timestamp := toI64 timestamp; mp_agent := agent;
                                      mp_kind := kind; mp_amount := amount |}] |>.

(** ** The payment-score attestation *)

Definition BUFI_SCORE_KEY : string := "bufi.score.v1".

(** The bytes of a 32-byte hex digest, with or without [0x]. *)
Definition hashBytes (value : option string) : option string :=
  match truthy value with
  | None => None
  | Some text =>
      let hex := if startsWith "0x" text then text else "0x" +:+ text in
      if negb (strlen hex =? 66) then None
      else if str_all is_hex (str_drop 2 hex) then Some (fromHexString hex)
      else None
  end.

Definition applyScoreAttestation (agent : Agent) (value : string) (timestamp : Z) : wasm Agent :=
  match try_fromString (utf8 value) with
  | None => mret agent
  | Some parsed =>
      obj ← asObject (Some parsed);
      match obj with
      | None => mret agent
      | Some obj =>
          score ← asWholeI32 (get "s" obj) 0 100000;
          if negb (ji_present score) then mret agent else
          version ← asWholeI32 (get "v" obj) 0 1000;
          d ← asString (get "d" obj);
          h ← asString (get "h" obj);
          mret (agent <| ag_bufiScore := Some (ji_value score) |>
                      <| ag_bufiScoreVersion :=
                           if ji_present version then Some (ji_value version) else None |>
                      <| ag_bufiScoreDate := d |>
                      <| ag_bufiScoreHash := hashBytes h |>
                      <| ag_bufiScoreUpdatedAt := Some (toI64 timestamp) |>)
      end
  end.

(** ** Lemmas *)

Lemma accounts_idem a s : getOrCreateAccount a s = s <| accounts ::= λ m, {[a]} ∪ m |>.
Proof.
  unfold getOrCreateAccount. case_decide as Ha; [|done].
  destruct s. unfold set. cbn in *. f_equal. set_solver.
Qed.

Lemma getOrCreateEngagement_id c p t s : (getOrCreateEngagement c p t s).1 = engagementId c p.
Proof. unfold getOrCreateEngagement. by case_match. Qed.

Lemma hashBytes_some value b :
  hashBytes value = Some b →
  ∃ hex, b = fromHexString hex ∧ strlen hex = 66 ∧ startsWith "0x" hex = true ∧
    str_all is_hex (str_drop 2 hex) = true.
Proof.
  unfold hashBytes. destruct (truthy value) as [text|]; [|done].
  assert (startsWith "0x" (if startsWith "0x" text then text else "0x" +:+ text) = true) as Hx.
  { case_match; [done | apply startsWith_app]. }
  revert Hx. generalize (if startsWith "0x" text then text else "0x" +:+ text) as hex.
  intros hex Hx. destruct (Z.eqb_spec (strlen hex) 66); [|done]. cbn [negb].
  case_match; [|done]. intros [= <-]. eauto.
Qed.

(** ** Properties *)

(** Publishing a score never aborts the handler; it either leaves the agent as it
    was or stores a score in [0, 100000] with a version in [0, 1000] or none, and a
    digest only when the text is 64 hex digits; nothing but the five score fields
    changes. *)
Theorem score_attestation_safe agent value t :
  ∃ agent', applyScoreAttestation agent value t = Ok agent' ∧
    (agent' = agent ∨
     (∃ score, ag_bufiScore agent' = Some score ∧ 0 ≤ score ≤ 100000) ∧
     (∀ v, ag_bufiScoreVersion agent' = Some v → 0 ≤ v ≤ 1000) ∧
     (∀ b, ag_bufiScoreHash agent' = Some b → ∃ hex, b = fromHexString hex ∧ strlen hex = 66)) ∧
    agent' = agent <| ag_bufiScore := ag_bufiScore agent' |>
                   <| ag_bufiScoreVersion := ag_bufiScoreVersion agent' |>
                   <| ag_bufiScoreDate := ag_bufiScoreDate agent' |>
                   <| ag_bufiScoreHash := ag_bufiScoreHash agent' |>
                   <| ag_bufiScoreUpdatedAt := ag_bufiScoreUpdatedAt agent' |>.
Proof.
  assert (∃ agent', Ok agent = (Ok agent' : wasm Agent) ∧ (agent' = agent ∨
     (∃ score, ag_bufiScore agent' = Some score ∧ 0 ≤ score ≤ 100000) ∧
     (∀ v, ag_bufiScoreVersion agent' = Some v → 0 ≤ v ≤ 1000) ∧
     (∀ b, ag_bufiScoreHash agent' = Some b → ∃ hex, b = fromHexString hex ∧ strlen hex = 66)) ∧
    agent' = agent <| ag_bufiScore := ag_bufiScore agent' |>
                   <| ag_bufiScoreVersion := ag_bufiScoreVersion agent' |>
                   <| ag_bufiScoreDate := ag_bufiScoreDate agent' |>
                   <| ag_bufiScoreHash := ag_bufiScoreHash agent' |>
                   <| ag_bufiScoreUpdatedAt := ag_bufiScoreUpdatedAt agent' |>) as Hsame.
  { exists agent. split; [done|]. split; [by left | by destruct agent]. }
  unfold applyScoreAttestation. destruct (try_fromString (utf8 value)) as [v|]; [|exact Hsame].
  destruct (asObject_safe (Some v)) as [[obj|] ->]; cbn [mbind result_bind]; [|exact Hsame].
  destruct (asWholeI32_spec (get "s" obj) 0 100000) as (score & -> & Hs); [lia..|].
  cbn [mbind result_bind]. destruct (ji_present score); cbn [negb]; [|exact Hsame].
  destruct (asWholeI32_spec (get "v" obj) 0 1000) as (version & -> & Hver); [lia..|].
  destruct (asString_safe (get "d" obj)) as [d ->], (asString_safe (get "h" obj)) as [h ->].
  cbn [mbind result_bind]. eexists. split; [done|]. split; [|by destruct agent]. right.
  cbn. split_and!.
  - eexists. split; [done | auto].
  - intros u. destruct (ji_present version); [|done]. intros [= <-]. auto.
  - intros b (hex & -> & ? & _)%hashBytes_some. eauto.
Qed.
End bufi.
