(* ===== verification/SgCommerce.v ===== *)
(** * Subgraph: the escrow's handlers

    Models [packages/subgraph-arc/src/commerce/]: [agentic-commerce.ts],
    [job.ts], [settlement.ts], [payments.ts], [admin.ts]. A handler is a
    function of the data source, the event and the store; a contract view the
    code calls is an argument ([None] when the call reverts). Warnings are not
    modelled. *)

From S2P Require Import Prelude.
From S2P Require Import Js.
From S2P Require Import GraphTs.
From S2P Require Import SgText.
From S2P Require Import SgStore.
From S2P Require Import SgBufi.

(** What the contract's views return. *)
Record EscrowViews := {
  try_platformTreasury : option string;
  try_platformFeeBP : option Z;
  try_evaluatorFeeBP : option Z;
  (** description and budget of the created job *)
  try_getJob : option (string * Z)
}.

(** Event parameters. *)
Record JobCreated := {
  jc_jobId : Z; jc_client : string; jc_provider : string; jc_evaluator : string;
  jc_expiredAt : Z; jc_hook : string
}.
Record JobParty := { jp_jobId : Z; jp_party : string }.
Record JobAmount := { ja_jobId : Z; ja_party : string; ja_amount : Z }.
Record JobData := { jd_jobId : Z; jd_party : string; jd_data : string }.

Section commerce.
Context `{GraphTs}.
Context (ds : DataSource).

(** ** The escrow entity *)

Definition contextChainId : Z := chainId ds.
Definition contextPaymentToken : string := paymentToken ds.

(** The loaded or new entity, and the store after the call: a new one is saved. *)
Definition getOrCreateAgenticCommerce (views : EscrowViews) (ev : Event) (s : Store)
    : string * AgenticCommerce * Store :=
  let id := agenticCommerceEntityId contextChainId (address ev) in
  match agenticCommerces s !! id with
  | Some ac => (id, ac, s)
  | None =>
      let ac := {| ac_network := network ds; ac_chainId := contextChainId;
                   ac_implementation := None; ac_paymentToken := contextPaymentToken;
                   ac_platformFeeBP := 0; ac_platformTreasury := None; ac_evaluatorFeeBP := 0;
                   ac_jobCount := 0; ac_settledJobCount := 0; ac_settledVolume := 0;
                   ac_refundedVolume := 0; ac_createdAt := now ev; ac_updatedAt := now ev |} in
      let '(ac, s) :=
        match try_platformTreasury views with
        | Some t => if decide (t = zeroAddress) then (ac, s)
                    else (ac <| ac_platformTreasury := Some t |>, getOrCreateAccount t s)
        | None => (ac, s)
        end in
      let ac := match try_platformFeeBP views with
                | Some f => ac <| ac_platformFeeBP := f |> | None => ac end in
      let ac := match try_evaluatorFeeBP views with
                | Some f => ac <| ac_evaluatorFeeBP := f |> | None => ac end in
      (id, ac, s <| agenticCommerces ::= insert id ac |>)
  end.

(** ** Jobs *)

Definition touchJob (job : Job) (ev : Event) : Job := job <| job_updated := stamp ev |>.

Definition createJobEvent (ev : Event) (id : string) (job : Job) (kind : JobEventKind) : JobEvent :=
  {| je_agenticCommerce := job_agenticCommerce job; je_job := id; je_kind := kind;
     je_actor := None; je_address := None; je_amount := None; je_data := None;
     je_log := logOf ev |}.

Definition saveJob (id : string) (job : Job) (s : Store) : Store := s <| jobs ::= insert id job |>.
Definition saveJobEvent (ev : Event) (je : JobEvent) (s : Store) : Store :=
  s <| jobEvents ::= insert (logId ev) je |>.

Definition eventJobId (ev : Event) (jobId : Z) : string :=
  jobEntityId contextChainId (address ev) jobId.

(** [let a = null; if (!job.clientAgent) { a = resolve(...); ... } else a = Agent.load(...)] *)
Definition linkParty (linked : option string) (party : string) (s : Store)
    : option (string * Agent) :=
  match linked with
  | None => resolveAgentByWallet party s
  | Some id => ag ← agents s !! id; Some (id, ag)
  end.

(** Links the job to the workspaces of its parties and opens the engagement. *)
Definition linkWorkspaces (job : Job) (ev : Event) (s : Store) : Job * Store :=
  let clientAgent := linkParty (job_clientAgent job) (job_client job) s in
  let job := match job_clientAgent job, clientAgent with
             | None, Some (id, _) => job <| job_clientAgent := Some id |> | _, _ => job end in
  let providerAgent := p ← job_provider job; linkParty (job_providerAgent job) p s in
  let job := match job_providerAgent job, providerAgent with
             | None, Some (id, _) => job <| job_providerAgent := Some id |> | _, _ => job end in
  match job_engagement job, clientAgent, providerAgent with
  | None, Some (cid, client), Some (pid, provider) =>
      let '(eid, engagement) := getOrCreateEngagement cid pid (blockTimestamp ev) s in
      let engagement := engagement <| en_jobCount ::= Z.add 1 |> <| en_updatedAt := now ev |> in
      let s := s <| engagements ::= insert eid engagement |> in
      let job := job <| job_engagement := Some eid |> in
      let s := s <| agents ::= insert cid (client <| ag_jobsAsClient ::= Z.add 1 |>) |> in
      let s := s <| agents ::= insert pid (provider <| ag_jobsAsProvider ::= Z.add 1 |>) |> in
      (job, s)
  | _, _, _ => (job, s)
  end.

(** ** Settlement *)

(** One side's counters, when the job names a workspace that exists. *)
Definition creditAgent (agent : option string) (f : Agent → Agent) (kind : string)
    (amount timestamp : Z) (s : Store) : Store :=
  match agent with
  | None => s
  | Some id =>
      match agents s !! id with
      | None => s
      | Some ag => recordAgentMetric id kind amount timestamp (s <| agents ::= insert id (f ag) |>)
      end
  end.

Definition creditEngagement (engagement : option string) (f : Engagement → Engagement) (s : Store)
    : Store :=
  match engagement with
  | None => s
  | Some id =>
      match engagements s !! id with
      | None => s
      | Some e => s <| engagements ::= insert id (f e) |>
      end
  end.

Definition creditCommerce (id : string) (f : AgenticCommerce → AgenticCommerce) (s : Store)
    : Store :=
  match agenticCommerces s !! id with
  | None => s
  | Some ac => s <| agenticCommerces ::= insert id (f ac) |>
  end.

Definition settle_commerce (amount : Z) (ev : Event) (ac : AgenticCommerce) : AgenticCommerce :=
  ac <| ac_settledJobCount ::= Z.add 1 |> <| ac_settledVolume ::= Z.add amount |>
     <| ac_updatedAt := now ev |>.
Definition settle_provider (amount : Z) (ag : Agent) : Agent :=
  ag <| ag_settledAsProvider ::= Z.add 1 |> <| ag_settledVolumeAsProvider ::= Z.add amount |>.
Definition settle_client (amount : Z) (ag : Agent) : Agent :=
  ag <| ag_settledAsClient ::= Z.add 1 |> <| ag_settledVolumeAsClient ::= Z.add amount |>.
Definition settle_engagement (id : string) (amount : Z) (ev : Event) (e : Engagement) : Engagement :=
  e <| en_settledJobCount ::= Z.add 1 |> <| en_settledVolume ::= Z.add amount |>
    <| en_lastSettledJob := Some id |> <| en_lastSettledAt := Some (now ev) |>
    <| en_updatedAt := now ev |>.

(** A job settles when it COMPLETED and the provider was paid, once. *)
Definition markSettledIfPaid (id : string) (job : Job) (ev : Event) (s : Store) : Job * Store :=
  if job_settled job then (job, s)
  else if negb (bool_decide (job_status job = COMPLETED)) then (job, s)
  else if job_providerPayment job =? 0 then (job, s)
  else
    let job := job <| job_settled := true |> <| job_settledAt := Some (now ev) |> in
    let amount := job_providerPayment job in
    let timestamp := blockTimestamp ev in
    let s := creditCommerce (job_agenticCommerce job) (settle_commerce amount ev) s in
    let s := creditAgent (job_providerAgent job) (settle_provider amount)
               METRIC_SETTLED_AS_PROVIDER amount timestamp s in
    let s := creditAgent (job_clientAgent job) (settle_client amount)
               METRIC_SETTLED_AS_CLIENT amount timestamp s in
    let s := creditEngagement (job_engagement job) (settle_engagement id amount ev) s in
    (job, s).

Definition recordRefund (job : Job) (amount : Z) (ev : Event) (s : Store) : Store :=
  let timestamp := blockTimestamp ev in
  let s := creditCommerce (job_agenticCommerce job)
             (λ ac, ac <| ac_refundedVolume ::= Z.add amount |> <| ac_updatedAt := now ev |>) s in
  let s := creditAgent (job_clientAgent job) (λ ag, ag <| ag_refundedVolumeAsClient ::= Z.add amount |>)
             METRIC_REFUNDED_AS_CLIENT amount timestamp s in
  creditEngagement (job_engagement job)
    (λ e, e <| en_refundedVolume ::= Z.add amount |> <| en_updatedAt := now ev |>) s.

(** ** Handlers of the job events *)

Definition handleJobCreated (views : EscrowViews) (ev : Event) (p : JobCreated) (s : Store) : Store :=
  let '(acId, ac, s) := getOrCreateAgenticCommerce views ev s in
  let s := getOrCreateAccount (jc_client p) s in
  let s := getOrCreateAccount (jc_evaluator p) s in
  let id := jobEntityId (ac_chainId ac) (address ev) (jc_jobId p) in
  let job := {| job_agenticCommerce := acId; job_jobId := jc_jobId p; job_status := OPEN;
                job_client := jc_client p; job_provider := None; job_evaluator := jc_evaluator p;
                job_clientAgent := None; job_providerAgent := None; job_engagement := None;
                job_expiresAt := toTimestampSeconds (jc_expiredAt p); job_submittedAt := None;
                job_budget := 0; job_paymentToken := contextPaymentToken; job_hook := None;
                job_description := ""; job_providerPayment := 0; job_evaluatorFeePaid := 0;
                job_refundedAmount := 0; job_settled := false; job_settledAt := None;
                job_deliverable := None; job_completionReason := None; job_rejectionReason := None;
                job_created := stamp ev; job_updated := stamp ev |} in
  let '(job, s) :=
    if decide (jc_provider p = zeroAddress) then (job, s)
    else (job <| job_provider := Some (jc_provider p) |>, getOrCreateAccount (jc_provider p) s) in
  let job := if decide (jc_hook p = zeroAddress) then job else job <| job_hook := Some (jc_hook p) |> in
  let job := match try_getJob views with
             | None => job
             | Some (description, budget) =>
                 let job := job <| job_description := description |> in
                 if job_budget job =? 0 then job <| job_budget := budget |> else job
             end in
  let '(job, s) := linkWorkspaces job ev s in
  let s := saveJob id job s in
  let s := s <| agenticCommerces ::= insert acId
               (ac <| ac_jobCount ::= Z.add 1 |> <| ac_updatedAt := now ev |>) |> in
  saveJobEvent ev (createJobEvent ev id job EV_CREATED
    <| je_actor := Some (jc_client p) |> <| je_address := Some (jc_provider p) |>) s.

(** [const job = eventJob(...); if (job == null) return;] *)
Definition onJob (ev : Event) (jobId : Z) (s : Store) (k : string → Job → Store) : Store :=
  let id := eventJobId ev jobId in
  match jobs s !! id with None => s | Some job => k id job end.

Definition handleProviderSet (ev : Event) (p : JobParty) (s : Store) : Store :=
  onJob ev (jp_jobId p) s (λ id job,
    let s := getOrCreateAccount (jp_party p) s in
    let job := job <| job_provider := Some (jp_party p) |> <| job_providerAgent := None |> in
    let '(job, s) := linkWorkspaces job ev s in
    let job := touchJob job ev in
    let s := saveJob id job s in
    saveJobEvent ev (createJobEvent ev id job EV_PROVIDER_SET
      <| je_actor := Some (jp_party p) |> <| je_address := Some (jp_party p) |>) s).

Definition handleBudgetSet (ev : Event) (p : JobAmount) (s : Store) : Store :=
  onJob ev (ja_jobId p) s (λ id job,
    let job := touchJob (job <| job_budget := ja_amount p |>) ev in
    let s := saveJob id job s in
    saveJobEvent ev (createJobEvent ev id job EV_BUDGET_SET <| je_amount := Some (ja_amount p) |>) s).

Definition handleJobFunded (ev : Event) (p : JobAmount) (s : Store) : Store :=
  onJob ev (ja_jobId p) s (λ id job,
    let job := touchJob (job <| job_status := FUNDED |>) ev in
    let s := saveJob id job s in
    let s := getOrCreateAccount (ja_party p) s in
    saveJobEvent ev (createJobEvent ev id job EV_FUNDED
      <| je_actor := Some (ja_party p) |> <| je_amount := Some (ja_amount p) |>) s).

Definition handleJobSubmitted (ev : Event) (p : JobData) (s : Store) : Store :=
  onJob ev (jd_jobId p) s (λ id job,
    let job := touchJob (job <| job_status := SUBMITTED |> <| job_submittedAt := Some (now ev) |>
                             <| job_deliverable := Some (jd_data p) |>) ev in
    let s := saveJob id job s in
    let s := getOrCreateAccount (jd_party p) s in
    saveJobEvent ev (createJobEvent ev id job EV_SUBMITTED
      <| je_actor := Some (jd_party p) |> <| je_data := Some (jd_data p) |>) s).

Definition handleJobCompleted (ev : Event) (p : JobData) (s : Store) : Store :=
  onJob ev (jd_jobId p) s (λ id job,
    let job := touchJob (job <| job_status := COMPLETED |>
                             <| job_completionReason := Some (jd_data p) |>) ev in
    let '(job, s) := markSettledIfPaid id job ev s in
    let s := saveJob id job s in
    let s := getOrCreateAccount (jd_party p) s in
    saveJobEvent ev (createJobEvent ev id job EV_COMPLETED
      <| je_actor := Some (jd_party p) |> <| je_data := Some (jd_data p) |>) s).

Definition handleJobRejected (ev : Event) (p : JobData) (s : Store) : Store :=
  onJob ev (jd_jobId p) s (λ id job,
    let job := touchJob (job <| job_status := REJECTED |>
                             <| job_rejectionReason := Some (jd_data p) |>) ev in
    let s := saveJob id job s in
    let s := getOrCreateAccount (jd_party p) s in
    saveJobEvent ev (createJobEvent ev id job EV_REJECTED
      <| je_actor := Some (jd_party p) |> <| je_data := Some (jd_data p) |>) s).

Definition handleJobExpired (ev : Event) (jobId : Z) (s : Store) : Store :=
  onJob ev jobId s (λ id job,
    let job := touchJob (job <| job_status := EXPIRED |>) ev in
    let s := saveJob id job s in
    saveJobEvent ev (createJobEvent ev id job EV_EXPIRED) s).

(** ** Handlers of the payment events *)

Definition handlePaymentReleased (ev : Event) (p : JobAmount) (s : Store) : Store :=
  onJob ev (ja_jobId p) s (λ id job,
    let job := touchJob (job <| job_providerPayment ::= Z.add (ja_amount p) |>) ev in
    let '(job, s) := markSettledIfPaid id job ev s in
    let s := saveJob id job s in
    let s := getOrCreateAccount (ja_party p) s in
    saveJobEvent ev (createJobEvent ev id job EV_PAYMENT_RELEASED
      <| je_actor := Some (ja_party p) |> <| je_amount := Some (ja_amount p) |>) s).

Definition handleEvaluatorFeePaid (ev : Event) (p : JobAmount) (s : Store) : Store :=
  onJob ev (ja_jobId p) s (λ id job,
    let job := touchJob (job <| job_evaluatorFeePaid ::= Z.add (ja_amount p) |>) ev in
    let s := saveJob id job s in
    let s := getOrCreateAccount (ja_party p) s in
    saveJobEvent ev (createJobEvent ev id job EV_EVALUATOR_FEE_PAID
      <| je_actor := Some (ja_party p) |> <| je_amount := Some (ja_amount p) |>) s).

Definition handleRefunded (ev : Event) (p : JobAmount) (s : Store) : Store :=
  onJob ev (ja_jobId p) s (λ id job,
    let job := touchJob (job <| job_refundedAmount ::= Z.add (ja_amount p) |>) ev in
    let s := saveJob id job s in
    let s := recordRefund job (ja_amount p) ev s in
    let s := getOrCreateAccount (ja_party p) s in
    saveJobEvent ev (createJobEvent ev id job EV_REFUNDED
      <| je_actor := Some (ja_party p) |> <| je_amount := Some (ja_amount p) |>) s).

(** ** Handlers of the administrative events *)

Definition handleHookWhitelistUpdated (views : EscrowViews) (ev : Event) (hook : string)
    (status : bool) (s : Store) : Store :=
  let '(acId, ac, s) := getOrCreateAgenticCommerce views ev s in
  let id := acId +:+ hook in
  let entry := match hooks s !! id with
               | Some e => e
               | None => {| he_agenticCommerce := acId; he_hook := hook; he_allowed := false;
                            he_updated := stamp ev |}
               end in
  let s := s <| hooks ::= insert id (entry <| he_allowed := status |> <| he_updated := stamp ev |>) |> in
  s <| agenticCommerces ::= insert acId (ac <| ac_updatedAt := now ev |>) |>.

Definition handleUpgraded (views : EscrowViews) (ev : Event) (implementation : string) (s : Store)
    : Store :=
  let '(acId, ac, s) := getOrCreateAgenticCommerce views ev s in
  s <| agenticCommerces ::= insert acId
      (ac <| ac_implementation := Some implementation |> <| ac_updatedAt := now ev |>) |>.

(** ** The escrow's event stream *)

Inductive commerce_event :=
| EJobCreated (views : EscrowViews) (p : JobCreated)
| EProviderSet (p : JobParty)
| EBudgetSet (p : JobAmount)
| EJobFunded (p : JobAmount)
| EJobSubmitted (p : JobData)
| EJobCompleted (p : JobData)
| EJobRejected (p : JobData)
| EJobExpired (jobId : Z)
| EPaymentReleased (p : JobAmount)
| EEvaluatorFeePaid (p : JobAmount)
| ERefunded (p : JobAmount)
| EHookWhitelistUpdated (views : EscrowViews) (hook : string) (status : bool)
| EUpgraded (views : EscrowViews) (implementation : string).

(** The manifest's dispatch of an event to its handler. *)
Definition commerce_step (ev : Event) (e : commerce_event) (s : Store) : Store :=
  match e with
  | EJobCreated views p => handleJobCreated views ev p s
  | EProviderSet p => handleProviderSet ev p s
  | EBudgetSet p => handleBudgetSet ev p s
  | EJobFunded p => handleJobFunded ev p s
  | EJobSubmitted p => handleJobSubmitted ev p s
  | EJobCompleted p => handleJobCompleted ev p s
  | EJobRejected p => handleJobRejected ev p s
  | EJobExpired jobId => handleJobExpired ev jobId s
  | EPaymentReleased p => handlePaymentReleased ev p s
  | EEvaluatorFeePaid p => handleEvaluatorFeePaid ev p s
  | ERefunded p => handleRefunded ev p s
  | EHookWhitelistUpdated views hook status => handleHookWhitelistUpdated views ev hook status s
  | EUpgraded views implementation => handleUpgraded views ev implementation s
  end.
End commerce.
