(* ===== verification/SgSettlement.v ===== *)
(** * Subgraph: what the escrow's counters mean

    Theorems about the handlers of [SgCommerce]: the two events that settle a
    job commute, and over any run of the escrow's event stream a job is settled
    exactly when it completed and the provider was paid, and the escrow's
    counters are the sums over its jobs. *)

From S2P Require Import Prelude.
From S2P Require Import Js.
From S2P Require Import GraphTs.
From S2P Require Import GraphTsSample.
From S2P Require Import SgText.
From S2P Require Import SgStore.
From S2P Require Import SgBufi.
From S2P Require Import SgCommerce.

Section settlement.
Context `{GraphTs}.
Context (ds : DataSource).

(** ** What a handler leaves alone *)

Lemma jobs_account a s : jobs (getOrCreateAccount a s) = jobs s.
Proof. by rewrite accounts_idem. Qed.
Lemma commerces_account a s : agenticCommerces (getOrCreateAccount a s) = agenticCommerces s.
Proof. by rewrite accounts_idem. Qed.
Lemma engagements_account a s : engagements (getOrCreateAccount a s) = engagements s.
Proof. by rewrite accounts_idem. Qed.
Lemma agents_account a s : agents (getOrCreateAccount a s) = agents s.
Proof. by rewrite accounts_idem. Qed.

Lemma jobs_creditAgent o f k a t s : jobs (creditAgent o f k a t s) = jobs s.
Proof. unfold creditAgent. by repeat case_match. Qed.
Lemma commerces_creditAgent o f k a t s :
  agenticCommerces (creditAgent o f k a t s) = agenticCommerces s.
Proof. unfold creditAgent. by repeat case_match. Qed.
Lemma engagements_creditAgent o f k a t s : engagements (creditAgent o f k a t s) = engagements s.
Proof. unfold creditAgent. by repeat case_match. Qed.

Lemma jobs_creditEngagement o f s : jobs (creditEngagement o f s) = jobs s.
Proof. unfold creditEngagement. by repeat case_match. Qed.
Lemma commerces_creditEngagement o f s :
  agenticCommerces (creditEngagement o f s) = agenticCommerces s.
Proof. unfold creditEngagement. by repeat case_match. Qed.

Lemma jobs_creditCommerce o f s : jobs (creditCommerce o f s) = jobs s.
Proof. unfold creditCommerce. by repeat case_match. Qed.
Lemma engagements_creditCommerce o f s : engagements (creditCommerce o f s) = engagements s.
Proof. unfold creditCommerce. by repeat case_match. Qed.
Lemma commerces_creditCommerce id f s :
  agenticCommerces (creditCommerce id f s) = alter f id (agenticCommerces s).
Proof.
  unfold creditCommerce. destruct (agenticCommerces s !! id) as [ac|] eqn:E.
  - apply map_eq. intros i. cbn. destruct (decide (i = id)) as [->|Hi].
    + by rewrite lookup_insert_eq, lookup_alter_eq, E.
    + by rewrite lookup_insert_ne, lookup_alter_ne.
  - symmetry. apply map_eq. intros i. destruct (decide (i = id)) as [->|Hi].
    + by rewrite lookup_alter_eq, E.
    + by rewrite lookup_alter_ne.
Qed.

#[local] Hint Rewrite jobs_account commerces_account engagements_account agents_account
  jobs_creditAgent commerces_creditAgent engagements_creditAgent
  jobs_creditEngagement commerces_creditEngagement
  jobs_creditCommerce engagements_creditCommerce commerces_creditCommerce : sg.

Lemma linkWorkspaces_jobs job ev s : jobs (linkWorkspaces job ev s).2 = jobs s.
Proof. unfold linkWorkspaces. by repeat case_match. Qed.
Lemma linkWorkspaces_commerces job ev s :
  agenticCommerces (linkWorkspaces job ev s).2 = agenticCommerces s.
Proof. unfold linkWorkspaces. by repeat case_match. Qed.

(** ** The accounting invariant *)

Definition w_one (j : Job) : Z := 1.
Definition w_settled (j : Job) : Z := if job_settled j then 1 else 0.
Definition w_refunded (j : Job) : Z := job_refundedAmount j.
Definition w_paid (j : Job) : Z := if job_settled j then job_providerPayment j else 0.

(** The weight of a job for the escrow [a]. *)
Definition at_escrow (a : string) (w : Job → Z) (j : Job) : Z :=
  if decide (job_agenticCommerce j = a) then w j else 0.

Record job_ok (j : Job) : Prop := {
  jo_payment : 0 ≤ job_providerPayment j;
  jo_refund : 0 ≤ job_refundedAmount j;
  jo_settled_paid : job_settled j = true → job_providerPayment j ≠ 0;
  jo_complete_settled :
    job_status j = COMPLETED → job_providerPayment j ≠ 0 → job_settled j = true
}.

(** The counters of escrow [a] are the sums over its jobs. *)
Record ledger (J : gmap string Job) (a : string) (ac : AgenticCommerce) : Prop := {
  le_chain : ac_chainId ac = chainId ds;
  le_jobs : ac_jobCount ac = msum (at_escrow a w_one) J;
  le_settled : ac_settledJobCount ac = msum (at_escrow a w_settled) J;
  le_refunded : ac_refundedVolume ac = msum (at_escrow a w_refunded) J;
  le_volume : 0 ≤ ac_settledVolume ac ≤ msum (at_escrow a w_paid) J
}.

Record accounts_ok (J : gmap string Job) (C : gmap string AgenticCommerce) : Prop := {
  ok_job : ∀ id j, J !! id = Some j → job_ok j;
  ok_escrow : ∀ id j, J !! id = Some j → is_Some (C !! job_agenticCommerce j);
  ok_ledger : ∀ a ac, C !! a = Some ac → ledger J a ac
}.

(** What an escrow's counters gain when one of its jobs changes from [j] to [j']. *)
Record moves (g : AgenticCommerce → AgenticCommerce) (j j' : Job) : Prop := {
  mv_chain : ∀ ac, ac_chainId (g ac) = ac_chainId ac;
  mv_jobs : ∀ ac, ac_jobCount (g ac) = ac_jobCount ac;
  mv_settled : ∀ ac, ac_settledJobCount (g ac) = ac_settledJobCount ac + (w_settled j' - w_settled j);
  mv_refunded : ∀ ac, ac_refundedVolume (g ac) = ac_refundedVolume ac + (w_refunded j' - w_refunded j);
  mv_volume : ∀ ac, ac_settledVolume ac ≤ ac_settledVolume (g ac)
                    ≤ ac_settledVolume ac + (w_paid j' - w_paid j)
}.

Lemma accounts_ok_update J C id j j' g :
  accounts_ok J C → J !! id = Some j → job_ok j' →
  job_agenticCommerce j' = job_agenticCommerce j → moves g j j' →
  accounts_ok (<[id := j']> J) (alter g (job_agenticCommerce j) C).
Proof.
  intros [Hj He Hl] Hid Hok Ea [Mc Mj Ms Mr Mv]. split.
  - intros i x [[<- <-]|[_ Hi]]%lookup_insert_Some; [done | eauto].
  - intros i x Hi. rewrite lookup_alter_is_Some.
    apply lookup_insert_Some in Hi as [[<- <-]|[_ Hi]]; [rewrite Ea|]; eauto.
  - intros a ac Ha. destruct (decide (job_agenticCommerce j = a)) as [<-|Hne].
    + rewrite lookup_alter_eq in Ha. destruct (C !! job_agenticCommerce j) as [ac0|] eqn:E; [|done].
      injection Ha as <-. destruct (Hl _ _ E) as [L0 L1 L2 L3 L4].
      split; [by rewrite Mc | ..]; rewrite (msum_update _ _ _ _ _ Hid); unfold at_escrow at 2 3;
        rewrite Ea, !decide_True by done.
      * rewrite Mj. unfold w_one at 2 3. lia.
      * rewrite Ms. lia.
      * rewrite Mr. lia.
      * specialize (Mv ac0). lia.
    + rewrite lookup_alter_ne in Ha by done. destruct (Hl _ _ Ha) as [L0 L1 L2 L3 L4].
      split; [done | ..]; rewrite (msum_update _ _ _ _ _ Hid); unfold at_escrow at 2 3;
        rewrite Ea, !decide_False by done; lia.
Qed.

Lemma accounts_ok_touch J C a ac ac' :
  accounts_ok J C → C !! a = Some ac → ac_chainId ac' = ac_chainId ac →
  ac_jobCount ac' = ac_jobCount ac → ac_settledJobCount ac' = ac_settledJobCount ac →
  ac_refundedVolume ac' = ac_refundedVolume ac → ac_settledVolume ac' = ac_settledVolume ac →
  accounts_ok J (<[a := ac']> C).
Proof.
  intros [Hj He Hl] Ha E0 E1 E2 E3 E4. split; [done | |].
  - intros i x Hi. apply lookup_insert_is_Some'. eauto.
  - intros b bc [[<- <-]|[_ Hb]]%lookup_insert_Some; [|eauto].
    destruct (Hl _ _ Ha). split; congruence || lia.
Qed.

Lemma msum_other a w J :
  (∀ id j, J !! id = Some j → job_agenticCommerce j ≠ a) → msum (at_escrow a w) J = 0.
Proof.
  induction J as [|i j J Hi IH] using map_ind; intros Hne; [apply msum_empty|].
  rewrite msum_insert by done. unfold at_escrow at 1.
  rewrite decide_False by (apply (Hne i), lookup_insert_eq).
  rewrite IH; [done|]. intros k x Hk. apply (Hne k). rewrite lookup_insert_ne; [done|].
  intros ->. congruence.
Qed.

(** A first sight of an escrow: no job names it yet. *)
Lemma accounts_ok_escrow J C a ac :
  accounts_ok J C → C !! a = None → ac_chainId ac = chainId ds →
  ac_jobCount ac = 0 → ac_settledJobCount ac = 0 → ac_refundedVolume ac = 0 →
  ac_settledVolume ac = 0 → accounts_ok J (<[a := ac]> C).
Proof.
  intros [Hj He Hl] Ha E0 E1 E2 E3 E4. split; [done | |].
  - intros i x Hi. apply lookup_insert_is_Some'. eauto.
  - intros b bc [[<- <-]|[_ Hb]]%lookup_insert_Some; [|eauto].
    assert (∀ id j, J !! id = Some j → job_agenticCommerce j ≠ a) as Hne.
    { intros id j Hid <-. destruct (He id j Hid). congruence. }
    split; [done | ..]; rewrite msum_other by done; lia.
Qed.

(** A new job, counted by its escrow. *)
Lemma accounts_ok_new J C id j ac ac' :
  accounts_ok J C → J !! id = None → job_ok j → C !! job_agenticCommerce j = Some ac →
  job_settled j = false → job_refundedAmount j = 0 → ac_chainId ac' = ac_chainId ac →
  ac_jobCount ac' = 1 + ac_jobCount ac → ac_settledJobCount ac' = ac_settledJobCount ac →
  ac_refundedVolume ac' = ac_refundedVolume ac → ac_settledVolume ac' = ac_settledVolume ac →
  accounts_ok (<[id := j]> J) (<[job_agenticCommerce j := ac']> C).
Proof.
  intros [Hj He Hl] Hid Hok Ha Hs Hr E0 E1 E2 E3 E4. split.
  - intros i x [[<- <-]|[_ Hi]]%lookup_insert_Some; [done | eauto].
  - intros i x Hi. apply lookup_insert_is_Some'.
    apply lookup_insert_Some in Hi as [[<- <-]|[_ Hi]]; eauto.
  - intros b bc Hb. destruct (decide (b = job_agenticCommerce j)) as [->|Hne].
    + rewrite lookup_insert_eq in Hb. injection Hb as <-. destruct (Hl _ _ Ha).
      split; [congruence | ..]; rewrite msum_insert by done; unfold at_escrow at 1; rewrite decide_True by done;
        unfold w_one at 1 || unfold w_settled at 1 || unfold w_refunded at 1 || unfold w_paid at 1;
        rewrite ?Hs, ?Hr; lia.
    + rewrite lookup_insert_ne in Hb by done. destruct (Hl _ _ Hb).
      split; [done | ..]; rewrite msum_insert by done; unfold at_escrow at 1;
        rewrite decide_False by congruence; lia.
Qed.

(** ** The handlers keep the accounts *)

Definition accounts_hold (s : Store) : Prop := accounts_ok (jobs s) (agenticCommerces s).

Lemma accounts_step s s' id j j' g :
  accounts_hold s → jobs s !! id = Some j →
  jobs s' = <[id := j']> (jobs s) →
  agenticCommerces s' = alter g (job_agenticCommerce j) (agenticCommerces s) →
  job_ok j' → job_agenticCommerce j' = job_agenticCommerce j → moves g j j' → accounts_hold s'.
Proof. intros Hs Hid EJ EC ???. unfold accounts_hold. rewrite EJ, EC. by apply accounts_ok_update. Qed.

Lemma alter_same {A} i (m : gmap string A) : m = alter (λ x, x) i m.
Proof. symmetry. apply map_eq. intros k. by rewrite lookup_alter; case_decide; subst; [rewrite option_fmap_id|]. Qed.

(** A change that moves no counter. *)
Lemma accounts_quiet s s' id j j' :
  accounts_hold s → jobs s !! id = Some j →
  jobs s' = <[id := j']> (jobs s) → agenticCommerces s' = agenticCommerces s →
  (job_status j' = COMPLETED → job_status j = COMPLETED) →
  job_agenticCommerce j' = job_agenticCommerce j → job_providerPayment j' = job_providerPayment j →
  job_refundedAmount j' = job_refundedAmount j → job_settled j' = job_settled j → accounts_hold s'.
Proof.
  intros Hs Hid EJ EC Est Ea Ep Er Es.
  apply (accounts_step s s' id j j' (λ ac, ac)); [done..| | | done |].
  - rewrite EC. apply alter_same.
  - destruct (ok_job _ _ Hs id j Hid) as [O1 O2 O3 O4]. split; rewrite ?Ep, ?Er, ?Es; auto.
  - split; intros; unfold w_settled, w_refunded, w_paid; rewrite ?Ep, ?Er, ?Es; lia.
Qed.

(** What [markSettledIfPaid] does to the job and to the escrow. *)
Definition settles (j : Job) : bool :=
  negb (job_settled j) && bool_decide (job_status j = COMPLETED) && negb (job_providerPayment j =? 0).

Definition settled_job (ev : Event) (j : Job) : Job :=
  if settles j then j <| job_settled := true |> <| job_settledAt := Some (now ev) |> else j.

Definition settled_escrow (ev : Event) (j : Job) (ac : AgenticCommerce) : AgenticCommerce :=
  if settles j then settle_commerce (job_providerPayment j) ev ac else ac.

Lemma markSettled_spec id j ev s :
  (markSettledIfPaid id j ev s).1 = settled_job ev j ∧
  jobs (markSettledIfPaid id j ev s).2 = jobs s ∧
  agenticCommerces (markSettledIfPaid id j ev s).2
    = alter (settled_escrow ev j) (job_agenticCommerce j) (agenticCommerces s).
Proof.
  unfold markSettledIfPaid, settled_job, settled_escrow, settles.
  destruct (job_settled j); cbn [negb andb]; [split_and!; [done..|apply alter_same]|].
  case_bool_decide; cbn [negb andb]; [|split_and!; [done..|apply alter_same]].
  destruct (job_providerPayment j =? 0); cbn [negb andb]; [split_and!; [done..|apply alter_same]|].
  split_and!; [done | |]; cbn [snd]; by autorewrite with sg.
Qed.

Lemma settled_job_ok ev j :
  0 ≤ job_providerPayment j → 0 ≤ job_refundedAmount j →
  (job_settled j = true → job_providerPayment j ≠ 0) → job_ok (settled_job ev j).
Proof.
  intros Hp Hr Hs. unfold settled_job, settles.
  destruct (job_settled j) eqn:E; cbn [negb andb]; [by split; auto|].
  case_bool_decide; cbn [andb]; [|by split; auto; rewrite E].
  destruct (Z.eqb_spec (job_providerPayment j) 0); cbn [negb]; [by split; auto; rewrite E|].
  by split.
Qed.

(** A change followed by [markSettledIfPaid]: the job before the change is [j], the
    changed one [j1] has the same escrow and refunds, and no less paid. *)
Lemma accounts_settling s s' ev id j j1 :
  accounts_hold s → jobs s !! id = Some j →
  jobs s' = <[id := settled_job ev j1]> (jobs s) →
  agenticCommerces s' = alter (settled_escrow ev j1) (job_agenticCommerce j) (agenticCommerces s) →
  job_agenticCommerce j1 = job_agenticCommerce j → job_settled j1 = job_settled j →
  job_refundedAmount j1 = job_refundedAmount j →
  job_providerPayment j ≤ job_providerPayment j1 → accounts_hold s'.
Proof.
  intros Hs Hid EJ EC Ea Es Er Ep. destruct (ok_job _ _ Hs id j Hid) as [O1 O2 O3 O4].
  apply (accounts_step s s' id j (settled_job ev j1) (settled_escrow ev j1)); [done..| | |].
  - apply settled_job_ok; [lia | lia |]. rewrite Es. intros Hset. specialize (O3 Hset). lia.
  - unfold settled_job. by case_match.
  - unfold settled_job, settled_escrow. destruct (settles j1) eqn:E.
    + unfold settles in E. rewrite Es in E. apply andb_true_iff in E as [[E1 E2]%andb_true_iff E3].
      apply negb_true_iff in E1. zify_bool.
      split; intros; unfold w_settled, w_refunded, w_paid; cbn; rewrite ?E1, ?Er; lia.
    + split; intros; unfold w_settled, w_refunded, w_paid; rewrite ?Es, ?Er; try lia.
      destruct (job_settled j); lia.
Qed.

(** What the escrow guarantees of its events: a job is created once and amounts are
    unsigned. *)
Definition commerce_ok (ev : Event) (e : commerce_event) (s : Store) : Prop :=
  match e with
  | EJobCreated views p => jobs s !! eventJobId ds ev (jc_jobId p) = None
  | EPaymentReleased p | ERefunded p => 0 ≤ ja_amount p
  | _ => True
  end.

Lemma getOrCreate_accounts views ev s :
  accounts_hold s →
  let '(a, ac, s1) := getOrCreateAgenticCommerce ds views ev s in
  accounts_hold s1 ∧ jobs s1 = jobs s ∧ agenticCommerces s1 !! a = Some ac ∧
  engagements s1 = engagements s.
Proof.
  intros Hs. unfold getOrCreateAgenticCommerce.
  set (a := agenticCommerceEntityId (contextChainId ds) (address ev)).
  destruct (agenticCommerces s !! a) as [ac|] eqn:E; [done|].
  destruct (try_platformTreasury views) as [t|];
    [destruct (decide (t = zeroAddress)) as [_|_]|];
    destruct (try_platformFeeBP views); destruct (try_evaluatorFeeBP views);
    (split_and!; [ | by cbn; autorewrite with sg | by cbn; apply lookup_insert_eq
      | by cbn; autorewrite with sg]);
    unfold accounts_hold; cbn; autorewrite with sg; by apply accounts_ok_escrow.
Qed.

(** The fields of a job the accounts depend on. *)
Definition core (j : Job) := (job_agenticCommerce j, job_status j, job_providerPayment j,
  job_refundedAmount j, job_settled j).

Lemma core_link job ev s : core (linkWorkspaces job ev s).1 = core job.
Proof. unfold linkWorkspaces. by repeat case_match. Qed.

Ltac job_found Hs :=
  unfold onJob; match goal with
  | |- accounts_hold (match ?l with Some _ => _ | None => _ end) =>
      let j := fresh "j" in let E := fresh "Ej" in
      destruct l as [j|] eqn:E; [|exact Hs] end.

(** The job [handleJobCreated] saves, before its workspaces are linked. *)
Lemma created_accounts views ev p s :
  accounts_hold s → jobs s !! eventJobId ds ev (jc_jobId p) = None →
  accounts_hold (handleJobCreated ds views ev p s).
Proof.
  intros Hs Hnew. unfold handleJobCreated.
  pose proof (getOrCreate_accounts views ev s Hs) as Hg.
  destruct (getOrCreateAgenticCommerce ds views ev s) as [[a ac] s1].
  destruct Hg as (Hs1 & EJ & EC & _).
  assert (ac_chainId ac = chainId ds) as Ech by (eapply le_chain, ok_ledger; [exact Hs1 | exact EC]).
  rewrite Ech. fold (contextChainId ds). fold (eventJobId ds ev (jc_jobId p)).
  cbv zeta.
  match goal with |- accounts_hold (let '(_, _) := ?x in _) => set (start := x) end.
  assert (core start.1 = (a, OPEN, 0, 0, false) ∧ jobs start.2 = jobs s1 ∧
    agenticCommerces start.2 = agenticCommerces s1) as (Hc & HJ & HC).
  { unfold start. case_decide; cbn; by autorewrite with sg. }
  destruct start as [j0 s2]. cbn [fst snd] in *.
  match goal with |- context [linkWorkspaces ?j ev s2] => set (j1 := j) end.
  assert (core j1 = (a, OPEN, 0, 0, false)) as Hc1.
  { rewrite <- Hc. unfold j1. repeat case_match; done. }
  pose proof (core_link j1 ev s2) as Hl. pose proof (linkWorkspaces_jobs j1 ev s2) as HJ2.
  pose proof (linkWorkspaces_commerces j1 ev s2) as HC2.
  destruct (linkWorkspaces j1 ev s2) as [j s3]. cbn [fst snd] in *.
  rewrite Hc1 in Hl. unfold core in Hl. injection Hl as Ea Est Ep Er Eset.
  unfold accounts_hold. cbn. rewrite HJ2, HC2, HJ, HC, EJ, <- Ea.
  apply (accounts_ok_new _ _ _ j ac); try done.
  - by rewrite <- EJ.
  - split; rewrite ?Ep, ?Er, ?Eset, ?Est; done.
  - by rewrite Ea.
Qed.

Lemma commerce_accounts ev e s :
  accounts_hold s → commerce_ok ev e s → accounts_hold (commerce_step ds ev e s).
Proof.
  intros Hs Hok. destruct e as [views p|p|p|p|p|p|p|jobId|p|p|p|views hook status|views impl];
    cbn [commerce_step commerce_ok] in *.
  - by apply created_accounts.
  - unfold handleProviderSet. job_found Hs.
    match goal with |- context [linkWorkspaces ?j1 ev ?s1] => set (j1' := j1); set (s1' := s1) end.
    pose proof (core_link j1' ev s1') as Hl. pose proof (linkWorkspaces_jobs j1' ev s1') as HJ2.
    pose proof (linkWorkspaces_commerces j1' ev s1') as HC2.
    destruct (linkWorkspaces j1' ev s1') as [j2 s2]. cbn [fst snd] in *.
    unfold core in Hl. injection Hl as Ea Est Ep Er Eset.
    unfold s1' in HJ2, HC2. autorewrite with sg in HJ2, HC2.
    eapply (accounts_quiet s _ _ j (touchJob j2 ev)); [done | exact Ej | cbn; by rewrite HJ2
      | cbn; by rewrite HC2 | ..]; cbn; by rewrite ?Ea, ?Est, ?Ep, ?Er, ?Eset.
  - unfold handleBudgetSet. job_found Hs. by eapply (accounts_quiet s _ _ j).
  - unfold handleJobFunded. job_found Hs.
    eapply (accounts_quiet s _ _ j); [done | exact Ej | cbn; by autorewrite with sg
      | cbn; by autorewrite with sg | done..].
  - unfold handleJobSubmitted. job_found Hs.
    eapply (accounts_quiet s _ _ j); [done | exact Ej | cbn; by autorewrite with sg
      | cbn; by autorewrite with sg | done..].
  - unfold handleJobCompleted. job_found Hs.
    match goal with |- context [markSettledIfPaid ?i ?j1 ev s] =>
      destruct (markSettled_spec i j1 ev s) as (M1 & M2 & M3);
      destruct (markSettledIfPaid i j1 ev s) as [j2 s2]; cbn [fst snd] in *; subst j2 end.
    eapply (accounts_settling s _ ev _ j); [done | exact Ej | cbn; autorewrite with sg; cbn; by rewrite M2
      | cbn; autorewrite with sg; cbn; by rewrite M3 | done..].
  - unfold handleJobRejected. job_found Hs.
    eapply (accounts_quiet s _ _ j); [done | exact Ej | cbn; by autorewrite with sg
      | cbn; by autorewrite with sg | done..].
  - unfold handleJobExpired. job_found Hs. by eapply (accounts_quiet s _ _ j).
  - unfold handlePaymentReleased. job_found Hs.
    match goal with |- context [markSettledIfPaid ?i ?j1 ev s] =>
      destruct (markSettled_spec i j1 ev s) as (M1 & M2 & M3);
      destruct (markSettledIfPaid i j1 ev s) as [j2 s2]; cbn [fst snd] in *; subst j2 end.
    eapply (accounts_settling s _ ev _ j); [done | exact Ej | cbn; autorewrite with sg; cbn; by rewrite M2
      | cbn; autorewrite with sg; cbn; by rewrite M3 | done.. | cbn; lia].
  - unfold handleEvaluatorFeePaid. job_found Hs.
    eapply (accounts_quiet s _ _ j); [done | exact Ej | cbn; by autorewrite with sg
      | cbn; by autorewrite with sg | done..].
  - unfold handleRefunded. job_found Hs.
    eapply (accounts_step s _ _ j _); [done | exact Ej | cbn; unfold recordRefund; by autorewrite with sg
      | cbn; unfold recordRefund; by autorewrite with sg | | done |].
    + destruct (ok_job _ _ Hs _ j Ej) as [O1 O2 O3 O4]. split; cbn; auto. lia.
    + split; intros; unfold w_settled, w_refunded, w_paid; cbn; lia.
  - unfold handleHookWhitelistUpdated. pose proof (getOrCreate_accounts views ev s Hs) as Hg.
    destruct (getOrCreateAgenticCommerce ds views ev s) as [[a ac] s1].
    destruct Hg as (Hs1 & EJ & EC & _). by eapply (accounts_ok_touch _ _ a ac).
  - unfold handleUpgraded. pose proof (getOrCreate_accounts views ev s Hs) as Hg.
    destruct (getOrCreateAgenticCommerce ds views ev s) as [[a ac] s1].
    destruct Hg as (Hs1 & EJ & EC & _). by eapply (accounts_ok_touch _ _ a ac).
Qed.

(** ** The settlement's own effect on the store *)

Definition settle_effect (id : string) (j : Job) (ev : Event) (s : Store) : Store :=
  if settles j then
    let amount := job_providerPayment j in
    let timestamp := blockTimestamp ev in
    creditEngagement (job_engagement j) (settle_engagement id amount ev)
      (creditAgent (job_clientAgent j) (settle_client amount) METRIC_SETTLED_AS_CLIENT amount timestamp
        (creditAgent (job_providerAgent j) (settle_provider amount) METRIC_SETTLED_AS_PROVIDER amount
           timestamp (creditCommerce (job_agenticCommerce j) (settle_commerce amount ev) s)))
  else s.

Lemma markSettled_eq id j ev s :
  markSettledIfPaid id j ev s = (settled_job ev j, settle_effect id j ev s).
Proof.
  unfold markSettledIfPaid, settled_job, settle_effect, settles.
  destruct (job_settled j); [done|]. case_bool_decide; [|done].
  by destruct (job_providerPayment j =? 0).
Qed.

(** The four parts of the store a settlement reads and writes, and the rest. *)
Definition econ (s : Store) := (agenticCommerces s, agents s, engagements s, metricPoints s).
Definition blank (s : Store) : Store :=
  {| accounts := accounts s; walletBindings := walletBindings s; agenticCommerces := ∅; jobs :=
  jobs s; jobEvents := jobEvents s; hooks := hooks s; engagements := ∅; agents := ∅; metadatas :=
  metadatas s; metadataRevisions := metadataRevisions s; uriRevisions := uriRevisions s; transfers
  := transfers s; approvalChanges := approvalChanges s; operatorApprovals := operatorApprovals s;
  operatorApprovalChanges := operatorApprovalChanges s; identityRegistries := identityRegistries
  s; reputationRegistries := reputationRegistries s; feedbacks := feedbacks s; responses :=
  responses s; registrations := registrations s; services := services s; serviceFeatures :=
  serviceFeatures s; serviceAttributes := serviceAttributes s; registrationReferences :=
  registrationReferences s; trusts := trusts s; documents := documents s; documentFeatures :=
  documentFeatures s; paymentProofs := paymentProofs s; attachments := attachments s; metricPoints
  := []; feedbackPoints := feedbackPoints s |}.

Lemma store_ext s1 s2 : econ s1 = econ s2 → blank s1 = blank s2 → s1 = s2.
Proof.
  destruct s1, s2. unfold econ, blank. cbn. intros E1 E2. injection E1 as -> -> -> ->.
  injection E2 as -> -> -> -> -> -> -> -> -> -> -> -> -> -> -> -> -> -> -> -> -> -> -> -> -> -> ->. done.
Qed.

(** Effects that depend on and change only the economic part. *)
Definition economic (f : Store → Store) : Prop :=
  (∀ s1 s2, econ s1 = econ s2 → econ (f s1) = econ (f s2)) ∧ ∀ s, blank (f s) = blank s.

Lemma economic_comp f g : economic f → economic g → economic (λ s, f (g s)).
Proof. intros [Hf1 Hf2] [Hg1 Hg2]. split; [auto|]. intros s. by rewrite Hf2. Qed.

Lemma economic_commerce id f : economic (creditCommerce id f).
Proof.
  split.
  - intros s1 s2. unfold econ, creditCommerce. intros [= E1 E2 E3 E4]. rewrite E1.
    case_match; cbn; congruence.
  - intros s. unfold creditCommerce. by case_match.
Qed.

Lemma economic_engagement o f : economic (creditEngagement o f).
Proof.
  split.
  - intros s1 s2. unfold econ, creditEngagement. intros [= E1 E2 E3 E4]. rewrite E3.
    destruct o; [case_match|]; cbn; congruence.
  - intros s. unfold creditEngagement. by repeat case_match.
Qed.

Lemma economic_agent o f k a t : economic (creditAgent o f k a t).
Proof.
  split.
  - intros s1 s2. unfold econ, creditAgent. intros [= E1 E2 E3 E4]. rewrite E2.
    destruct o; [case_match|]; cbn; congruence.
  - intros s. unfold creditAgent. by repeat case_match.
Qed.

Lemma economic_settle id j ev : economic (settle_effect id j ev).
Proof.
  unfold settle_effect. destruct (settles j); [|by split].
  apply economic_comp; [apply economic_engagement|].
  apply economic_comp; [apply economic_agent|].
  apply economic_comp; [apply economic_agent | apply economic_commerce].
Qed.

Lemma econ_account a s : econ (getOrCreateAccount a s) = econ s.
Proof. by rewrite accounts_idem. Qed.

Lemma blank_account a s : blank (getOrCreateAccount a s) = getOrCreateAccount a (blank s).
Proof. by rewrite !accounts_idem. Qed.

Lemma handleJobCompleted_eq ev p s :
  handleJobCompleted ds ev p s = onJob ds ev (jd_jobId p) s (λ id j,
    let j1 := touchJob (j <| job_status := COMPLETED |> <| job_completionReason := Some (jd_data p) |>) ev in
    saveJobEvent ev (createJobEvent ev id j EV_COMPLETED
      <| je_actor := Some (jd_party p) |> <| je_data := Some (jd_data p) |>)
      (getOrCreateAccount (jd_party p) (saveJob id (settled_job ev j1) (settle_effect id j1 ev s)))).
Proof.
  unfold handleJobCompleted, onJob. case_match; [|done]. rewrite markSettled_eq. cbv zeta iota beta.
  unfold settled_job. by case_match.
Qed.

Lemma handlePaymentReleased_eq ev p s :
  handlePaymentReleased ds ev p s = onJob ds ev (ja_jobId p) s (λ id j,
    let j1 := touchJob (j <| job_providerPayment ::= Z.add (ja_amount p) |>) ev in
    saveJobEvent ev (createJobEvent ev id j EV_PAYMENT_RELEASED
      <| je_actor := Some (ja_party p) |> <| je_amount := Some (ja_amount p) |>)
      (getOrCreateAccount (ja_party p) (saveJob id (settled_job ev j1) (settle_effect id j1 ev s)))).
Proof.
  unfold handlePaymentReleased, onJob. case_match; [|done]. rewrite markSettled_eq. cbv zeta iota beta.
  unfold settled_job. by case_match.
Qed.

(** Two events of one transaction. *)
Record same_transaction (e1 e2 : Event) : Prop := {
  stx_address : address e1 = address e2;
  stx_block : blockNumber e1 = blockNumber e2;
  stx_time : blockTimestamp e1 = blockTimestamp e2;
  stx_hash : txHash e1 = txHash e2
}.

Lemma same_now e1 e2 : same_transaction e1 e2 → now e1 = now e2.
Proof. intros [_ _ E _]. unfold now. by rewrite E. Qed.

Lemma same_stamp e1 e2 : same_transaction e1 e2 → stamp e1 = stamp e2.
Proof. intros Hs. unfold stamp. rewrite (same_now _ _ Hs). destruct Hs as [_ -> _ ->]. done. Qed.

Lemma settle_effect_event id j e1 e2 s :
  same_transaction e1 e2 → settle_effect id j e1 s = settle_effect id j e2 s.
Proof.
  intros Hs. unfold settle_effect, settle_engagement, settle_commerce.
  rewrite (same_now _ _ Hs). by destruct Hs as [_ _ -> _].
Qed.

(** Nothing settles while the job is unpaid or not completed. *)
Lemma unsettled_effect id j ev s :
  settles j = false → settle_effect id j ev s = s ∧ settled_job ev j = j.
Proof. intros E. unfold settle_effect, settled_job. by rewrite E. Qed.

Lemma jobs_settle id j ev s : jobs (settle_effect id j ev s) = jobs s.
Proof.
  pose proof (proj2 (economic_settle id j ev) s) as E. by apply (f_equal jobs) in E.
Qed.

Lemma econ_save ev je a id j s :
  econ (saveJobEvent ev je (getOrCreateAccount a (saveJob id j s))) = econ s.
Proof. unfold saveJobEvent. rewrite accounts_idem. done. Qed.

(** The three saves around a settlement commute with one another. *)
Lemma set_jobs_ext f g s : f (jobs s) = g (jobs s) → set jobs f s = set jobs g s.
Proof. intros E. unfold set. by rewrite E. Qed.
Lemma set_jobEvents_ext f g s : f (jobEvents s) = g (jobEvents s) → set jobEvents f s = set jobEvents g s.
Proof. intros E. unfold set. by rewrite E. Qed.
Lemma set_accounts_ext f g s : f (accounts s) = g (accounts s) → set accounts f s = set accounts g s.
Proof. intros E. unfold set. by rewrite E. Qed.

Lemma saveJob_twice id j j1 s : saveJob id j (saveJob id j1 s) = saveJob id j s.
Proof.
  unfold saveJob. change (set jobs (insert id j) (set jobs (insert id j1) s))
    with (set jobs (λ m, <[id := j]> (<[id := j1]> m)) s).
  apply set_jobs_ext, insert_insert_eq.
Qed.

Lemma saveJob_event id j ev je s :
  saveJob id j (saveJobEvent ev je s) = saveJobEvent ev je (saveJob id j s).
Proof. done. Qed.

Lemma saveJob_account id j a s :
  saveJob id j (getOrCreateAccount a s) = getOrCreateAccount a (saveJob id j s).
Proof. rewrite !accounts_idem. done. Qed.

Lemma saveJobEvent_account ev je a s :
  getOrCreateAccount a (saveJobEvent ev je s) = saveJobEvent ev je (getOrCreateAccount a s).
Proof. rewrite !accounts_idem. done. Qed.

Lemma saveJobEvent_swap e1 je1 e2 je2 s :
  logId e1 ≠ logId e2 →
  saveJobEvent e2 je2 (saveJobEvent e1 je1 s) = saveJobEvent e1 je1 (saveJobEvent e2 je2 s).
Proof.
  intros Hne. unfold saveJobEvent.
  change (set jobEvents (λ m, <[logId e2 := je2]> (<[logId e1 := je1]> m)) s
    = set jobEvents (λ m, <[logId e1 := je1]> (<[logId e2 := je2]> m)) s).
  apply set_jobEvents_ext. by apply insert_insert_ne.
Qed.

Lemma account_swap a1 a2 s :
  getOrCreateAccount a2 (getOrCreateAccount a1 s) = getOrCreateAccount a1 (getOrCreateAccount a2 s).
Proof.
  rewrite !accounts_idem.
  change (set accounts (λ m, {[a2]} ∪ ({[a1]} ∪ m)) s = set accounts (λ m, {[a1]} ∪ ({[a2]} ∪ m)) s).
  apply set_accounts_ext. set_solver.
Qed.

(** The bookkeeping around the two settlements commutes. *)
Lemma saves_commute e1 je1 a1 e2 je2 a2 id j1 j2 j s1 s2 :
  logId e1 ≠ logId e2 → s1 = s2 →
  saveJobEvent e2 je2 (getOrCreateAccount a2 (saveJob id j
    (saveJobEvent e1 je1 (getOrCreateAccount a1 (saveJob id j1 s1)))))
  = saveJobEvent e1 je1 (getOrCreateAccount a1 (saveJob id j
    (saveJobEvent e2 je2 (getOrCreateAccount a2 (saveJob id j2 s2))))).
Proof.
  intros Hne ->. rewrite !saveJob_event, !saveJob_account, !saveJob_twice, !saveJobEvent_account.
  by rewrite saveJobEvent_swap, account_swap.
Qed.

(** An economic effect commutes with a save of something else. *)
Lemma economic_commutes f g s :
  economic f → (∀ s, econ (g s) = econ s) → (∀ s, blank (g s) = g (blank s)) → f (g s) = g (f s).
Proof.
  intros [Hf1 Hf2] Hg1 Hg2. apply store_ext.
  - rewrite Hg1. apply Hf1, Hg1.
  - by rewrite Hf2, !Hg2, Hf2.
Qed.

Lemma settle_effect_saves id j ev e je a i k s :
  settle_effect id j ev (saveJobEvent e je (getOrCreateAccount a (saveJob i k s)))
  = saveJobEvent e je (getOrCreateAccount a (saveJob i k (settle_effect id j ev s))).
Proof.
  rewrite (economic_commutes (settle_effect id j ev) (saveJobEvent e je)); [f_equal|apply economic_settle|done|done].
  rewrite (economic_commutes (settle_effect id j ev) (getOrCreateAccount a));
    [f_equal|apply economic_settle|intros; apply econ_account|intros; apply blank_account].
  rewrite (economic_commutes (settle_effect id j ev) (saveJob i k)); [done|apply economic_settle|done|done].
Qed.

Lemma saved_job_lookup e je a id j s :
  jobs (saveJobEvent e je (getOrCreateAccount a (saveJob id j s))) !! id = Some j.
Proof. rewrite accounts_idem. apply lookup_insert_eq. Qed.

(** The two changes of the job. *)
Definition completed (e : Event) (c : JobData) (j : Job) : Job :=
  touchJob (j <| job_status := COMPLETED |> <| job_completionReason := Some (jd_data c) |>) e.
Definition paid (e : Event) (p : JobAmount) (j : Job) : Job :=
  touchJob (j <| job_providerPayment ::= Z.add (ja_amount p) |>) e.

Lemma paid_completed e1 e2 c p j :
  same_transaction e1 e2 → paid e2 p (completed e1 c j) = completed e1 c (paid e2 p j).
Proof. intros Htx. unfold paid, completed, touchJob. rewrite (same_stamp _ _ Htx). done. Qed.

Lemma settled_job_event e1 e2 j : same_transaction e1 e2 → settled_job e1 j = settled_job e2 j.
Proof. intros Htx. unfold settled_job. by rewrite (same_now _ _ Htx). Qed.

(** A job event depends on the job only through its contract. *)
Lemma jobEvent_ext ev id j j' k :
  job_agenticCommerce j = job_agenticCommerce j' → createJobEvent ev id j k = createJobEvent ev id j' k.
Proof. intros E. unfold createJobEvent. by rewrite E. Qed.

Lemma settled_contract e j : job_agenticCommerce (settled_job e j) = job_agenticCommerce j.
Proof. unfold settled_job. by case_match. Qed.

(** ** Properties *)

(** C38: settlement does not depend on the order of its two events: for a job that has
    not been paid (or has already settled), [JobCompleted] and [PaymentReleased] of
    one transaction leave the same store whichever is indexed first, with every
    counter, metric point, account and job event. *)
Theorem settlement_order_independent e1 e2 c p s j :
  same_transaction e1 e2 → logId e1 ≠ logId e2 → jd_jobId c = ja_jobId p →
  jobs s !! eventJobId ds e1 (jd_jobId c) = Some j →
  job_providerPayment j = 0 ∨ job_settled j = true →
  handlePaymentReleased ds e2 p (handleJobCompleted ds e1 c s)
  = handleJobCompleted ds e1 c (handlePaymentReleased ds e2 p s).
Proof.
  intros Htx Hlog Eid Hj Hunpaid.
  rewrite !handlePaymentReleased_eq, !handleJobCompleted_eq. unfold onJob.
  assert (eventJobId ds e2 (ja_jobId p) = eventJobId ds e1 (jd_jobId c)) as ->.
  { unfold eventJobId. by rewrite Eid, (stx_address _ _ Htx). }
  set (id := eventJobId ds e1 (jd_jobId c)) in *. rewrite Hj. cbv zeta.
  fold (completed e1 c j) (paid e2 p j). rewrite !saved_job_lookup.
  assert (settles (completed e1 c j) = false) as Hc.
  { unfold settles. cbn. destruct Hunpaid as [-> | ->]; [by rewrite andb_false_r | done]. }
  destruct (unsettled_effect id (completed e1 c j) e1 s Hc) as [-> ->].
  fold (paid e2 p (completed e1 c j)) (completed e1 c (settled_job e2 (paid e2 p j))).
  rewrite !settle_effect_saves. destruct (settles (paid e2 p j)) eqn:Hp.
  - assert (settles (completed e1 c (settled_job e2 (paid e2 p j))) = false) as Hcs.
    { unfold settled_job. rewrite Hp. done. }
    destruct (unsettled_effect id _ e1 (settle_effect id (paid e2 p j) e2 s) Hcs) as [-> ->].
    assert (settles (paid e2 p (completed e1 c j)) = true) as Hpc.
    { rewrite paid_completed by done. unfold settles in *. cbn in *.
      apply andb_true_iff in Hp as [[H1 _]%andb_true_iff H2]. by rewrite H1, H2. }
    assert (settled_job e2 (paid e2 p (completed e1 c j))
      = completed e1 c (settled_job e2 (paid e2 p j))) as ->.
    { rewrite paid_completed in * by done. unfold settled_job. by rewrite Hp, Hpc. }
    assert (settle_effect id (paid e2 p (completed e1 c j)) e2 s
      = settle_effect id (paid e2 p j) e2 s) as ->.
    { unfold settle_effect. by rewrite Hp, Hpc. }
    rewrite (jobEvent_ext e1 id (settled_job e2 (paid e2 p j)) j)
      by (etransitivity; [apply settled_contract | done]).
    by apply saves_commute.
  - destruct (unsettled_effect id (paid e2 p j) e2 s Hp) as [-> ->].
    rewrite paid_completed by done. rewrite (settled_job_event e1 e2) by done.
    rewrite (settle_effect_event id _ e1 e2) by done. by apply saves_commute.
Qed.
End settlement.

(** ** Concrete inputs *)

Definition sample_ds : DataSource :=
  {| network := "arc"; chainId := 5042002; paymentToken := "usdc"; identityRegistry := "reg" |}.

Definition sample_event (t : Z) (tx : string) (i : Z) : Event :=
  {| address := "escrow"; blockNumber := t; blockTimestamp := t; txHash := tx; logIndex := i |}.

Definition no_views : EscrowViews :=
  {| try_platformTreasury := None; try_platformFeeBP := None; try_evaluatorFeeBP := None;
     try_getJob := None |}.

#[local] Existing Instance sample_ts.

(** A store with job 7, open, at time 10. *)
Definition open_store : Store :=
  commerce_step sample_ds (sample_event 10 "tx0" 0)
    (EJobCreated no_views {| jc_jobId := 7; jc_client := "client"; jc_provider := "provider";
       jc_evaluator := "judge"; jc_expiredAt := 99; jc_hook := zeroAddress |}) emptyStore.

Lemma settlement_order_independent_witness :
  ∃ j, jobs open_store !! eventJobId sample_ds (sample_event 20 "tx1" 3) 7 = Some j ∧
  handlePaymentReleased sample_ds (sample_event 20 "tx1" 4)
    {| ja_jobId := 7; ja_party := "provider"; ja_amount := 100 |}
    (handleJobCompleted sample_ds (sample_event 20 "tx1" 3)
      {| jd_jobId := 7; jd_party := "judge"; jd_data := "ok" |} open_store)
  = handleJobCompleted sample_ds (sample_event 20 "tx1" 3)
      {| jd_jobId := 7; jd_party := "judge"; jd_data := "ok" |}
    (handlePaymentReleased sample_ds (sample_event 20 "tx1" 4)
      {| ja_jobId := 7; ja_party := "provider"; ja_amount := 100 |} open_store).
Proof.
  eexists. split; [vm_compute; reflexivity|].
  eapply settlement_order_independent; [done | vm_compute; discriminate | done
    | vm_compute; reflexivity | by left].
Defined.
