(* ===== verification/SgIdentity.v ===== *)
(** * Subgraph: the identity registry's handlers

    Models [packages/subgraph-arc/src/identity/identity-registry.ts], with
    [agent.ts] and [registry.ts]. *)

From S2P Require Import Prelude.
From S2P Require Import Js.
From S2P Require Import GraphTs.
From S2P Require Import SgText.
From S2P Require Import SgJson.
From S2P Require Import SgStore.
From S2P Require Import SgRegistration.
From S2P Require Import SgBufi.

(** Event parameters. *)
Record Registered := { rg_agentId : Z; rg_agentURI : string; rg_owner : string }.
Record MetadataSet := { ms_agentId : Z; ms_metadataKey : string; ms_metadataValue : string }.
Record URIUpdated := { uu_agentId : Z; uu_newURI : string; uu_updatedBy : string }.
Record Transfer := { tf_from : string; tf_to : string; tf_tokenId : Z }.
Record Approval := { ap_owner : string; ap_approved : string; ap_tokenId : Z }.
Record ApprovalForAll := { aa_owner : string; aa_operator : string; aa_approved : bool }.

Section identity.
Context `{GraphTs}.
Context (ds : DataSource).

(** The loaded or new registry; a new one is not saved. *)
Definition getOrCreateIdentityRegistry (addr : string) (timestamp : Z) (s : Store)
    : string * IdentityRegistry :=
  let chain := chainId ds in
  let id := registryEntityId chain addr in
  match identityRegistries s !! id with
  | Some r => (id, r)
  | None =>
      (id, {| ir_network := network ds; ir_chainId := chain;
              ir_agentRegistry := toEip155Caip10 chain addr; ir_agentCount := 0;
              ir_unburnedAgentCount := 0; ir_createdAt := toI64 timestamp; ir_updatedAt := 0 |})
  end.

(** [Agent.load(id)] behind a null check. *)
Definition onAgent (id : string) (s : Store) (k : Agent → wasm Store) : wasm Store :=
  match agents s !! id with None => mret s | Some agent => k agent end.

Definition saveAgent (id : string) (agent : Agent) (s : Store) : Store :=
  s <| agents ::= insert id agent |>.

Definition handleRegistered (ev : Event) (p : Registered) (s : Store) : wasm Store :=
  let '(rid, registry) := getOrCreateIdentityRegistry (address ev) (blockTimestamp ev) s in
  let s := s <| identityRegistries ::= insert rid
    (registry <| ir_agentCount ::= Z.add 1 |> <| ir_unburnedAgentCount ::= Z.add 1 |>
              <| ir_updatedAt := now ev |>) |> in
  let s := getOrCreateAccount (rg_owner p) s in
  let agentURIKind := classifyUri (rg_agentURI p) in
  let id := agentEntityId (ir_chainId registry) (address ev) (rg_agentId p) in
  '(registrationId, s) ← resolveAgentRegistration id (rg_agentURI p) agentURIKind s;
  let agent := {|
    ag_registry := rid; ag_agentId := rg_agentId p; ag_owner := Some (rg_owner p);
    ag_approved := None; ag_agentWallet := None; ag_isBurned := false;
    ag_agentURI := rg_agentURI p; ag_agentURIKind := agentURIKind; ag_uriRevision := 0;
    ag_registration := registrationId; ag_feedbackCount := 0; ag_activeFeedbackCount := 0;
    ag_responseCount := 0; ag_verifiedFeedbackCount := 0; ag_bufiScore := None;
    ag_bufiScoreVersion := None; ag_bufiScoreDate := None; ag_bufiScoreHash := None;
    ag_bufiScoreUpdatedAt := None; ag_jobsAsClient := 0; ag_jobsAsProvider := 0;
    ag_settledAsClient := 0; ag_settledAsProvider := 0; ag_settledVolumeAsClient := 0;
    ag_settledVolumeAsProvider := 0; ag_refundedVolumeAsClient := 0;
    ag_created := stamp ev; ag_updated := stamp ev |} in
  let s := saveAgent id agent s in
  let revision := {| aur_agent := id; aur_revision := 0; aur_uri := rg_agentURI p;
                     aur_uriKind := agentURIKind; aur_updatedBy := rg_owner p;
                     aur_registration := registrationId; aur_log := logOf ev |} in
  mret (s <| uriRevisions ::= insert (logId ev) revision |>).

(** The last twenty bytes of the value; the zero address means cleared. *)
Definition agentWalletFromMetadataValue (value : string) : option string :=
  if strlen value <? 20 then None else
  let a := str_drop (String.length value - 20) value in
  if decide (a = zeroAddress) then None else Some a.

Definition handleMetadataSet (ev : Event) (p : MetadataSet) (s : Store) : wasm Store :=
  let id := agentEntityId (chainId ds) (address ev) (ms_agentId p) in
  onAgent id s (λ agent,
    '(agent, s) ←
      (if decide (ms_metadataKey p = "agentWallet") then
         let s := unbindWallet id (ag_agentWallet agent) s in
         let wallet := agentWalletFromMetadataValue (ms_metadataValue p) in
         let agent := agent <| ag_agentWallet := wallet |> in
         mret (agent, match wallet with Some w => bindWallet id w ev s | None => s end)
       else if decide (ms_metadataKey p = BUFI_SCORE_KEY) then
         agent ← applyScoreAttestation agent (ms_metadataValue p) (blockTimestamp ev);
         mret (agent, s)
       else mret (agent, s) : wasm (Agent * Store));
    let keyHash := keccak256 (ms_metadataKey p) in
    let metadataId := id +:+ keyHash in
    let metadata := match metadatas s !! metadataId with
                    | Some m => m
                    | None => {| am_agent := id; am_key := ms_metadataKey p; am_keyHash := keyHash;
                                 am_value := ms_metadataValue p; am_updated := stamp ev |}
                    end in
    let metadata := metadata <| am_value := ms_metadataValue p |> <| am_updated := stamp ev |> in
    let s := s <| metadatas ::= insert metadataId metadata |> in
    let revision := {| amr_agent := id; amr_key := ms_metadataKey p; amr_keyHash := keyHash;
                       amr_value := ms_metadataValue p; amr_log := logOf ev |} in
    let s := s <| metadataRevisions ::= insert (logId ev) revision |> in
    mret (saveAgent id (agent <| ag_updated := stamp ev |>) s)).

Definition handleURIUpdated (ev : Event) (p : URIUpdated) (s : Store) : wasm Store :=
  let id := agentEntityId (chainId ds) (address ev) (uu_agentId p) in
  onAgent id s (λ agent,
    let s := getOrCreateAccount (uu_updatedBy p) s in
    let uriKind := classifyUri (uu_newURI p) in
    '(registrationId, s) ← resolveAgentRegistration id (uu_newURI p) uriKind s;
    let agent := agent <| ag_agentURI := uu_newURI p |> <| ag_agentURIKind := uriKind |>
      <| ag_uriRevision ::= Z.add 1 |> <| ag_registration := registrationId |>
      <| ag_updated := stamp ev |> in
    let s := saveAgent id agent s in
    let revision := {| aur_agent := id; aur_revision := ag_uriRevision agent;
                       aur_uri := uu_newURI p; aur_uriKind := uriKind;
                       aur_updatedBy := uu_updatedBy p; aur_registration := registrationId;
                       aur_log := logOf ev |} in
    mret (s <| uriRevisions ::= insert (logId ev) revision |>)).

Definition handleTransfer (ev : Event) (p : Transfer) (s : Store) : wasm Store :=
  if decide (tf_from p = zeroAddress) then mret s else
  let id := agentEntityId (chainId ds) (address ev) (tf_tokenId p) in
  onAgent id s (λ agent,
    let s := getOrCreateAccount (tf_from p) s in
    let s := getOrCreateAccount (tf_to p) s in
    let isBurn := bool_decide (tf_to p = zeroAddress) in
    let s := unbindWallet id (ag_agentWallet agent) s in
    let agent := agent <| ag_owner := if isBurn then None else Some (tf_to p) |>
      <| ag_approved := None |> <| ag_agentWallet := None |> <| ag_isBurned := isBurn |>
      <| ag_updated := stamp ev |> in
    let s := saveAgent id agent s in
    let transfer := {| atr_agent := id; atr_from := tf_from p; atr_to := tf_to p;
                       atr_log := logOf ev |} in
    let s := s <| transfers ::= insert (logId ev) transfer |> in
    if negb isBurn then mret s else
    let rid := registryEntityId (chainId ds) (address ev) in
    match identityRegistries s !! rid with
    | None => mret s
    | Some registry =>
        mret (s <| identityRegistries ::= insert rid
          (registry <| ir_unburnedAgentCount ::= Z.add (-1) |> <| ir_updatedAt := now ev |>) |>)
    end).

Definition handleApproval (ev : Event) (p : Approval) (s : Store) : wasm Store :=
  let id := agentEntityId (chainId ds) (address ev) (ap_tokenId p) in
  onAgent id s (λ agent,
    let s := getOrCreateAccount (ap_owner p) s in
    let s := getOrCreateAccount (ap_approved p) s in
    let clearsApproval := bool_decide (ap_approved p = zeroAddress) in
    let agent := agent <| ag_approved := if clearsApproval then None else Some (ap_approved p) |>
      <| ag_updated := stamp ev |> in
    let s := saveAgent id agent s in
    let change := {| aac_agent := id; aac_owner := ap_owner p; aac_approved := ap_approved p;
                     aac_log := logOf ev |} in
    mret (s <| approvalChanges ::= insert (logId ev) change |>)).

Definition handleApprovalForAll (ev : Event) (p : ApprovalForAll) (s : Store) : wasm Store :=
  let s := getOrCreateAccount (aa_owner p) s in
  let s := getOrCreateAccount (aa_operator p) s in
  let id := aa_owner p +:+ aa_operator p in
  let approval := match operatorApprovals s !! id with
                  | Some a => a
                  | None => {| oa_owner := aa_owner p; oa_operator := aa_operator p;
                               oa_approved := aa_approved p; oa_updated := stamp ev |}
                  end in
  let s := s <| operatorApprovals ::= insert id
    (approval <| oa_approved := aa_approved p |> <| oa_updated := stamp ev |>) |> in
  let change := {| oac_owner := aa_owner p; oac_operator := aa_operator p;
                   oac_approved := aa_approved p; oac_log := logOf ev |} in
  mret (s <| operatorApprovalChanges ::= insert (logId ev) change |>).

Inductive identity_event :=
| ERegistered (p : Registered)
| EMetadataSet (p : MetadataSet)
| EURIUpdated (p : URIUpdated)
| ETransfer (p : Transfer)
| EApproval (p : Approval)
| EApprovalForAll (p : ApprovalForAll).

Definition identity_step (ev : Event) (e : identity_event) (s : Store) : wasm Store :=
  match e with
  | ERegistered p => handleRegistered ev p s
  | EMetadataSet p => handleMetadataSet ev p s
  | EURIUpdated p => handleURIUpdated ev p s
  | ETransfer p => handleTransfer ev p s
  | EApproval p => handleApproval ev p s
  | EApprovalForAll p => handleApprovalForAll ev p s
  end.
End identity.
