(* ===== verification/SgReputation.v ===== *)
(** * Subgraph: the reputation registry's handlers

    Models [packages/subgraph-arc/src/identity/reputation-registry.ts], with
    [feedback.ts] and [feedback-metric-point.ts]. *)

From S2P Require Import Prelude.
From S2P Require Import Js.
From S2P Require Import GraphTs.
From S2P Require Import SgText.
From S2P Require Import SgJson.
From S2P Require Import SgStore.
From S2P Require Import SgFeedbackDocument.
From S2P Require Import SgBufi.

(** Event parameters. *)
Record NewFeedback := {
  nf_agentId : Z; nf_clientAddress : string; nf_feedbackIndex : Z; nf_value : Z;
  nf_valueDecimals : Z; nf_indexedTag1 : string; nf_tag1 : string; nf_tag2 : string;
  nf_endpoint : string; nf_feedbackURI : string; nf_feedbackHash : string
}.
Record FeedbackRevoked := {
  rv_agentId : Z; rv_clientAddress : string; rv_feedbackIndex : Z
}.
Record ResponseAppended := {
  ra_agentId : Z; ra_clientAddress : string; ra_feedbackIndex : Z; ra_responder : string;
  ra_responseURI : string; ra_responseHash : string
}.

Section reputation.
Context `{GraphTs}.
Context (ds : DataSource).

Definition getOrCreateReputationRegistry (addr : string) (timestamp : Z) (s : Store)
    : string * ReputationRegistry :=
  let chain := chainId ds in
  let id := registryEntityId chain addr in
  match reputationRegistries s !! id with
  | Some r => (id, r)
  | None =>
      (id, {| rr_network := network ds; rr_chainId := chain;
              rr_identityRegistry := registryEntityId chain (identityRegistry ds);
              rr_feedbackCount := 0; rr_activeFeedbackCount := 0; rr_responseCount := 0;
              rr_createdAt := toI64 timestamp; rr_updatedAt := 0 |})
  end.

(** [valueDecimals as u8] *)
Definition normalizeValue (value valueDecimals : Z) : BigDecimal :=
  divPow10 value (valueDecimals mod 256).

Definition createFeedbackMetricPoint (timestamp : Z) (registryId agentId tag1 tag2 : string)
    (feedbackCountDelta : Z) (valueDelta : BigDecimal) (s : Store) : Store :=
  s <| feedbackPoints ::= λ l, l ++
    [{| fmp_timestamp := toI64 timestamp; fmp_registry := registryId; fmp_agent := agentId;
        fmp_tag1 := tag1; fmp_tag2 := tag2; fmp_feedbackCountDelta := feedbackCountDelta;
        fmp_valueDelta := valueDelta |}] |>.

(** Who rates: the rater's workspace, whether the rating is verified, the evidence
    and the (unsaved) engagement. *)
Definition ratingEvidence (client agentId : string) (timestamp : Z) (s : Store)
    : option string * bool * option string * option (string * Engagement) :=
  match resolveAgentByWallet client s with
  | None => (None, false, None, None)
  | Some (cid, _) =>
      let '(eid, engagement) := getOrCreateEngagement cid agentId timestamp s in
      if 0 <? en_settledJobCount engagement
      then (Some cid, true, en_lastSettledJob engagement, Some (eid, engagement))
      else (Some cid, false, None, Some (eid, engagement))
  end.

Definition handleNewFeedback (ev : Event) (p : NewFeedback) (s : Store) : wasm Store :=
  let '(rid, registry) := getOrCreateReputationRegistry (address ev) (blockTimestamp ev) s in
  let aid := agentEntityId (rr_chainId registry) (identityRegistry ds) (nf_agentId p) in
  match agents s !! aid with
  | None => mret s
  | Some agent =>
      let s := getOrCreateAccount (nf_clientAddress p) s in
      let '(clientAgent, verified, evidence, engagement) :=
        ratingEvidence (nf_clientAddress p) aid (blockTimestamp ev) s in
      let fid := feedbackEntityId (rr_chainId registry) (address ev) (nf_agentId p)
                   (nf_clientAddress p) (nf_feedbackIndex p) in
      let feedbackURIKind := classifyUri (nf_feedbackURI p) in
      '(documentId, s) ← resolveFeedbackDocument fid (nf_feedbackURI p) feedbackURIKind s;
      let normalizedValue := normalizeValue (nf_value p) (nf_valueDecimals p) in
      let feedback := {|
        fb_registry := rid; fb_agent := aid; fb_client := nf_clientAddress p;
        fb_clientAgent := clientAgent; fb_verified := verified; fb_evidence := evidence;
        fb_feedbackIndex := nf_feedbackIndex p; fb_value := nf_value p;
        fb_valueDecimals := nf_valueDecimals p; fb_normalizedValue := normalizedValue;
        fb_tag1 := nf_tag1 p; fb_tag1Hash := nf_indexedTag1 p; fb_tag2 := nf_tag2 p;
        fb_endpoint := nf_endpoint p; fb_feedbackURI := nf_feedbackURI p;
        fb_feedbackURIKind := feedbackURIKind; fb_feedbackHash := nf_feedbackHash p;
        fb_hasFeedbackHash := negb (isZeroHash (nf_feedbackHash p)); fb_document := documentId;
        fb_isRevoked := false; fb_revokedAt := None; fb_revokedAtBlock := None;
        fb_revokedAtTransaction := None; fb_responseCount := 0; fb_created := stamp ev;
        fb_createdAtLogIndex := logIndex ev |} in
      let s := s <| feedbacks ::= insert fid feedback |> in
      let agent := agent <| ag_feedbackCount ::= Z.add 1 |> <| ag_activeFeedbackCount ::= Z.add 1 |> in
      let agent := if verified : bool then agent <| ag_verifiedFeedbackCount ::= Z.add 1 |> else agent in
      let s := s <| agents ::= insert aid (agent <| ag_updated := stamp ev |>) |> in
      let s := match engagement with
               | None => s
               | Some (eid, e) =>
                   let e := e <| en_feedbackCount ::= Z.add 1 |> in
                   let e := if verified : bool then e <| en_verifiedFeedbackCount ::= Z.add 1 |> else e in
                   s <| engagements ::= insert eid
                     (e <| en_lastFeedbackAt := Some (now ev) |> <| en_updatedAt := now ev |>) |>
               end in
      let s := s <| reputationRegistries ::= insert rid
        (registry <| rr_feedbackCount ::= Z.add 1 |> <| rr_activeFeedbackCount ::= Z.add 1 |>
                  <| rr_updatedAt := now ev |>) |> in
      mret (createFeedbackMetricPoint (blockTimestamp ev) rid aid (nf_tag1 p) (nf_tag2 p) 1
              normalizedValue s)
  end.

(** The loads shared by the two handlers of an existing feedback, each behind its
    null check. *)
Definition onFeedback (ev : Event) (agentId : Z) (client : string) (index : Z) (s : Store)
    (k : string * ReputationRegistry → string * Agent → string * Feedback → Store) : Store :=
  let rid := registryEntityId (chainId ds) (address ev) in
  match reputationRegistries s !! rid with
  | None => s
  | Some registry =>
      let aid := agentEntityId (rr_chainId registry) (identityRegistry ds) agentId in
      match agents s !! aid with
      | None => s
      | Some agent =>
          let fid := feedbackEntityId (rr_chainId registry) (address ev) agentId client index in
          match feedbacks s !! fid with
          | None => s
          | Some feedback => k (rid, registry) (aid, agent) (fid, feedback)
          end
      end
  end.

(** The rater's engagement loses the rating. *)
Definition revokeEngagement (ev : Event) (aid : string) (feedback : Feedback) (s : Store) : Store :=
  match fb_clientAgent feedback with
  | None => s
  | Some cid =>
      match agents s !! cid with
      | None => s
      | Some _ =>
          match engagements s !! engagementId cid aid with
          | None => s
          | Some e =>
              let e := e <| en_feedbackCount ::= Z.add (-1) |> in
              let e := if fb_verified feedback then e <| en_verifiedFeedbackCount ::= Z.add (-1) |>
                       else e in
              s <| engagements ::= insert (engagementId cid aid) (e <| en_updatedAt := now ev |>) |>
          end
      end
  end.

Definition handleFeedbackRevoked (ev : Event) (p : FeedbackRevoked) (s : Store) : Store :=
  onFeedback ev (rv_agentId p) (rv_clientAddress p) (rv_feedbackIndex p) s
    (λ '(rid, registry) '(aid, agent) '(fid, feedback),
      let feedback := feedback <| fb_isRevoked := true |> <| fb_revokedAt := Some (now ev) |>
        <| fb_revokedAtBlock := Some (blockNumber ev) |>
        <| fb_revokedAtTransaction := Some (txHash ev) |> in
      let s := s <| feedbacks ::= insert fid feedback |> in
      let agent := agent <| ag_activeFeedbackCount ::= Z.add (-1) |> in
      let agent := if fb_verified feedback then agent <| ag_verifiedFeedbackCount ::= Z.add (-1) |>
                   else agent in
      let s := revokeEngagement ev aid feedback s in
      let s := s <| agents ::= insert aid (agent <| ag_updated := stamp ev |>) |> in
      let s := s <| reputationRegistries ::= insert rid
        (registry <| rr_activeFeedbackCount ::= Z.add (-1) |> <| rr_updatedAt := now ev |>) |> in
      createFeedbackMetricPoint (blockTimestamp ev) rid aid (fb_tag1 feedback) (fb_tag2 feedback)
        (-1) (bd_neg (fb_normalizedValue feedback)) s).

Definition handleResponseAppended (ev : Event) (p : ResponseAppended) (s : Store) : Store :=
  onFeedback ev (ra_agentId p) (ra_clientAddress p) (ra_feedbackIndex p) s
    (λ '(rid, registry) '(aid, agent) '(fid, feedback),
      let s := getOrCreateAccount (ra_responder p) s in
      let response := {|
        fr_feedback := fid; fr_responder := ra_responder p; fr_responseURI := ra_responseURI p;
        fr_responseURIKind := classifyUri (ra_responseURI p);
        fr_responseHash := ra_responseHash p;
        fr_hasResponseHash := negb (isZeroHash (ra_responseHash p)); fr_log := logOf ev |} in
      let s := s <| responses ::= insert (logId ev) response |> in
      let s := s <| feedbacks ::= insert fid (feedback <| fb_responseCount ::= Z.add 1 |>) |> in
      let s := s <| agents ::= insert aid
        (agent <| ag_responseCount ::= Z.add 1 |> <| ag_updated := stamp ev |>) |> in
      s <| reputationRegistries ::= insert rid
        (registry <| rr_responseCount ::= Z.add 1 |> <| rr_updatedAt := now ev |>) |>).

Inductive reputation_event :=
| ENewFeedback (p : NewFeedback)
| EFeedbackRevoked (p : FeedbackRevoked)
| EResponseAppended (p : ResponseAppended).

Definition reputation_step (ev : Event) (e : reputation_event) (s : Store) : wasm Store :=
  match e with
  | ENewFeedback p => handleNewFeedback ev p s
  | EFeedbackRevoked p => mret (handleFeedbackRevoked ev p s)
  | EResponseAppended p => mret (handleResponseAppended ev p s)
  end.
End reputation.
