(* ===== verification/CreJson.v ===== *)
(** * CRE evidence: JavaScript values and canonical JSON

    Models [stableStringify] of [packages/cre/src/evidence.ts] over a type of
    JavaScript values, with the [JSON.stringify] and [JSON.parse] it and the
    token reader use. A string is the UTF-8 text of well-formed Unicode (a lone
    surrogate is the three bytes of its code point, which [JSON.stringify] of
    this model does not escape); lengths and key order are those of UTF-16. *)

From S2P Require Import Prelude.
From S2P Require Import Js.
From S2P Require Import Decimal.

(** ** Values *)

Inductive jsval :=
| VUndefined
| VNull
| VBool (b : bool)
| VNum (n : jsnum)
| VStr (s : string)
| VArr (items : list jsval)
(** an object, its own entries in enumeration order *)
| VObj (entries : list (string * jsval))
(** a bigint, symbol or function with its [String(...)] text *)
| VOther (text : string).

Section jsval_ind.
  Context (P : jsval → Prop).
  Hypothesis (Hundefined : P VUndefined) (Hnull : P VNull) (Hbool : ∀ b, P (VBool b))
    (Hnum : ∀ n, P (VNum n)) (Hstr : ∀ s, P (VStr s))
    (Harr : ∀ l, Forall P l → P (VArr l))
    (Hobj : ∀ l, Forall (λ kv, P kv.2) l → P (VObj l)) (Hother : ∀ t, P (VOther t)).

Fixpoint jsval_rec' (v : jsval) : P v :=
    match v with
    | VUndefined => Hundefined | VNull => Hnull | VBool b => Hbool b | VNum n => Hnum n
    | VStr s => Hstr s | VOther t => Hother t
    | VArr l => Harr l ((fix go l : Forall P l :=
        match l with [] => Forall_nil_2 _ | x :: l => Forall_cons_2 _ _ _ (jsval_rec' x) (go l) end) l)
    | VObj l => Hobj l ((fix go l : Forall (λ kv, P kv.2) l :=
        match l with [] => Forall_nil_2 _ | x :: l => Forall_cons_2 _ _ _ (jsval_rec' x.2) (go l) end) l)
    end.
End jsval_ind.

(** [!!v] *)
Definition truthyVal (v : jsval) : bool :=
  match v with
  | VUndefined | VNull => false
  | VBool b => b
  | VNum (JInt z) => negb (z =? 0)
  | VNum (JNonInt s) => negb (bool_decide (s = "NaN"))
  | VStr s => negb (bool_decide (s = ""))
  | VArr _ | VObj _ | VOther _ => true
  end.

(** [typeof v === 'object'] of a value that is not null *)
Definition isObjectVal (v : jsval) : bool :=
  match v with VArr _ | VObj _ => true | _ => false end.
Definition isArrayVal (v : jsval) : bool := match v with VArr _ => true | _ => false end.

(** [v === 'text'] *)
Definition isStr (v : jsval) (s : string) : bool :=
  match v with VStr t => bool_decide (t = s) | _ => false end.

(** [object.key]: an own property, or undefined. *)
Fixpoint entry (k : string) (l : list (string * jsval)) : jsval :=
  match l with
  | [] => VUndefined
  | (k', v) :: l => if decide (k' = k) then v else entry k l
  end.
Definition prop (k : string) (v : jsval) : jsval :=
  match v with VObj l => entry k l | _ => VUndefined end.

Definition MAX_SAFE_INTEGER : Z := 2 ^ 53 - 1.
(** [Number.isSafeInteger(v)] *)
Definition safeInteger (v : jsval) : option Z :=
  match v with
  | VNum (JInt z) => if Z.abs z <=? MAX_SAFE_INTEGER then Some z else None
  | _ => None
  end.

(** [Number.isFinite(n)] *)
Definition isFinite (n : jsnum) : bool :=
  match n with
  | JInt _ => true
  | JNonInt s => negb (bool_decide (s ∈ ["NaN"; "Infinity"; "-Infinity"]))
  end.

Fixpoint joinWith (sep : string) (l : list string) : string :=
  match l with
  | [] => ""
  | x :: l => match l with [] => x | _ => x +:+ sep +:+ joinWith sep l end
  end.

(** [String(v)] *)
Fixpoint toText (v : jsval) : string :=
  match v with
  | VUndefined => "undefined"
  | VNull => "null"
  | VBool b => if b then "true" else "false"
  | VNum n => numToString n
  | VStr s => s
  | VArr l => joinWith "," (map (λ v, match v with VUndefined | VNull => "" | _ => toText v end) l)
  | VObj _ => "[object Object]"
  | VOther t => t
  end.

(** ** [value.length] and the order of UTF-16 *)

Fixpoint length16 (s : string) : Z :=
  match s with
  | EmptyString => 0
  | String c s => (if code c <? 128 then 1 else if code c <? 192 then 0
                   else if code c <? 240 then 1 else 2) + length16 s
  end.

(** A lead byte of U+E000-U+FFFF sorts after the surrogates. *)
Definition unitRank (c : ascii) : Z := if between 238 239 c then code c + 100 else code c.

(** The comparison of [Array.prototype.sort] without a comparator. *)
Fixpoint compareUnits (a b : string) : Z :=
  match a, b with
  | EmptyString, EmptyString => 0
  | EmptyString, _ => -1
  | _, EmptyString => 1
  | String c a, String d b =>
      if unitRank c <? unitRank d then -1 else if unitRank d <? unitRank c then 1
      else compareUnits a b
  end.

Definition compareKeys {A} (x y : string * A) : Z := compareUnits x.1 y.1.

(** ** [JSON.stringify] of a string *)

Definition bs : ascii := "092".
Definition hexDigit (n : Z) : ascii :=
  Ascii.ascii_of_nat (Z.to_nat (if n <? 10 then 48 + n else 87 + n)).

Definition escapeChar (c : ascii) : string :=
  if Ascii.eqb c "034" || Ascii.eqb c bs then String bs (String c "")
  else if code c =? 8 then String bs "b"
  else if code c =? 9 then String bs "t"
  else if code c =? 10 then String bs "n"
  else if code c =? 12 then String bs "f"
  else if code c =? 13 then String bs "r"
  else if code c <? 32 then
    String bs ("u00" +:+ String (hexDigit (code c / 16)) (String (hexDigit (code c mod 16)) ""))
  else String c "".

Fixpoint escapeText (s : string) : string :=
  match s with EmptyString => "" | String c s => escapeChar c +:+ escapeText s end.

Definition quoteText (s : string) : string := q +:+ escapeText s +:+ q.

(** ** [stableStringify] *)

Inductive cre_error := Error (message : string).
Notation cre := (result cre_error).

Definition stableEntry (kt : string * cre string) : cre string :=
  t ← kt.2; mret (quoteText kt.1 +:+ ":" +:+ t).

Fixpoint stableStringify (v : jsval) : cre string :=
  match v with
  | VNull => mret "null"
  | VBool b => mret (if b then "true" else "false")
  | VStr s => mret (quoteText s)
  | VNum n =>
      if isFinite n then mret (numToString n)
      else Throw (Error "CRE evidence contains a non-finite number")
  | VArr l =>
      texts ← mapM id (map stableStringify l);
      mret ("[" +:+ joinWith "," texts +:+ "]")
  | VObj l =>
      entries ← mapM stableEntry (js_sort compareKeys
        (map (λ '(k, v), (k, match v with
                             | VUndefined => Throw (Error "CRE evidence contains undefined")
                             | _ => stableStringify v end)) l));
      mret ("{" +:+ joinWith "," entries +:+ "}")
  | VUndefined | VOther _ => Throw (Error "CRE evidence contains an unsupported value")
  end.

Example stable_ex :
  stableStringify (VObj [("z", VNum (JInt 2)); ("a", VObj [("d", VNull); ("c", VBool true)])])
  = Ok ("{" +:+ q +:+ "a" +:+ q +:+ ":{" +:+ q +:+ "c" +:+ q +:+ ":true," +:+ q +:+ "d" +:+ q
        +:+ ":null}," +:+ q +:+ "z" +:+ q +:+ ":2}").
Proof. by vm_compute. Qed.
