(* ===== verification/CreParse.v ===== *)
(** * CRE evidence: [JSON.parse]

    The JSON grammar of the language over the values of [CreJson], and the
    theorem that it reads back every text [stableStringify] prints. *)

From S2P Require Import Prelude.
From S2P Require Import Js.
From S2P Require Import Decimal.
From S2P Require Import CreJson.

(** ** Strings *)

Definition chr (z : Z) : ascii := Ascii.ascii_of_nat (Z.to_nat z).

(** The UTF-8 bytes of a code point. *)
Definition utf8Of (cp : Z) : string :=
  if cp <? 128 then String (chr cp) ""
  else if cp <? 2048 then String (chr (192 + cp / 64)) (String (chr (128 + cp mod 64)) "")
  else if cp <? 65536 then
    String (chr (224 + cp / 4096)) (String (chr (128 + cp / 64 mod 64)) (String (chr (128 + cp mod 64)) ""))
  else String (chr (240 + cp / 262144)) (String (chr (128 + cp / 4096 mod 64))
         (String (chr (128 + cp / 64 mod 64)) (String (chr (128 + cp mod 64)) ""))).

Definition hexVal (c : ascii) : option Z :=
  if is_digit c then Some (code c - 48)
  else if between 97 102 c then Some (code c - 87)
  else if between 65 70 c then Some (code c - 55)
  else None.

Definition hex4 (a b c d : ascii) : option Z :=
  w ← hexVal a; x ← hexVal b; y ← hexVal c; z ← hexVal d;
  Some (((w * 16 + x) * 16 + y) * 16 + z).

(** The one-character escapes. *)
Definition unescape (e : ascii) : option ascii :=
  if Ascii.eqb e "034" || Ascii.eqb e bs || Ascii.eqb e "/" then Some e
  else if Ascii.eqb e "b" then Some (chr 8)
  else if Ascii.eqb e "f" then Some (chr 12)
  else if Ascii.eqb e "n" then Some (chr 10)
  else if Ascii.eqb e "r" then Some (chr 13)
  else if Ascii.eqb e "t" then Some (chr 9)
  else None.

Definition prepend (t : string) (o : option (string * string)) : option (string * string) :=
  match o with Some (u, r) => Some (t +:+ u, r) | None => None end.

Definition pairOf (hi lo : Z) : option Z :=
  if (55296 <=? hi) && (hi <? 56320) && (56320 <=? lo) && (lo <? 57344)
  then Some (65536 + (hi - 55296) * 1024 + (lo - 56320)) else None.

(** The text after the opening quote, and what follows the closing one. *)
Fixpoint parseText (s : string) : option (string * string) :=
  match s with
  | EmptyString => None
  | String c s =>
      if Ascii.eqb c "034" then Some ("", s)
      else if Ascii.eqb c bs then
        match s with
        | EmptyString => None
        | String e s =>
            if Ascii.eqb e "u" then
              match s with
              | String a (String b (String x (String y s1))) =>
                  match hex4 a b x y with
                  | None => None
                  | Some hi =>
                      match s1 with
                      | String f (String g (String a (String b (String x (String y s2))))) =>
                          match (if Ascii.eqb f bs && Ascii.eqb g "u" then lo ← hex4 a b x y; pairOf hi lo
                                 else None) with
                          | Some cp => prepend (utf8Of cp) (parseText s2)
                          | None => prepend (utf8Of hi) (parseText s1)
                          end
                      | _ => prepend (utf8Of hi) (parseText s1)
                      end
                  end
              | _ => None
              end
            else match unescape e with
                 | None => None
                 | Some c => prepend (String c "") (parseText s)
                 end
        end
      else if code c <? 32 then None
      else prepend (String c "") (parseText s)
  end.

(** ** Numbers *)

Definition numberChar (c : ascii) : bool :=
  is_digit c || Ascii.eqb c "-" || Ascii.eqb c "+" || Ascii.eqb c "." || Ascii.eqb c "e"
  || Ascii.eqb c "E".

Fixpoint spanChars (P : ascii → bool) (s : string) : string * string :=
  match s with
  | EmptyString => ("", "")
  | String c r =>
      if P c then let '(a, b) := spanChars P r in (String c a, b) else ("", s)
  end.

Definition skipSign (signs : ascii → bool) (s : string) : string :=
  match s with String c r => if signs c then r else s | EmptyString => s end.

(** [exponent?] at the end of a number *)
Definition exponentOk (s : string) : bool :=
  match s with
  | EmptyString => true
  | String c r =>
      (Ascii.eqb c "e" || Ascii.eqb c "E") &&
      let d := skipSign (λ c, Ascii.eqb c "+" || Ascii.eqb c "-") r in
      negb (bool_decide (d = "")) && str_all is_digit d
  end.

(** [-? (0 | [1-9] digits) (. digits)? exponent?] *)
Definition numberText (s : string) : bool :=
  let s := skipSign (λ c, Ascii.eqb c "-") s in
  let '(int, rest) := spanChars is_digit s in
  negb (bool_decide (int = "")) &&
  negb (leading_zero int) &&
  match rest with
  | String c r =>
      if Ascii.eqb c "." then
        let '(frac, rest) := spanChars is_digit r in
        negb (bool_decide (frac = "")) && exponentOk rest
      else exponentOk rest
  | EmptyString => true
  end.

Definition integerText (s : string) : bool := str_all is_digit (skipSign (λ c, Ascii.eqb c "-") s).

Section parse.
(** The number nearest to a number text that is no safe integer. *)
Context (numberOf : string → jsnum).

Definition numberVal (s : string) : jsnum :=
  if integerText s && (Z.abs (parseZ s) <=? MAX_SAFE_INTEGER) then JInt (parseZ s) else numberOf s.

Definition parseNumber (s : string) : option (jsval * string) :=
  let '(text, rest) := spanChars numberChar s in
  if numberText text then Some (VNum (numberVal text), rest) else None.

(** ** Values *)

Fixpoint skip (s : string) : string :=
  match s with
  | String c r => if (code c =? 32) || (code c =? 9) || (code c =? 10) || (code c =? 13)
                  then skip r else s
  | EmptyString => ""
  end.

(** A later duplicate replaces the value in place. *)
Fixpoint setEntry (k : string) (v : jsval) (l : list (string * jsval)) : list (string * jsval) :=
  match l with
  | [] => [(k, v)]
  | (k', v') :: l => if decide (k' = k) then (k, v) :: l else (k', v') :: setEntry k v l
  end.

Definition literal (s : string) : option (jsval * string) :=
  if startsWith "null" s then Some (VNull, str_drop 4 s)
  else if startsWith "true" s then Some (VBool true, str_drop 4 s)
  else if startsWith "false" s then Some (VBool false, str_drop 5 s)
  else parseNumber s.

Fixpoint parseValue (n : nat) (s : string) : option (jsval * string) :=
  match n with
  | O => None
  | S n =>
      match skip s with
      | EmptyString => None
      | String c r =>
          if Ascii.eqb c "034" then '(t, r) ← parseText r; Some (VStr t, r)
          else if Ascii.eqb c "[" then
            match skip r with
            | String d r' =>
                if Ascii.eqb d "]" then Some (VArr [], r')
                else '(l, r) ← parseItems n r; Some (VArr l, r)
            | EmptyString => None
            end
          else if Ascii.eqb c "{" then
            match skip r with
            | String d r' =>
                if Ascii.eqb d "}" then Some (VObj [], r')
                else '(l, r) ← parseMembers n [] r; Some (VObj l, r)
            | EmptyString => None
            end
          else literal (String c r)
      end
  end
with parseItems (n : nat) (s : string) : option (list jsval * string) :=
  match n with
  | O => None
  | S n =>
      '(v, r) ← parseValue n s;
      match skip r with
      | String c r =>
          if Ascii.eqb c "," then '(l, r) ← parseItems n r; Some (v :: l, r)
          else if Ascii.eqb c "]" then Some ([v], r) else None
      | EmptyString => None
      end
  end
with parseMembers (n : nat) (acc : list (string * jsval)) (s : string)
    : option (list (string * jsval) * string) :=
  match n with
  | O => None
  | S n =>
      match skip s with
      | String c r =>
          if negb (Ascii.eqb c "034") then None else
          '(k, r) ← parseText r;
          match skip r with
          | String c r =>
              if negb (Ascii.eqb c ":") then None else
              '(v, r) ← parseValue n r;
              match skip r with
              | String c r =>
                  if Ascii.eqb c "," then parseMembers n (setEntry k v acc) r
                  else if Ascii.eqb c "}" then Some (setEntry k v acc, r) else None
              | EmptyString => None
              end
          | EmptyString => None
          end
      | EmptyString => None
      end
  end.

(** [JSON.parse(s)]; [None] is a SyntaxError. *)
Definition JSON_parse (s : string) : option jsval :=
  match parseValue (2 * String.length s + 2) s with
  | Some (v, r) => if decide (skip r = "") then Some v else None
  | None => None
  end.
End parse.

Example parse_ex :
  JSON_parse (λ t, JNonInt t) (" [1, -20 ,true,{" +:+ q +:+ "a" +:+ q +:+ ":" +:+ q +:+
    String bs "u0041" +:+ q +:+ ", " +:+ q +:+ "a" +:+ q +:+ ":[]}, 1.5e3]")
  = Some (VArr [VNum (JInt 1); VNum (JInt (-20)); VBool true; VObj [("a", VArr [])]; VNum (JNonInt "1.5e3")]) ∧
  JSON_parse (λ t, JNonInt t) "[1,]" = None ∧ JSON_parse (λ t, JNonInt t) "01" = None.
Proof. by vm_compute. Qed.

(** ** The fuel is enough *)

Lemma skip_length s : (String.length (skip s) ≤ String.length s)%nat.
Proof. induction s as [|c s IH]; [done|]. cbn [skip]. case_match; cbn [String.length]; lia. Qed.

Lemma spanChars_app P s : s = (spanChars P s).1 +:+ (spanChars P s).2.
Proof.
  induction s as [|c s IH]; [done|]. cbn [spanChars]. destruct (P c); [|done].
  destruct (spanChars P s) as [a b]. cbn [fst snd] in *. by rewrite string_app_cons, <- IH.
Qed.

Lemma prepend_some t o u r : prepend t o = Some (u, r) → ∃ u', o = Some (u', r).
Proof. destruct o as [[u' r']|]; [|done]. intros [= _ <-]. eauto. Qed.

Lemma parseText_length_aux k s t r :
  (String.length s ≤ k)%nat → parseText s = Some (t, r) → (String.length r < String.length s)%nat.
Proof.
  revert s t r. induction k as [|k IH]; intros [|c s] t r Hk; cbn [String.length] in *;
    [done | lia | done |]. cbn [parseText].
  destruct (Ascii.eqb c "034"); [intros [= _ <-]; lia|].
  destruct (Ascii.eqb c bs).
  2: { destruct (code c <? 32); [done|]. intros [u E]%prepend_some. apply IH in E; lia. }
  destruct s as [|e s]; [done|]. cbn [String.length] in *. destruct (Ascii.eqb e "u").
  2: { destruct (unescape e); [|done]. intros [u E]%prepend_some. apply IH in E; lia. }
  destruct s as [|a [|b [|x [|y s1]]]]; try done. cbn [String.length] in *.
  destruct (hex4 a b x y); [|done].
  assert (∀ v, prepend v (parseText s1) = Some (t, r) → (String.length r < S (S (S (S (S (S (String.length s1)))))))%nat)
    as H1 by (intros v [u E]%prepend_some; apply IH in E; lia).
  destruct s1 as [|f [|g [|a' [|b' [|x' [|y' s2]]]]]]; try exact (H1 _).
  match goal with |- context [match ?x with Some _ => _ | None => _ end] =>
    destruct x; [|exact (H1 _)] end.
  cbn [String.length] in *. intros [u E]%prepend_some. apply IH in E; lia.
Qed.

Lemma parseText_length s t r : parseText s = Some (t, r) → (String.length r < String.length s)%nat.
Proof. by apply (parseText_length_aux (String.length s)). Qed.

Section fuel.
Context (numberOf : string → jsnum).

Lemma str_drop_length n s : (String.length (str_drop n s) = String.length s - n)%nat.
Proof. revert s. induction n as [|n IH]; intros [|c s]; cbn; [done..|apply IH]. Qed.

Lemma startsWith_length p s : startsWith p s = true → (String.length p ≤ String.length s)%nat.
Proof.
  revert s. induction p as [|c p IH]; intros [|d s]; cbn; [lia..|done|].
  intros [_ H]%andb_true_iff. apply IH in H. lia.
Qed.

Lemma literal_length s v r :
  literal numberOf s = Some (v, r) → (String.length r < String.length s)%nat.
Proof.
  unfold literal.
  destruct (startsWith "null" s) eqn:E1.
  { apply startsWith_length in E1. intros E. assert (r = str_drop 4 s) as -> by congruence.
    rewrite str_drop_length. cbn in E1. lia. }
  destruct (startsWith "true" s) eqn:E2.
  { apply startsWith_length in E2. intros E. assert (r = str_drop 4 s) as -> by congruence.
    rewrite str_drop_length. cbn in E2. lia. }
  destruct (startsWith "false" s) eqn:E3.
  { apply startsWith_length in E3. intros E. assert (r = str_drop 5 s) as -> by congruence.
    rewrite str_drop_length. cbn in E3. lia. }
  unfold parseNumber. pose proof (spanChars_app numberChar s) as Hs.
  destruct (spanChars numberChar s) as [t u]. cbn [fst snd] in Hs.
  destruct (numberText t) eqn:Et; [|done]. intros [= _ <-]. rewrite Hs, string_length_app.
  destruct t; [done|]. cbn [String.length]. lia.
Qed.

(** What each parser leaves is shorter than what it was given. *)
Lemma parse_length n :
  (∀ s v r, parseValue numberOf n s = Some (v, r) → (String.length r < String.length s)%nat) ∧
  (∀ s l r, parseItems numberOf n s = Some (l, r) → (String.length r < String.length s)%nat) ∧
  (∀ acc s l r, parseMembers numberOf n acc s = Some (l, r) → (String.length r < String.length s)%nat).
Proof.
  induction n as [|n (IHv & IHi & IHm)]; [done|]. split_and!.
  - intros s v r. cbn [parseValue]. pose proof (skip_length s).
    destruct (skip s) as [|c u]; [done|]. cbn [String.length] in *.
    destruct (Ascii.eqb c "034").
    { destruct (parseText u) as [[t r']|] eqn:E; [|done]. intros [= _ <-].
      apply parseText_length in E. lia. }
    pose proof (skip_length u).
    destruct (Ascii.eqb c "[").
    { destruct (skip u) as [|d r']; [done|]. cbn [String.length] in *. destruct (Ascii.eqb d "]").
      { intros [= _ <-]. lia. }
      destruct (parseItems numberOf n u) as [[l r'']|] eqn:E; [|done]. intros [= _ <-].
      apply IHi in E. lia. }
    destruct (Ascii.eqb c "{").
    { destruct (skip u) as [|d r']; [done|]. cbn [String.length] in *. destruct (Ascii.eqb d "}").
      { intros [= _ <-]. lia. }
      destruct (parseMembers numberOf n [] u) as [[l r'']|] eqn:E; [|done]. intros [= _ <-].
      apply IHm in E. lia. }
    intros E%literal_length. cbn [String.length] in *. lia.
  - intros s l r. cbn [parseItems]. destruct (parseValue numberOf n s) as [[v u]|] eqn:E; [|done].
    apply IHv in E. cbn [mbind option_bind]. pose proof (skip_length u).
    destruct (skip u) as [|c w]; [done|]. cbn [String.length] in *.
    destruct (Ascii.eqb c ",").
    { destruct (parseItems numberOf n w) as [[l' r']|] eqn:E'; [|done]. intros [= _ <-].
      apply IHi in E'. lia. }
    destruct (Ascii.eqb c "]"); [|done]. intros [= _ <-]. lia.
  - intros acc s l r. cbn [parseMembers]. pose proof (skip_length s).
    destruct (skip s) as [|c u]; [done|]. cbn [String.length] in *.
    destruct (negb _); [done|]. destruct (parseText u) as [[k w]|] eqn:Ek; [|done].
    apply parseText_length in Ek. cbn [mbind option_bind]. pose proof (skip_length w).
    destruct (skip w) as [|c' x]; [done|]. cbn [String.length] in *.
    destruct (negb _); [done|]. destruct (parseValue numberOf n x) as [[v y]|] eqn:Ev; [|done].
    apply IHv in Ev. cbn [mbind option_bind]. pose proof (skip_length y).
    destruct (skip y) as [|c'' z]; [done|]. cbn [String.length] in *.
    destruct (Ascii.eqb c'' ","). { intros E%IHm. lia. }
    destruct (Ascii.eqb c'' "}"); [|done]. intros [= _ <-]. lia.
Qed.

(** Twice the length of the text, and a little, is as good as any more. *)
Lemma parse_fuel k :
  ∀ s, (String.length s ≤ k)%nat → ∀ n m,
  ((2 * k < n → 2 * k < m → parseValue numberOf n s = parseValue numberOf m s) ∧
   (2 * k + 1 < n → 2 * k + 1 < m → parseItems numberOf n s = parseItems numberOf m s) ∧
   (2 * k + 1 < n → 2 * k + 1 < m → ∀ acc,
      parseMembers numberOf n acc s = parseMembers numberOf m acc s))%nat.
Proof.
  induction k as [k IH] using lt_wf_ind. intros s Hs.
  assert (∀ n m, (2 * k < n → 2 * k < m → parseValue numberOf n s = parseValue numberOf m s)%nat)
    as Hval.
  { intros [|n] [|m] Hn Hm; try lia. cbn [parseValue]. pose proof (skip_length s).
    destruct (skip s) as [|c u]; [done|]. cbn [String.length] in *. destruct k as [|k]; [lia|].
    destruct (IH k ltac:(lia) u ltac:(lia) n m) as (_ & Hi & Hm').
    by rewrite Hi, Hm' by lia. }
  intros n m. split; [apply Hval|]. split.
  - destruct n as [|n], m as [|m]; try lia. intros Hn Hm. cbn [parseItems].
    rewrite (Hval n m) by lia. destruct (parseValue numberOf m s) as [[v u]|] eqn:E; [|done].
    apply parse_length in E. cbn [mbind option_bind]. pose proof (skip_length u).
    destruct (skip u) as [|c w]; [done|]. cbn [String.length] in *.
    destruct (IH (String.length w) ltac:(lia) w ltac:(lia) n m) as (_ & Hi & _).
    by rewrite Hi by lia.
  - destruct n as [|n], m as [|m]; try lia. intros Hn Hm acc. cbn [parseMembers].
    pose proof (skip_length s). destruct (skip s) as [|c u]; [done|]. cbn [String.length] in *.
    destruct (negb _); [done|]. destruct (parseText u) as [[key w]|] eqn:Ek; [|done].
    apply parseText_length in Ek. cbn [mbind option_bind]. pose proof (skip_length w).
    destruct (skip w) as [|c' x]; [done|]. cbn [String.length] in *. destruct (negb _); [done|].
    destruct (IH (String.length x) ltac:(lia) x ltac:(lia) n m) as (Hv & _ & _).
    rewrite Hv by lia. destruct (parseValue numberOf m x) as [[v y]|] eqn:Ev; [|done].
    apply parse_length in Ev. cbn [mbind option_bind]. pose proof (skip_length y).
    destruct (skip y) as [|c'' z]; [done|]. cbn [String.length] in *.
    destruct (IH (String.length z) ltac:(lia) z ltac:(lia) n m) as (_ & _ & Hm').
    by rewrite Hm' by lia.
Qed.
End fuel.

(** ** Reading back what was printed *)

Lemma parse_unicode a b x y hi X :
  hex4 a b x y = Some hi → hi < 55296 →
  parseText (String bs (String "u" (String a (String b (String x (String y X))))))
  = prepend (utf8Of hi) (parseText X).
Proof.
  intros Hh Hlt.
  assert (∀ lo, pairOf hi lo = None) as Hp.
  { intros lo. unfold pairOf. destruct (Z.leb_spec 55296 hi); [lia|done]. }
  cbn [parseText]. change (Ascii.eqb bs "034") with false. rewrite Ascii.eqb_refl.
  change (Ascii.eqb "u" "u") with true. cbn iota. rewrite Hh. cbn iota.
  destruct X as [|f [|g [|a' [|b' [|x' [|y' s2]]]]]]; try done.
  case_match eqn:E; [|done]. case_match; [|done].
  destruct (hex4 a' b' x' y'); [|done]. cbn in E. by rewrite Hp in E.
Qed.

Definition escape_case (c : ascii) : bool :=
  match escapeChar c with
  | String d EmptyString =>
      Ascii.eqb d c && negb (Ascii.eqb c "034") && negb (Ascii.eqb c bs) && negb (code c <? 32)
  | String d (String e EmptyString) =>
      Ascii.eqb d bs && negb (Ascii.eqb e "u") && bool_decide (unescape e = Some c)
  | String d (String e (String a (String b (String x (String y EmptyString))))) =>
      Ascii.eqb d bs && Ascii.eqb e "u" &&
      match hex4 a b x y with
      | Some hi => (hi <? 55296) && bool_decide (utf8Of hi = String c "")
      | None => false
      end
  | _ => false
  end.

Lemma escape_cases c : escape_case c = true.
Proof. by destruct c as [[] [] [] [] [] [] [] []]. Qed.

Lemma parse_escapeChar c X :
  parseText (escapeChar c +:+ X) = prepend (String c "") (parseText X).
Proof.
  pose proof (escape_cases c) as H. unfold escape_case in H.
  destruct (escapeChar c) as [|d [|e [|a [|b [|x [|y [|]]]]]]]; try done.
  - rewrite !andb_true_iff, !negb_true_iff, Ascii.eqb_eq in H. destruct H as [[[-> H1] H2] H3].
    rewrite string_app_cons. cbn [parseText]. by rewrite H1, H2, H3.
  - rewrite !andb_true_iff, negb_true_iff, Ascii.eqb_eq, bool_decide_eq_true in H.
    destruct H as [[-> H1] H2]. rewrite !string_app_cons. cbn [parseText].
    change (Ascii.eqb bs "034") with false. by rewrite Ascii.eqb_refl, H1, H2.
  - rewrite !andb_true_iff, !Ascii.eqb_eq in H. destruct H as [[-> ->] H].
    destruct (hex4 a b x y) as [hi|] eqn:Eh; [|done].
    rewrite andb_true_iff, bool_decide_eq_true in H. destruct H as [Hlt Hu]. zify_bool.
    rewrite !string_app_cons. erewrite parse_unicode by done. by rewrite Hu.
Qed.

Lemma parse_escapeText s rest : parseText (escapeText s +:+ String "034" rest) = Some (s, rest).
Proof.
  induction s as [|c s IH]; [done|]. cbn [escapeText].
  rewrite string_app_assoc, parse_escapeChar, IH. done.
Qed.

Lemma quoteText_cons s rest :
  quoteText s +:+ rest = String "034" (escapeText s +:+ String "034" rest).
Proof. unfold quoteText. rewrite string_app_assoc. by rewrite string_app_assoc. Qed.

(** A number is followed by the end, or by a character that is not its own. *)
Definition stops (rest : string) : Prop :=
  match rest with String c _ => numberChar c = false | EmptyString => True end.

Lemma spanChars_all P t rest :
  str_all P t = true → (match rest with String c _ => P c = false | EmptyString => True end) →
  spanChars P (t +:+ rest) = (t, rest).
Proof.
  intros Ht Hr. induction t as [|c t IH].
  - change ("" +:+ rest) with rest. destruct rest as [|c r]; [done|]. cbn [spanChars]. by rewrite Hr.
  - cbn [str_all] in Ht. apply andb_true_iff in Ht as [Hc Ht]. rewrite string_app_cons.
    cbn [spanChars]. by rewrite Hc, IH.
Qed.

Lemma spanChars_whole P t : str_all P t = true → spanChars P t = (t, "").
Proof. intros H. rewrite <- (string_app_nil_r t) at 1. by apply spanChars_all. Qed.

Lemma str_all_impl P Q s : (∀ c, P c = true → Q c = true) → str_all P s = true → str_all Q s = true.
Proof.
  intros H. induction s as [|c s IH]; [done|]. cbn [str_all].
  rewrite !andb_true_iff. intros [? ?]. auto.
Qed.

Lemma digit_numberChar c : is_digit c = true → numberChar c = true.
Proof. unfold numberChar. by intros ->. Qed.

Lemma digit_not_minus c : is_digit c = true → Ascii.eqb c "-" = false.
Proof. destruct (Ascii.eqb_spec c "-") as [->|]; done. Qed.

Lemma skipSign_digits P s :
  str_all is_digit s = true → (∀ c, is_digit c = true → P c = false) → skipSign P s = s.
Proof.
  destruct s as [|c s]; [done|]. cbn [str_all skipSign]. intros [Hc _]%andb_true_iff H. by rewrite H.
Qed.

(** The text of an integer is a number. *)
Lemma pretty_number (z : Z) :
  str_all numberChar (pretty z) = true ∧ numberText (pretty z) = true ∧
  integerText (pretty z) = true.
Proof.
  assert (∀ z : Z, 0 ≤ z → numberText (pretty z) = true ∧ numberText (String "-" (pretty z)) = true) as Hn.
  { intros y Hy. destruct (pretty_Z_decimal y Hy) as [Hd Hv Hne Hz].
    unfold numberText. rewrite (skipSign_digits _ (pretty y)) by auto using digit_not_minus.
    cbn [skipSign]. change (Ascii.eqb "-" "-") with true. cbn iota.
    rewrite (spanChars_whole is_digit) by done. by rewrite Hz, bool_decide_eq_false_2. }
  destruct (Z.lt_ge_cases z 0) as [Hz|Hz].
  - rewrite pretty_neg by done. change ("-" +:+ pretty (- z)) with (String "-" (pretty (- z))).
    destruct (Hn (- z)) as [_ H2]; [lia|]. pose proof (pretty_digits (- z) ltac:(lia)) as Hd.
    split_and!; [|done|done]. cbn [str_all]. rewrite (str_all_impl is_digit); auto using digit_numberChar.
  - destruct (Hn z Hz) as [H1 _]. pose proof (pretty_digits z Hz) as Hd. split_and!; [|done|].
    + by apply (str_all_impl is_digit); auto using digit_numberChar.
    + unfold integerText. rewrite skipSign_digits by auto using digit_not_minus. done.
Qed.

(** ** The canonical value *)

(** The order of keys does not matter: sorted at every level. *)
Fixpoint canon (v : jsval) : jsval :=
  match v with
  | VArr l => VArr (map canon l)
  | VObj l => VObj (js_sort compareKeys (map (λ '(k, v), (k, canon v)) l))
  | _ => v
  end.

Lemma js_sort_map {A B} (cmp : A → A → Z) (cmp' : B → B → Z) (f : A → B) l :
  (∀ x y, cmp' (f x) (f y) = cmp x y) → js_sort cmp' (map f l) = map f (js_sort cmp l).
Proof.
  intros Hf. induction l as [|x l IH]; [done|]. cbn [map js_sort foldr] in *.
  change (foldr (sort_insert cmp') [] (map f l)) with (js_sort cmp' (map f l)). rewrite IH.
  fold (js_sort cmp l). generalize (js_sort cmp l). intros k.
  induction k as [|y k IHk]; [done|]. cbn [map sort_insert]. rewrite Hf. case_match; [done|].
  cbn [map]. by rewrite IHk.
Qed.

(** What [stableStringify] maps over an object's entries. *)
Definition stableField (kv : string * jsval) : string * cre string :=
  (kv.1, match kv.2 with
         | VUndefined => Throw (Error "CRE evidence contains undefined")
         | _ => stableStringify kv.2 end).
Definition canonField (kv : string * jsval) : string * jsval := (kv.1, canon kv.2).

Lemma stable_obj l :
  stableStringify (VObj l)
  = (entries ← mapM stableEntry (map stableField (js_sort compareKeys l));
     mret ("{" +:+ joinWith "," entries +:+ "}")).
Proof.
  cbn [stableStringify]. rewrite <- (js_sort_map compareKeys compareKeys stableField l) by done.
  f_equal. f_equal. f_equal. apply map_ext. by intros [].
Qed.

Lemma canon_obj l : canon (VObj l) = VObj (map canonField (js_sort compareKeys l)).
Proof.
  cbn [canon]. rewrite <- (js_sort_map compareKeys compareKeys canonField l) by done.
  f_equal. f_equal. apply map_ext. by intros [].
Qed.

Section roundtrip.
Context (numberOf : string → jsnum).

(** The number's text reads back as the number. *)
Definition numOk (n : jsnum) : Prop :=
  str_all numberChar (numToString n) = true ∧ numberText (numToString n) = true ∧
  numberVal numberOf (numToString n) = n.

Lemma safe_numOk z : Z.abs z ≤ MAX_SAFE_INTEGER → numOk (JInt z).
Proof.
  intros Hz. destruct (pretty_number z) as (H1 & H2 & H3). unfold numOk. cbn [numToString].
  split_and!; [done..|]. unfold numberVal. rewrite H3, parseZ_pretty. cbn [andb].
  by rewrite (proj2 (Z.leb_le _ _) Hz).
Qed.

(** Distinct keys and numbers that read back, at every level. *)
Fixpoint wfVal (v : jsval) : Prop :=
  match v with
  | VNum n => numOk n
  | VArr l => Forall id (map wfVal l)
  | VObj l => NoDup (map fst l) ∧ Forall id (map (λ kv, wfVal kv.2) l)
  | _ => True
  end.

(** The first character of a value's text. *)
Definition headOk (c : ascii) : bool :=
  negb ((code c =? 32) || (code c =? 9) || (code c =? 10) || (code c =? 13))
  && negb (Ascii.eqb c "]") && negb (Ascii.eqb c "}") && negb (Ascii.eqb c ",").

Lemma numberText_head t :
  str_all numberChar t = true → numberText t = true →
  ∃ c r, t = String c r ∧ headOk c = true ∧ Ascii.eqb c "034" = false ∧ Ascii.eqb c "[" = false ∧
    Ascii.eqb c "{" = false ∧ Ascii.eqb c "n" = false ∧ Ascii.eqb c "t" = false ∧
    Ascii.eqb c "f" = false.
Proof.
  destruct t as [|c r]; [done|]. cbn [str_all]. intros [Hc _]%andb_true_iff _.
  exists c, r. split; [done|]. revert Hc. by destruct c as [[] [] [] [] [] [] [] []].
Qed.

Lemma skip_head c r : headOk c = true → skip (String c r) = String c r.
Proof. unfold headOk. rewrite !andb_true_iff, negb_true_iff. cbn [skip]. by intros [[[-> ?] ?] ?]. Qed.

Lemma stable_head v t :
  wfVal v → stableStringify v = Ok t → ∃ c r, t = String c r ∧ headOk c = true.
Proof.
  destruct v as [| |b|n|s|l|l|]; cbn [stableStringify wfVal]; try done.
  - intros _ [= <-]. eauto.
  - intros _ [= <-]. destruct b; eauto.
  - intros (H1 & H2 & _) E. destruct (isFinite n); [|done]. apply ok_inj in E as <-.
    destruct (numberText_head _ H1 H2) as (c & r & -> & ? & _). eauto.
  - intros _ [= <-]. eexists _, _. split; [reflexivity|done].
  - intros _ (ts & _ & E)%bind_ok. apply ok_inj in E as <-. by eexists _, _.
  - intros _ (ts & _ & E)%bind_ok. apply ok_inj in E as <-. by eexists _, _.
Qed.

(** [t] reads back as [w] in front of any text that stops it. *)
Definition reads (t : string) (w : jsval) : Prop :=
  ∀ n rest, (2 * String.length t + 1 ≤ n)%nat → stops rest →
  parseValue numberOf n (t +:+ rest) = Some (w, rest).

Lemma reads_null : reads "null" VNull.
Proof.
  intros [|n] rest Hn Hs; [lia|].
  reflexivity.
Qed.
Lemma reads_bool (b : bool) : reads (if b then "true" else "false") (VBool b).
Proof. intros [|n] rest Hn _; [lia|]. by destruct b. Qed.

Lemma reads_text s : reads (quoteText s) (VStr s).
Proof.
  intros [|n] rest Hn _; [lia|]. rewrite quoteText_cons. cbn [parseValue].
  rewrite skip_head by done. cbn iota. change (Ascii.eqb "034" "034") with true. cbn iota.
  by rewrite parse_escapeText.
Qed.

Lemma reads_num n : numOk n → reads (numToString n) (VNum n).
Proof.
  intros (H1 & H2 & H3) [|m] rest Hm Hr; [lia|].
  destruct (numberText_head _ H1 H2) as (c & r & E & Hh & E1 & E2 & E3 & E4 & E5 & E6).
  rewrite E at 1. rewrite string_app_cons. cbn [parseValue]. rewrite skip_head by done.
  rewrite E1, E2, E3. unfold literal. cbn [startsWith].
  rewrite (Ascii.eqb_sym "n" c), (Ascii.eqb_sym "t" c), (Ascii.eqb_sym "f" c), E4, E5, E6. cbn [andb].
  rewrite <- string_app_cons, <- E. unfold parseNumber. rewrite (spanChars_all numberChar) by done.
  by rewrite H2, H3.
Qed.

Lemma joinWith_cons sep x y l : joinWith sep (x :: y :: l) = x +:+ sep +:+ joinWith sep (y :: l).
Proof. done. Qed.

Lemma reads_items (l : list jsval) ts :
  l ≠ [] → Forall2 reads ts (map canon l) →
  ∀ n rest, (2 * String.length (joinWith "," ts) + 2 ≤ n)%nat →
  parseItems numberOf n (joinWith "," ts +:+ String "]" rest) = Some (map canon l, rest).
Proof.
  revert ts. induction l as [|v l IH]; [done|]. intros ts _ H.
  inversion H as [|t ? ts' ? Ht Hts]; subst. intros [|n] rest Hn; [lia|].
  cbn [parseItems]. destruct l as [|w l].
  - inversion Hts; subst. cbn [joinWith] in *. rewrite Ht by (done || lia). done.
  - inversion Hts as [|t' ? ts'' ? Ht' Hts']; subst. rewrite joinWith_cons in *.
    rewrite !string_length_app in Hn. cbn [String.length] in Hn.
    rewrite string_app_assoc. rewrite Ht by (done || lia). cbn [mbind option_bind].
    rewrite string_app_assoc.
    change ("," +:+ joinWith "," (t' :: ts'') +:+ String "]" rest)
      with (String "," (joinWith "," (t' :: ts'') +:+ String "]" rest)).
    change (skip (String "," ?x)) with (String "," x). cbn iota.
    change (Ascii.eqb "," ",") with true. cbn iota.
    by rewrite (IH (t' :: ts'')) by (done || lia).
Qed.

Lemma setEntry_new k v acc : k ∉ map fst acc → setEntry k v acc = acc ++ [(k, v)].
Proof.
  induction acc as [|[k' v'] acc IH]; [done|]. intros [Hk Hn]%not_elem_of_cons. cbn [setEntry].
  rewrite decide_False by (cbn in *; congruence). by rewrite IH.
Qed.

Definition fieldText (k t : string) : string := quoteText k +:+ ":" +:+ t.

Lemma reads_members (l : list (string * jsval)) ts :
  l ≠ [] → Forall2 (λ t kv, ∃ u, t = fieldText kv.1 u ∧ reads u kv.2) ts l →
  ∀ n acc rest, (2 * String.length (joinWith "," ts) + 2 ≤ n)%nat → NoDup (map fst (acc ++ l)) →
  parseMembers numberOf n acc (joinWith "," ts +:+ String "}" rest) = Some (acc ++ l, rest).
Proof.
  revert ts. induction l as [|[k w] l IH]; [done|]. intros ts _ H.
  inversion H as [|t ? ts' ? Ht Hts]; subst. destruct Ht as (u & -> & Hu). cbn [fst snd] in *.
  intros [|n] acc rest Hn Hnd; [lia|].
  assert (k ∉ map fst acc) as Hk.
  { rewrite map_app in Hnd. apply NoDup_app in Hnd as (_ & Hd & _). intros Hin.
    apply (Hd _ Hin). left. }
  assert (∀ X, (2 * String.length u + 1 ≤ n)%nat → stops X →
    parseMembers numberOf (S n) acc (fieldText k u +:+ X)
    = match skip X with
      | String c r =>
          if Ascii.eqb c "," then parseMembers numberOf n (acc ++ [(k, w)]) r
          else if Ascii.eqb c "}" then Some (acc ++ [(k, w)], r) else None
      | EmptyString => None
      end) as Hone.
  { intros X Hlen HX. unfold fieldText. rewrite string_app_assoc, quoteText_cons.
    cbn [parseMembers]. rewrite skip_head by done. change (Ascii.eqb "034" "034") with true.
    cbn [negb]. rewrite parse_escapeText. cbn [mbind option_bind].
    change ((":" +:+ u) +:+ X) with (String ":" (u +:+ X)).
    change (skip (String ":" ?x)) with (String ":" x). cbn iota.
    change (Ascii.eqb ":" ":") with true. cbn [negb]. rewrite Hu by done. cbn [mbind option_bind].
    by rewrite setEntry_new. }
  destruct l as [|[k' w'] l].
  - inversion Hts; subst. cbn [joinWith] in *. rewrite Hone; [done| |done].
    unfold fieldText in Hn. rewrite !string_length_app in Hn. lia.
  - inversion Hts as [|t' ? ts'' ? Ht' Hts']; subst. rewrite joinWith_cons in *.
    rewrite !string_length_app in Hn. cbn [String.length] in Hn.
    rewrite string_app_assoc. rewrite Hone; [| |done].
    + rewrite string_app_assoc.
      change ("," +:+ joinWith "," (t' :: ts'') +:+ String "}" rest)
        with (String "," (joinWith "," (t' :: ts'') +:+ String "}" rest)).
      change (skip (String "," ?x)) with (String "," x). cbn iota.
      change (Ascii.eqb "," ",") with true. cbn iota.
      rewrite (IH (t' :: ts'')); [by rewrite <- app_assoc | done | done | lia |].
      by rewrite <- app_assoc.
    + unfold fieldText in Hn. rewrite !string_length_app in Hn. lia.
Qed.

Lemma mapM_id_ok {A B} (f : A → cre B) l ts :
  mapM id (map f l) = Ok ts → Forall2 (λ t x, f x = Ok t) ts l.
Proof.
  intros H%mapM_ok. apply Forall2_flip. revert ts H. induction l as [|x l IH]; intros ts H.
  - by inversion H.
  - inversion H as [|? t ? ts' Hx Hl]; subst. constructor; [exact Hx | by apply IH].
Qed.

Lemma skip_join ts X :
  match ts with t :: _ => ∃ c r, t = String c r ∧ headOk c = true | [] => False end →
  ∃ c r, joinWith "," ts +:+ X = String c r ∧ skip (String c r) = String c r ∧
    Ascii.eqb c "]" = false ∧ Ascii.eqb c "}" = false.
Proof.
  destruct ts as [|t ts]; [done|]. intros (c & r & -> & Hc).
  assert (∃ r', joinWith "," (String c r :: ts) +:+ X = String c r') as [r' E].
  { destruct ts as [|u ts]; [by eexists | rewrite joinWith_cons; by eexists]. }
  exists c, r'. split; [done|]. split; [by apply skip_head|].
  unfold headOk in Hc. rewrite !andb_true_iff, !negb_true_iff in Hc. tauto.
Qed.

Lemma reads_array l ts :
  Forall2 (λ t v, stableStringify v = Ok t) ts l → Forall wfVal l →
  Forall2 reads ts (map canon l) → reads ("[" +:+ joinWith "," ts +:+ "]") (canon (VArr l)).
Proof.
  intros Hst Hwf Hr [|n] rest Hn Hs; [lia|]. rewrite !string_length_app in Hn. cbn in Hn.
  change (("[" +:+ joinWith "," ts +:+ "]") +:+ rest)
    with (String "[" ((joinWith "," ts +:+ "]") +:+ rest)). rewrite string_app_assoc.
  cbn [parseValue canon]. rewrite skip_head by done. change (Ascii.eqb "[" "034") with false.
  change (Ascii.eqb "[" "[") with true. cbn iota. destruct l as [|v l].
  { inversion Hst; subst. done. }
  destruct (skip_join ts ("]" +:+ rest)) as (c & r & E & Hk & Hb & _).
  { inversion Hst as [|t ? ts' ? Ht]; subst. inversion Hwf; subst. by eapply stable_head. }
  rewrite E, Hk, Hb, <- E. change ("]" +:+ rest) with (String "]" rest).
  by rewrite (reads_items (v :: l) ts) by (done || lia).
Qed.

Lemma reads_object l ts :
  NoDup (map fst l) →
  Forall2 (λ t kv, ∃ u, t = fieldText kv.1 u ∧ reads u kv.2) ts l →
  reads ("{" +:+ joinWith "," ts +:+ "}") (VObj l).
Proof.
  intros Hnd Hr [|n] rest Hn Hs; [lia|]. rewrite !string_length_app in Hn. cbn in Hn.
  change (("{" +:+ joinWith "," ts +:+ "}") +:+ rest)
    with (String "{" ((joinWith "," ts +:+ "}") +:+ rest)). rewrite string_app_assoc.
  cbn [parseValue]. rewrite skip_head by done. change (Ascii.eqb "{" "034") with false.
  change (Ascii.eqb "{" "[") with false. change (Ascii.eqb "{" "{") with true. cbn iota.
  destruct l as [|kv l].
  { inversion Hr; subst. done. }
  destruct (skip_join ts ("}" +:+ rest)) as (c & r & E & Hk & _ & Hb).
  { inversion Hr as [|t ? ts' ? Ht]; subst. destruct Ht as (u & -> & _).
    eexists _, _. split; [reflexivity|done]. }
  rewrite E, Hk, Hb, <- E. change ("}" +:+ rest) with (String "}" rest).
  by rewrite (reads_members (kv :: l) ts) by (done || lia).
Qed.

Lemma stable_reads v : wfVal v → ∀ t, stableStringify v = Ok t → reads t (canon v).
Proof.
  induction v as [| |b|n|s|l IH|l IH|tx] using jsval_rec'; intros Hwf t E.
  - done.
  - injection E as <-. apply reads_null.
  - injection E as <-. apply reads_bool.
  - cbn in E. destruct (isFinite n); [|done]. apply ok_inj in E as <-. by apply reads_num.
  - injection E as <-. apply reads_text.
  - cbn [stableStringify] in E. apply bind_ok in E as (ts & Hts%mapM_id_ok & E).
    apply ok_inj in E as <-. cbn [wfVal] in Hwf. rewrite Forall_map in Hwf.
    apply reads_array; [done | done |]. clear - IH Hwf Hts.
    induction Hts as [|t v ts l Ht Hts IHl]; [constructor|].
    inversion IH; inversion Hwf; subst. constructor; auto.
  - rewrite stable_obj in E. rewrite canon_obj. destruct Hwf as [Hnd Hwf].
    rewrite Forall_map in Hwf. pose proof (js_sort_perm compareKeys l) as Hp.
    rewrite <- Hp in IH, Hwf. rewrite <- (Permutation_map fst Hp) in Hnd.
    revert E IH Hwf Hnd. generalize (js_sort compareKeys l). clear l Hp. intros l E IH Hwf Hnd.
    apply bind_ok in E as (ts & Hts%mapM_ok & E). apply ok_inj in E as <-.
    apply reads_object.
    + rewrite map_map. by erewrite map_ext by (intros []; reflexivity).
    + clear Hnd. revert ts Hts. induction l as [|[k v] l IHl]; intros ts Hts.
      { inversion Hts; subst. constructor. }
      inversion Hts as [|? t ? ts' Ht Hts']; subst. inversion IH; inversion Hwf; subst.
      constructor; [|auto]. unfold stableEntry in Ht. apply bind_ok in Ht as (u & Hu & Ht).
      apply ok_inj in Ht as <-. exists u. split; [done|]. cbn in *.
      match goal with H : wfVal v → _ |- _ => apply H end; [done|]. by destruct v.
  - done.
Qed.

Lemma parse_reads t w : reads t w → JSON_parse numberOf t = Some w.
Proof.
  intros H. unfold JSON_parse. rewrite <- (string_app_nil_r t) at 2. rewrite H by (done || lia).
  done.
Qed.
End roundtrip.

(** ** Sorting twice *)

Lemma rank_between c : 0 ≤ code c < 256.
Proof. unfold code. pose proof (Ascii.nat_ascii_bounded c). lia. Qed.

Lemma unitRank_inj c d : unitRank c = unitRank d → c = d.
Proof.
  intros E. assert (forallb (λ a, forallb (λ b, negb (unitRank a =? unitRank b) || Ascii.eqb a b)
    (map chr (seqZ 0 256))) (map chr (seqZ 0 256)) = true) as H by by vm_compute.
  assert (∀ x, x ∈ map chr (seqZ 0 256)) as Hall.
  { intros x. apply list_elem_of_In, in_map_iff. exists (code x). split.
    - unfold chr, code. rewrite Nat2Z.id. apply Ascii.ascii_nat_embedding.
    - apply list_elem_of_In, elem_of_seqZ. pose proof (rank_between x). lia. }
  rewrite forallb_forall in H. specialize (H c (proj1 (list_elem_of_In _ _) (Hall c))).
  cbn beta in H. rewrite forallb_forall in H.
  specialize (H d (proj1 (list_elem_of_In _ _) (Hall d))). cbn beta in H.
  rewrite E, Z.eqb_refl in H. by apply Ascii.eqb_eq.
Qed.

Lemma compareUnits_antisym a b : compareUnits b a = - compareUnits a b.
Proof.
  revert b. induction a as [|c a IH]; intros [|d b]; cbn [compareUnits]; try done.
  destruct (Z.ltb_spec (unitRank c) (unitRank d)), (Z.ltb_spec (unitRank d) (unitRank c)); try lia.
  apply IH.
Qed.

Lemma compareUnits_eq a b : compareUnits a b = 0 → a = b.
Proof.
  revert b. induction a as [|c a IH]; intros [|d b]; cbn [compareUnits]; try done.
  destruct (Z.ltb_spec (unitRank c) (unitRank d)), (Z.ltb_spec (unitRank d) (unitRank c)); try lia.
  intros E%IH. subst. f_equal. apply unitRank_inj. lia.
Qed.

Lemma compareUnits_trans a b c :
  compareUnits a b ≤ 0 → compareUnits b c ≤ 0 → compareUnits a c ≤ 0.
Proof.
  revert b c. induction a as [|x a IH]; intros [|y b] [|z c]; cbn [compareUnits]; try lia.
  destruct (Z.ltb_spec (unitRank x) (unitRank y)), (Z.ltb_spec (unitRank y) (unitRank x)),
    (Z.ltb_spec (unitRank y) (unitRank z)), (Z.ltb_spec (unitRank z) (unitRank y)),
    (Z.ltb_spec (unitRank x) (unitRank z)), (Z.ltb_spec (unitRank z) (unitRank x)); try lia.
  apply IH.
Qed.

Definition keyLe {A} (x y : string * A) : Prop := compareKeys x y ≤ 0.

Lemma sorted_keys {A} (l : list (string * A)) : StronglySorted keyLe (js_sort compareKeys l).
Proof.
  apply (js_sort_sorted compareKeys (λ _, True)).
  - intros x y _ _. unfold compareKeys. rewrite (compareUnits_antisym x.1 y.1). lia.
  - intros x y z _ _ _. apply compareUnits_trans.
  - by apply Forall_forall.
Qed.

Lemma js_sort_id {A} (l : list (string * A)) : StronglySorted keyLe l → js_sort compareKeys l = l.
Proof.
  induction 1 as [|x l Hs IH Hx]; [done|]. cbn [js_sort foldr].
  change (foldr (sort_insert compareKeys) [] l) with (js_sort compareKeys l). rewrite IH.
  destruct Hx as [|y l Hy]; [done|]. cbn [sort_insert]. unfold keyLe in Hy.
  by rewrite (proj2 (Z.leb_le _ _) Hy).
Qed.

Lemma stable_canon v : stableStringify (canon v) = stableStringify v.
Proof.
  induction v as [| |b|n|s|l IH|l IH|tx] using jsval_rec'; try done.
  - cbn [canon stableStringify]. do 2 f_equal. rewrite map_map.
    induction IH as [|v l Hv Hl IHl]; [done|]. cbn [map]. by rewrite Hv, IHl.
  - rewrite canon_obj, !stable_obj.
    rewrite (js_sort_map compareKeys compareKeys canonField) by done.
    rewrite (js_sort_id (js_sort compareKeys l)) by apply sorted_keys. do 2 f_equal.
    rewrite <- (js_sort_perm compareKeys l) in IH. revert IH. generalize (js_sort compareKeys l).
    clear l. intros l IH. rewrite map_map. induction IH as [|[k v] l Hv Hl IHl]; [done|].
    cbn [map]. rewrite IHl. f_equal. unfold stableField, canonField. cbn [fst snd] in *.
    f_equal. rewrite Hv. by destruct v.
Qed.

Lemma js_sort_perm_eq {A} (l l' : list (string * A)) :
  NoDup (map fst l) → l ≡ₚ l' → js_sort compareKeys l = js_sort compareKeys l'.
Proof.
  intros Hnd Hp. eapply (StronglySorted_unique_strong keyLe); [|apply sorted_keys..|by rewrite !js_sort_perm].
  intros [k1 v1] [k2 v2] H1%js_sort_elem H2%js_sort_elem Hle Hge. unfold keyLe, compareKeys in *.
  cbn [fst] in *. rewrite (compareUnits_antisym k1 k2) in Hge.
  assert (k1 = k2) as -> by (apply compareUnits_eq; lia). rewrite <- Hp in H2. f_equal.
  apply list_elem_of_lookup in H1 as [i Hi], H2 as [j Hj].
  assert (i = j) as ->; [|congruence].
  eapply NoDup_lookup; [exact Hnd|..]; rewrite list_lookup_fmap.
  - by rewrite Hi.
  - by rewrite Hj.
Qed.

(** ** Properties *)

(** The canonical JSON of a value reads back as the value with its keys sorted,
    for values with distinct keys whose numbers read back (every safe integer
    does). *)
Theorem stable_roundtrip numberOf v t :
  wfVal numberOf v → stableStringify v = Ok t → JSON_parse numberOf t = Some (canon v).
Proof. intros Hv Ht. apply parse_reads. by eapply stable_reads. Qed.

(** Canonical JSON is canonical: two values have the same text exactly when
    they are equal up to the order of keys at every level, and reordering the
    entries of an object does not change the result, errors included. *)
Theorem stable_canonical numberOf v1 v2 t :
  wfVal numberOf v1 → wfVal numberOf v2 → stableStringify v1 = Ok t →
  (stableStringify v2 = Ok t ↔ canon v1 = canon v2) ∧
  ∀ l l', NoDup (map fst l) → l ≡ₚ l' → stableStringify (VObj l) = stableStringify (VObj l').
Proof.
  intros H1 H2 E1. split; [split|].
  - intros E2. pose proof (parse_reads _ _ _ (stable_reads _ v1 H1 t E1)) as P1.
    pose proof (parse_reads _ _ _ (stable_reads _ v2 H2 t E2)) as P2. congruence.
  - intros E. by rewrite <- (stable_canon v2), <- E, stable_canon.
  - intros l l' Hnd Hp. rewrite !stable_obj. by rewrite (js_sort_perm_eq l l').
Qed.

(** [JSON.parse] is total: more fuel than twice the length of the text, and two,
    never changes its answer. *)
Lemma JSON_parse_total numberOf s n :
  (2 * String.length s + 2 ≤ n)%nat →
  JSON_parse numberOf s = match parseValue numberOf n s with
                          | Some (v, r) => if decide (skip r = "") then Some v else None
                          | None => None
                          end.
Proof.
  intros Hn. unfold JSON_parse.
  by rewrite (proj1 (parse_fuel numberOf (String.length s) s (le_n _) (2 * String.length s + 2) n))
    by lia.
Qed.

(** ** Concrete inputs *)

Definition sampleVal : jsval :=
  VObj [("z", VNum (JInt 2)); ("a", VArr [VStr "x"; VNull; VObj [("k", VBool true)]])].

Lemma sampleVal_wf : wfVal JNonInt sampleVal.
Proof.
  cbn [wfVal sampleVal map fst snd]. split; [apply (bool_decide_unpack _); by vm_compute|].
  repeat apply Forall_cons_2; try apply Forall_nil_2; unfold id.
  - by apply safe_numOk.
  - done.
  - done.
  - split; [apply (bool_decide_unpack _); by vm_compute|]. by repeat constructor.
Qed.

Lemma stable_roundtrip_witness :
  ∃ t, stableStringify sampleVal = Ok t ∧ JSON_parse JNonInt t = Some (canon sampleVal).
Proof.
  eexists. split; [vm_compute; reflexivity|]. apply stable_roundtrip; [apply sampleVal_wf | vm_compute; reflexivity].
Defined.

Lemma stable_canonical_witness :
  ∃ t, stableStringify sampleVal = Ok t ∧ stableStringify (canon sampleVal) = Ok t.
Proof.
  eexists. split; [vm_compute; reflexivity|].
  apply (stable_canonical JNonInt sampleVal sampleVal); [apply sampleVal_wf.. | vm_compute; reflexivity | done].
Defined.
