(* ===== verification/CreEvidence.v ===== *)
(** * CRE evidence: references and tokens

    Models [packages/cre/src/evidence.ts]: [requiredReference],
    [requiredInteger], [canonicalDecimal], [validateReference],
    [createCreEvidenceToken], [openCreEvidenceToken]. Input the code reads
    through a type assertion is a [jsval]; the caller's [seal] and [unseal], the
    clock and [crypto.randomUUID] are arguments. *)

From S2P Require Import Prelude.
From S2P Require Import Js.
From S2P Require Import Decimal.
From S2P Require Import CreJson.
From S2P Require Import CreParse.

Definition TOKEN_PREFIX : string := "bufi_cre_evidence_v1.".
Definition TOKEN_AUDIENCE : string := "bufi-cre-evidence".
Definition MAX_TOKEN_LENGTH : Z := 8192.
Definition MAX_REFERENCE_LENGTH : Z := 256.
Definition MAX_TTL_SECONDS : Z := 15 * 60.
Definition CLOCK_SKEW_SECONDS : Z := 30.

Definition fail {A} (message : string) : cre A := Throw (Error message).

(** ** Fields *)

Definition isControl (c : ascii) : bool := (code c <? 32) || (code c =? 127).

Definition requiredReference (value : jsval) (field : string) : cre string :=
  match value with
  | VStr s =>
      let hasControlCharacter := negb (str_all (λ c, negb (isControl c)) s) in
      if (length16 s =? 0) || (MAX_REFERENCE_LENGTH <? length16 s) || hasControlCharacter
      then fail ("CRE evidence " +:+ field +:+ " is invalid") else mret s
  | _ => fail ("CRE evidence " +:+ field +:+ " is invalid")
  end.

Definition requiredInteger (value : jsval) (field : string) : cre Z :=
  match safeInteger value with
  | Some z => mret z
  | None => fail ("CRE evidence " +:+ field +:+ " must be an integer")
  end.

(** [/^\d+(?:\.\d+)?$/], with the two runs of digits. *)
Definition decimalParts (raw : string) : option (string * string) :=
  let '(integer, rest) := spanChars is_digit raw in
  if decide (integer = "") then None else
  match rest with
  | EmptyString => Some (integer, "")
  | String c fraction =>
      if Ascii.eqb c "." && negb (bool_decide (fraction = "")) && str_all is_digit fraction
      then Some (integer, fraction) else None
  end.

(** [s.replace(/^0+(?=\d)/, '')] on digits *)
Fixpoint dropLeadingZeros (s : string) : string :=
  match s with
  | String c r =>
      match r with
      | EmptyString => s
      | String _ _ => if Ascii.eqb c "0" then dropLeadingZeros r else s
      end
  | EmptyString => ""
  end.

Definition canonicalDecimal (value : jsval) : cre string :=
  match decimalParts (toText value) with
  | None => fail "CRE evidence decimal is invalid"
  | Some (integer, fraction) =>
      let normalizedInteger :=
        let s := dropLeadingZeros integer in if decide (s = "") then "0" else s in
      let normalizedFraction := trimZeros fraction in
      mret (if decide (normalizedFraction = "") then normalizedInteger
            else normalizedInteger +:+ "." +:+ normalizedFraction)
  end.

Definition CONTRACT_EVENTS : list string :=
  ["contract_deploy"; "contract_sign"; "contract_fund"; "contract_complete"; "contract_cancel"].

Definition requiredContractEvent (value : jsval) : cre string :=
  match value with
  | VStr s => if decide (s ∈ CONTRACT_EVENTS) then mret s
              else fail "CRE evidence contract event is invalid"
  | _ => fail "CRE evidence contract event is invalid"
  end.

(** ** References *)

Fixpoint hexRun (n : nat) (s : string) : option string :=
  match n, s with
  | O, _ => Some s
  | S n, String c s => if is_hex c then hexRun n s else None
  | S _, EmptyString => None
  end.
Definition dash (s : string) : option string :=
  match s with String c r => if Ascii.eqb c "-" then Some r else None | EmptyString => None end.

(** [/^[0-9a-f]{8}-[0-9a-f]{4}-[0-9a-f]{4}-[0-9a-f]{4}-[0-9a-f]{12}$/i] *)
Definition uuidText (s : string) : bool :=
  match (s ← hexRun 8 s; s ← dash s; s ← hexRun 4 s; s ← dash s; s ← hexRun 4 s; s ← dash s;
         s ← hexRun 4 s; s ← dash s; hexRun 12 s) with
  | Some EmptyString => true
  | _ => false
  end.

(** The normalized reference; undefined for a [kind] no case names. *)
Definition validateReference (reference : jsval) : cre jsval :=
  entityId ← requiredReference (prop "entityId" reference) "entityId";
  teamId ← requiredReference (prop "teamId" reference) "teamId";
  let kind := prop "kind" reference in
  let phase := prop "phase" reference in
  if isStr kind "payment-score" then
    if negb (bool_decide (entityId = teamId)) || negb (uuidText teamId)
    then fail "CRE payment score workspace is invalid"
    else mret (VObj [("kind", VStr "payment-score"); ("entityId", VStr entityId);
                     ("teamId", VStr teamId)])
  else if isStr kind "contract" then
    event ← requiredContractEvent (prop "event" reference);
    mret (VObj [("kind", VStr "contract"); ("entityId", VStr entityId); ("teamId", VStr teamId);
                ("event", VStr event)])
  else if isStr kind "payroll" then
    let batch := prop "batchId" reference in
    batchId ← (if truthyVal batch then s ← requiredReference batch "batchId"; mret [("batchId", VStr s)]
               else mret [] : cre (list (string * jsval)));
    mret (VObj ([("kind", VStr "payroll"); ("entityId", VStr entityId); ("teamId", VStr teamId)]
                ++ batchId))
  else if isStr kind "reimbursement" then
    if negb (isStr phase "sent") && negb (isStr phase "paid")
    then fail "CRE evidence reimbursement phase is invalid"
    else mret (VObj [("kind", VStr "reimbursement"); ("entityId", VStr entityId);
                     ("teamId", VStr teamId); ("phase", phase)])
  else if isStr kind "report" then
    mret (VObj [("kind", VStr "report"); ("entityId", VStr entityId); ("teamId", VStr teamId)])
  else if isStr kind "project" then
    if negb (isStr phase "sent") && negb (isStr phase "paid") && negb (isStr phase "closed")
    then fail "CRE evidence project phase is invalid"
    else mret (VObj [("kind", VStr "project"); ("entityId", VStr entityId);
                     ("teamId", VStr teamId); ("phase", phase)])
  else mret VUndefined.

(** ** Tokens *)

(** [date.getTime()]; [None] is an invalid date. *)
Notation Date := (option Z).

(** [Math.floor(date.getTime() / 1000)] *)
Definition seconds (date : Date) : jsnum :=
  match date with Some ms => JInt (ms / 1000) | None => JNonInt "NaN" end.

(** [{ ...base, k: v, ... }] *)
Definition spread (base : jsval) (fields : list (string * jsval)) : jsval :=
  VObj (foldl (λ l kv, setEntry kv.1 kv.2 l) (match base with VObj l => l | _ => [] end) fields).

Definition claimsOf (reference : jsval) (expiresAt issuedAt : jsnum) (nonce : string) : jsval :=
  spread reference [("audience", VStr TOKEN_AUDIENCE); ("expiresAt", VNum expiresAt);
    ("issuedAt", VNum issuedAt); ("nonce", VStr nonce); ("version", VNum (JInt 1))].

(** [value ?? fallback] *)
Definition orElse (value fallback : jsval) : jsval :=
  match value with VUndefined | VNull => fallback | _ => value end.

Record CreEvidenceTokenOptions := {
  opt_now : option Date;
  opt_nonce : jsval;
  opt_ttlSeconds : jsval
}.

Definition addSeconds (n : jsnum) (k : Z) : jsnum :=
  match n with JInt z => JInt (z + k) | JNonInt _ => JNonInt "NaN" end.

Definition createCreEvidenceToken (clock : Date) (randomUUID : string) (reference : jsval)
    (seal : string → cre string) (options : CreEvidenceTokenOptions) : cre string :=
  normalized ← validateReference reference;
  let issuedAt := seconds (default clock (opt_now options)) in
  match safeInteger (orElse (opt_ttlSeconds options) (VNum (JInt (5 * 60)))) with
  | None => fail "CRE evidence token TTL is invalid"
  | Some ttlSeconds =>
      if (ttlSeconds <? 1) || (MAX_TTL_SECONDS <? ttlSeconds)
      then fail "CRE evidence token TTL is invalid" else
      nonce ← requiredReference (orElse (opt_nonce options) (VStr randomUUID)) "nonce";
      text ← stableStringify (claimsOf normalized (addSeconds issuedAt ttlSeconds) issuedAt nonce);
      sealed ← seal text;
      let token := TOKEN_PREFIX +:+ sealed in
      if MAX_TOKEN_LENGTH <? length16 token then fail "CRE evidence token is too large"
      else mret token
  end.

(** [a > n] and [a <= n]: false when [n] is NaN. *)
Definition above (a : Z) (n : jsnum) : bool :=
  match n with JInt z => z <? a | JNonInt _ => false end.
Definition atMost (a : Z) (n : jsnum) : bool :=
  match n with JInt z => a <=? z | JNonInt _ => false end.

(** [unseal] is [None] when it throws. *)
Definition openCreEvidenceToken (numberOf : string → jsnum) (token : jsval)
    (unseal : string → option string) (now : Date) : cre jsval :=
  match token with
  | VStr token =>
      if negb (startsWith TOKEN_PREFIX token)
         || (length16 token <=? length16 TOKEN_PREFIX)
         || (MAX_TOKEN_LENGTH <? length16 token)
      then fail "CRE evidence token is invalid" else
      match (text ← unseal (str_drop (String.length TOKEN_PREFIX) token); JSON_parse numberOf text) with
      | Some (VObj entries) =>
          let claims := VObj entries in
          if negb (bool_decide (safeInteger (prop "version" claims) = Some 1))
             || negb (isStr (prop "audience" claims) TOKEN_AUDIENCE)
          then fail "CRE evidence token is invalid" else
          issuedAt ← requiredInteger (prop "issuedAt" claims) "issuedAt";
          expiresAt ← requiredInteger (prop "expiresAt" claims) "expiresAt";
          let current := seconds now in
          if above issuedAt (addSeconds current CLOCK_SKEW_SECONDS) || atMost expiresAt current
          then fail "CRE evidence token is expired" else
          if (expiresAt <=? issuedAt) || (MAX_TTL_SECONDS <? expiresAt - issuedAt)
          then fail "CRE evidence token lifetime is invalid" else
          nonce ← requiredReference (prop "nonce" claims) "nonce";
          reference ← validateReference claims;
          mret (claimsOf reference (JInt expiresAt) (JInt issuedAt) nonce)
      | _ => fail "CRE evidence token is invalid"
      end
  | _ => fail "CRE evidence token is invalid"
  end.

Example canonicalDecimal_ex :
  canonicalDecimal (VStr "007.50") = Ok "7.5" ∧ canonicalDecimal (VNum (JInt 1250)) = Ok "1250" ∧
  canonicalDecimal (VStr "00.00") = Ok "0" ∧ canonicalDecimal (VStr "1.") = fail "CRE evidence decimal is invalid" ∧
  canonicalDecimal (VNum (JInt (-1))) = fail "CRE evidence decimal is invalid" ∧
  canonicalDecimal (VNum (JNonInt "1e-7")) = fail "CRE evidence decimal is invalid".
Proof. by vm_compute. Qed.

(** ** Decimals *)

Lemma trimZeros_zeros s n : trimZeros (s +:+ zeros n) = trimZeros s.
Proof.
  induction s as [|c s IH].
  - change ("" +:+ zeros n) with (zeros n). induction n as [|n IH]; [done|]. cbn. by rewrite IH.
  - rewrite string_app_cons. cbn [trimZeros]. by rewrite IH.
Qed.

Lemma dropLeadingZeros_spec s :
  str_all is_digit s = true → s ≠ "" → decimal_of (dropLeadingZeros s) (dec_value s).
Proof.
  intros Hd.
  induction s as [|c s IH]; [done|]. intros _. cbn [str_all] in Hd.
  apply andb_true_iff in Hd as [Hc Hd]. cbn [dropLeadingZeros]. destruct s as [|d s].
  { split; [|done..]. cbn. by rewrite Hc. }
  destruct (Ascii.eqb_spec c "0") as [->|Hc0].
  - specialize (IH Hd ltac:(done)). destruct IH as [H1 H2 H3 H4]. split; [done| |done..].
    rewrite H2. unfold dec_value at 2. cbn [dec_value_from].
    change (0 * 10 + (code "0" - 48)) with 0. done.
  - split; [cbn [str_all] in *; by rewrite Hc | done | done |]. cbn. by apply Ascii.eqb_neq.
Qed.

Lemma decimalParts_digits raw i f :
  decimalParts raw = Some (i, f) → str_all is_digit i = true ∧ i ≠ "" ∧ str_all is_digit f = true.
Proof.
  unfold decimalParts.
  assert (str_all is_digit (spanChars is_digit raw).1 = true) as Hs.
  { induction raw as [|c s IH]; [done|]. cbn [spanChars]. destruct (is_digit c) eqn:E; [|done].
    destruct (spanChars is_digit s). cbn in *. by rewrite E. }
  destruct (spanChars is_digit raw) as [a b]. cbn [fst] in Hs. case_decide; [done|].
  destruct b as [|c b]; [by intros [= <- <-]|].
  destruct (_ && _) eqn:E; [|done]. intros [= <- <-]. rewrite !andb_true_iff in E. tauto.
Qed.

Lemma canonicalDecimal_parts v i f :
  decimalParts (toText v) = Some (i, f) →
  canonicalDecimal v = Ok (if decide (trimZeros f = "") then pretty (dec_value i)
                           else pretty (dec_value i) +:+ "." +:+ trimZeros f).
Proof.
  intros E. pose proof (decimalParts_digits _ _ _ E) as (Hi & Hne & _).
  unfold canonicalDecimal. rewrite E. pose proof (dropLeadingZeros_spec i Hi Hne) as Hd.
  rewrite (decide_False (P := dropLeadingZeros i = "")) by apply (do_nonempty _ _ Hd).
  by rewrite (decimal_of_unique _ _ Hd).
Qed.

(** The scaled value of a decimal: both runs of digits as one number. *)
Definition scaled (i f : string) : Z := dec_value (i +:+ f).

Lemma scaled_eq i f : scaled i f = dec_value i * 10 ^ strlen f + dec_value f.
Proof. unfold scaled, dec_value at 1. by rewrite dec_value_app, dec_value_shift. Qed.

Lemma scaled_same i1 f1 i2 f2 :
  str_all is_digit f1 = true → str_all is_digit f2 = true →
  scaled i1 f1 * 10 ^ strlen f2 = scaled i2 f2 * 10 ^ strlen f1 ↔
  dec_value i1 = dec_value i2 ∧ trimZeros f1 = trimZeros f2.
Proof.
  intros H1 H2. pose proof (strlen_nonneg f1). pose proof (strlen_nonneg f2).
  set (g1 := f1 +:+ zeros (String.length f2)). set (g2 := f2 +:+ zeros (String.length f1)).
  assert (str_all is_digit g1 = true) as G1 by (unfold g1; by rewrite str_all_app, H1, zeros_digits).
  assert (str_all is_digit g2 = true) as G2 by (unfold g2; by rewrite str_all_app, H2, zeros_digits).
  assert (String.length g1 = String.length g2) as Hl.
  { pose proof (strlen_zeros (String.length f2)) as L1. pose proof (strlen_zeros (String.length f1)) as L2.
    unfold strlen in *. unfold g1, g2. rewrite !string_length_app. lia. }
  assert (strlen g1 = strlen g2) as Hs by (unfold strlen; by rewrite Hl).
  assert (∀ i f n, scaled i f * 10 ^ Z.of_nat n = dec_value i * 10 ^ strlen (f +:+ zeros n)
    + dec_value (f +:+ zeros n)) as Hsc.
  { intros i f n. rewrite scaled_eq, strlen_app, strlen_zeros. pose proof (strlen_nonneg f).
    unfold dec_value at 4. rewrite dec_value_app, dec_value_zeros, Z.pow_add_r by lia.
    fold (dec_value f). lia. }
  unfold strlen at 1. unfold strlen at 1. rewrite !Hsc. fold g1 g2. rewrite <- Hs.
  pose proof (dec_value_bound g1 G1) as B1. pose proof (dec_value_bound g2 G2) as B2.
  rewrite <- Hs in B2. rewrite <- (trimZeros_zeros f1 (String.length f2)),
    <- (trimZeros_zeros f2 (String.length f1)). fold g1 g2. split.
  - intros E. assert (dec_value i1 = dec_value i2 ∧ dec_value g1 = dec_value g2) as [-> Eg]
      by (apply (Z.div_mod_unique (10 ^ strlen g1)); lia).
    by rewrite (dec_value_inj g1 g2 Hl G1 G2 Eg).
  - intros [-> Et]. f_equal. destruct (trimZeros_spec g1) as (k1 & E1 & _).
    destruct (trimZeros_spec g2) as (k2 & E2 & _). rewrite Et in E1.
    assert (k1 = k2) as ->; [|congruence].
    apply (f_equal String.length) in E1, E2. rewrite string_length_app in E1, E2.
    pose proof (strlen_zeros k1) as L1. pose proof (strlen_zeros k2) as L2. unfold strlen in *. lia.
Qed.

Lemma decimal_text_inj (a b : Z) s t :
  0 ≤ a → 0 ≤ b →
  (if decide (s = "") then pretty a else pretty a +:+ "." +:+ s)
  = (if decide (t = "") then pretty b else pretty b +:+ "." +:+ t) ↔ a = b ∧ s = t.
Proof.
  intros Ha Hb. split; [|by intros [-> ->]]. intros E.
  assert (∀ (x : Z) u, 0 ≤ x → spanChars is_digit (if decide (u = "") then pretty x
    else pretty x +:+ "." +:+ u) = (pretty x, if decide (u = "") then "" else "." +:+ u)) as Hspan.
  { intros x u Hx. pose proof (pretty_digits x Hx). destruct (decide (u = "")).
    - by apply spanChars_whole.
    - by apply spanChars_all. }
  apply (f_equal (spanChars is_digit)) in E. rewrite !Hspan in E by done.
  injection E as E1%pretty_Z_inj E2. split; [done|].
  repeat case_decide; subst; try done. by injection E2.
Qed.

Lemma startsWith_split p s : startsWith p s = true → s = p +:+ str_drop (String.length p) s.
Proof.
  revert s. induction p as [|c p IH]; intros s; [done|]. destruct s as [|d s]; [done|].
  cbn [startsWith]. rewrite andb_true_iff, Ascii.eqb_eq. intros [-> H].
  rewrite string_app_cons. cbn [String.length str_drop]. by rewrite <- (IH s H).
Qed.

(** ** References *)

Definition goodReference (s : string) : bool :=
  negb ((length16 s =? 0) || (MAX_REFERENCE_LENGTH <? length16 s)
        || negb (str_all (λ c, negb (isControl c)) s)).

Lemma requiredReference_ok v field s :
  requiredReference v field = Ok s ↔ v = VStr s ∧ goodReference s = true.
Proof.
  unfold requiredReference, goodReference. split.
  - destruct v as [| | | |t| | |]; try done. destruct (_ || _ || _) eqn:E; [done|].
    intros [= <-]. by rewrite E.
  - intros [-> H]. apply negb_true_iff in H. by rewrite H.
Qed.

Lemma requiredReference_good s field :
  goodReference s = true → requiredReference (VStr s) field = Ok s.
Proof. intros H. by apply requiredReference_ok. Qed.

Definition named (kind entityId teamId : string) (rest : list (string * jsval))
    : list (string * jsval) :=
  [("kind", VStr kind); ("entityId", VStr entityId); ("teamId", VStr teamId)] ++ rest.

(** The references the code accepts. *)
Inductive validReference : list (string * jsval) → Prop :=
| vr_score e : goodReference e = true → uuidText e = true →
    validReference (named "payment-score" e e [])
| vr_contract e t event : goodReference e = true → goodReference t = true →
    event ∈ CONTRACT_EVENTS → validReference (named "contract" e t [("event", VStr event)])
| vr_payroll e t : goodReference e = true → goodReference t = true →
    validReference (named "payroll" e t [])
| vr_batch e t b : goodReference e = true → goodReference t = true → goodReference b = true →
    validReference (named "payroll" e t [("batchId", VStr b)])
| vr_reimbursement e t phase : goodReference e = true → goodReference t = true →
    phase ∈ ["sent"; "paid"] → validReference (named "reimbursement" e t [("phase", VStr phase)])
| vr_report e t : goodReference e = true → goodReference t = true →
    validReference (named "report" e t [])
| vr_project e t phase : goodReference e = true → goodReference t = true →
    phase ∈ ["sent"; "paid"; "closed"] → validReference (named "project" e t [("phase", VStr phase)]).

Lemma isStr_true v s : isStr v s = true ↔ v = VStr s.
Proof.
  destruct v as [| | | |t| | |]; try done. cbn. rewrite bool_decide_eq_true.
  split; [by intros -> | by intros [= ->]].
Qed.

Lemma validateReference_valid r l : validateReference r = Ok (VObj l) → validReference l.
Proof.
  unfold validateReference.
  intros (e & [_ He]%requiredReference_ok & (t & [_ Ht]%requiredReference_ok & H)%bind_ok)%bind_ok.
  revert H. cbv zeta.
  destruct (isStr (prop "kind" r) "payment-score").
  { destruct (_ || _) eqn:E; [done|]. intros [= <-].
    rewrite orb_false_iff, !negb_false_iff, bool_decide_eq_true in E. destruct E as [-> E].
    by apply vr_score. }
  destruct (isStr (prop "kind" r) "contract").
  { intros (event & Hev & [= <-])%bind_ok. apply vr_contract; [done..|]. unfold requiredContractEvent in Hev.
    destruct (prop "event" r); try done. case_decide; [|done]. by injection Hev as <-. }
  destruct (isStr (prop "kind" r) "payroll").
  { intros (b & Hb & [= <-])%bind_ok. destruct (truthyVal _).
    - apply bind_ok in Hb as (s & [_ Hs]%requiredReference_ok & [= <-]). by apply vr_batch.
    - injection Hb as <-. by apply vr_payroll. }
  destruct (isStr (prop "kind" r) "reimbursement").
  { destruct (isStr (prop "phase" r) "sent") eqn:E1.
    { apply isStr_true in E1 as ->. intros [= <-]. apply vr_reimbursement; [done..|]. left. }
    destruct (isStr (prop "phase" r) "paid") eqn:E2; [|done].
    apply isStr_true in E2 as ->. intros [= <-]. apply vr_reimbursement; [done..|]. right. left. }
  destruct (isStr (prop "kind" r) "report"). { intros [= <-]. by apply vr_report. }
  destruct (isStr (prop "kind" r) "project"); [|done].
  destruct (isStr (prop "phase" r) "sent") eqn:E1.
  { apply isStr_true in E1 as ->. intros [= <-]. apply vr_project; [done..|]. left. }
  destruct (isStr (prop "phase" r) "paid") eqn:E2.
  { apply isStr_true in E2 as ->. intros [= <-]. apply vr_project; [done..|]. right. left. }
  destruct (isStr (prop "phase" r) "closed") eqn:E3; [|done].
  apply isStr_true in E3 as ->. intros [= <-]. apply vr_project; [done..|]. right. right. left.
Qed.

(** It returns an object, or undefined. *)
Lemma validateReference_shape r v : validateReference r = Ok v → v = VUndefined ∨ ∃ l, v = VObj l.
Proof.
  unfold validateReference.
  intros (e & _ & (t & _ & H)%bind_ok)%bind_ok. revert H. cbv zeta.
  destruct (isStr _ _). { destruct (_ || _); [done|]. intros [= <-]. eauto. }
  destruct (isStr _ _). { intros (event & _ & [= <-])%bind_ok. eauto. }
  destruct (isStr _ _). { intros (b & _ & [= <-])%bind_ok. eauto. }
  destruct (isStr _ _). { destruct (_ && _); [done|]. intros [= <-]. eauto. }
  destruct (isStr _ _). { intros [= <-]. eauto. }
  destruct (isStr _ _). { destruct (_ && _); [done|]. intros [= <-]. eauto. }
  intros [= <-]. by left.
Qed.

(** The kinds some case names. *)
Definition KINDS : list string :=
  ["payment-score"; "contract"; "payroll"; "reimbursement"; "report"; "project"].

(** Which of the two it returns is decided by the kind. *)
Lemma validateReference_kind r v :
  validateReference r = Ok v → if existsb (isStr (prop "kind" r)) KINDS then v ≠ VUndefined
                               else v = VUndefined.
Proof.
  unfold validateReference. intros (e & _ & (t & _ & H)%bind_ok)%bind_ok. revert H.
  cbv zeta. cbn [existsb KINDS].
  destruct (isStr _ _). { destruct (_ || _); [done|]. by intros [= <-]. }
  destruct (isStr _ _). { by intros (event & _ & [= <-])%bind_ok. }
  destruct (isStr _ _). { by intros (b & _ & [= <-])%bind_ok. }
  destruct (isStr _ _). { destruct (_ && _); [done|]. by intros [= <-]. }
  destruct (isStr _ _). { by intros [= <-]. }
  destruct (isStr _ _). { destruct (_ && _); [done|]. by intros [= <-]. }
  by intros [= <-].
Qed.

(** Every field of the answer is the field of that name it was given. *)
Definition fieldsOf (l : list (string * jsval)) (r : jsval) : Prop :=
  Forall (λ kv, prop kv.1 r = kv.2) l.

Lemma validateReference_fields r l : validateReference r = Ok (VObj l) → fieldsOf l r.
Proof.
  unfold validateReference, fieldsOf.
  intros (e & [He _]%requiredReference_ok & (t & [Ht _]%requiredReference_ok & H)%bind_ok)%bind_ok.
  revert H. cbv zeta.
  destruct (isStr _ _) eqn:E. { apply isStr_true in E. destruct (_ || _); [done|]. intros [= <-]. by repeat constructor. }
  clear E. destruct (isStr _ _) eqn:E.
  { apply isStr_true in E. intros (event & Hev & [= <-])%bind_ok. unfold requiredContractEvent in Hev.
    destruct (prop "event" r) eqn:Ev; try done. case_decide; [|done]. injection Hev as <-.
    by repeat constructor. }
  clear E. destruct (isStr _ _) eqn:E.
  { apply isStr_true in E. intros (b & Hb & [= <-])%bind_ok. repeat (constructor; [done|]).
    destruct (truthyVal _); [|injection Hb as <-; constructor].
    apply bind_ok in Hb as (s & [Hs _]%requiredReference_ok & [= <-]). by repeat constructor. }
  clear E. destruct (isStr _ _) eqn:E.
  { apply isStr_true in E. destruct (_ && _); [done|]. intros [= <-]. by repeat constructor. }
  clear E. destruct (isStr _ _) eqn:E. { apply isStr_true in E. intros [= <-]. by repeat constructor. }
  clear E. destruct (isStr _ _) eqn:E; [|done].
  apply isStr_true in E. destruct (_ && _); [done|]. intros [= <-]. by repeat constructor.
Qed.

(** ** Claims *)

(** What the reader finds in the claims object, in any key order. *)
Record claimsRead (c : jsval) (l : list (string * jsval)) (expiresAt issuedAt : jsnum)
    (nonce : string) : Prop := {
  cr_object : ∃ entries, c = VObj entries;
  cr_version : prop "version" c = VNum (JInt 1);
  cr_audience : prop "audience" c = VStr TOKEN_AUDIENCE;
  cr_issued : prop "issuedAt" c = VNum issuedAt;
  cr_expires : prop "expiresAt" c = VNum expiresAt;
  cr_nonce : prop "nonce" c = VStr nonce;
  cr_reference : validateReference c = Ok (VObj l)
}.

(** Reads the fields of a concrete object in the goal. *)
Ltac read_props :=
  repeat match goal with
  | |- context [prop ?k ?c] =>
      let v := eval vm_compute in (prop k c) in
      change (prop k c) with v
  end.

Ltac read_kinds :=
  repeat match goal with
  | |- context [isStr (VStr ?a) ?b] =>
      let v := eval vm_compute in (isStr (VStr a) b) in
      match v with
      | true => change (isStr (VStr a) b) with true
      | false => change (isStr (VStr a) b) with false
      end
  end; cbn iota.

Lemma requiredContractEvent_ok s : s ∈ CONTRACT_EVENTS → requiredContractEvent (VStr s) = Ok s.
Proof. intros H. cbn [requiredContractEvent]. by rewrite decide_True. Qed.

Lemma claims_read l expiresAt issuedAt nonce :
  validReference l →
  claimsRead (canon (claimsOf (VObj l) expiresAt issuedAt nonce)) l expiresAt issuedAt nonce.
Proof.
  intros Hl.
  destruct Hl as [e He Hu|e t ev He Ht Hev|e t He Ht|e t b He Ht Hb|e t ph He Ht Hph|e t He Ht|e t ph He Ht Hph];
    (split; [eexists; vm_compute; reflexivity | reflexivity.. |]);
    unfold validateReference; read_props; rewrite !requiredReference_good by done;
    cbn [mbind result_bind]; cbn zeta; read_kinds.
  - by rewrite bool_decide_eq_true_2, Hu.
  - by rewrite requiredContractEvent_ok.
  - done.
  - assert (truthyVal (VStr b) = true) as E. { by destruct b. }
    by rewrite E.
  - by repeat (apply elem_of_cons in Hph as [->|Hph]; [done|]); apply elem_of_nil in Hph.
  - done.
  - by repeat (apply elem_of_cons in Hph as [->|Hph]; [done|]); apply elem_of_nil in Hph.
Qed.

Lemma claims_wf numberOf l expiresAt issuedAt nonce :
  validReference l → numOk numberOf expiresAt → numOk numberOf issuedAt →
  wfVal numberOf (claimsOf (VObj l) expiresAt issuedAt nonce).
Proof.
  intros Hl He Hi. assert (numOk numberOf (JInt 1)) as H1 by by apply safe_numOk.
  destruct Hl; (split; [apply (bool_decide_unpack _); vm_compute; reflexivity|]);
    repeat (apply Forall_cons_2; [first [exact I | exact He | exact Hi | exact H1]|]); apply Forall_nil_2.
Qed.

(** ** Properties *)

(** Amounts are compared by value: two texts the code accepts as decimals have the
    same canonical text exactly when they denote the same rational number. *)
Theorem canonicalDecimal_by_value v1 v2 i1 f1 i2 f2 :
  decimalParts (toText v1) = Some (i1, f1) → decimalParts (toText v2) = Some (i2, f2) →
  is_ok (canonicalDecimal v1) = true ∧
  (canonicalDecimal v1 = canonicalDecimal v2 ↔
   scaled i1 f1 * 10 ^ strlen f2 = scaled i2 f2 * 10 ^ strlen f1).
Proof.
  intros E1 E2. rewrite (canonicalDecimal_parts _ _ _ E1), (canonicalDecimal_parts _ _ _ E2).
  split; [done|].
  pose proof (decimalParts_digits _ _ _ E1) as (Hi1 & _ & Hf1).
  pose proof (decimalParts_digits _ _ _ E2) as (Hi2 & _ & Hf2).
  rewrite scaled_same by done. pose proof (dec_value_bound i1 Hi1). pose proof (dec_value_bound i2 Hi2).
  rewrite <- (decimal_text_inj (dec_value i1) (dec_value i2) (trimZeros f1) (trimZeros f2)) by lia.
  split; [by intros [= ->] | by intros ->].
Qed.

Lemma canonicalDecimal_by_value_witness :
  scaled "007" "50" * 10 ^ 1 = scaled "7" "5" * 10 ^ 2 ∧
  canonicalDecimal (VStr "007.50") = canonicalDecimal (VStr "7.5").
Proof.
  split; [by vm_compute|].
  apply (canonicalDecimal_by_value (VStr "007.50") (VStr "7.5") "007" "50" "7" "5"); by vm_compute.
Defined.

(** ** Tokens *)

Lemma length16_app a b : length16 (a +:+ b) = length16 a + length16 b.
Proof.
  induction a as [|c a IH]; [done|]. rewrite string_app_cons. cbn [length16]. rewrite IH. lia.
Qed.

Definition MAX_DATE : Z := 8640000000000000.

(** What creating a token commits to. *)
Lemma create_ok clock uuid reference seal options token :
  createCreEvidenceToken clock uuid reference seal options = Ok token →
  ∃ ref ttl nonce text sealed,
    validateReference reference = Ok ref ∧
    safeInteger (orElse (opt_ttlSeconds options) (VNum (JInt 300))) = Some ttl ∧
    1 ≤ ttl ≤ MAX_TTL_SECONDS ∧
    orElse (opt_nonce options) (VStr uuid) = VStr nonce ∧ goodReference nonce = true ∧
    let issued := seconds (default clock (opt_now options)) in
    stableStringify (claimsOf ref (addSeconds issued ttl) issued nonce) = Ok text ∧
    seal text = Ok sealed ∧ token = TOKEN_PREFIX +:+ sealed ∧ length16 token ≤ MAX_TOKEN_LENGTH.
Proof.
  unfold createCreEvidenceToken. intros (ref & Href & H)%bind_ok. cbv zeta in H.
  change (5 * 60) with 300 in H.
  destruct (safeInteger _) as [ttl|] eqn:Es; [|done]. destruct (_ || _) eqn:Ettl; [done|].
  apply orb_false_iff in Ettl. zify_bool.
  apply bind_ok in H as (nonce & [Hv Hn]%requiredReference_ok & H).
  apply bind_ok in H as (text & Ht & H). apply bind_ok in H as (sealed & Hs & H).
  destruct (MAX_TOKEN_LENGTH <? _) eqn:E; [done|]. apply ok_inj in H as <-. zify_bool.
  exists ref, ttl, nonce, text, sealed. split_and!; try done; lia.
Qed.

(** What a token that passed the prefix and JSON checks still has to satisfy. *)
Lemma open_claims numberOf sealed unseal now text entries issued expires nonce ref :
  0 < length16 sealed → length16 (TOKEN_PREFIX +:+ sealed) ≤ MAX_TOKEN_LENGTH →
  unseal sealed = Some text → JSON_parse numberOf text = Some (VObj entries) →
  safeInteger (prop "version" (VObj entries)) = Some 1 →
  prop "audience" (VObj entries) = VStr TOKEN_AUDIENCE →
  safeInteger (prop "issuedAt" (VObj entries)) = Some issued →
  safeInteger (prop "expiresAt" (VObj entries)) = Some expires →
  requiredReference (prop "nonce" (VObj entries)) "nonce" = Ok nonce →
  validateReference (VObj entries) = Ok ref → 0 < expires - issued ≤ MAX_TTL_SECONDS →
  openCreEvidenceToken numberOf (VStr (TOKEN_PREFIX +:+ sealed)) unseal now
  = if above issued (addSeconds (seconds now) CLOCK_SKEW_SECONDS) || atMost expires (seconds now)
    then fail "CRE evidence token is expired"
    else Ok (claimsOf ref (JInt expires) (JInt issued) nonce).
Proof.
  intros Hs Hlen Hu Hp Hver Haud Hi He Hn Hr Hl. unfold openCreEvidenceToken.
  rewrite startsWith_app, length16_app in *. cbn [negb orb].
  rewrite (proj2 (Z.leb_gt _ _)), (proj2 (Z.ltb_ge _ _)) by lia. cbn [orb].
  rewrite str_drop_app, Hu. cbn [mbind option_bind]. rewrite Hp. cbv zeta.
  rewrite Hver, bool_decide_eq_true_2, Haud by done.
  change (isStr (VStr TOKEN_AUDIENCE) TOKEN_AUDIENCE) with true. cbn [negb orb].
  unfold requiredInteger. rewrite Hi, He. cbn [mbind result_bind mret result_ret].
  destruct (_ || _); [done|]. rewrite (proj2 (Z.leb_gt _ _)), (proj2 (Z.ltb_ge _ _)) by lia.
  cbn [orb]. rewrite Hn. cbn [mbind result_bind]. by rewrite Hr.
Qed.

Lemma safe_seconds ms : Z.abs ms ≤ MAX_DATE → Z.abs (ms / 1000) ≤ 8640000000000.
Proof. unfold MAX_DATE. intros H. pose proof (Z.div_mod ms 1000). pose proof (Z.mod_pos_bound ms 1000). lia. Qed.

Lemma safeInteger_num v z : safeInteger v = Some z → v = VNum (JInt z).
Proof. destruct v as [| | |[n|]| | | |]; try done. cbn. destruct (_ <=? _); [|done]. by intros [= ->]. Qed.

Lemma requiredInteger_num v field z : requiredInteger v field = Ok z → v = VNum (JInt z).
Proof.
  unfold requiredInteger. destruct (safeInteger v) as [n|] eqn:E; [|done]. intros [= <-].
  by apply safeInteger_num.
Qed.

(** The nonce and the lifetime a token is created with: the options' own, or else
    the random UUID and five minutes. *)
Definition nonceOf (randomUUID : string) (options : CreEvidenceTokenOptions) : jsval :=
  orElse (opt_nonce options) (VStr randomUUID).
Definition ttlOf (options : CreEvidenceTokenOptions) : option Z :=
  safeInteger (orElse (opt_ttlSeconds options) (VNum (JInt 300))).

(** C39: a sealed reference comes back unchanged for as long as it lives. Given a
    caller's [unseal] that undoes its [seal], and a valid issue date, a token
    [createCreEvidenceToken] makes for a reference of one of the six kinds is the
    prefix and the sealed claims: the fields of the reference given, the nonce of the
    options (the random UUID when they name none), the issue second and the issue
    second plus the options' lifetime (300 when they name none, 1 to 900 seconds).
    [openCreEvidenceToken] answers exactly those claims at every date from thirty
    seconds before the issue second until just before the expiry, and reports the
    token expired at any other date. *)
Theorem token_roundtrip numberOf clock uuid reference seal unseal options token l ms :
  (∀ p t, seal p = Ok t → 0 < length16 t ∧ unseal t = Some p) →
  default clock (opt_now options) = Some ms → Z.abs ms ≤ MAX_DATE →
  validateReference reference = Ok (VObj l) →
  createCreEvidenceToken clock uuid reference seal options = Ok token →
  ∃ ttl nonce,
    ttlOf options = Some ttl ∧ 1 ≤ ttl ≤ MAX_TTL_SECONDS ∧ nonceOf uuid options = VStr nonce ∧
    fieldsOf l reference ∧
    let claims := claimsOf (VObj l) (JInt (ms / 1000 + ttl)) (JInt (ms / 1000)) nonce in
    (sealed ← (text ← stableStringify claims; seal text); mret (TOKEN_PREFIX +:+ sealed)) = Ok token ∧
    ∀ ms',
      openCreEvidenceToken numberOf (VStr token) unseal (Some ms')
      = if (ms' / 1000 + CLOCK_SKEW_SECONDS <? ms / 1000) || (ms / 1000 + ttl <=? ms' / 1000)
        then fail "CRE evidence token is expired" else Ok claims.
Proof.
  intros Hseal Hnow Hms Href
    (ref & ttl & nonce & text & sealed & Hr & Hto & Httl & Hno & Hn & Ht & Hs & -> & Hlen)%create_ok.
  rewrite Href in Hr. apply ok_inj in Hr as <-. rewrite Hnow in Ht. cbn [seconds addSeconds] in Ht.
  exists ttl, nonce. do 3 (split; [done|]). split; [by apply validateReference_fields|].
  cbv zeta. split. { rewrite Ht. cbn [mbind result_bind]. by rewrite Hs. }
 intros ms'. destruct (Hseal _ _ Hs) as [Hpos Hu].
  pose proof (validateReference_valid _ _ Href) as Hv. pose proof (safe_seconds ms Hms).
  assert (∀ z, Z.abs z ≤ 8640000000000 + 900 → safeInteger (VNum (JInt z)) = Some z) as Hsafe.
  { intros z Hz. cbn. unfold MAX_SAFE_INTEGER. by rewrite (proj2 (Z.leb_le _ _)) by lia. }
  unfold MAX_TTL_SECONDS in Httl.
  pose proof (claims_read l (JInt (ms / 1000 + ttl)) (JInt (ms / 1000)) nonce Hv) as Hc.
  assert (JSON_parse numberOf text = Some (canon (claimsOf (VObj l) (JInt (ms / 1000 + ttl))
    (JInt (ms / 1000)) nonce))) as Hp.
  { apply parse_reads. eapply stable_reads; [|done].
    apply claims_wf; [done|apply safe_numOk..]; unfold MAX_SAFE_INTEGER; lia. }
  destruct Hc as [[entries Ee] Hver Haud Hi He Hnc Hrf]. rewrite Ee in *.
  apply (open_claims numberOf sealed unseal (Some ms') text entries (ms / 1000) (ms / 1000 + ttl)
    nonce (VObj l)); try done; unfold MAX_TTL_SECONDS; try lia.
  - by rewrite Hver.
  - rewrite Hi. apply Hsafe. lia.
  - rewrite He. apply Hsafe. lia.
  - rewrite Hnc. by apply requiredReference_good.
Qed.

(** C40: what a token that opens has been checked for. Its payload unseals to a JSON
    object of this version and audience, whose integers [issuedAt] and [expiresAt] are
    at most fifteen minutes apart and in that order; when the date given is valid it
    was issued no later than thirty seconds from then and has not expired (an invalid
    date compares false with both, and no window is enforced). When the payload's kind
    is one of the six, the answer carries a valid reference whose fields are the
    payload's own; for any other kind, which no case of [validateReference] refuses,
    the answer carries no reference at all. Nonce and window are the payload's. *)
Theorem open_token_safe numberOf token unseal now c :
  openCreEvidenceToken numberOf token unseal now = Ok c →
  ∃ sealed text entries issued expires nonce ref,
    token = VStr (TOKEN_PREFIX +:+ sealed) ∧ unseal sealed = Some text ∧
    JSON_parse numberOf text = Some (VObj entries) ∧
    let payload := VObj entries in
    prop "audience" payload = VStr TOKEN_AUDIENCE ∧ prop "version" payload = VNum (JInt 1) ∧
    prop "issuedAt" payload = VNum (JInt issued) ∧ prop "expiresAt" payload = VNum (JInt expires) ∧
    0 < expires - issued ≤ 900 ∧
    (∀ ms, now = Some ms → issued ≤ ms / 1000 + 30 ∧ ms / 1000 < expires) ∧
    prop "nonce" payload = VStr nonce ∧ goodReference nonce = true ∧
    (if existsb (isStr (prop "kind" payload)) KINDS
     then ∃ l, ref = VObj l ∧ validReference l ∧ fieldsOf l payload
     else ref = VUndefined) ∧
    c = claimsOf ref (JInt expires) (JInt issued) nonce.
Proof.
  unfold openCreEvidenceToken. destruct token as [| | | |tok| | |]; try done.
  destruct (startsWith TOKEN_PREFIX tok) eqn:Epre; [|done]. cbn [negb orb].
  destruct (_ || _); [done|].
  destruct (unseal _) as [text|] eqn:Eu; [|done]. cbn [mbind option_bind].
  destruct (JSON_parse numberOf text) as [[| | | | | |entries|]|] eqn:Ep; try done. cbv zeta.
  destruct (negb _ || negb _) eqn:Ev; [done|].
  apply orb_false_iff in Ev as [Ever%negb_false_iff%bool_decide_eq_true Eaud%negb_false_iff%isStr_true].
  intros (issued & Hi & (expires & He & H)%bind_ok)%bind_ok.
  destruct (_ || _) eqn:Ew in H; [done|]. apply orb_false_iff in Ew as [Ew1 Ew2].
  destruct (_ || _) eqn:El in H; [done|]. apply orb_false_iff in El as [El1 El2].
  apply bind_ok in H as (nonce & [Hnv Hn]%requiredReference_ok & H).
  apply bind_ok in H as (ref & Hr & H). apply ok_inj in H as <-.
  unfold MAX_TTL_SECONDS in *. zify_bool.
  exists (str_drop (String.length TOKEN_PREFIX) tok), text, entries, issued, expires, nonce, ref.
  cbv zeta. do 2 (split; [first [done | f_equal; by apply startsWith_split]|]).
  split; [done|]. split; [done|]. split; [by apply safeInteger_num|].
  split; [by apply requiredInteger_num in Hi|]. split; [by apply requiredInteger_num in He|].
  split; [lia|]. split.
  { intros ms ->. cbn in Ew1, Ew2. unfold CLOCK_SKEW_SECONDS in *. zify_bool. lia. }
  do 2 (split; [done|]). split; [|done].
  pose proof (validateReference_kind _ _ Hr) as Hk.
  destruct (existsb _ _); [|done].
  destruct (validateReference_shape _ _ Hr) as [->|[l ->]]; [done|].
  exists l. split; [done|]. split; [by eapply validateReference_valid | by apply validateReference_fields].
Qed.

(** ** Concrete inputs *)

Definition sampleReference : jsval :=
  VObj [("kind", VStr "payroll"); ("entityId", VStr "payroll-1"); ("teamId", VStr "team-1")].
Definition sampleOptions : CreEvidenceTokenOptions :=
  {| opt_now := Some (Some 1784404800000); opt_nonce := VStr "nonce-1";
     opt_ttlSeconds := VNum (JInt 60) |}.
Definition sampleToken : cre string :=
  createCreEvidenceToken None "uuid" sampleReference mret sampleOptions.

Lemma token_roundtrip_witness :
  ∃ token l, sampleToken = Ok token ∧ fieldsOf l sampleReference ∧
    let claims := claimsOf (VObj l) (JInt (1784404800 + 60)) (JInt 1784404800) "nonce-1" in
    openCreEvidenceToken JNonInt (VStr token) Some (Some 1784404770000) = Ok claims ∧
    openCreEvidenceToken JNonInt (VStr token) Some (Some 1784404859999) = Ok claims ∧
    openCreEvidenceToken JNonInt (VStr token) Some (Some 1784404860000)
    = fail "CRE evidence token is expired".
Proof.
  eexists _, _.
  edestruct (token_roundtrip JNonInt None "uuid" sampleReference
    (λ s, if decide (0 < length16 s) then Ok s else fail "empty") Some sampleOptions)
    as (ttl & nonce & Ht & _ & Hn & Hf & _ & Ho).
  - intros p t. cbv beta. case_decide; [|done]. intros [= ->]. done.
  - vm_compute. reflexivity.
  - done.
  - vm_compute. reflexivity.
  - vm_compute. reflexivity.
  - assert (ttl = 60) as -> by (vm_compute in Ht; by injection Ht).
    assert (nonce = "nonce-1") as -> by (vm_compute in Hn; by injection Hn).
    split; [vm_compute; reflexivity|]. split; [exact Hf|].
    split; [exact (Ho 1784404770000)|]. split; [exact (Ho 1784404859999)|]. exact (Ho 1784404860000).
Defined.

Definition sampleTokenText : string := match sampleToken with Ok t => t | Throw _ => "" end.

Lemma open_token_safe_witness :
  ∃ c expires issued nonce ref,
    openCreEvidenceToken JNonInt (VStr sampleTokenText) Some (Some 1784404830000) = Ok c ∧
    c = claimsOf ref (JInt expires) (JInt issued) nonce ∧
    1784404830000 / 1000 < expires ∧ 0 < expires - issued ≤ 900.
Proof.
  edestruct (open_token_safe JNonInt (VStr sampleTokenText) Some (Some 1784404830000))
    as (sealed & text & entries & issued & expires & nonce & ref & _ & _ & _ & _ & _ & _ & _ & Hl
        & Hw & _ & _ & _ & Hc).
  - vm_compute. reflexivity.
  - eexists _, expires, issued, nonce, ref. split_and!; [vm_compute; reflexivity | exact Hc
      | apply (Hw _ eq_refl) | apply Hl | apply Hl].
Defined.
