(* ===== verification/CreCommitments.v ===== *)
(** * CRE evidence: commitments

    Models [packages/cre/src/evidence.ts]: the five
    [build...EvidenceCommitments] functions and
    [parseCreEvidenceCommitments]. Records and facts keep every field as a
    [jsval], since the code checks them at run time; a result object is a
    [jsval] with its entries in the order the code writes them. viem's
    [keccak256], [toHex] and [isHex] are parameters. *)

From S2P Require Import Prelude.
From S2P Require Import Js.
From S2P Require Import Decimal.
From S2P Require Import CreJson.
From S2P Require Import CreParse.
From S2P Require Import CreEvidence.

Class Viem := {
  (** [keccak256(toHex(text))] *)
  keccakText : string → string;
  (** [isHex(text, { strict: true })] *)
  isHex : string → bool
}.

Class ViemLaws `{Viem} : Prop := {
  keccak_hex : ∀ s, isHex (keccakText s) = true;
  (** [0x] and 32 bytes *)
  keccak_length : ∀ s, length16 (keccakText s) = 66
}.

Record ContractLifecycleEvidenceRecord := {
  cl_agreementId : jsval; cl_teamId : jsval; cl_status : jsval; cl_agreementHash : jsval;
  cl_chainId : jsval; cl_totalAmount : jsval; cl_fundedAmount : jsval; cl_fundedAt : jsval;
  cl_escrowAddress : jsval; cl_updatedAt : jsval; cl_agreement : jsval
}.
Record PayrollEvidenceRecord := {
  pr_payrollId : jsval; pr_teamId : jsval; pr_status : jsval; pr_payPeriodStart : jsval;
  pr_payPeriodEnd : jsval; pr_totalAmountUsdc : jsval; pr_totalAmountEurc : jsval;
  pr_recipientCount : jsval; pr_recipients : jsval; pr_executedAt : jsval
}.
Record ReportEvidenceRecord := {
  re_reportId : jsval; re_teamId : jsval; re_reportNumber : jsval; re_status : jsval;
  re_fromDate : jsval; re_toDate : jsval; re_createdAt : jsval; re_transactionsData : jsval;
  re_financialMetrics : jsval; re_aiAnalysis : jsval
}.
Record ReimbursementEvidenceRecord := {
  rb_requestId : jsval; rb_teamId : jsval; rb_status : jsval; rb_currency : jsval;
  rb_subtotal : jsval; rb_markupPercent : jsval; rb_markupAmount : jsval; rb_total : jsval;
  rb_sentAt : jsval; rb_paidAt : jsval; rb_paidTxHash : jsval
}.
Record ProjectEvidenceRecord := {
  pj_projectId : jsval; pj_teamId : jsval; pj_status : jsval; pj_closedAt : jsval
}.
(** [ReimbursementEvidenceFacts] and [ProjectEvidenceFacts] have the same fields. *)
Record EvidenceFacts := {
  fa_phase : jsval; fa_itemCount : jsval; fa_itemsHash : jsval; fa_settledTotal : jsval;
  fa_settlementCount : jsval
}.

(** [!Number.isSafeInteger(v) || v < 1] is the negation of this. *)
Definition positiveInteger (v : jsval) : bool :=
  match safeInteger v with Some z => 1 <=? z | None => false end.
Definition isNullishVal (v : jsval) : bool :=
  match v with VUndefined | VNull => true | _ => false end.

Definition lowerHex (c : ascii) : bool := is_digit c || between 97 102 c.
(** [SHA256_HEX.test(text)] *)
Definition sha256Text (s : string) : bool := (strlen s =? 64) && str_all lowerHex s.

(** [Object.values(v)] *)
Definition valuesOf (v : jsval) : list jsval :=
  match v with VObj l => map snd l | VArr l => l | _ => [] end.

Section commitments.
Context `{Viem}.

Definition commitment (value : jsval) : cre string :=
  text ← stableStringify value; mret (keccakText text).

(** [keccak256(toHex(`prefix:${id}`))] *)
Definition entityCommitment (prefix id : string) : string := keccakText (prefix +:+ ":" +:+ id).

(** ** Contracts *)

(** The gate of each lifecycle event: the message of the refusal. *)
Definition contractGate (event status fundedAmount : string) (fundedAt escrowAddress : jsval)
    : option string :=
  if bool_decide (event = "contract_fund") && (negb (truthyVal fundedAt) || bool_decide (fundedAmount = "0"))
  then Some "Contract lifecycle funding evidence is not ready"
  else if bool_decide (event = "contract_sign")
    && negb (bool_decide (status = "pending_sign")) && negb (bool_decide (status = "active"))
    && negb (bool_decide (status = "completed"))
  then Some "Contract lifecycle signing evidence is not ready"
  else if bool_decide (event = "contract_complete") && negb (bool_decide (status = "completed"))
  then Some "Contract lifecycle completion evidence is not ready"
  else if bool_decide (event = "contract_cancel") && negb (bool_decide (status = "cancelled"))
    && negb (bool_decide (status = "canceled"))
  then Some "Contract lifecycle cancellation evidence is not ready"
  else if bool_decide (event = "contract_deploy") && negb (truthyVal escrowAddress)
    && negb (bool_decide (status = "deploying")) && negb (bool_decide (status = "active"))
    && negb (bool_decide (status = "completed"))
  then Some "Contract lifecycle deployment evidence is not ready"
  else None.

Definition contractState (record : ContractLifecycleEvidenceRecord)
    (fundedAmount status totalAmount updatedAt : string) : jsval :=
  VObj [("agreementHash", cl_agreementHash record); ("chainId", cl_chainId record);
        ("escrowConfigured", VBool (truthyVal (cl_escrowAddress record)));
        ("fundedAmount", VStr fundedAmount); ("fundedAt", cl_fundedAt record);
        ("status", VStr status); ("totalAmount", VStr totalAmount); ("updatedAt", VStr updatedAt)].

Definition contractSnapshot (agreementCommitment event stateCommitment teamId : string) : jsval :=
  VObj [("agreementCommitment", VStr agreementCommitment); ("event", VStr event);
        ("stateCommitment", VStr stateCommitment);
        ("teamCommitment", VStr (entityCommitment "team" teamId))].

(** [chainId === null || (Number.isSafeInteger(chainId) && chainId >= 1)] *)
Definition chainIdOk (v : jsval) : bool :=
  match v with VNull => true | _ => positiveInteger v end.

Definition buildContractLifecycleEvidenceCommitments (record : ContractLifecycleEvidenceRecord)
    (event : jsval) : cre jsval :=
  agreementId ← requiredReference (cl_agreementId record) "agreementId";
  teamId ← requiredReference (cl_teamId record) "teamId";
  normalizedEvent ← requiredContractEvent event;
  status ← requiredReference (cl_status record) "contract status";
  updatedAt ← requiredReference (cl_updatedAt record) "contract updatedAt";
  if negb (isObjectVal (cl_agreement record))
  then fail "Contract lifecycle agreement evidence is invalid" else
  if negb (chainIdOk (cl_chainId record))
  then fail "Contract lifecycle chainId is invalid" else
  fundedAmount ← canonicalDecimal (cl_fundedAmount record);
  totalAmount ← canonicalDecimal (cl_totalAmount record);
  match contractGate normalizedEvent status fundedAmount (cl_fundedAt record) (cl_escrowAddress record) with
  | Some message => fail message
  | None =>
      agreementCommitment ← commitment (cl_agreement record);
      stateCommitment ← commitment (contractState record fundedAmount status totalAmount updatedAt);
      snapshotCommitment ←
        commitment (contractSnapshot agreementCommitment normalizedEvent stateCommitment teamId);
      mret (VObj [("kind", VStr "contract"); ("event", VStr normalizedEvent);
                  ("entityCommitment", VStr (entityCommitment "contract" agreementId));
                  ("agreementCommitment", VStr agreementCommitment);
                  ("stateCommitment", VStr stateCommitment);
                  ("snapshotCommitment", VStr snapshotCommitment)])
  end.

(** ** Payroll *)

Definition checkRecipient (recipient : jsval) : cre () :=
  match recipient with
  | VObj _ =>
      _ ← canonicalDecimal (prop "amount" recipient);
      _ ← requiredReference (prop "walletAddress" recipient) "recipient wallet";
      mret tt
  | _ => fail "Payroll evidence recipient is invalid"
  end.

Definition countGroup (group : jsval) : cre Z :=
  match group with
  | VArr l => checked ← mapM checkRecipient l; mret (Z.of_nat (length checked))
  | _ => fail "Payroll evidence recipient group is invalid"
  end.

Definition countRecipients (recipients : jsval) : cre Z :=
  counts ← mapM countGroup (valuesOf recipients); mret (foldr Z.add 0 counts).

Definition buildPayrollEvidenceCommitments (record : PayrollEvidenceRecord) (batchId : jsval)
    : cre jsval :=
  payrollId ← requiredReference (pr_payrollId record) "payrollId";
  teamId ← requiredReference (pr_teamId record) "teamId";
  if negb (isStr (pr_status record) "executed") || negb (truthyVal (pr_executedAt record))
  then fail "Payroll evidence is not executed" else
  if negb (positiveInteger (pr_recipientCount record))
  then fail "Payroll evidence recipient count is invalid" else
  if negb (isObjectVal (pr_recipients record))
  then fail "Payroll evidence recipients are invalid" else
  countedRecipients ← countRecipients (pr_recipients record);
  if negb (bool_decide (safeInteger (pr_recipientCount record) = Some countedRecipients))
  then fail "Payroll evidence recipient count does not match recipients" else
  payPeriodStart ← requiredReference (pr_payPeriodStart record) "payPeriodStart";
  payPeriodEnd ← requiredReference (pr_payPeriodEnd record) "payPeriodEnd";
  totalAmountUsdc ← canonicalDecimal (pr_totalAmountUsdc record);
  totalAmountEurc ← canonicalDecimal (pr_totalAmountEurc record);
  executedAt ← requiredReference (pr_executedAt record) "executedAt";
  recordCommitment ← commitment (VObj
    [("payrollId", VStr payrollId); ("teamId", VStr teamId);
     ("payPeriodStart", VStr payPeriodStart); ("payPeriodEnd", VStr payPeriodEnd);
     ("totalAmountUsdc", VStr totalAmountUsdc); ("totalAmountEurc", VStr totalAmountEurc);
     ("recipientCount", pr_recipientCount record); ("executedAt", VStr executedAt)]);
  recipientCommitment ← commitment (pr_recipients record);
  batchCommitment ← (if truthyVal batchId
    then b ← requiredReference batchId "batchId"; mret (entityCommitment "payroll-batch" b)
    else mret (entityCommitment "payroll-record" recordCommitment) : cre string);
  mret (VObj [("kind", VStr "payroll");
              ("entityCommitment", VStr (entityCommitment "payroll" payrollId));
              ("recordCommitment", VStr recordCommitment);
              ("recipientCommitment", VStr recipientCommitment);
              ("batchCommitment", VStr batchCommitment)]).

(** ** Reports *)

Definition buildReportEvidenceCommitments (record : ReportEvidenceRecord) : cre jsval :=
  reportId ← requiredReference (re_reportId record) "reportId";
  teamId ← requiredReference (re_teamId record) "teamId";
  if negb (isStr (re_status record) "completed") then fail "Report evidence is not completed" else
  if isNullishVal (re_transactionsData record) || isNullishVal (re_financialMetrics record)
     || isNullishVal (re_aiAnalysis record)
  then fail "Report evidence sources are incomplete" else
  transactionsHash ← commitment (re_transactionsData record);
  metricsHash ← commitment (re_financialMetrics record);
  analysisHash ← commitment (re_aiAnalysis record);
  combinedHash ← commitment (VObj [("analysisHash", VStr analysisHash);
    ("metricsHash", VStr metricsHash); ("transactionsHash", VStr transactionsHash)]);
  reportNumber ← requiredReference (re_reportNumber record) "reportNumber";
  fromDate ← requiredReference (re_fromDate record) "fromDate";
  toDate ← requiredReference (re_toDate record) "toDate";
  createdAt ← requiredReference (re_createdAt record) "createdAt";
  reportCommitment ← commitment (VObj
    [("reportId", VStr reportId); ("teamId", VStr teamId); ("reportNumber", VStr reportNumber);
     ("fromDate", VStr fromDate); ("toDate", VStr toDate); ("createdAt", VStr createdAt);
     ("combinedHash", VStr combinedHash)]);
  mret (VObj [("kind", VStr "report");
              ("entityCommitment", VStr (entityCommitment "financial-report" reportId));
              ("reportCommitment", VStr reportCommitment);
              ("transactionsHash", VStr transactionsHash); ("metricsHash", VStr metricsHash);
              ("analysisHash", VStr analysisHash); ("combinedHash", VStr combinedHash)]).

(** ** Reimbursements and projects *)

(** The item facts both builders check. *)
Definition itemsOk (facts : EvidenceFacts) : bool :=
  positiveInteger (fa_itemCount facts) && sha256Text (toText (fa_itemsHash facts)).
(** The settlement facts both builders check. *)
Definition settlementOk (facts : EvidenceFacts) : bool :=
  negb (isNullishVal (fa_settledTotal facts)) && positiveInteger (fa_settlementCount facts).

Definition buildReimbursementEvidenceCommitments (record : ReimbursementEvidenceRecord)
    (facts : EvidenceFacts) : cre jsval :=
  requestId ← requiredReference (rb_requestId record) "requestId";
  teamId ← requiredReference (rb_teamId record) "teamId";
  if isStr (rb_status record) "draft" || isStr (rb_status record) "canceled"
  then fail "Reimbursement evidence is not attestable" else
  if isStr (fa_phase facts) "paid" && negb (isStr (rb_status record) "paid")
  then fail "Reimbursement evidence is not paid" else
  if negb (itemsOk facts) then fail "Reimbursement item evidence is invalid" else
  subtotal ← canonicalDecimal (rb_subtotal record);
  markupPercent ← match rb_markupPercent record with
                  | VNull => mret VNull
                  | v => s ← canonicalDecimal v; mret (VStr s)
                  end;
  markupAmount ← canonicalDecimal (rb_markupAmount record);
  total ← canonicalDecimal (rb_total record);
  currency ← requiredReference (rb_currency record) "currency";
  requestCommitment ← commitment (VObj
    [("requestId", VStr requestId); ("teamId", VStr teamId); ("phase", fa_phase facts);
     ("itemCount", fa_itemCount facts); ("subtotal", VStr subtotal);
     ("markupPercent", markupPercent); ("markupAmount", VStr markupAmount); ("total", VStr total);
     ("itemsHash", fa_itemsHash facts); ("currency", VStr currency); ("sentAt", rb_sentAt record)]);
  settlementCommitment ← (if isStr (fa_phase facts) "paid" then
      if negb (settlementOk facts) then fail "Reimbursement settlement evidence is invalid" else
      settledTotal ← canonicalDecimal (fa_settledTotal facts);
      commitment (VObj
        [("settledTotal", VStr settledTotal); ("settlementCount", fa_settlementCount facts);
         ("paidAt", rb_paidAt record); ("paidTxHash", rb_paidTxHash record)])
    else mret (keccakText "reimbursement:settlement:not-paid") : cre string);
  mret (VObj [("kind", VStr "reimbursement"); ("phase", fa_phase facts);
              ("entityCommitment", VStr (entityCommitment "reimbursement" requestId));
              ("requestCommitment", VStr requestCommitment); ("itemsHash", fa_itemsHash facts);
              ("settlementCommitment", VStr settlementCommitment)]).

Definition buildProjectEvidenceCommitments (record : ProjectEvidenceRecord)
    (facts : EvidenceFacts) : cre jsval :=
  projectId ← requiredReference (pj_projectId record) "projectId";
  teamId ← requiredReference (pj_teamId record) "teamId";
  status ← requiredReference (pj_status record) "project status";
  if negb (itemsOk facts) then fail "Project item evidence is invalid" else
  closedAt ← (if isStr (fa_phase facts) "closed"
    then s ← requiredReference (pj_closedAt record) "closedAt"; mret (VStr s)
    else mret (pj_closedAt record) : cre jsval);
  projectCommitment ← commitment (VObj
    [("projectId", VStr projectId); ("teamId", VStr teamId); ("phase", fa_phase facts);
     ("status", VStr status); ("itemCount", fa_itemCount facts);
     ("itemsHash", fa_itemsHash facts); ("closedAt", closedAt)]);
  settlementCommitment ← (if isStr (fa_phase facts) "paid" || isStr (fa_phase facts) "closed" then
      if negb (settlementOk facts) then fail "Project settlement evidence is invalid" else
      settledTotal ← canonicalDecimal (fa_settledTotal facts);
      commitment (VObj
        [("settledTotal", VStr settledTotal); ("settlementCount", fa_settlementCount facts);
         ("closedAt", closedAt)])
    else mret (keccakText "project:settlement:not-paid") : cre string);
  mret (VObj [("kind", VStr "project"); ("phase", fa_phase facts);
              ("entityCommitment", VStr (entityCommitment "project" projectId));
              ("projectCommitment", VStr projectCommitment); ("itemsHash", fa_itemsHash facts);
              ("settlementCommitment", VStr settlementCommitment)]).

(** ** Reading a response *)

Definition requiredCommitment (value : jsval) (field : string) : cre jsval :=
  match value with
  | VStr s => if negb (isHex s) || negb (length16 s =? 66)
              then fail ("CRE evidence " +:+ field +:+ " is not a bytes32 commitment")
              else mret value
  | _ => fail ("CRE evidence " +:+ field +:+ " is not a bytes32 commitment")
  end.

(** [{ ..., f1: requiredCommitment(evidence.f1, 'f1'), ... }], in order. *)
Fixpoint requiredCommitments (evidence : jsval) (fields : list string)
    : cre (list (string * jsval)) :=
  match fields with
  | [] => mret []
  | f :: fields =>
      v ← requiredCommitment (prop f evidence) f;
      rest ← requiredCommitments evidence fields;
      mret ((f, v) :: rest)
  end.

Definition requiredItemsHash (evidence : jsval) : cre jsval :=
  match prop "itemsHash" evidence with
  | VStr s => if sha256Text s then mret (VStr s) else fail "CRE evidence itemsHash is invalid"
  | _ => fail "CRE evidence itemsHash is invalid"
  end.

Definition phaseIn (phase : jsval) (phases : list string) : bool := existsb (isStr phase) phases.

(** The cases of [kind], once [entityCommitment] is checked. *)
Definition parseKind (evidence entityCommitment : jsval) : cre jsval :=
  let kind := prop "kind" evidence in
  let phase := prop "phase" evidence in
  if isStr kind "contract" then
    event ← requiredContractEvent (prop "event" evidence);
    cs ← requiredCommitments evidence ["agreementCommitment"; "stateCommitment"; "snapshotCommitment"];
    mret (VObj ([("kind", VStr "contract"); ("event", VStr event);
                 ("entityCommitment", entityCommitment)] ++ cs))
  else if isStr kind "payroll" then
    cs ← requiredCommitments evidence ["recordCommitment"; "recipientCommitment"; "batchCommitment"];
    mret (VObj ([("kind", VStr "payroll"); ("entityCommitment", entityCommitment)] ++ cs))
  else if isStr kind "reimbursement" then
    if negb (phaseIn phase ["sent"; "paid"])
    then fail "CRE evidence reimbursement phase is invalid" else
    itemsHash ← requiredItemsHash evidence;
    c1 ← requiredCommitment (prop "requestCommitment" evidence) "requestCommitment";
    c2 ← requiredCommitment (prop "settlementCommitment" evidence) "settlementCommitment";
    mret (VObj [("kind", VStr "reimbursement"); ("phase", phase);
                ("entityCommitment", entityCommitment); ("requestCommitment", c1);
                ("itemsHash", itemsHash); ("settlementCommitment", c2)])
  else if isStr kind "report" then
    cs ← requiredCommitments evidence
           ["reportCommitment"; "transactionsHash"; "metricsHash"; "analysisHash"; "combinedHash"];
    mret (VObj ([("kind", VStr "report"); ("entityCommitment", entityCommitment)] ++ cs))
  else if isStr kind "project" then
    if negb (phaseIn phase ["sent"; "paid"; "closed"])
    then fail "CRE evidence project phase is invalid" else
    itemsHash ← requiredItemsHash evidence;
    c1 ← requiredCommitment (prop "projectCommitment" evidence) "projectCommitment";
    c2 ← requiredCommitment (prop "settlementCommitment" evidence) "settlementCommitment";
    mret (VObj [("kind", VStr "project"); ("phase", phase);
                ("entityCommitment", entityCommitment); ("projectCommitment", c1);
                ("itemsHash", itemsHash); ("settlementCommitment", c2)])
  else fail "CRE evidence kind is invalid".

Definition parseCreEvidenceCommitments (value : jsval) : cre jsval :=
  match value with
  | VObj _ =>
      let candidate :=
        match prop "success" value with VBool true => prop "evidence" value | _ => value end in
      match candidate with
      | VObj _ =>
          entityCommitment ← requiredCommitment (prop "entityCommitment" candidate) "entityCommitment";
          parseKind candidate entityCommitment
      | _ => fail "CRE evidence response is invalid"
      end
  | _ => fail "CRE evidence response is invalid"
  end.

(** ** Lemmas *)

Lemma commitment_ok v c : commitment v = Ok c ↔ ∃ t, stableStringify v = Ok t ∧ c = keccakText t.
Proof.
  unfold commitment. rewrite bind_ok. split; intros (t & Ht & E); exists t; (split; [done|]).
  - by apply ok_inj in E.
  - by rewrite E.
Qed.

Lemma requiredContractEvent_inv v s :
  requiredContractEvent v = Ok s → v = VStr s ∧ s ∈ CONTRACT_EVENTS.
Proof.
  destruct v as [| | | |t| | |]; try done. cbn [requiredContractEvent]. case_decide; [|done].
  by intros [= <-].
Qed.

(** Undoes the steps of a builder that returned. *)
Ltac unbuild H :=
  repeat match type of H with
  | _ ≫= _ = Ok _ => apply bind_ok in H as (? & ? & H)
  | (if ?b then fail _ else _) = Ok _ => destruct b eqn:?; [discriminate H|]
  | match contractGate ?a ?b ?c ?d ?e with Some _ => _ | None => _ end = Ok _ =>
      destruct (contractGate a b c d e) eqn:?; [discriminate H|]
  | mret _ = Ok _ => apply ok_inj in H; subst
  end.

(** The commitments a builder returns, in the shape the parser checks. *)
Section parsing.
Context {laws : ViemLaws}.

Lemma required_hash f t : requiredCommitment (VStr (keccakText t)) f = Ok (VStr (keccakText t)).
Proof using laws. cbn [requiredCommitment]. by rewrite keccak_hex, keccak_length. Qed.

Lemma required_hashes e fields :
  (∀ f, f ∈ fields → ∃ t, prop f e = VStr (keccakText t)) →
  requiredCommitments e fields = Ok (map (λ f, (f, prop f e)) fields).
Proof using laws.
  induction fields as [|f fields IH]; intros Hf; [done|]. cbn [requiredCommitments map].
  destruct (Hf f) as [t E]; [left|]. rewrite E, required_hash. cbn [mbind result_bind].
  rewrite IH; [done|]. intros g Hg. apply Hf. by right.
Qed.

(** A candidate that parses also parses in the success wrapper. *)
Lemma parse_wrapped l t r :
  entry "entityCommitment" l = VStr (keccakText t) → entry "success" l = VUndefined →
  parseKind (VObj l) (VStr (keccakText t)) = Ok r →
  parseCreEvidenceCommitments (VObj l) = Ok r ∧
  parseCreEvidenceCommitments (VObj [("success", VBool true); ("evidence", VObj l)]) = Ok r.
Proof using laws.
  intros Ee Es Hp.
  assert (requiredCommitment (prop "entityCommitment" (VObj l)) "entityCommitment"
    = Ok (VStr (keccakText t))) as E.
  { cbn [prop]. rewrite Ee. apply required_hash. }
  split; unfold parseCreEvidenceCommitments.
  - change (prop "success" (VObj l)) with (entry "success" l). rewrite Es. cbv zeta iota. by rewrite E.
  - change (prop "success" (VObj [("success", VBool true); ("evidence", VObj l)])) with (VBool true).
    change (prop "evidence" (VObj [("success", VBool true); ("evidence", VObj l)])) with (VObj l).
    cbv zeta iota. by rewrite E.
Qed.

Ltac hashes := let f := fresh "f" in let Hf := fresh "Hf" in
  intros f Hf; repeat (apply elem_of_cons in Hf as [->|Hf]; [eexists; reflexivity|]);
  by apply elem_of_nil in Hf.
Ltac to_hashes := repeat match goal with
  H : commitment _ = Ok _ |- _ => apply commitment_ok in H as (? & ? & ->) end.

Lemma contract_parses r ev e :
  buildContractLifecycleEvidenceCommitments r ev = Ok e →
  parseCreEvidenceCommitments e = Ok e ∧
  parseCreEvidenceCommitments (VObj [("success", VBool true); ("evidence", e)]) = Ok e.
Proof using laws.
  unfold buildContractLifecycleEvidenceCommitments. intros Hb. unbuild Hb. to_hashes.
  match goal with Hev : requiredContractEvent ev = Ok _ |- _ =>
    apply requiredContractEvent_inv in Hev as [_ Hev] end.
  eapply parse_wrapped; [reflexivity..|]. unfold parseKind. read_props. read_kinds.
  rewrite requiredContractEvent_ok by done. cbn [mbind result_bind].
  rewrite required_hashes by hashes. done.
Qed.

Lemma payroll_parses r b e :
  buildPayrollEvidenceCommitments r b = Ok e →
  parseCreEvidenceCommitments e = Ok e ∧
  parseCreEvidenceCommitments (VObj [("success", VBool true); ("evidence", e)]) = Ok e.
Proof using laws.
  unfold buildPayrollEvidenceCommitments. intros Hb. unbuild Hb. to_hashes.
  match goal with Hx : (if truthyVal b then _ else _) = Ok ?x |- _ =>
    assert (∃ u, x = keccakText u) as [u ->] end.
  { destruct (truthyVal b).
    - match goal with Hx : _ ≫= _ = Ok _ |- _ => apply bind_ok in Hx as (? & _ & Hx);
        apply ok_inj in Hx as <- end. by eexists.
    - match goal with Hx : mret _ = Ok _ |- _ => apply ok_inj in Hx as <- end. by eexists. }
  eapply parse_wrapped; [reflexivity..|]. unfold parseKind. read_props. read_kinds.
  rewrite required_hashes by hashes. done.
Qed.

Lemma report_parses r e :
  buildReportEvidenceCommitments r = Ok e →
  parseCreEvidenceCommitments e = Ok e ∧
  parseCreEvidenceCommitments (VObj [("success", VBool true); ("evidence", e)]) = Ok e.
Proof using laws.
  unfold buildReportEvidenceCommitments. intros Hb. unbuild Hb. to_hashes.
  eapply parse_wrapped; [reflexivity..|]. unfold parseKind. read_props. read_kinds.
  rewrite required_hashes by hashes. done.
Qed.

Lemma phase_text phase phases :
  phaseIn phase phases = true → ∃ s, phase = VStr s ∧ s ∈ phases.
Proof.
  unfold phaseIn. rewrite existsb_exists. intros (s & Hs & E%isStr_true).
  exists s. split; [done|]. by apply list_elem_of_In.
Qed.

Lemma items_hash e facts h :
  itemsOk facts = true → fa_itemsHash facts = VStr h → prop "itemsHash" e = VStr h →
  requiredItemsHash e = Ok (VStr h).
Proof.
  unfold itemsOk. rewrite andb_true_iff. intros [_ Hs] Eh Ep. rewrite Eh in Hs. cbn in Hs.
  unfold requiredItemsHash. by rewrite Ep, Hs.
Qed.

Lemma settlement_hash (b : bool) (m : cre string) (t : string) x :
  (∀ y, m = Ok y → ∃ u, y = keccakText u) →
  (if b then m else mret (keccakText t)) = Ok x → ∃ u, x = keccakText u.
Proof. intros Hm. destruct b; [apply Hm|]. intros E. apply ok_inj in E as <-. eauto. Qed.

Lemma settled_hash (b : bool) message v k y :
  (if b then fail message else s ← canonicalDecimal v; commitment (k s)) = Ok y →
  ∃ u, y = keccakText u.
Proof.
  destruct b; [done|]. intros (s & _ & (u & _ & ->)%commitment_ok)%bind_ok. eauto.
Qed.

Lemma reimbursement_parses r facts h e :
  fa_itemsHash facts = VStr h → phaseIn (fa_phase facts) ["sent"; "paid"] = true →
  buildReimbursementEvidenceCommitments r facts = Ok e →
  parseCreEvidenceCommitments e = Ok e ∧
  parseCreEvidenceCommitments (VObj [("success", VBool true); ("evidence", e)]) = Ok e.
Proof using laws.
  intros Eh Hph. pose proof (phase_text _ _ Hph) as (ph & Eph & _).
  unfold buildReimbursementEvidenceCommitments. intros Hb. unbuild Hb. to_hashes.
  match goal with Hx : (if isStr (fa_phase facts) "paid" then _ else _) = Ok ?x |- _ =>
    apply settlement_hash in Hx as [? ->]; [|intros ? Hy; eapply settled_hash; exact Hy] end.
  rewrite Eh, Eph. rewrite Eph in Hph. eapply parse_wrapped; [reflexivity..|].
  unfold parseKind. read_props. read_kinds. rewrite Hph. cbn [negb]. rewrite (items_hash _ facts h); [|by apply negb_false_iff | done | done].
  cbn [mbind result_bind]. rewrite !required_hash. done.
Qed.

Lemma project_parses r facts h e :
  fa_itemsHash facts = VStr h → phaseIn (fa_phase facts) ["sent"; "paid"; "closed"] = true →
  buildProjectEvidenceCommitments r facts = Ok e →
  parseCreEvidenceCommitments e = Ok e ∧
  parseCreEvidenceCommitments (VObj [("success", VBool true); ("evidence", e)]) = Ok e.
Proof using laws.
  intros Eh Hph. pose proof (phase_text _ _ Hph) as (ph & Eph & _).
  unfold buildProjectEvidenceCommitments. intros Hb. unbuild Hb. to_hashes.
  match goal with Hx : (if _ || _ then _ else _) = Ok ?x |- _ =>
    apply settlement_hash in Hx as [? ->]; [|intros ? Hy; eapply settled_hash; exact Hy] end.
  rewrite Eh, Eph. rewrite Eph in Hph. eapply parse_wrapped; [reflexivity..|].
  unfold parseKind. read_props. read_kinds. rewrite Hph. cbn [negb]. rewrite (items_hash _ facts h); [|by apply negb_false_iff | done | done].
  cbn [mbind result_bind]. rewrite !required_hash. done.
Qed.

(** The evidence the builders return for typed facts. *)
Inductive built : jsval → Prop :=
| built_contract r ev e : buildContractLifecycleEvidenceCommitments r ev = Ok e → built e
| built_payroll r b e : buildPayrollEvidenceCommitments r b = Ok e → built e
| built_report r e : buildReportEvidenceCommitments r = Ok e → built e
| built_reimbursement r facts h e :
    fa_itemsHash facts = VStr h → phaseIn (fa_phase facts) ["sent"; "paid"] = true →
    buildReimbursementEvidenceCommitments r facts = Ok e → built e
| built_project r facts h e :
    fa_itemsHash facts = VStr h → phaseIn (fa_phase facts) ["sent"; "paid"; "closed"] = true →
    buildProjectEvidenceCommitments r facts = Ok e → built e.

(** ** Properties *)

(** The parser accepts exactly what the builders emit: evidence of every kind
    parses to itself, bare or in the success wrapper. *)
Theorem built_evidence_parses e :
  built e →
  parseCreEvidenceCommitments e = Ok e ∧
  parseCreEvidenceCommitments (VObj [("success", VBool true); ("evidence", e)]) = Ok e.
Proof using laws.
  intros [? ? ? Hb|? ? ? Hb|? ? Hb|? ? ? ? ? ? Hb|? ? ? ? ? ? Hb].
  - by eapply contract_parses.
  - by eapply payroll_parses.
  - by eapply report_parses.
  - by eapply reimbursement_parses.
  - by eapply project_parses.
Qed.
End parsing.

(** ** Payroll recipients *)

(** A recipient with a decimal amount and a wallet. *)
Definition payable (recipient : jsval) : Prop :=
  is_ok (canonicalDecimal (prop "amount" recipient)) = true ∧
  ∃ w, prop "walletAddress" recipient = VStr w ∧ goodReference w = true.

Lemma checkRecipient_ok r u : checkRecipient r = Ok u → payable r.
Proof.
  destruct r as [| | | | | |l|]; try done. unfold checkRecipient.
  intros (a & Ha & (w & Hw & _)%bind_ok)%bind_ok. split; [by rewrite Ha|].
  apply requiredReference_ok in Hw. eauto.
Qed.

Lemma countGroup_ok g n :
  countGroup g = Ok n → ∃ l, g = VArr l ∧ n = Z.of_nat (length l) ∧ Forall payable l.
Proof.
  destruct g as [| | | | |l| |]; try done. cbn [countGroup].
  intros (k & Hk%mapM_ok & E)%bind_ok. apply ok_inj in E as <-. exists l. split; [done|].
  rewrite (Forall2_length _ _ _ Hk). split; [done|].
  induction Hk as [|x y l k Hx Hk IH]; constructor; [by eapply checkRecipient_ok | done].
Qed.

Lemma countRecipients_ok v n :
  countRecipients v = Ok n →
  ∃ groups, valuesOf v = map VArr groups ∧ n = Z.of_nat (length (concat groups)) ∧
    Forall payable (concat groups).
Proof.
  unfold countRecipients. intros (ns & Hns%mapM_ok & E)%bind_ok. apply ok_inj in E as <-.
  induction Hns as [|g n l ns Hg Hns (groups & -> & IHn & IHp)]; [by exists []|].
  apply countGroup_ok in Hg as (k & -> & -> & Hk). exists (k :: groups). split; [done|].
  cbn [foldr concat]. rewrite length_app, Forall_app. split; [lia | done].
Qed.

(** Payroll evidence is only built for an executed payroll whose declared
    recipient count is the number of recipients listed in all its groups, each
    with a decimal amount and a wallet. *)
Theorem payroll_evidence_counted r b e :
  buildPayrollEvidenceCommitments r b = Ok e →
  pr_status r = VStr "executed" ∧ truthyVal (pr_executedAt r) = true ∧
  ∃ groups, valuesOf (pr_recipients r) = map VArr groups ∧ Forall payable (concat groups) ∧
    pr_recipientCount r = VNum (JInt (Z.of_nat (length (concat groups)))) ∧
    (1 ≤ length (concat groups))%nat.
Proof.
  unfold buildPayrollEvidenceCommitments. intros Hb. unbuild Hb.
  match goal with Hx : _ || _ = false |- _ => apply orb_false_iff in Hx as [Hst Hex] end.
  apply negb_false_iff in Hst, Hex. apply isStr_true in Hst.
  match goal with Hx : countRecipients _ = Ok _ |- _ =>
    apply countRecipients_ok in Hx as (groups & Hg & -> & Hp) end.
  match goal with Hx : negb (bool_decide (safeInteger _ = _)) = false |- _ =>
    apply negb_false_iff, bool_decide_eq_true in Hx; rename Hx into Hc end.
  match goal with Hx : negb (positiveInteger _) = false |- _ =>
    apply negb_false_iff in Hx; unfold positiveInteger in Hx; rewrite Hc in Hx; zify_bool end.
  split_and!; [done..|]. exists groups. split_and!; [done..| |lia].
  destruct (pr_recipientCount r) as [| | |[z|]| | | |]; try done. cbn in Hc.
  destruct (_ <=? _); [|done]. by injection Hc as <-.
Qed.

(** ** Contract readiness *)

(** What each lifecycle event requires of the record. *)
Definition contractReady (event status fundedAmount : string) (fundedAt escrowAddress : jsval) : Prop :=
  (event = "contract_fund" → truthyVal fundedAt = true ∧ fundedAmount ≠ "0") ∧
  (event = "contract_sign" → status ∈ ["pending_sign"; "active"; "completed"]) ∧
  (event = "contract_complete" → status = "completed") ∧
  (event = "contract_cancel" → status ∈ ["cancelled"; "canceled"]) ∧
  (event = "contract_deploy" →
     truthyVal escrowAddress = true ∨ status ∈ ["deploying"; "active"; "completed"]).

Lemma gate_cons (c : bool) (m : string) (k : option string) :
  (if c then Some m else k) = None ↔ c = false ∧ k = None.
Proof. destruct c; naive_solver. Qed.

Lemma guard_false (P : Prop) `{!Decision P} (b : bool) :
  bool_decide P && b = false ↔ (P → b = false).
Proof. case_bool_decide; cbn; naive_solver. Qed.

Lemma contractGate_ready event status fundedAmount fundedAt escrow :
  contractGate event status fundedAmount fundedAt escrow = None ↔
  contractReady event status fundedAmount fundedAt escrow.
Proof.
  unfold contractGate, contractReady. rewrite !gate_cons, <- !andb_assoc, !guard_false.
  rewrite !orb_false_iff, !andb_false_iff, !negb_false_iff, !bool_decide_eq_false,
    !bool_decide_eq_true, !elem_of_cons, !elem_of_nil. tauto.
Qed.

Lemma contract_builds r ev e :
  buildContractLifecycleEvidenceCommitments r ev = Ok e ↔
  ∃ agreementId teamId event status updatedAt funded total a s,
    cl_agreementId r = VStr agreementId ∧ goodReference agreementId = true ∧
    cl_teamId r = VStr teamId ∧ goodReference teamId = true ∧
    ev = VStr event ∧ event ∈ CONTRACT_EVENTS ∧
    cl_status r = VStr status ∧ goodReference status = true ∧
    cl_updatedAt r = VStr updatedAt ∧ goodReference updatedAt = true ∧
    isObjectVal (cl_agreement r) = true ∧
    (cl_chainId r = VNull ∨ positiveInteger (cl_chainId r) = true) ∧
    canonicalDecimal (cl_fundedAmount r) = Ok funded ∧ canonicalDecimal (cl_totalAmount r) = Ok total ∧
    contractReady event status funded (cl_fundedAt r) (cl_escrowAddress r) ∧
    commitment (cl_agreement r) = Ok a ∧
    commitment (contractState r funded status total updatedAt) = Ok s ∧
    ∃ c, commitment (contractSnapshot a event s teamId) = Ok c ∧
    e = VObj [("kind", VStr "contract"); ("event", VStr event);
              ("entityCommitment", VStr (entityCommitment "contract" agreementId));
              ("agreementCommitment", VStr a); ("stateCommitment", VStr s);
              ("snapshotCommitment", VStr c)].
Proof.
  assert (∀ v, negb (chainIdOk v) = false ↔ v = VNull ∨ positiveInteger v = true) as Hchain.
  { intros v. rewrite negb_false_iff. destruct v; cbn; naive_solver. }
  unfold buildContractLifecycleEvidenceCommitments. split.
  - intros Hb. unbuild Hb.
    match goal with Hx : requiredContractEvent ev = Ok _ |- _ =>
      apply requiredContractEvent_inv in Hx as [-> Hev] end.
    repeat match goal with Hx : requiredReference _ _ = Ok _ |- _ =>
      apply requiredReference_ok in Hx as [? ?] end.
    match goal with Hx : contractGate _ _ _ _ _ = None |- _ => apply contractGate_ready in Hx end.
    match goal with Hx : negb (isObjectVal _) = false |- _ => apply negb_false_iff in Hx end.
    match goal with Hx : negb (chainIdOk _) = false |- _ => apply Hchain in Hx end.
    do 9 eexists. split_and!; [done..|]. eexists. done.
  - intros (agreementId & teamId & event & status & updatedAt & funded & total & a & s &
      E1 & G1 & E2 & G2 & -> & Hev & E3 & G3 & E4 & G4 & Ho & Hc & Hf & Ht & Hr & Ha & Hs & c & Hsn & ->).
    apply Hchain in Hc. apply contractGate_ready in Hr.
    rewrite E1, E2, E3, E4, !requiredReference_good, requiredContractEvent_ok by done.
    cbn [mbind result_bind]. rewrite Ho, Hc, Hf, Ht. cbn [negb mbind result_bind].
    rewrite Hr, Ha. cbn [mbind result_bind]. rewrite Hs. cbn [mbind result_bind]. by rewrite Hsn.
Qed.

(** ** Collisions *)

(** Two texts with one hash. *)
Definition collision : Prop := ∃ a b, a ≠ b ∧ keccakText a = keccakText b.

Lemma hash_binds a b : keccakText a = keccakText b → a = b ∨ collision.
Proof. intros E. destruct (decide (a = b)); [by left|right]. by exists a, b. Qed.

Lemma commitment_binds numberOf v1 v2 c :
  wfVal numberOf v1 → wfVal numberOf v2 → commitment v1 = Ok c → commitment v2 = Ok c →
  canon v1 = canon v2 ∨ collision.
Proof.
  intros H1 H2 (t1 & E1 & ->)%commitment_ok (t2 & E2 & E)%commitment_ok.
  destruct (hash_binds _ _ E) as [->|]; [left|by right].
  pose proof (parse_reads _ _ _ (stable_reads _ v1 H1 _ E1)).
  pose proof (parse_reads _ _ _ (stable_reads _ v2 H2 _ E2)). congruence.
Qed.

Definition contractRecordOk (numberOf : string → jsnum) (r : ContractLifecycleEvidenceRecord) : Prop :=
  wfVal numberOf (cl_agreement r) ∧ wfVal numberOf (cl_agreementHash r) ∧
  wfVal numberOf (cl_chainId r) ∧ wfVal numberOf (cl_fundedAt r).

Lemma wf_state numberOf r f st tt' u :
  contractRecordOk numberOf r → wfVal numberOf (contractState r f st tt' u).
Proof.
  intros (_ & H2 & H3 & H4). split; [apply (bool_decide_unpack _); vm_compute; reflexivity|].
  by repeat (apply Forall_cons_2; [first [exact I | exact H2 | exact H3 | exact H4]|]); apply Forall_nil_2.
Qed.

Lemma wf_snapshot numberOf a ev s tid : wfVal numberOf (contractSnapshot a ev s tid).
Proof.
  split; [apply (bool_decide_unpack _); vm_compute; reflexivity|].
  by repeat (apply Forall_cons_2; [exact I|]); apply Forall_nil_2.
Qed.

Lemma entity_binds prefix a b : entityCommitment prefix a = entityCommitment prefix b → a = b ∨ collision.
Proof.
  unfold entityCommitment. intros [E|]%hash_binds; [left|by right].
  revert E. induction prefix as [|c p IH]; [by intros [=]|].
  rewrite !string_app_cons. intros [= E]. by apply IH.
Qed.

(** ** Properties of contract evidence *)

(** Contract evidence is gated by the event: the builder returns evidence exactly
    when the record's references, amounts and chain are well formed, its agreement
    and state can be canonicalised, and the record is in the state the event
    requires (a funding needs a date and a non-zero amount, a completion a completed
    contract, and so on). *)
Theorem contract_evidence_gated r ev :
  is_ok (buildContractLifecycleEvidenceCommitments r ev) = true ↔
  ∃ agreementId teamId event status updatedAt funded total,
    cl_agreementId r = VStr agreementId ∧ goodReference agreementId = true ∧
    cl_teamId r = VStr teamId ∧ goodReference teamId = true ∧
    ev = VStr event ∧ event ∈ CONTRACT_EVENTS ∧
    cl_status r = VStr status ∧ goodReference status = true ∧
    cl_updatedAt r = VStr updatedAt ∧ goodReference updatedAt = true ∧
    isObjectVal (cl_agreement r) = true ∧
    (cl_chainId r = VNull ∨ positiveInteger (cl_chainId r) = true) ∧
    canonicalDecimal (cl_fundedAmount r) = Ok funded ∧ canonicalDecimal (cl_totalAmount r) = Ok total ∧
    contractReady event status funded (cl_fundedAt r) (cl_escrowAddress r) ∧
    is_ok (stableStringify (cl_agreement r)) = true ∧
    is_ok (stableStringify (contractState r funded status total updatedAt)) = true.
Proof.
  assert (∀ v, is_ok (stableStringify v) = true ↔ ∃ c, commitment v = Ok c) as Hok.
  { intros v. unfold commitment. destruct (stableStringify v); cbn; naive_solver. }
  split.
  - destruct (buildContractLifecycleEvidenceCommitments r ev) as [e|] eqn:E; [|done]. intros _.
    apply contract_builds in E as (agreementId & teamId & event & status & updatedAt & funded & total
      & a & s & ? & ? & ? & ? & ? & ? & ? & ? & ? & ? & ? & ? & ? & ? & ? & Ha & Hs & _).
    exists agreementId, teamId, event, status, updatedAt, funded, total. rewrite !Hok.
    split_and!; eauto.
  - intros (agreementId & teamId & event & status & updatedAt & funded & total
      & ? & ? & ? & ? & ? & ? & ? & ? & ? & ? & ? & ? & ? & ? & ? & [a Ha]%Hok & [s Hs]%Hok).
    destruct (stableStringify (contractSnapshot a event s teamId)) as [t|] eqn:Et; [|by vm_compute in Et].
    assert (commitment (contractSnapshot a event s teamId) = Ok (keccakText t)) as Hsn
      by (apply commitment_ok; eauto).
    erewrite (proj2 (contract_builds r ev _)); [done|].
    exists agreementId, teamId, event, status, updatedAt, funded, total, a, s.
    split_and!; try done. exists (keccakText t). split; [done|reflexivity].
Qed.

(** The snapshot commitment binds the contract: two records whose evidence has the
    same snapshot commitment agree, up to key order, on the event, the workspace,
    the agreement and every field of the state, amounts by their canonical text,
    unless two different texts with one hash have been found. *)
Theorem contract_snapshot_binds numberOf r1 r2 ev1 ev2 e1 e2 :
  contractRecordOk numberOf r1 → contractRecordOk numberOf r2 →
  buildContractLifecycleEvidenceCommitments r1 ev1 = Ok e1 →
  buildContractLifecycleEvidenceCommitments r2 ev2 = Ok e2 →
  prop "snapshotCommitment" e1 = prop "snapshotCommitment" e2 →
  (ev1 = ev2 ∧ cl_teamId r1 = cl_teamId r2 ∧
   canon (cl_agreement r1) = canon (cl_agreement r2) ∧
   canon (cl_agreementHash r1) = canon (cl_agreementHash r2) ∧
   canon (cl_chainId r1) = canon (cl_chainId r2) ∧
   truthyVal (cl_escrowAddress r1) = truthyVal (cl_escrowAddress r2) ∧
   canonicalDecimal (cl_fundedAmount r1) = canonicalDecimal (cl_fundedAmount r2) ∧
   canon (cl_fundedAt r1) = canon (cl_fundedAt r2) ∧ cl_status r1 = cl_status r2 ∧
   canonicalDecimal (cl_totalAmount r1) = canonicalDecimal (cl_totalAmount r2) ∧
   cl_updatedAt r1 = cl_updatedAt r2) ∨ collision.
Proof.
  intros Hw1 Hw2 (i1 & t1 & n1 & st1 & u1 & f1 & o1 & a1 & s1 & _ & _ & Et1 & _ & Ee1 & _ & Es1 & _
      & Eu1 & _ & _ & _ & Ef1 & Eo1 & _ & Ha1 & Hs1 & c1 & Hc1 & ->)%contract_builds
    (i2 & t2 & n2 & st2 & u2 & f2 & o2 & a2 & s2 & _ & _ & Et2 & _ & Ee2 & _ & Es2 & _
      & Eu2 & _ & _ & _ & Ef2 & Eo2 & _ & Ha2 & Hs2 & c2 & Hc2 & ->)%contract_builds E.
  injection E as <-.
  destruct (commitment_binds numberOf _ _ _ (wf_snapshot _ _ _ _ _) (wf_snapshot _ _ _ _ _) Hc1 Hc2)
    as [Esn|]; [|by right].
  injection Esn as -> -> -> [->|]%entity_binds; [|by right].
  destruct (commitment_binds numberOf _ _ _ (proj1 Hw1) (proj1 Hw2) Ha1 Ha2) as [Eag|]; [|by right].
  destruct (commitment_binds numberOf _ _ _ (wf_state numberOf r1 _ _ _ _ Hw1)
    (wf_state numberOf r2 _ _ _ _ Hw2) Hs1 Hs2) as [Est|]; [|by right].
  injection Est as H1 H2 H3 H4 H5 H6 H7 H8. left. split_and!; congruence.
Qed.
End commitments.

(** ** Concrete inputs *)

(** A hash of the right shape: the length of the text in 64 digits. *)
Definition sample_viem : Viem := {|
  keccakText := λ s, "0x" +:+ (if strlen s <? 10 ^ 64 then padStart0 64 (pretty (strlen s)) else zeros 64);
  isHex := λ s, startsWith "0x" s && str_all is_hex (str_drop 2 s)
|}.

Lemma sample_digits s :
  ∃ d, keccakText (Viem := sample_viem) s = "0x" +:+ d ∧ str_all is_digit d = true ∧ strlen d = 64.
Proof.
  eexists. split; [reflexivity|]. destruct (Z.ltb_spec (strlen s) (10 ^ 64)).
  - pose proof (strlen_nonneg s). destruct (padStart0_spec 64 (strlen s)) as (H1 & _ & H3); [lia..|]. done.
  - split; [apply zeros_digits | by rewrite strlen_zeros].
Qed.

Lemma length16_ascii s : str_all is_digit s = true → length16 s = strlen s.
Proof.
  unfold strlen. induction s as [|c s IH]; [done|]. cbn [str_all]. intros [Hc Hs]%andb_true_iff.
  apply digit_range in Hc. cbn [length16 String.length]. rewrite (IH Hs).
  rewrite (proj2 (Z.ltb_lt _ _)) by lia. lia.
Qed.

#[local] Existing Instance sample_viem.

Lemma sample_viem_laws : ViemLaws.
Proof.
  split; intros s; destruct (sample_digits s) as (d & -> & Hd & Hl).
  - change (str_all is_hex d = true). refine (str_all_impl is_digit is_hex d _ Hd).
    intros c Hc. unfold is_hex. by rewrite Hc.
  - by rewrite length16_app, (length16_ascii d Hd), Hl.
Qed.

Definition samplePayroll : PayrollEvidenceRecord := {|
  pr_payrollId := VStr "payroll-1"; pr_teamId := VStr "team-1"; pr_status := VStr "executed";
  pr_payPeriodStart := VStr "2026-07-01"; pr_payPeriodEnd := VStr "2026-07-15";
  pr_totalAmountUsdc := VNum (JInt 1250); pr_totalAmountEurc := VNum (JInt 0);
  pr_recipientCount := VNum (JInt 1);
  pr_recipients := VObj [("usdc", VArr [VObj [("amount", VStr "1250"); ("walletAddress", VStr "0xa")]])];
  pr_executedAt := VStr "2026-07-16"
|}.

Lemma built_evidence_parses_witness :
  ∃ e, buildPayrollEvidenceCommitments samplePayroll VUndefined = Ok e ∧
    parseCreEvidenceCommitments (VObj [("success", VBool true); ("evidence", e)]) = Ok e.
Proof.
  eexists. split; [vm_compute; reflexivity|].
  apply (@built_evidence_parses sample_viem sample_viem_laws).
  apply (built_payroll samplePayroll VUndefined). vm_compute. reflexivity.
Defined.

Lemma payroll_evidence_counted_witness :
  ∃ e, buildPayrollEvidenceCommitments samplePayroll VUndefined = Ok e ∧
    pr_status samplePayroll = VStr "executed".
Proof.
  eexists. split; [vm_compute; reflexivity|].
  eapply (payroll_evidence_counted samplePayroll VUndefined). vm_compute. reflexivity.
Defined.

Definition sampleContract (agreement : jsval) : ContractLifecycleEvidenceRecord := {|
  cl_agreementId := VStr "agreement-1"; cl_teamId := VStr "team-1"; cl_status := VStr "active";
  cl_agreementHash := VNull; cl_chainId := VNum (JInt 11155111); cl_totalAmount := VStr "25000";
  cl_fundedAmount := VStr "25000.0"; cl_fundedAt := VStr "2026-07-18"; cl_escrowAddress := VNull;
  cl_updatedAt := VStr "2026-07-18"; cl_agreement := agreement
|}.

Lemma sampleContract_ok n :
  Z.abs n ≤ MAX_SAFE_INTEGER →
  contractRecordOk JNonInt (sampleContract (VObj [("n", VNum (JInt n))])).
Proof.
  intros Hn. split_and!; cbn; try done.
  split; [apply NoDup_singleton|]. apply Forall_cons_2; [by apply safe_numOk | apply Forall_nil_2].
Qed.

Lemma contract_snapshot_binds_witness :
  ∃ e, buildContractLifecycleEvidenceCommitments (sampleContract (VObj [("n", VNum (JInt 1))]))
         (VStr "contract_fund") = Ok e ∧
  (cl_status (sampleContract (VObj [("n", VNum (JInt 1))])) = VStr "active" ∧
   canon (cl_agreement (sampleContract (VObj [("n", VNum (JInt 1))])))
   = canon (VObj [("n", VNum (JInt 1))]) ∨ collision).
Proof.
  eexists. split; [vm_compute; reflexivity|].
  edestruct (contract_snapshot_binds JNonInt (sampleContract (VObj [("n", VNum (JInt 1))]))
    (sampleContract (VObj [("n", VNum (JInt 1))])) (VStr "contract_fund") (VStr "contract_fund"))
    as [(_ & _ & H & _)|H];
    [by apply sampleContract_ok | by apply sampleContract_ok | vm_compute; reflexivity
    | vm_compute; reflexivity | reflexivity | left; split; [reflexivity | exact H] | right; exact H].
Defined.
