(* ===== verification/Abi.v ===== *)
(** * Bytes, ABI words and the viem encoders

    What [packages/modular-wallets-core] asks of viem, and what a Solidity
    contract reads back. Calldata is the list of its bytes; an [Address] or a
    [Hex] literal of the TypeScript code is its text. [encodeFunctionData] is
    third-party code: it is a parameter with the laws of the contract ABI for
    static arguments (one 32-byte word each) and for rejected arguments. The
    4-byte selector of a signature (keccak256) is a parameter too. *)

From S2P Require Import Prelude.
From S2P Require Import Js.
From S2P Require Import Encoding.

(** ** Words *)

(** The [n] low bytes of [z], most significant first. *)
Fixpoint be_bytes (n : nat) (z : Z) : list Z :=
  match n with O => [] | S n => be_bytes n (z / 256) ++ [z mod 256] end.

Definition word (z : Z) : list Z := be_bytes 32 z.

Lemma be_bytes_length n z : length (be_bytes n z) = n.
Proof. revert z. induction n as [|n IH]; intros z; simpl; [done|]. rewrite length_app, IH. simpl. lia. Qed.

Lemma be_value_snoc bs b : be_value (bs ++ [b]) = be_value bs * 256 + b.
Proof. unfold be_value. by rewrite be_value_app. Qed.

Lemma be_bytes_value n z : 0 ≤ z < 256 ^ Z.of_nat n → be_value (be_bytes n z) = z.
Proof.
  revert z. induction n as [|n IH]; intros z Hz; simpl be_bytes.
  - change (256 ^ Z.of_nat 0) with 1 in Hz. cbn. lia.
  - rewrite Nat2Z.inj_succ, Z.pow_succ_r in Hz by lia.
    rewrite be_value_snoc, IH; [|split; [apply Z.div_pos; lia | apply Z.div_lt_upper_bound; lia]].
    pose proof (Z.div_mod z 256). lia.
Qed.

Lemma word_length z : length (word z) = 32%nat.
Proof. apply be_bytes_length. Qed.

Lemma word_value z : 0 ≤ z < 2 ^ 256 → be_value (word z) = z.
Proof. intros. apply be_bytes_value. by change (256 ^ Z.of_nat 32) with (2 ^ 256). Qed.

(** [calldata[off : off + 32]] as an integer; missing bytes are not modelled,
    the code tests the length before. *)
Definition wordAt (off : nat) (data : list Z) : Z := be_value (take 32 (drop off data)).

(** [bytes4(data)]: right-padded with zeroes when [data] is shorter. *)
Definition bytes4_of (data : list Z) : Z := be_value (take 4 (data ++ [0; 0; 0; 0])).

Lemma wordAt_app ws1 ws2 off :
  length ws1 = off → wordAt off (ws1 ++ ws2) = be_value (take 32 ws2).
Proof. intros <-. unfold wordAt. by rewrite drop_app_length. Qed.

Lemma bytes4_of_app sel rest : length sel = 4%nat → bytes4_of (sel ++ rest) = be_value sel.
Proof. intros H. unfold bytes4_of. by rewrite <- app_assoc, <- H, take_app_length. Qed.

(** ** Hexadecimal text *)

Definition hexDigitVal (c : ascii) : Z :=
  if is_digit c then code c - 48 else if between 97 102 c then code c - 87 else code c - 55.

(** The number the digits of [s] denote. *)
Fixpoint hexval_from (acc : Z) (s : string) : Z :=
  match s with EmptyString => acc | String c s => hexval_from (acc * 16 + hexDigitVal c) s end.

(** ["0x" + 2n hexadecimal digits] *)
Definition isHexBytes (n : nat) (s : string) : bool :=
  startsWith "0x" s && (strlen s =? 2 + 2 * Z.of_nat n) && str_all is_hex (str_drop 2 s).

Definition hexNumber (s : string) : Z := hexval_from 0 (str_drop 2 s).

Lemma hexDigitVal_range c : is_hex c = true → 0 ≤ hexDigitVal c < 16.
Proof. destruct c as [[] [] [] [] [] [] [] []]; vm_compute; intros; try discriminate; split; congruence. Qed.

Lemma hexDigitVal_lower c : is_hex c = true → hexDigitVal (lower_char c) = hexDigitVal c.
Proof. destruct c as [[] [] [] [] [] [] [] []]; vm_compute; congruence. Qed.

Lemma hexDigitVal_inj c d :
  is_hex c = true → is_hex d = true → hexDigitVal c = hexDigitVal d → lower_char c = lower_char d.
Proof.
  assert (H : ∀ c, is_hex c = true →
    lower_char c = ascii_of_nat (Z.to_nat (hexDigitVal c + if hexDigitVal c <? 10 then 48 else 87))).
  { clear. intros c. destruct c as [[] [] [] [] [] [] [] []]; vm_compute; congruence. }
  intros Hc Hd E. by rewrite (H c Hc), (H d Hd), E.
Qed.

Lemma hexval_from_bound acc s :
  str_all is_hex s = true → 0 ≤ acc →
  acc * 16 ^ strlen s ≤ hexval_from acc s < (acc + 1) * 16 ^ strlen s.
Proof.
  revert acc. induction s as [|c s IH]; intros acc Hs Hacc; cbn [hexval_from];
    [change (16 ^ strlen EmptyString) with 1; lia|].
  cbn [str_all] in Hs. apply andb_true_iff in Hs as [Hc Hs]. apply hexDigitVal_range in Hc.
  assert (strlen (String c s) = Z.succ (strlen s)) as ->.
  { unfold strlen. cbn [String.length]. lia. }
  rewrite Z.pow_succ_r by (unfold strlen; lia).
  specialize (IH (acc * 16 + hexDigitVal c) Hs ltac:(lia)).
  assert (0 < 16 ^ strlen s) by (apply Z.pow_pos_nonneg; unfold strlen; lia). nia.
Qed.

Lemma hexval_from_lower acc s :
  str_all is_hex s = true → hexval_from acc (toLowerCase s) = hexval_from acc s.
Proof.
  revert acc. induction s as [|c s IH]; intros acc Hs; [done|].
  cbn [str_all toLowerCase hexval_from] in *. apply andb_true_iff in Hs as [Hc Hs].
  by rewrite IH, hexDigitVal_lower.
Qed.

Lemma hexval_from_inj a b s t :
  str_all is_hex s = true → str_all is_hex t = true → strlen s = strlen t →
  0 ≤ a → 0 ≤ b → hexval_from a s = hexval_from b t → a = b ∧ toLowerCase s = toLowerCase t.
Proof.
  revert a b t. induction s as [|c s IH]; intros a b [|d t] Hs Ht Hl Ha Hb E;
    try (exfalso; unfold strlen in Hl; cbn in Hl; lia); [done|].
  cbn [str_all toLowerCase hexval_from] in *.
  apply andb_true_iff in Hs as [Hc Hs]. apply andb_true_iff in Ht as [Hd Ht].
  pose proof (hexDigitVal_range c Hc). pose proof (hexDigitVal_range d Hd).
  apply IH in E as [E1 E2]; [|done|done|unfold strlen in *; cbn in Hl; lia|lia|lia].
  assert (hexDigitVal c = hexDigitVal d) as E3 by lia.
  split; [lia|]. by rewrite E2, (hexDigitVal_inj c d).
Qed.

Lemma isHexBytes_split n s :
  isHexBytes n s = true →
  ∃ t, s = String "0" (String "x" t) ∧ strlen t = 2 * Z.of_nat n ∧ str_all is_hex t = true.
Proof.
  unfold isHexBytes. intros [[H1 H2]%andb_true_iff H3]%andb_true_iff.
  destruct s as [|a s]; [discriminate|]. destruct s as [|b t]; [cbn in H1; by rewrite andb_comm in H1|].
  cbn [startsWith] in H1. apply andb_true_iff in H1 as [Ha H1]. apply andb_true_iff in H1 as [Hb _].
  apply Ascii.eqb_eq in Ha as <-, Hb as <-. exists t. split; [done|].
  unfold strlen in *. cbn [String.length] in H2. apply Z.eqb_eq in H2. split; [lia|done].
Qed.

Lemma hexNumber_range n s : isHexBytes n s = true → 0 ≤ hexNumber s < 256 ^ Z.of_nat n.
Proof.
  intros (t & -> & Hl & Ht)%isHexBytes_split. change (hexNumber _) with (hexval_from 0 t).
  pose proof (hexval_from_bound 0 t Ht). rewrite Hl, Z.pow_mul_r in H by lia.
  change (16 ^ 2) with 256 in H. lia.
Qed.

(** Case-insensitive equality of texts is equality of the numbers. *)
Lemma hexNumber_eq n s t :
  isHexBytes n s = true → isHexBytes n t = true →
  hexNumber s = hexNumber t ↔ toLowerCase s = toLowerCase t.
Proof.
  intros (s' & -> & Hs & Hs')%isHexBytes_split (t' & -> & Ht & Ht')%isHexBytes_split.
  change (hexNumber _) with (hexval_from 0 s') at 1. change (hexNumber _) with (hexval_from 0 t').
  cbn [toLowerCase]. split.
  - intros E%hexval_from_inj; [|done|done|lia|lia|lia]. by destruct E as [_ ->].
  - intros [= E]. rewrite <- (hexval_from_lower 0 s'), <- (hexval_from_lower 0 t') by done. by rewrite E.
Qed.

(** The hexadecimal text of a number. *)
Definition hexChar (n : Z) : ascii := ascii_of_nat (Z.to_nat (n + if n <? 10 then 48 else 87)).

(** The [n] low hexadecimal digits of [z]. *)
Fixpoint hexDigits (n : nat) (z : Z) : string :=
  match n with O => EmptyString | S n => hexDigits n (z / 16) +:+ String (hexChar (z mod 16)) EmptyString end.

Lemma hexChar_spec n : 0 ≤ n < 16 → is_hex (hexChar n) = true ∧ hexDigitVal (hexChar n) = n.
Proof.
  intros Hn. assert (n ∈ seqZ 0 16) as Hi by (apply elem_of_seqZ; lia). clear Hn. revert n Hi.
  apply Forall_forall. repeat constructor.
Qed.

Lemma hexval_from_app acc s c :
  hexval_from acc (s +:+ String c EmptyString) = hexval_from acc s * 16 + hexDigitVal c.
Proof.
  revert acc. induction s as [|d s IH]; intros acc; [done|].
  change (String d s +:+ String c EmptyString) with (String d (s +:+ String c EmptyString)).
  cbn [hexval_from]. apply IH.
Qed.

Lemma strlen_snoc s c : strlen (s +:+ String c EmptyString) = strlen s + 1.
Proof.
  unfold strlen. induction s as [|d s IH]; [done|].
  change (String d s +:+ String c EmptyString) with (String d (s +:+ String c EmptyString)).
  cbn [String.length]. lia.
Qed.

Lemma hexDigits_spec n z :
  str_all is_hex (hexDigits n z) = true ∧ strlen (hexDigits n z) = Z.of_nat n ∧
  hexval_from 0 (hexDigits n z) = z mod 16 ^ Z.of_nat n.
Proof.
  revert z. induction n as [|n IH]; intros z; [by rewrite Z.mod_1_r|].
  destruct (IH (z / 16)) as (I1 & I2 & I3).
  destruct (hexChar_spec (z mod 16)) as [C1 C2]; [apply Z.mod_pos_bound; lia|].
  cbn [hexDigits]. split_and!.
  - rewrite str_all_app, I1. cbn [str_all]. by rewrite C1.
  - rewrite strlen_snoc. lia.
  - rewrite hexval_from_app, I3, C2, Nat2Z.inj_succ, Z.pow_succ_r by lia.
    rewrite (Z.mul_comm 16), (Z.mul_comm (16 ^ _)), Z.rem_mul_r by (try apply Z.pow_pos_nonneg; lia).
    lia.
Qed.

(** ** ABI descriptions *)

Inductive abi_type : Type :=
| TAddress
| TBool
| TUint (bits : Z)
| TBytesN (n : nat)
| TBytes
| TArray (t : abi_type)
| TTuple (ts : list abi_type).

(** The canonical name of a type, as it appears in a signature. *)
Fixpoint typeName (t : abi_type) : string :=
  match t with
  | TAddress => "address"
  | TBool => "bool"
  | TUint b => "uint" +:+ pretty b
  | TBytesN n => "bytes" +:+ pretty (Z.of_nat n)
  | TBytes => "bytes"
  | TArray t => typeName t +:+ "[]"
  | TTuple ts => "(" +:+ String.concat "," (map typeName ts) +:+ ")"
  end.

(** A function of an ABI: its name and the types of its inputs. *)
Record abi_item : Type := { item_name : string; item_inputs : list abi_type }.

Definition signature (it : abi_item) : string :=
  item_name it +:+ "(" +:+ String.concat "," (map typeName (item_inputs it)) +:+ ")".

Definition findItem (abi : list abi_item) (name : string) : option abi_item :=
  List.find (λ it, String.eqb (item_name it) name) abi.

(** An argument the code hands to viem. *)
Inductive abi_arg : Type :=
| AText (s : string)                       (* an [Address] or a [Hex] literal *)
| AFlag (b : bool)
| ANum (n : Z)                             (* a [bigint], or an integral [number] *)
| AData (bytes : list Z)                   (* a [Hex] computed by the code *)
| AList (l : list abi_arg)
| AStruct (fields : list (string * abi_arg)).

Definition is_static (t : abi_type) : bool :=
  match t with TAddress | TBool | TUint _ | TBytesN _ => true | _ => false end.

(** What viem or the code itself throws. *)
Inductive ts_error : Type :=
| Err (message : string)
| ViemErr (message : string).

(** ** viem *)

Class Viem : Type := {
  isAddress : string → bool;
  selectorOf : string → Z;                 (* the first 4 bytes of keccak256(signature) *)
  toFunctionSelector : string → string;
  encodeFunctionData : list abi_item → string → list abi_arg → result ts_error (list Z);
  encodeAbiParameters : list abi_type → list abi_arg → result ts_error (list Z);
  keccak256 : list Z → Z;
  erc20Abi : list abi_item;
  erc4626Abi : list abi_item }.

Section words.
Context `{Viem}.

(** The 32-byte word of a static argument, when viem accepts the argument for
    the type: a checksummed or lower-case address, an integer in range, a
    fixed-size byte string of exactly that size. *)
Definition encodeWord (t : abi_type) (v : abi_arg) : option (list Z) :=
  match t, v with
  | TAddress, AText s => if isAddress s then Some (word (hexNumber s)) else None
  | TBool, AFlag b => Some (word (Z.b2z b))
  | TUint bits, ANum n => if (0 <=? n) && (n <? 2 ^ bits) then Some (word n) else None
  | TBytesN k, AText s =>
      if isHexBytes k s then Some (be_bytes k (hexNumber s) ++ repeat 0 (32 - k)) else None
  | _, _ => None
  end.

Fixpoint encodeWords (ts : list abi_type) (vs : list abi_arg) : option (list Z) :=
  match ts, vs with
  | [], [] => Some []
  | t :: ts, v :: vs =>
      match encodeWord t v, encodeWords ts vs with
      | Some w, Some ws => Some (w ++ ws)
      | _, _ => None
      end
  | _, _ => None
  end.
End words.

(** The signatures whose selectors the code compares or grants; their
    selectors are pairwise different. *)
Definition codeSignatures : list string :=
  ["setAccessListType(uint8)";
   "updateAccessListAddressEntry(address,bool,bool)";
   "updateAccessListFunctionEntry(address,bytes4,bool)";
   "updateTimeRange(uint48,uint48)";
   "setNativeTokenSpendLimit(uint256,uint48)";
   "setERC20SpendLimit(address,uint256,uint48)";
   "setGasSpendLimit(uint256,uint48)";
   "setRequiredPaymaster(address)";
   "transfer(address,uint256)"; "approve(address,uint256)";
   "withdraw(uint256,address,address)"; "redeem(uint256,address,address)"].

(** The documented behaviour of viem and of the contract ABI. *)
Class ViemLaws `{Viem} : Prop := {
  isAddress_format a : isAddress a = true → isHexBytes 20 a = true;
  selector_range s : 0 ≤ selectorOf s < 2 ^ 32;
  selector_distinct s t :
    s ∈ codeSignatures → t ∈ codeSignatures → selectorOf s = selectorOf t → s = t;
  toFunctionSelector_hex it :
    isHexBytes 4 (toFunctionSelector ("function " +:+ signature it)) = true;
  toFunctionSelector_number it :
    hexNumber (toFunctionSelector ("function " +:+ signature it)) = selectorOf (signature it);
  encodeFunctionData_static abi name it args ws :
    findItem abi name = Some it → Forall (λ t, is_static t = true) (item_inputs it) →
    encodeWords (item_inputs it) args = Some ws →
    encodeFunctionData abi name args = Ok (be_bytes 4 (selectorOf (signature it)) ++ ws);
  encodeFunctionData_reject abi name it args :
    findItem abi name = Some it → Forall (λ t, is_static t = true) (item_inputs it) →
    encodeWords (item_inputs it) args = None →
    ∃ e, encodeFunctionData abi name args = Throw (ViemErr e);
  erc20Abi_transfer : findItem erc20Abi "transfer" =
    Some {| item_name := "transfer"; item_inputs := [TAddress; TUint 256] |};
  erc4626Abi_withdraw : findItem erc4626Abi "withdraw" =
    Some {| item_name := "withdraw"; item_inputs := [TUint 256; TAddress; TAddress] |} }.

Section laws.
Context `{ViemLaws}.

Lemma encodeFunctionData_ok abi name it args data :
  findItem abi name = Some it → Forall (λ t, is_static t = true) (item_inputs it) →
  encodeFunctionData abi name args = Ok data →
  ∃ ws, encodeWords (item_inputs it) args = Some ws ∧
        data = be_bytes 4 (selectorOf (signature it)) ++ ws.
Proof.
  intros Hf Hs He. destruct (encodeWords (item_inputs it) args) as [ws|] eqn:Ew.
  - exists ws. split; [done|].
    rewrite (encodeFunctionData_static abi name it args ws Hf Hs Ew) in He. by injection He.
  - destruct (encodeFunctionData_reject abi name it args Hf Hs Ew) as [e He']. congruence.
Qed.

(** The number a word carries. *)
Definition argValue (t : abi_type) (v : abi_arg) : Z :=
  match t, v with
  | TAddress, AText s => hexNumber s
  | TBool, AFlag b => Z.b2z b
  | TUint _, ANum n => n
  | TBytesN k, AText s => hexNumber s * 256 ^ (32 - Z.of_nat k)
  | _, _ => 0
  end.

Lemma be_value_zeros bs k : be_value (bs ++ repeat 0 k) = be_value bs * 256 ^ Z.of_nat k.
Proof.
  induction k as [|k IH]; [rewrite app_nil_r; change (256 ^ Z.of_nat 0) with 1; lia|].
  replace (repeat 0 (S k)) with (repeat 0 k ++ [0]) by (symmetry; apply repeat_cons).
  rewrite app_assoc, be_value_snoc, IH, Nat2Z.inj_succ, Z.pow_succ_r by lia. lia.
Qed.

(** A type whose values fit a word. *)
Definition type_ok (t : abi_type) : bool :=
  match t with
  | TAddress | TBool => true
  | TUint b => (0 <=? b) && (b <=? 256)
  | TBytesN k => (k <=? 32)%nat
  | _ => false
  end.

Lemma type_ok_static ts :
  forallb type_ok ts = true → Forall (λ t, is_static t = true) ts.
Proof.
  rewrite forallb_forall. intros Hts. apply Forall_forall. intros t Ht.
  apply list_elem_of_In, Hts in Ht. by destruct t.
Qed.

Lemma encodeWord_spec t v w :
  type_ok t = true → encodeWord t v = Some w →
  length w = 32%nat ∧ be_value w = argValue t v.
Proof.
  intros Ht He. assert (Hw : ∀ z, 0 ≤ z < 2 ^ 256 → length (word z) = 32%nat ∧ be_value (word z) = z).
  { intros z Hz. split; [apply word_length | by apply word_value]. }
  destruct t, v; cbn [encodeWord type_ok argValue] in *; try discriminate.
  - destruct (isAddress s) eqn:Ea; [|discriminate]. injection He as <-. apply Hw.
    apply isAddress_format, hexNumber_range in Ea.
    change (256 ^ Z.of_nat 20) with (2 ^ 160) in Ea. pose proof (Z.pow_lt_mono_r 2 160 256). lia.
  - injection He as <-. apply Hw. destruct b; vm_compute; intuition congruence.
  - destruct ((0 <=? n) && (n <? 2 ^ bits)) eqn:E; [|discriminate]. injection He as <-.
    apply andb_true_iff in E as [E1 E2], Ht as [Ht1 Ht2]. zify_bool. apply Hw.
    pose proof (Z.pow_le_mono_r 2 bits 256). lia.
  - destruct (isHexBytes n s) eqn:E; [|discriminate]. injection He as <-. apply Nat.leb_le in Ht.
    rewrite length_app, be_bytes_length, repeat_length, be_value_zeros.
    rewrite be_bytes_value by (by apply hexNumber_range). split; [lia|]. do 2 f_equal. lia.
Qed.
End laws.
