(* ===== verification/EvmAbi.v ===== *)
(** * Solidity's ABI decoder

    What [abi.decode] and the argument decoders of external functions do with
    bytes they do not trust: every offset and length is checked, a word with
    bits above its type reverts. [None] is the revert. The encoders at the end
    are the layout of the contract ABI, which the decoders read back. *)

From S2P Require Import Prelude.
From S2P Require Import Encoding.
From S2P Require Import Abi.

Implicit Types (d : list Z) (off : Z).

Definition lenZ d : Z := Z.of_nat (length d).

(** The word at [off]; beyond the end it reverts. *)
Definition readWord d off : option Z :=
  if (0 <=? off) && (off + 32 <=? lenZ d) then Some (wordAt (Z.to_nat off) d) else None.

(** Bytes [off, off + n). *)
Definition readSlice d off n : option (list Z) :=
  if (0 <=? off) && (0 <=? n) && (off + n <=? lenZ d) then Some (take (Z.to_nat n) (drop (Z.to_nat off) d)) else None.

(** A value that must be below [2 ^ bits]. *)
Definition narrow (bits w : Z) : option Z := if w <? 2 ^ bits then Some w else None.
Definition asFlag (w : Z) : option bool :=
  if w =? 0 then Some false else if w =? 1 then Some true else None.

Definition readUint (bits : Z) d off : option Z := w ← readWord d off; narrow bits w.

(** An offset or a length above [2 ^ 64 - 1] reverts. *)
Definition readSize d off : option Z := readUint 64 d off.

(** The dynamic value whose offset is stored at [off], relative to [base]:
    [bytes] or [string]. *)
Definition readBytes d base off : option (list Z) :=
  rel ← readSize d off;
  n ← readSize d (base + rel);
  readSlice d (base + rel + 32) n.

(** [uintN[]] and [address[]]. *)
Fixpoint readWords (n : nat) (bits : Z) d off : option (list Z) :=
  match n with
  | O => Some []
  | S n => w ← readUint bits d off; ws ← readWords n bits d (off + 32); Some (w :: ws)
  end.
Definition readArray (bits : Z) d base off : option (list Z) :=
  rel ← readSize d off;
  n ← readSize d (base + rel);
  if base + rel + 32 + n * 32 <=? lenZ d then readWords (Z.to_nat n) bits d (base + rel + 32) else None.

(** ** The layout *)

(** Zero bytes up to a multiple of 32. *)
Definition padWords d : list Z := d ++ repeat 0 (Z.to_nat ((- lenZ d) mod 32)).
(** The dynamic part of [bytes]. *)
Definition bytesTail d : list Z := word (lenZ d) ++ padWords d.

(** ** Reading what was written *)

Lemma lenZ_app d1 d2 : lenZ (d1 ++ d2) = lenZ d1 + lenZ d2.
Proof. unfold lenZ. rewrite length_app. lia. Qed.
Lemma lenZ_word z : lenZ (word z) = 32.
Proof. unfold lenZ. by rewrite word_length. Qed.
Lemma lenZ_nonneg d : 0 ≤ lenZ d.
Proof. unfold lenZ. lia. Qed.
Lemma lenZ_repeat n (z : Z) : lenZ (repeat z n) = Z.of_nat n.
Proof. unfold lenZ. by rewrite repeat_length. Qed.

Lemma lenZ_padWords d : lenZ (padWords d) = lenZ d + (- lenZ d) mod 32.
Proof. unfold padWords. rewrite lenZ_app, lenZ_repeat. pose proof (Z.mod_pos_bound (- lenZ d) 32). lia. Qed.

Lemma readWord_at pre z post off :
  lenZ pre = off → 0 ≤ z < 2 ^ 256 → readWord (pre ++ word z ++ post) off = Some z.
Proof.
  intros <- Hz. unfold readWord. rewrite !lenZ_app, lenZ_word. pose proof (lenZ_nonneg pre). pose proof (lenZ_nonneg post).
  destruct (Z.leb_spec 0 (lenZ pre)), (Z.leb_spec (lenZ pre + 32) (lenZ pre + (32 + lenZ post))); try lia. cbn [andb].
  rewrite (wordAt_app pre) by (unfold lenZ; lia). rewrite <- (word_length z) at 1. rewrite take_app_length.
  by rewrite word_value.
Qed.

Lemma readUint_at bits pre z post off :
  lenZ pre = off → 0 ≤ z < 2 ^ bits → bits ≤ 256 → readUint bits (pre ++ word z ++ post) off = Some z.
Proof.
  intros Hp Hz Hb. unfold readUint. assert (2 ^ bits ≤ 2 ^ 256) by (apply Z.pow_le_mono_r; lia).
  rewrite readWord_at by (done || lia). cbn. unfold narrow. by destruct (Z.ltb_spec z (2 ^ bits)); [|lia].
Qed.

Lemma readSlice_at pre s post off n :
  lenZ pre = off → lenZ s = n → readSlice (pre ++ s ++ post) off n = Some s.
Proof.
  intros <- <-. unfold readSlice. rewrite !lenZ_app. pose proof (lenZ_nonneg pre). pose proof (lenZ_nonneg post).
  pose proof (lenZ_nonneg s).
  destruct (Z.leb_spec 0 (lenZ pre)), (Z.leb_spec 0 (lenZ s)), (Z.leb_spec (lenZ pre + lenZ s) (lenZ pre + (lenZ s + lenZ post)));
    try lia. cbn [andb]. unfold lenZ. rewrite !Nat2Z.id, drop_app_length, take_app_length. done.
Qed.

(** [bytes] written at [base + rel], its offset [rel] at [off]. *)
Lemma readBytes_at d base off rel s pre1 post1 pre2 post2 :
  d = pre1 ++ word rel ++ post1 → lenZ pre1 = off →
  d = pre2 ++ bytesTail s ++ post2 → lenZ pre2 = base + rel →
  0 ≤ rel < 2 ^ 64 → lenZ s < 2 ^ 64 → readBytes d base off = Some s.
Proof.
  intros E1 L1 E2 L2 Hr Hs. unfold readBytes, readSize. rewrite E1 at 1. rewrite readUint_at by (done || lia).
  cbn [mbind option_bind]. rewrite E2 at 1. unfold bytesTail at 1. rewrite <- app_assoc.
  pose proof (lenZ_nonneg s). rewrite readUint_at by (done || lia). cbn [mbind option_bind].
  rewrite E2. unfold bytesTail, padWords.
  replace (pre2 ++ (word (lenZ s) ++ s ++ repeat 0 (Z.to_nat ((- lenZ s) mod 32))) ++ post2) with
    ((pre2 ++ word (lenZ s)) ++ s ++ repeat 0 (Z.to_nat ((- lenZ s) mod 32)) ++ post2) by (by rewrite <- !app_assoc).
  apply readSlice_at; [|done]. rewrite lenZ_app, lenZ_word. lia.
Qed.
