(* ===== verification/AbiLayout.v ===== *)
(** * The contract ABI's layout of arrays, written and read

    What viem's [encodeAbiParameters] writes for words, [bytes] and arrays of
    them (heads first, then the tails, an offset in the head of every dynamic
    value), as a definition and a law of [Viem]; the reading of such arrays by
    [abi.decode], on any bytes; and the proof that the reader of a type finds
    what was written, wherever the value lies in the data. *)

From S2P Require Import Prelude.
From S2P Require Import Js.
From S2P Require Import Encoding.
From S2P Require Import Abi.
From S2P Require Import EvmAbi.

Implicit Types (d : list Z) (off base slot : Z).

(** ** Writing *)

Definition dynamic (t : abi_type) : bool := match t with TBytes | TArray _ => true | _ => false end.

(** A component of a tuple: whether it is dynamic, and its encoding. *)
Notation part := (bool * list Z)%type.

(** The heads and the tails of [parts], the first tail [off] bytes after the
    start of the heads. *)
Fixpoint headsTails off (parts : list part) : list Z * list Z :=
  match parts with
  | [] => ([], [])
  | (true, bs) :: parts =>
      let '(heads, tails) := headsTails (off + lenZ bs) parts in (word off ++ heads, bs ++ tails)
  | (false, bs) :: parts => let '(heads, tails) := headsTails off parts in (bs ++ heads, tails)
  end.

(** Every head is one word. *)
Definition layout (parts : list part) : list Z :=
  let '(heads, tails) := headsTails (32 * Z.of_nat (length parts)) parts in heads ++ tails.

Section write.
Context `{Viem}.

(** Tuples are not covered: [None]. *)
Fixpoint encodeValue (t : abi_type) (v : abi_arg) : option (list Z) :=
  match t, v with
  | TBytes, AData bytes => Some (bytesTail bytes)
  | TArray t, AList vs =>
      encoded ← mapM (encodeValue t) vs;
      Some (word (Z.of_nat (length vs)) ++ layout (pair (dynamic t) <$> encoded))
  | t, v => encodeWord t v
  end.

Fixpoint encodeParts (ts : list abi_type) (vs : list abi_arg) : option (list part) :=
  match ts, vs with
  | [], [] => Some []
  | t :: ts, v :: vs =>
      bs ← encodeValue t v; parts ← encodeParts ts vs; Some ((dynamic t, bs) :: parts)
  | _, _ => None
  end.

Definition abiEncode (ts : list abi_type) (vs : list abi_arg) : option (list Z) :=
  layout <$> encodeParts ts vs.
End write.

(** A [Hex] literal of whole bytes. *)
Definition hexData (s : string) : bool :=
  startsWith "0x" s && str_all is_hex (str_drop 2 s) && Nat.even (String.length s).

(** Arguments as TypeScript types them for parameters without tuples. *)
Fixpoint typed (t : abi_type) (v : abi_arg) : bool :=
  match t, v with
  | TAddress, AText _ | TBool, AFlag _ | TUint _, ANum _ | TBytes, AData _ => true
  | TBytesN _, AText s => hexData s
  | TArray t, AList vs => forallb (typed t) vs
  | _, _ => false
  end.
Fixpoint typedAll (ts : list abi_type) (vs : list abi_arg) : bool :=
  match ts, vs with
  | [], [] => true
  | t :: ts, v :: vs => typed t v && typedAll ts vs
  | _, _ => false
  end.

(** [encodeAbiParameters] writes the ABI's layout, and throws on an argument of
    the right type that is not a value (an invalid address, an integer out of
    range, a byte string of another size). *)
Class ViemParamLaws `{Viem} : Prop := {
  encodeAbiParameters_layout ts vs d :
    typedAll ts vs = true → abiEncode ts vs = Some d → encodeAbiParameters ts vs = Ok d;
  encodeAbiParameters_reject ts vs :
    typedAll ts vs = true → abiEncode ts vs = None → ∃ e, encodeAbiParameters ts vs = Throw (ViemErr e) }.

Lemma encodeAbiParameters_ok `{ViemParamLaws} ts vs d :
  typedAll ts vs = true → encodeAbiParameters ts vs = Ok d → abiEncode ts vs = Some d.
Proof.
  intros Ht Hd. destruct (abiEncode ts vs) as [d'|] eqn:E.
  - pose proof (encodeAbiParameters_layout _ _ _ Ht E). congruence.
  - destruct (encodeAbiParameters_reject _ _ Ht E) as [e He]. congruence.
Qed.

(** ** Reading *)

(** [n] values in a row, the head of the first at [slot], the tails relative to
    [base]. A reader takes the data, the base and the slot of a head. *)
Section read.
Context {A : Type} (elem : list Z → Z → Z → option A).

Fixpoint readElems d base (n : nat) slot : option (list A) :=
  match n with
  | O => Some []
  | S n => x ← elem d base slot; xs ← readElems d base n (slot + 32); Some (x :: xs)
  end.

(** [T[]]: the offset, the length, a check that the heads are in the data, and
    the elements. *)
Definition readSeq d base slot : option (list A) :=
  rel ← readSize d slot;
  n ← readSize d (base + rel);
  let start := base + rel + 32 in
  if start + n * 32 <=? lenZ d then readElems d start (Z.to_nat n) start else None.
End read.

Definition readAddressAt d (base slot : Z) : option Z := readUint 160 d slot.
Definition readWordAt d (base slot : Z) : option Z := readWord d slot.

(** ** Where a piece of the data lies *)

Definition located d off (s : list Z) : Prop := ∃ pre post, d = pre ++ s ++ post ∧ lenZ pre = off.

Lemma located_whole s : located s 0 s.
Proof. exists [], []. by rewrite app_nil_r. Qed.

Lemma located_l d off s1 s2 : located d off (s1 ++ s2) → located d off s1.
Proof. intros (pre & post & -> & <-). exists pre, (s2 ++ post). by rewrite <- app_assoc. Qed.

Lemma located_r d off s1 s2 : located d off (s1 ++ s2) → located d (off + lenZ s1) s2.
Proof.
  intros (pre & post & -> & <-). exists (pre ++ s1), post. rewrite lenZ_app. by rewrite <- !app_assoc.
Qed.

Lemma located_bounds d off s : located d off s → 0 ≤ off ∧ off + lenZ s ≤ lenZ d.
Proof.
  intros (pre & post & -> & <-). rewrite !lenZ_app. pose proof (lenZ_nonneg pre). pose proof (lenZ_nonneg post). lia.
Qed.

Lemma located_word d off w : located d off w → length w = 32%nat → readWord d off = Some (be_value w).
Proof.
  intros Hl Hw. pose proof (located_bounds _ _ _ Hl) as Hb. destruct Hl as (pre & post & -> & <-).
  assert (lenZ w = 32) as Hz by (unfold lenZ; lia). rewrite Hz in Hb. unfold readWord.
  destruct (Z.leb_spec 0 (lenZ pre)), (Z.leb_spec (lenZ pre + 32) (lenZ (pre ++ w ++ post))); try lia. cbn [andb].
  rewrite (wordAt_app pre) by (unfold lenZ; lia). rewrite <- Hw at 1. by rewrite take_app_length.
Qed.

Lemma located_uint bits d off z :
  located d off (word z) → 0 ≤ z < 2 ^ bits → bits ≤ 256 → readUint bits d off = Some z.
Proof. intros (pre & post & -> & Hp). by apply readUint_at. Qed.

(** What the head of a component says, and where its tail is. *)
Definition headAt d base slot (p : part) : Prop :=
  if p.1 then ∃ off, located d slot (word off) ∧ 0 ≤ off ∧ located d (base + off) p.2
  else located d slot p.2.

(** A static component is one word. *)
Definition one_word (p : part) : Prop := p.1 = false → length p.2 = 32%nat.

Lemma headsTails_at d base slot off parts i p :
  located d slot (headsTails off parts).1 → located d (base + off) (headsTails off parts).2 →
  0 ≤ off → Forall one_word parts → parts !! i = Some p → headAt d base (slot + 32 * Z.of_nat i) p.
Proof.
  revert slot off i. induction parts as [|[[] bs] parts IH]; intros slot off i Hh Ht Ho Hw Hi; [done|..];
    apply Forall_cons in Hw as [Hb Hw]; cbn [headsTails] in *.
  - specialize (IH (slot + 32) (off + lenZ bs)). pose proof (lenZ_nonneg bs).
    destruct (headsTails (off + lenZ bs) parts) as [heads tails]. cbn [fst snd] in *.
    destruct i as [|i]; cbn [lookup list_lookup] in Hi.
    + injection Hi as <-. rewrite Z.add_0_r. exists off. eauto using located_l.
    + replace (slot + 32 * Z.of_nat (S i)) with (slot + 32 + 32 * Z.of_nat i) by lia.
      apply IH; [| |lia|done..].
      * rewrite <- (lenZ_word off). by eapply located_r.
      * rewrite Z.add_assoc. by eapply located_r.
  - specialize (IH (slot + 32) off). destruct (headsTails off parts) as [heads tails]. cbn [fst snd] in *.
    destruct i as [|i]; cbn [lookup list_lookup] in Hi.
    + injection Hi as <-. rewrite Z.add_0_r. unfold headAt. cbn [fst snd]. by eapply located_l.
    + replace (slot + 32 * Z.of_nat (S i)) with (slot + 32 + 32 * Z.of_nat i) by lia.
      apply IH; [|done..]. apply located_r in Hh.
      assert (lenZ bs = 32) as <- by (specialize (Hb eq_refl); cbn in Hb; unfold lenZ; lia). done.
Qed.

Lemma headsTails_length off parts :
  Forall one_word parts → lenZ (headsTails off parts).1 = 32 * Z.of_nat (length parts).
Proof.
  revert off. induction parts as [|[[] bs] parts IH]; intros off Hw; [done|..];
    apply Forall_cons in Hw as [Hb Hw]; cbn [headsTails].
  - specialize (IH (off + lenZ bs) Hw). destruct (headsTails _ _). cbn [fst length] in *.
    rewrite lenZ_app, lenZ_word. lia.
  - specialize (IH off Hw). destruct (headsTails _ _). cbn [fst length] in *.
    specialize (Hb eq_refl). cbn in Hb. rewrite lenZ_app, IH. unfold lenZ. lia.
Qed.

(** The heads of a layout that starts at [base]. *)
Lemma layout_heads d base parts i p :
  located d base (layout parts) → Forall one_word parts → parts !! i = Some p →
  headAt d base (base + 32 * Z.of_nat i) p.
Proof.
  intros Hl Hw Hi. unfold layout in Hl. pose proof (headsTails_length (32 * Z.of_nat (length parts)) parts Hw) as Hn.
  destruct (headsTails (32 * Z.of_nat (length parts)) parts) as [heads tails] eqn:E. cbn [fst] in Hn.
  apply (headsTails_at d base base (32 * Z.of_nat (length parts)) parts); rewrite ?E; cbn [fst snd]; try done; try lia.
  - by eapply located_l.
  - rewrite <- Hn. by eapply located_r.
Qed.

(** ** Readers that find what was written *)

(** The reader [elem] finds [x] in a component, wherever it lies in data of
    less than [2 ^ 64] bytes. *)
Definition Reads {A} (elem : list Z → Z → Z → option A) (p : part) (x : A) : Prop :=
  one_word p ∧
  ∀ d base slot, lenZ d < 2 ^ 64 → 0 ≤ base → headAt d base slot p → elem d base slot = Some x.

Lemma readElems_ok {A} (elem : list Z → Z → Z → option A) d base slot parts xs :
  lenZ d < 2 ^ 64 → 0 ≤ base → Forall2 (Reads elem) parts xs →
  (∀ i p, parts !! i = Some p → headAt d base (slot + 32 * Z.of_nat i) p) →
  readElems elem d base (length parts) slot = Some xs.
Proof.
  intros Hd Hb Hr. revert slot. induction Hr as [|p x parts xs [_ Hx] Hr IH]; intros slot Hh; [done|].
  cbn [length readElems]. pose proof (Hh 0%nat p eq_refl) as H0. rewrite Z.add_0_r in H0.
  rewrite (Hx d base slot Hd Hb H0). cbn [mbind option_bind]. rewrite IH; [done|].
  intros i p' Hi. specialize (Hh (S i) p' Hi).
  by replace (slot + 32 + 32 * Z.of_nat i) with (slot + 32 * Z.of_nat (S i)) by lia.
Qed.

Lemma Reads_words {A} (elem : list Z → Z → Z → option A) parts xs :
  Forall2 (Reads elem) parts xs → Forall one_word parts.
Proof. induction 1 as [|p x parts xs [Hp _] _ IH]; by constructor. Qed.

Lemma Reads_seq {A} (elem : list Z → Z → Z → option A) parts xs :
  Forall2 (Reads elem) parts xs →
  Reads (readSeq elem) (true, word (Z.of_nat (length parts)) ++ layout parts) xs.
Proof.
  intros Hr. split; [done|]. intros d base slot Hd Hb (off & Hoff & Hpos & Hl). cbn [snd] in Hl.
  pose proof (Reads_words _ _ _ Hr) as Hw. pose proof (located_bounds _ _ _ Hl) as [_ Hbd].
  unfold layout in Hbd. pose proof (headsTails_length (32 * Z.of_nat (length parts)) parts Hw) as Hn.
  destruct (headsTails _ _) as [heads tails]. cbn [fst] in Hn.
  rewrite !lenZ_app, lenZ_word in Hbd. pose proof (lenZ_nonneg tails).
  unfold readSeq, readSize. rewrite (located_uint 64 d slot off) by (done || lia). cbn [mbind option_bind].
  rewrite (located_uint 64 d (base + off) (Z.of_nat (length parts)))
    by first [by eapply located_l | lia]. cbn [mbind option_bind].
  apply located_r in Hl. rewrite lenZ_word in Hl.
  rewrite (proj2 (Z.leb_le _ _)) by lia. rewrite Nat2Z.id.
  apply readElems_ok; [done|lia|done|]. intros i p Hi. by apply (layout_heads d _ parts).
Qed.

Lemma Reads_bytes bytes : Reads readBytes (true, bytesTail bytes) bytes.
Proof.
  split; [done|]. intros d base slot Hd Hb (off & (pre1 & post1 & E1 & L1) & Hpos & Hl).
  pose proof (located_bounds _ _ _ Hl) as [_ Hbd]. destruct Hl as (pre2 & post2 & E2 & L2). cbn [snd] in *.
  unfold bytesTail in Hbd. rewrite lenZ_app, lenZ_word, lenZ_padWords in Hbd.
  pose proof (lenZ_nonneg bytes). pose proof (Z.mod_pos_bound (- lenZ bytes) 32).
  apply (readBytes_at d base slot off bytes pre1 post1 pre2 post2); try done; lia.
Qed.

Lemma Reads_address z : 0 ≤ z < 2 ^ 160 → Reads readAddressAt (false, word z) z.
Proof. intros Hz. split; [intros _; apply word_length|]. intros d base slot _ _ Hl. by apply located_uint. Qed.

Lemma Reads_word w : length w = 32%nat → Reads readWordAt (false, w) (be_value w).
Proof. intros Hw. split; [by intros _|]. intros d base slot _ _ Hl. exact (located_word d slot w Hl Hw). Qed.

(** ** Types *)

Section types.
Context `{ViemLaws}.

(** [elem] reads the values of type [t], as [value] says. *)
Definition decodes {A} (t : abi_type) (elem : list Z → Z → Z → option A) (value : abi_arg → A) : Prop :=
  ∀ v bs, encodeValue t v = Some bs → Reads elem (dynamic t, bs) (value v).

Definition addressOf (v : abi_arg) : Z := match v with AText s => hexNumber s | _ => 0 end.
Definition dataOf (v : abi_arg) : list Z := match v with AData bytes => bytes | _ => [] end.
Definition listOf {A} (value : abi_arg → A) (v : abi_arg) : list A :=
  match v with AList vs => value <$> vs | _ => [] end.

Lemma decodes_address : decodes TAddress readAddressAt addressOf.
Proof.
  intros v bs Hv. destruct v; try done. cbn [encodeValue encodeWord] in Hv.
  destruct (isAddress s) eqn:E; [|discriminate]. injection Hv as <-. apply Reads_address.
  change (2 ^ 160) with (256 ^ Z.of_nat 20). by apply hexNumber_range, isAddress_format.
Qed.

Lemma decodes_bytes32 : decodes (TBytesN 32) readWordAt addressOf.
Proof.
  intros v bs Hv. destruct v; try done.
  destruct (encodeWord_spec (TBytesN 32) (AText s) bs eq_refl Hv) as [Hl Hb].
  change (dynamic (TBytesN 32)) with false.
  assert (be_value bs = addressOf (AText s)) as <- by (rewrite Hb; cbn [argValue addressOf]; lia).
  by apply Reads_word.
Qed.

Lemma decodes_bytes : decodes TBytes readBytes dataOf.
Proof. intros v bs Hv. destruct v; try done. injection Hv as <-. apply Reads_bytes. Qed.

Lemma decodes_array {A} t (elem : list Z → Z → Z → option A) value :
  decodes t elem value → decodes (TArray t) (readSeq elem) (listOf value).
Proof.
  intros Ht v bs Hv. destruct v as [| | | |vs|]; try done. cbn [encodeValue] in Hv.
  destruct (mapM (encodeValue t) vs) as [encoded|] eqn:E; [|discriminate]. cbn [mbind option_bind] in Hv.
  injection Hv as <-. apply mapM_Some in E. cbn [listOf dynamic].
  assert (length vs = length (pair (dynamic t) <$> encoded)) as ->
    by (rewrite length_fmap; by eapply Forall2_length).
  apply Reads_seq. induction E as [|v bs vs encoded Hv _ IH]; [constructor|].
  cbn [fmap list_fmap]. constructor; [by apply Ht | done].
Qed.

(** ** Parameters *)

Definition parameter_ok (t : abi_type) : bool := dynamic t || type_ok t.

Lemma encodeValue_word t v bs : parameter_ok t = true → encodeValue t v = Some bs → one_word (dynamic t, bs).
Proof.
  intros Ht Hv Hd. cbn [fst snd] in *. unfold parameter_ok in Ht. rewrite Hd in Ht. cbn [orb] in Ht.
  assert (encodeWord t v = Some bs) as Hw by (by destruct t). by apply (encodeWord_spec t v bs Ht Hw).
Qed.

Lemma encodeParts_words ts vs parts :
  forallb parameter_ok ts = true → encodeParts ts vs = Some parts → Forall one_word parts.
Proof.
  revert vs parts. induction ts as [|t ts IH]; intros [|v vs] parts Ht Hp; try done; cbn [encodeParts] in Hp.
  - injection Hp as <-. constructor.
  - cbn [forallb] in Ht. apply andb_true_iff in Ht as [Ht Hts].
    destruct (encodeValue t v) as [bs|] eqn:Ev; [|discriminate]. cbn [mbind option_bind] in Hp.
    destruct (encodeParts ts vs) as [ps|] eqn:Ep; [|discriminate]. injection Hp as <-.
    constructor; [by apply (encodeValue_word t v) | by apply (IH vs)].
Qed.

Lemma encodeParts_lookup ts vs parts i t v :
  encodeParts ts vs = Some parts → ts !! i = Some t → vs !! i = Some v →
  ∃ bs, encodeValue t v = Some bs ∧ parts !! i = Some (dynamic t, bs).
Proof.
  revert vs parts i. induction ts as [|t' ts IH]; intros [|v' vs] parts i Hp Ht Hv; try done; cbn [encodeParts] in Hp.
  destruct (encodeValue t' v') as [bs|] eqn:Ev; [|discriminate]. cbn [mbind option_bind] in Hp.
  destruct (encodeParts ts vs) as [ps|] eqn:Ep; [|discriminate]. injection Hp as <-.
  destruct i as [|i]; cbn [lookup list_lookup] in *; [|by apply (IH vs)].
  injection Ht as <-. injection Hv as <-. eauto.
Qed.

(** The reader of a parameter's type finds the argument at the parameter's
    head. *)
Lemma abiEncode_reads {A} ts vs d i t v (elem : list Z → Z → Z → option A) value :
  abiEncode ts vs = Some d → forallb parameter_ok ts = true → lenZ d < 2 ^ 64 →
  ts !! i = Some t → vs !! i = Some v → decodes t elem value →
  elem d 0 (32 * Z.of_nat i) = Some (value v).
Proof.
  unfold abiEncode. intros He Hok Hd Ht Hv Hdec.
  destruct (encodeParts ts vs) as [parts|] eqn:Ep; [|discriminate]. injection He as <-.
  destruct (encodeParts_lookup _ _ _ _ _ _ Ep Ht Hv) as (bs & Hbs & Hi).
  destruct (Hdec _ _ Hbs) as [_ Hread]. apply Hread; [done..|].
  replace (32 * Z.of_nat i) with (0 + 32 * Z.of_nat i) by lia.
  apply (layout_heads _ 0 parts); [apply located_whole | by eapply encodeParts_words | done].
Qed.
End types.
