(* ===== verification/AbiSample.v ===== *)
(** * A concrete viem for the witnesses

    Selectors are a polynomial hash of the signature, addresses are any 20
    hexadecimal bytes, static arguments, and parameters without tuples, are
    encoded as the ABI says. It has every law of [ViemLaws] and [ViemParamLaws], so a theorem that assumes them is not vacuous. *)

From S2P Require Import Prelude.
From S2P Require Import Js.
From S2P Require Import Encoding.
From S2P Require Import Abi.
From S2P Require Import EvmAbi.
From S2P Require Import AbiLayout.

(** A hash of a signature: any function that tells the code's signatures apart. *)
Fixpoint sampleHash (acc : Z) (s : string) : Z :=
  match s with
  | EmptyString => acc
  | String c s => sampleHash ((acc * 131 + Js.code c) mod 2 ^ 32) s
  end.

Definition sample_encode (abi : list abi_item) (name : string) (args : list abi_arg)
    (words : list abi_type → list abi_arg → option (list Z)) : result ts_error (list Z) :=
  match findItem abi name with
  | None => Throw (ViemErr "AbiFunctionNotFoundError")
  | Some it =>
      if forallb is_static (item_inputs it) then
        match words (item_inputs it) args with
        | Some ws => Ok (be_bytes 4 (sampleHash 7 (signature it)) ++ ws)
        | None => Throw (ViemErr "InvalidArgument")
        end
      else Ok (be_bytes 4 (sampleHash 7 (signature it)))
  end.

(** [encodeWord] depends on [isAddress] only. *)
Definition sample_pre : Viem :=
  {| isAddress := isHexBytes 20; selectorOf := sampleHash 7;
     toFunctionSelector s := "0x" +:+ hexDigits 8 (sampleHash 7 (str_drop 9 s));
     encodeFunctionData _ _ _ := Ok []; encodeAbiParameters _ _ := Ok []; keccak256 _ := 0;
     erc20Abi := []; erc4626Abi := [] |}.

Definition sample_words (ts : list abi_type) (vs : list abi_arg) : option (list Z) :=
  @encodeWords sample_pre ts vs.

(** Parameters without tuples are laid out as the ABI says. *)
Definition sample_parameters (ts : list abi_type) (vs : list abi_arg) : result ts_error (list Z) :=
  match @abiEncode sample_pre ts vs with
  | Some d => Ok d
  | None => if typedAll ts vs then Throw (ViemErr "InvalidArgument") else Ok []
  end.

#[global] Instance sample_viem : Viem :=
  {| isAddress := isHexBytes 20; selectorOf := sampleHash 7;
     toFunctionSelector s := "0x" +:+ hexDigits 8 (sampleHash 7 (str_drop 9 s));
     encodeFunctionData abi name args := sample_encode abi name args sample_words;
     encodeAbiParameters := sample_parameters; keccak256 bs := be_value bs mod 2 ^ 256;
     erc20Abi := [{| item_name := "transfer"; item_inputs := [TAddress; TUint 256] |}];
     erc4626Abi := [{| item_name := "withdraw"; item_inputs := [TUint 256; TAddress; TAddress] |}] |}.

Lemma sample_words_eq ts vs : sample_words ts vs = encodeWords ts vs.
Proof.
  reflexivity.
Qed.

Lemma sampleHash_range acc s : 0 ≤ acc < 2 ^ 32 → 0 ≤ sampleHash acc s < 2 ^ 32.
Proof.
  revert acc. induction s as [|c s IH]; intros acc Ha; [done|]. cbn [sampleHash].
  apply IH, Z.mod_pos_bound. lia.
Qed.

Lemma sample_selector_hex sig :
  isHexBytes 4 (toFunctionSelector ("function " +:+ sig)) = true ∧
  hexNumber (toFunctionSelector ("function " +:+ sig)) = selectorOf sig.
Proof.
  change (toFunctionSelector ("function " +:+ sig)) with
    (String "0" (String "x" (hexDigits 8 (sampleHash 7 (str_drop (String.length "function ") ("function " +:+ sig)))))).
  rewrite str_drop_app. destruct (hexDigits_spec 8 (sampleHash 7 sig)) as (H1 & H2 & H3). split.
  - unfold isHexBytes. cbn [startsWith str_drop]. rewrite H1, !Ascii.eqb_refl. cbn [andb].
    unfold strlen in *. cbn [String.length]. rewrite andb_true_r. apply Z.eqb_eq. lia.
  - change (hexNumber (String "0" (String "x" ?s))) with (hexval_from 0 s). rewrite H3.
    change (16 ^ Z.of_nat 8) with (2 ^ 32). apply Z.mod_small, sampleHash_range. lia.
Qed.

#[global] Instance sample_viem_laws : ViemLaws.
Proof.
  split.
  - done.
  - intros s. apply sampleHash_range. lia.
  - assert (Hnd : NoDup (selectorOf <$> codeSignatures))
      by (apply (bool_decide_unpack _); vm_compute; reflexivity).
    intros s t [i Hi]%list_elem_of_lookup [j Hj]%list_elem_of_lookup E.
    assert (i = j) as ->; [|congruence].
    apply (NoDup_lookup _ i j (selectorOf s)) in Hnd; [done|..]; rewrite list_lookup_fmap;
      [by rewrite Hi | by rewrite Hj, E].
  - intros it. apply sample_selector_hex.
  - intros it. apply sample_selector_hex.
  - intros abi name it args ws Hf Hs Hw. cbn [encodeFunctionData sample_viem]. unfold sample_encode.
    rewrite Hf, sample_words_eq. change (encodeWords (item_inputs it) args) with
      (@encodeWords sample_viem (item_inputs it) args). rewrite Hw.
    replace (forallb is_static (item_inputs it)) with true; [done|].
    symmetry. apply forallb_forall. intros t Ht. rewrite Forall_forall in Hs. apply Hs.
    by apply list_elem_of_In.
  - intros abi name it args Hf Hs Hw. cbn [encodeFunctionData sample_viem]. unfold sample_encode.
    rewrite Hf, sample_words_eq. change (encodeWords (item_inputs it) args) with
      (@encodeWords sample_viem (item_inputs it) args). rewrite Hw.
    replace (forallb is_static (item_inputs it)) with true; [eauto|].
    symmetry. apply forallb_forall. intros t Ht. rewrite Forall_forall in Hs. apply Hs.
    by apply list_elem_of_In.
  - done.
  - done.
Qed.

#[global] Instance sample_viem_params : ViemParamLaws.
Proof.
  split; intros ts vs; cbn [encodeAbiParameters sample_viem]; unfold sample_parameters.
  - intros d _ Hd. change (@abiEncode sample_pre ts vs) with (@abiEncode sample_viem ts vs). by rewrite Hd.
  - intros Ht Hn. change (@abiEncode sample_pre ts vs) with (@abiEncode sample_viem ts vs). rewrite Hn, Ht. eauto.
Qed.
