(* ===== verification/SessionKey.v ===== *)
(** * The session key plugin: storage and permission updates

    Models the storage of [SessionKeyPermissionsBase.sol] and the permission
    updates, checks and spend accounting of [SessionKeyPermissions.sol]
    (contracts/src/bufi/v0.7/session/permissions). Storage slots are keccak
    images of (account, prefix, key id, ...): they are modelled by the keys they
    are computed from, one [KeyStore] per account and key id, where an absent
    entry reads as zero. A revert undoes the call, so it carries no state. *)

From S2P Require Import Prelude.
From S2P Require Import Encoding.
From S2P Require Import Abi.

(** ** Reverts and checked arithmetic *)

Inductive revert : Type :=
| InvalidPermissionsUpdate (selector : Z)
| InvalidSessionKey (sessionKey : Z)
| InvalidToken (token : Z)
| ERC20SpendLimitExceeded (account sessionKey token : Z)
| NativeTokenSpendLimitExceeded (account sessionKey : Z)
| PermissionsCheckFailed
| InvalidSignature (sessionKey : Z)
| LengthMismatch
| AlreadyInitialized
| Panic                                    (* checked arithmetic *)
| AbiDecode                                (* [abi.decode] on malformed data *).

Notation evm := (result revert).

Definition UINT48 : Z := 2 ^ 48.
Definition UINT256 : Z := 2 ^ 256.

(** [a + b] on [uint48] and [uint256]: Solidity 0.8 reverts on overflow. *)
Definition add48 (a b : Z) : evm Z := if a + b <? UINT48 then Ok (a + b) else Throw Panic.
Definition add256 (a b : Z) : evm Z := if a + b <? UINT256 then Ok (a + b) else Throw Panic.
Definition mul256 (a b : Z) : evm Z := if a * b <? UINT256 then Ok (a * b) else Throw Panic.

(** The same inside [unchecked { }]. *)
Definition wrap256 (a : Z) : Z := a mod UINT256.
(** [uint48(block.timestamp)] *)
Definition uint48 (a : Z) : Z := a mod UINT48.

(** ** Storage *)

Inductive ContractAccessControlType : Type := ALLOWLIST | DENYLIST | ALLOW_ALL_ACCESS.

#[global] Instance access_eq_dec : EqDecision ContractAccessControlType.
Proof. solve_decision. Defined.

Record SpendLimitTimeInfo : Type := { lastUsed : Z; refreshInterval : Z }.
Record SpendLimit : Type := { limitAmount : Z; limitUsed : Z }.

Definition zeroTimeInfo : SpendLimitTimeInfo := {| lastUsed := 0; refreshInterval := 0 |}.
Definition zeroLimit : SpendLimit := {| limitAmount := 0; limitUsed := 0 |}.

Record SessionKeyData : Type := {
  contractAccessControlType : ContractAccessControlType;
  validAfter : Z;
  validUntil : Z;
  hasRequiredPaymaster : bool;
  hasGasLimit : bool;
  nativeTokenSpendLimitBypassed : bool;
  gasLimitResetThisBundle : bool;
  gasLimitTimeInfo : SpendLimitTimeInfo;
  nativeTokenSpendLimitTimeInfo : SpendLimitTimeInfo;
  requiredPaymaster : Z;
  gasLimit : SpendLimit;
  nativeTokenSpendLimit : SpendLimit }.

Record ContractData : Type := {
  isOnList : bool;
  checkSelectors : bool;
  isERC20WithSpendLimit : bool;
  erc20SpendLimitTimeInfo : SpendLimitTimeInfo;
  erc20SpendLimit : SpendLimit }.

Definition zeroKeyData : SessionKeyData :=
  {| contractAccessControlType := ALLOWLIST; validAfter := 0; validUntil := 0;
     hasRequiredPaymaster := false; hasGasLimit := false;
     nativeTokenSpendLimitBypassed := false; gasLimitResetThisBundle := false;
     gasLimitTimeInfo := zeroTimeInfo; nativeTokenSpendLimitTimeInfo := zeroTimeInfo;
     requiredPaymaster := 0; gasLimit := zeroLimit; nativeTokenSpendLimit := zeroLimit |}.

Definition zeroContractData : ContractData :=
  {| isOnList := false; checkSelectors := false; isERC20WithSpendLimit := false;
     erc20SpendLimitTimeInfo := zeroTimeInfo; erc20SpendLimit := zeroLimit |}.

(** What is stored for one key id of one account. *)
Record KeyStore : Type := {
  keyData : SessionKeyData;
  contracts : gmap Z ContractData;
  functions : gmap (Z * Z) bool }.         (* (contract, selector) *)

#[global] Instance eta_key_data : Eta SessionKeyData := λ r,
  Build_SessionKeyData (contractAccessControlType r) (validAfter r) (validUntil r)
    (hasRequiredPaymaster r) (hasGasLimit r) (nativeTokenSpendLimitBypassed r)
    (gasLimitResetThisBundle r) (gasLimitTimeInfo r) (nativeTokenSpendLimitTimeInfo r)
    (requiredPaymaster r) (gasLimit r) (nativeTokenSpendLimit r).
#[global] Instance eta_contract_data : Eta ContractData := λ r,
  Build_ContractData (isOnList r) (checkSelectors r) (isERC20WithSpendLimit r)
    (erc20SpendLimitTimeInfo r) (erc20SpendLimit r).
#[global] Instance eta_key_store : Eta KeyStore := λ r,
  Build_KeyStore (keyData r) (contracts r) (functions r).
#[global] Instance eta_time_info : Eta SpendLimitTimeInfo := λ r,
  Build_SpendLimitTimeInfo (lastUsed r) (refreshInterval r).
#[global] Instance eta_limit : Eta SpendLimit := λ r,
  Build_SpendLimit (limitAmount r) (limitUsed r).

Definition emptyKeyStore : KeyStore :=
  {| keyData := zeroKeyData; contracts := ∅; functions := ∅ |}.

Definition contractDataOf (ks : KeyStore) (target : Z) : ContractData :=
  default zeroContractData (contracts ks !! target).

Definition functionOnList (ks : KeyStore) (target selector : Z) : bool :=
  default false (functions ks !! (target, selector)).

Definition setContract (target : Z) (f : ContractData → ContractData) (ks : KeyStore) : KeyStore :=
  ks <| contracts ::= λ m, <[target := f (default zeroContractData (m !! target))]> m |>.

Lemma contractDataOf_setContract t f ks t' :
  contractDataOf (setContract t f ks) t' =
  if decide (t' = t) then f (contractDataOf ks t) else contractDataOf ks t'.
Proof.
  unfold contractDataOf, setContract.
  change (contracts (set contracts ?f ks)) with (f (contracts ks)). cbv beta.
  case_decide as E; [by rewrite E, lookup_insert_eq | by rewrite lookup_insert_ne].
Qed.

(** ** Permission updates *)

(** [_updateSpendLimits]: the new flag, time info and limit. *)
Definition updateSpendLimits (now newLimit newRefreshInterval : Z)
    (ti : SpendLimitTimeInfo) (l : SpendLimit) : bool * SpendLimitTimeInfo * SpendLimit :=
  if newLimit =? UINT256 - 1 then
    (false, ti, l <| limitUsed := 0 |>)
  else
    (true,
     {| refreshInterval := newRefreshInterval;
        lastUsed := if newRefreshInterval =? 0 then 0 else uint48 now |},
     l <| limitAmount := newLimit |>).

Definition setAccessListType (t : ContractAccessControlType) (ks : KeyStore) : KeyStore :=
  ks <| keyData ::= λ d, d <| contractAccessControlType := t |> |>.

Definition updateAccessListAddressEntry (contractAddress : Z) (onList check : bool)
    (ks : KeyStore) : KeyStore :=
  setContract contractAddress
    (λ c, c <| isOnList := onList |> <| checkSelectors := check |>) ks.

Definition updateAccessListFunctionEntry (contractAddress selector : Z) (onList : bool)
    (ks : KeyStore) : KeyStore :=
  ks <| functions ::= <[(contractAddress, selector) := onList]> |>.

Definition updateTimeRange (after until : Z) (ks : KeyStore) : KeyStore :=
  ks <| keyData ::= λ d, d <| validAfter := after |> <| validUntil := until |> |>.

Definition setNativeTokenSpendLimit (now limit interval : Z) (ks : KeyStore) : KeyStore :=
  ks <| keyData ::= λ d,
    let '(enabled, ti, l) :=
      updateSpendLimits now limit interval (nativeTokenSpendLimitTimeInfo d) (nativeTokenSpendLimit d) in
    d <| nativeTokenSpendLimitBypassed := negb enabled |>
      <| nativeTokenSpendLimitTimeInfo := ti |> <| nativeTokenSpendLimit := l |> |>.

Definition setERC20SpendLimit (now token limit interval : Z) (ks : KeyStore) : evm KeyStore :=
  if token =? 0 then Throw (InvalidToken token) else
  Ok (setContract token (λ c,
    let '(enabled, ti, l) :=
      updateSpendLimits now limit interval (erc20SpendLimitTimeInfo c) (erc20SpendLimit c) in
    c <| isERC20WithSpendLimit := enabled |>
      <| erc20SpendLimitTimeInfo := ti |> <| erc20SpendLimit := l |>) ks).

Definition setGasSpendLimit (now limit interval : Z) (ks : KeyStore) : KeyStore :=
  ks <| keyData ::= λ d,
    let '(enabled, ti, l) := updateSpendLimits now limit interval (gasLimitTimeInfo d) (gasLimit d) in
    d <| gasLimitResetThisBundle := false |> <| hasGasLimit := enabled |>
      <| gasLimitTimeInfo := ti |> <| gasLimit := l |> |>.

Definition setRequiredPaymaster (paymaster : Z) (ks : KeyStore) : KeyStore :=
  ks <| keyData ::= λ d,
    if paymaster =? 0 then d <| hasRequiredPaymaster := false |>
    else d <| hasRequiredPaymaster := true |> <| requiredPaymaster := paymaster |> |>.

(** ** Reading the arguments of an update: [abi.decode(update[4:], (...))] *)

(** [n] static words must be present. *)
Definition decodeWords (n : nat) (data : list Z) : evm (list Z) :=
  if (length data <? 32 * n)%nat then Throw AbiDecode
  else Ok ((λ i, wordAt (32 * i) data) <$> seq 0 n).

Definition asAddress (w : Z) : evm Z := if w <? 2 ^ 160 then Ok w else Throw AbiDecode.
Definition asUint48 (w : Z) : evm Z := if w <? UINT48 then Ok w else Throw AbiDecode.
Definition asBool (w : Z) : evm bool :=
  if w =? 0 then Ok false else if w =? 1 then Ok true else Throw AbiDecode.
(** A [bytes4]: the high bytes; the low ones must be zero. *)
Definition asBytes4 (w : Z) : evm Z :=
  if w mod 2 ^ 224 =? 0 then Ok (w / 2 ^ 224) else Throw AbiDecode.
Definition asAccessType (w : Z) : evm ContractAccessControlType :=
  if w =? 0 then Ok ALLOWLIST else if w =? 1 then Ok DENYLIST
  else if w =? 2 then Ok ALLOW_ALL_ACCESS else Throw AbiDecode.

Definition arg (ws : list Z) (i : nat) : Z := nth i ws 0.

Section plugin.
Context `{Viem}.
Context (now : Z).                         (* [block.timestamp] *)

(** [_performSessionKeyPermissionsUpdate] *)
Definition performUpdate (update : list Z) (ks : KeyStore) : evm KeyStore :=
  let updateSelector := bytes4_of update in
  let args := drop 4 update in
  if (length update <? 4)%nat then Throw (InvalidPermissionsUpdate updateSelector)
  else if updateSelector =? selectorOf "setAccessListType(uint8)" then
    ws ← decodeWords 1 args;
    t ← asAccessType (arg ws 0);
    mret (setAccessListType t ks)
  else if updateSelector =? selectorOf "updateAccessListAddressEntry(address,bool,bool)" then
    ws ← decodeWords 3 args;
    a ← asAddress (arg ws 0); onList ← asBool (arg ws 1); check ← asBool (arg ws 2);
    mret (updateAccessListAddressEntry a onList check ks)
  else if updateSelector =? selectorOf "updateAccessListFunctionEntry(address,bytes4,bool)" then
    ws ← decodeWords 3 args;
    a ← asAddress (arg ws 0); sel ← asBytes4 (arg ws 1); onList ← asBool (arg ws 2);
    mret (updateAccessListFunctionEntry a sel onList ks)
  else if updateSelector =? selectorOf "updateTimeRange(uint48,uint48)" then
    ws ← decodeWords 2 args;
    after ← asUint48 (arg ws 0); until ← asUint48 (arg ws 1);
    mret (updateTimeRange after until ks)
  else if updateSelector =? selectorOf "setNativeTokenSpendLimit(uint256,uint48)" then
    ws ← decodeWords 2 args;
    interval ← asUint48 (arg ws 1);
    mret (setNativeTokenSpendLimit now (arg ws 0) interval ks)
  else if updateSelector =? selectorOf "setERC20SpendLimit(address,uint256,uint48)" then
    ws ← decodeWords 3 args;
    token ← asAddress (arg ws 0); interval ← asUint48 (arg ws 2);
    setERC20SpendLimit now token (arg ws 1) interval ks
  else if updateSelector =? selectorOf "setGasSpendLimit(uint256,uint48)" then
    ws ← decodeWords 2 args;
    interval ← asUint48 (arg ws 1);
    mret (setGasSpendLimit now (arg ws 0) interval ks)
  else if updateSelector =? selectorOf "setRequiredPaymaster(address)" then
    ws ← decodeWords 1 args;
    p ← asAddress (arg ws 0);
    mret (setRequiredPaymaster p ks)
  else Throw (InvalidPermissionsUpdate updateSelector).

(** The loop of [updateKeyPermissions] over one key's storage. *)
Fixpoint performUpdates (updates : list (list Z)) (ks : KeyStore) : evm KeyStore :=
  match updates with
  | [] => mret ks
  | u :: us => ks ← performUpdate u ks; performUpdates us ks
  end.
End plugin.
