(* ===== verification/SessionKeyChecks.v ===== *)
(** * The session key plugin: call permissions and spend accounting

    Models the validation-time checks and the execution-time accounting of
    [SessionKeyPermissions.sol]: [_checkCallPermissions],
    [_checkSpendLimitUsage], [_checkAndUpdateGasLimitUsage],
    [_checkUserOpPermissions], [_runtimeUpdateSpendLimitUsage] and
    [_updateLimitsPreExec]. *)

From S2P Require Import Prelude.
From S2P Require Import Encoding.
From S2P Require Import Abi.
From S2P Require Import SessionKey.

(** [Call] of [Structs.sol], as the plugin receives it. *)
Record EvmCall : Type := { ec_target : Z; ec_value : Z; ec_data : list Z }.

(** The parts of a [PackedUserOperation] the plugin reads, unpacked by the
    EntryPoint's [UserOperationLib]; no paymaster is an empty
    [paymasterAndData]. *)
Record PaymasterFields : Type :=
  { pm_address : Z; pm_verificationGas : Z; pm_postOpGas : Z }.
Record PackedUserOperation : Type := {
  uo_nonce : Z;
  uo_verificationGasLimit : Z;
  uo_callGasLimit : Z;
  uo_preVerificationGas : Z;
  uo_maxFeePerGas : Z;
  uo_paymaster : option PaymasterFields }.

Definition max48 (a b : Z) : Z := if b <? a then a else b.

(** [_checkSpendLimitUsage] *)
Definition checkSpendLimitUsage (newUsage : Z) (ti : SpendLimitTimeInfo) (l : SpendLimit) :
    evm (bool * Z) :=
  let newTotalUsage := wrap256 (newUsage + limitUsed l) in
  if newTotalUsage <? newUsage then mret (false, 0)
  else if refreshInterval ti =? 0 then mret (newTotalUsage <=? limitAmount l, 0)
  else if newTotalUsage <=? limitAmount l then mret (true, 0)
  else if newUsage <=? limitAmount l then
    after ← add48 (lastUsed ti) (refreshInterval ti); mret (true, after)
  else mret (false, 0).

(** [_checkAndUpdateGasLimitUsage]: the answer and the updated key. *)
Definition checkAndUpdateGasLimitUsage (newUsage : Z) (d : SessionKeyData) :
    evm (bool * Z * SessionKeyData) :=
  let ti := gasLimitTimeInfo d in
  let limit := limitAmount (gasLimit d) in
  let newTotalUsage := wrap256 (newUsage + limitUsed (gasLimit d)) in
  if newTotalUsage <? newUsage then mret (false, 0, d)
  else if refreshInterval ti =? 0 then
    if newTotalUsage <=? limit
    then mret (true, 0, d <| gasLimit ::= λ l, l <| limitUsed := newTotalUsage |> |>)
    else mret (false, 0, d)
  else if newTotalUsage <=? limit then
    after ← (if gasLimitResetThisBundle d then add48 (lastUsed ti) (refreshInterval ti) else mret 0);
    mret (true, after, d <| gasLimit ::= λ l, l <| limitUsed := newTotalUsage |> |>)
  else if (newUsage <=? limit) && negb (gasLimitResetThisBundle d) then
    after ← add48 (lastUsed ti) (refreshInterval ti);
    mret (true, after,
      d <| gasLimitResetThisBundle := true |> <| gasLimit ::= λ l, l <| limitUsed := newUsage |> |>)
  else mret (false, 0, d).

(** [_getMaxGasCost] *)
Definition getMaxGasCost (op : PackedUserOperation) : evm Z :=
  let '(pmVerification, pmPostOp) :=
    match uo_paymaster op with
    | Some pm => (pm_verificationGas pm, pm_postOpGas pm)
    | None => (0, 0)
    end in
  g ← add256 (uo_verificationGasLimit op) (uo_callGasLimit op);
  g ← add256 g pmVerification;
  g ← add256 g pmPostOp;
  g ← add256 g (uo_preVerificationGas op);
  mul256 g (uo_maxFeePerGas op).

Section checks.
Context `{Viem}.

Definition transferSelector : Z := selectorOf "transfer(address,uint256)".
Definition approveSelector : Z := selectorOf "approve(address,uint256)".

Definition isAllowedERC20Function (selector : Z) : bool :=
  (selector =? transferSelector) || (selector =? approveSelector).

(** [_getTokenSpendAmount] *)
Definition getTokenSpendAmount (callData : list Z) : Z :=
  if isAllowedERC20Function (bytes4_of callData) then
    if (length callData <? 68)%nat then 0 else wordAt 36 callData
  else 0.

(** [_checkCallPermissions] *)
Definition checkCallPermissions (t : ContractAccessControlType) (ks : KeyStore)
    (target : Z) (callData : list Z) : bool :=
  let selector := bytes4_of callData in
  let c := contractDataOf ks target in
  let last (ok : bool) :=
    if isERC20WithSpendLimit c && negb (isAllowedERC20Function selector) then false else ok in
  match t with
  | ALLOWLIST =>
      if negb (isOnList c) then false
      else if negb (checkSelectors c) then true
      else last (functionOnList ks target selector)
  | DENYLIST =>
      if negb (isOnList c) then true
      else if negb (checkSelectors c) then false
      else last (negb (functionOnList ks target selector))
  | ALLOW_ALL_ACCESS => last true
  end.

(** [_runtimeUpdateSpendLimitUsage]: [None] when it returns false. *)
Definition runtimeUpdateSpendLimitUsage (now newUsage : Z) (ti : SpendLimitTimeInfo) (l : SpendLimit) :
    evm (option (SpendLimitTimeInfo * SpendLimit)) :=
  active ← (if refreshInterval ti =? 0 then mret true
            else next ← add48 (lastUsed ti) (refreshInterval ti); mret (now <? next));
  if active : bool then
    let newTotalUsage := wrap256 (newUsage + limitUsed l) in
    if (newTotalUsage <? newUsage) || (limitAmount l <? newTotalUsage) then mret None
    else mret (Some (ti, l <| limitUsed := newTotalUsage |>))
  else if limitAmount l <? newUsage then mret None
  else mret (Some (ti <| lastUsed := uint48 now |>, l <| limitUsed := newUsage |>)).

(** The loop over the calls of [_updateLimitsPreExec]: the native value so
    far and the key's storage. *)
Fixpoint updateCallLimits (now account sessionKey : Z) (calls : list EvmCall)
    (native : Z) (ks : KeyStore) : evm (Z * KeyStore) :=
  match calls with
  | [] => mret (native, ks)
  | c :: calls =>
      native ← add256 native (ec_value c);
      let cd := contractDataOf ks (ec_target c) in
      ks ← (if isERC20WithSpendLimit cd then
              r ← runtimeUpdateSpendLimitUsage now (getTokenSpendAmount (ec_data c))
                    (erc20SpendLimitTimeInfo cd) (erc20SpendLimit cd);
              match r with
              | None => Throw (ERC20SpendLimitExceeded account sessionKey (ec_target c))
              | Some (ti, l) =>
                  mret (setContract (ec_target c) (λ cd,
                    cd <| erc20SpendLimitTimeInfo := ti |> <| erc20SpendLimit := l |>) ks)
              end
            else mret ks);
      updateCallLimits now account sessionKey calls native ks
  end.

(** [_updateLimitsPreExec] *)
Definition updateLimitsPreExec (now account sessionKey : Z) (calls : list EvmCall) (ks : KeyStore) :
    evm KeyStore :=
  '(native, ks) ← updateCallLimits now account sessionKey calls 0 ks;
  ks ← (if nativeTokenSpendLimitBypassed (keyData ks) then mret ks
        else r ← runtimeUpdateSpendLimitUsage now native
                   (nativeTokenSpendLimitTimeInfo (keyData ks)) (nativeTokenSpendLimit (keyData ks));
             match r with
             | None => Throw (NativeTokenSpendLimitExceeded account sessionKey)
             | Some (ti, l) =>
                 mret (ks <| keyData ::= λ d,
                   d <| nativeTokenSpendLimitTimeInfo := ti |> <| nativeTokenSpendLimit := l |> |>)
             end);
  mret (if gasLimitResetThisBundle (keyData ks)
        then ks <| keyData ::= λ d, d <| gasLimitResetThisBundle := false |>
                     <| gasLimitTimeInfo ::= λ ti, ti <| lastUsed := uint48 now |> |> |>
        else ks).

(** The loop of [_checkUserOpPermissions] over the calls. *)
Fixpoint checkCalls (t : ContractAccessControlType) (ks : KeyStore) (calls : list EvmCall)
    (native : Z) (ok : bool) : evm (Z * bool) :=
  match calls with
  | [] => mret (native, ok)
  | c :: calls =>
      native ← add256 native (ec_value c);
      checkCalls t ks calls native (ok && checkCallPermissions t ks (ec_target c) (ec_data c))
  end.

(** The [validationData] the plugin returns: whether every check passed and
    the validity window. *)
Record Validation : Type := { va_success : bool; va_after : Z; va_until : Z }.

(** [_checkUserOpPermissions] *)
Definition checkUserOpPermissions (op : PackedUserOperation) (calls : list EvmCall)
    (sessionKey : Z) (ks : KeyStore) : evm (Validation * KeyStore) :=
  let d := keyData ks in
  '(native, ok) ← checkCalls (contractAccessControlType d) ks calls 0 (0 <? Z.of_nat (length calls));
  '(ok, after) ←
    (if nativeTokenSpendLimitBypassed d then mret (ok, validAfter d)
     else '(spendOk, spendAfter) ←
            checkSpendLimitUsage native (nativeTokenSpendLimitTimeInfo d) (nativeTokenSpendLimit d);
          mret (ok && spendOk, max48 (validAfter d) spendAfter));
  let ok := ok && ((uo_nonce op / 2 ^ 64) mod 2 ^ 192 =? sessionKey) in
  '(ok, after, d) ←
    (if hasGasLimit d then
       cost ← getMaxGasCost op;
       '(gasOk, gasAfter, d) ← checkAndUpdateGasLimitUsage cost d;
       mret (ok && gasOk, max48 after gasAfter, d)
     else mret (ok, after, d));
  let ok :=
    if hasRequiredPaymaster d
    then ok && (match uo_paymaster op with Some pm => pm_address pm | None => 0 end =? requiredPaymaster d)
    else ok in
  mret ({| va_success := ok; va_after := after; va_until := validUntil d |}, ks <| keyData := d |>).
End checks.
