(* ===== verification/SessionKeyPlugin.v ===== *)
(** * The session key plugin: the keys of every account

    Models [BufiSessionKeyPlugin.sol] and the public functions of
    [SessionKeyPermissions.sol]: registration, rotation, removal, install and
    uninstall, validation and execution. The linked-list set of keys is a
    library contract: an interface with its laws. The plugin keeps a counter of
    key ids per account and never reuses an id; the refinement at the end shows
    that it behaves as a plain map from (account, session key) to policies. *)

From S2P Require Import Prelude.
From S2P Require Import Encoding.
From S2P Require Import Abi.
From S2P Require Import AbiSample.
From S2P Require Import SessionKey.
From S2P Require Import SessionKeyChecks.

(** ** [AssociatedLinkedListSet] *)

Class KeySet (T : Type) : Type := {
  ks_contains : T → Z → Z → bool;
  ks_tryAdd : T → Z → Z → bool * T;
  ks_tryRemoveKnown : T → Z → Z → Z → bool * T;
  ks_getAll : T → Z → list Z;
  ks_clear : T → Z → T;
  ks_empty : T }.

Class KeySetLaws (T : Type) `{KeySet T} : Prop := {
  tryAdd_fails s a k : (ks_tryAdd s a k).1 = false ↔ k = 0 ∨ ks_contains s a k = true;
  tryAdd_adds s a k s' a' k' :
    ks_tryAdd s a k = (true, s') →
    ks_contains s' a' k' = ks_contains s a' k' || bool_decide ((a', k') = (a, k));
  tryRemove_present s a k p s' :
    ks_tryRemoveKnown s a k p = (true, s') → ks_contains s a k = true;
  tryRemove_removes s a k p s' a' k' :
    ks_tryRemoveKnown s a k p = (true, s') →
    ks_contains s' a' k' = ks_contains s a' k' && negb (bool_decide ((a', k') = (a, k)));
  getAll_elem s a k : k ∈ ks_getAll s a ↔ ks_contains s a k = true;
  clear_contains s a a' k :
    ks_contains (ks_clear s a) a' k = ks_contains s a' k && negb (bool_decide (a' = a));
  empty_contains a k : ks_contains ks_empty a k = false }.

(** ** State *)

Record Plugin {T : Type} : Type := {
  sessionKeyIds : gmap (Z * Z) Z;          (* (account, session key) to id; absent is zero *)
  keyIdCounter : gmap Z Z;
  sessionKeys : T;
  stores : gmap (Z * Z) KeyStore }.        (* (account, id) *)
Arguments Plugin T : clear implicits.

#[global] Instance eta_plugin T : Eta (Plugin T) := λ r,
  Build_Plugin T (sessionKeyIds r) (keyIdCounter r) (sessionKeys r) (stores r).

Definition idOf {T} (st : Plugin T) (account sessionKey : Z) : Z :=
  default 0 (sessionKeyIds st !! (account, sessionKey)).
Definition counterOf {T} (st : Plugin T) (account : Z) : Z :=
  default 0 (keyIdCounter st !! account).
Definition storeOf {T} (st : Plugin T) (account id : Z) : KeyStore :=
  default emptyKeyStore (stores st !! (account, id)).

Section plugin.
Context {T : Type} `{KeySet T} `{Viem}.
Implicit Types st : Plugin T.

Definition emptyPlugin : Plugin T :=
  {| sessionKeyIds := ∅; keyIdCounter := ∅; sessionKeys := ks_empty; stores := ∅ |}.

Definition updateSessionKeyId (account sessionKey newId : Z) st : Plugin T :=
  st <| sessionKeyIds ::= <[(account, sessionKey) := newId]> |>.

Definition setStore (account id : Z) (ks : KeyStore) st : Plugin T :=
  st <| stores ::= <[(account, id) := ks]> |>.

(** [_loadSessionKeyId] *)
Definition loadSessionKeyId st (account sessionKey : Z) : evm Z :=
  let id := idOf st account sessionKey in
  if id =? 0 then Throw (InvalidSessionKey sessionKey) else mret id.

Definition updateKeyPermissions (now account sessionKey : Z) (updates : list (list Z)) st :
    evm (Plugin T) :=
  id ← loadSessionKeyId st account sessionKey;
  ks ← performUpdates now updates (storeOf st account id);
  mret (setStore account id ks st).

Definition addSessionKey (now account sessionKey : Z) (updates : list (list Z)) st : evm (Plugin T) :=
  let '(added, set') := ks_tryAdd (sessionKeys st) account sessionKey in
  if negb added then Throw (InvalidSessionKey sessionKey) else
  id ← add256 (counterOf st account) 1;
  let st := st <| sessionKeys := set' |> <| keyIdCounter ::= <[account := id]> |> in
  let st := updateSessionKeyId account sessionKey id st in
  match updates with
  | [] => mret st
  | _ => updateKeyPermissions now account sessionKey updates st
  end.

Definition removeSessionKey (account sessionKey predecessor : Z) st : evm (Plugin T) :=
  let '(removed, set') := ks_tryRemoveKnown (sessionKeys st) account sessionKey predecessor in
  if negb removed then Throw (InvalidSessionKey sessionKey) else
  mret (updateSessionKeyId account sessionKey 0 (st <| sessionKeys := set' |>)).

Definition rotateSessionKey (account oldSessionKey predecessor newSessionKey : Z) st : evm (Plugin T) :=
  let '(removed, set1) := ks_tryRemoveKnown (sessionKeys st) account oldSessionKey predecessor in
  if negb removed then Throw (InvalidSessionKey oldSessionKey) else
  let '(added, set2) := ks_tryAdd set1 account newSessionKey in
  if negb added then Throw (InvalidSessionKey newSessionKey) else
  let st := st <| sessionKeys := set2 |> in
  let oldSessionKeyId := idOf st account oldSessionKey in
  mret (updateSessionKeyId account newSessionKey oldSessionKeyId
          (updateSessionKeyId account oldSessionKey 0 st)).

Definition resetSessionKeyGasLimitTimestamp (now account sessionKey : Z) st : evm (Plugin T) :=
  id ← loadSessionKeyId st account sessionKey;
  let ks := storeOf st account id in
  mret (if gasLimitResetThisBundle (keyData ks)
        then setStore account id (ks <| keyData ::= λ d, d <| gasLimitResetThisBundle := false |>
               <| gasLimitTimeInfo ::= λ ti, ti <| lastUsed := uint48 now |> |> |>) st
        else st).

(** The loop of [onInstall] over keys and their updates. *)
Fixpoint addSessionKeys (now account : Z) (keys : list (Z * list (list Z))) st : evm (Plugin T) :=
  match keys with
  | [] => mret st
  | (k, us) :: keys => st ← addSessionKey now account k us st; addSessionKeys now account keys st
  end.

Definition onInstall (now account : Z) (sessionKeysToAdd : list Z) (tags : list string)
    (permissionUpdates : list (list (list Z))) st : evm (Plugin T) :=
  if negb (bool_decide (ks_getAll (sessionKeys st) account = [])) then Throw AlreadyInitialized
  else if negb (length sessionKeysToAdd =? length tags)%nat
       || negb (length sessionKeysToAdd =? length permissionUpdates)%nat
  then Throw LengthMismatch
  else addSessionKeys now account (zip sessionKeysToAdd permissionUpdates) st.

Definition onUninstall (account : Z) st : Plugin T :=
  let keys := ks_getAll (sessionKeys st) account in
  foldl (λ st k, updateSessionKeyId account k 0 st) st keys
    <| sessionKeys ::= λ s, ks_clear s account |>.

(** [userOpValidationFunction]: [recovered] is what [tryRecover] returns for
    the signature. A failed check reverts; a signature by another key is
    reported in the result. *)
Definition userOpValidation (account : Z) (op : PackedUserOperation) (calls : list EvmCall)
    (sessionKey : Z) (recovered : option Z) st : evm (bool * Validation * Plugin T) :=
  match recovered with
  | None => Throw (InvalidSignature sessionKey)
  | Some signer =>
      if negb (ks_contains (sessionKeys st) account sessionKey) then Throw PermissionsCheckFailed else
      let id := idOf st account sessionKey in
      '(v, ks) ← checkUserOpPermissions op calls sessionKey (storeOf st account id);
      if negb (va_success v) then Throw PermissionsCheckFailed else
      mret (bool_decide (signer = sessionKey), v, setStore account id ks st)
  end.

(** [executeWithSessionKey]: the limits are charged, then the calls are made
    in order; the calls themselves are the account's. *)
Definition executeWithSessionKey (now account : Z) (calls : list EvmCall) (sessionKey : Z) st :
    evm (list EvmCall * Plugin T) :=
  let id := idOf st account sessionKey in
  ks ← updateLimitsPreExec now account sessionKey calls (storeOf st account id);
  mret (calls, setStore account id ks st).

(** ** Operations as one step function *)

Inductive plugin_op : Type :=
| OpAdd (account key : Z) (updates : list (list Z))
| OpUpdate (account key : Z) (updates : list (list Z))
| OpRemove (account key predecessor : Z)
| OpRotate (account old predecessor new : Z)
| OpReset (account key : Z)
| OpInstall (account : Z) (keys : list Z) (tags : list string) (updates : list (list (list Z)))
| OpUninstall (account : Z)
| OpValidate (account : Z) (op : PackedUserOperation) (calls : list EvmCall) (key : Z) (recovered : option Z)
| OpExecute (account : Z) (calls : list EvmCall) (key : Z).

Definition plugin_step (now : Z) (o : plugin_op) st : evm (Plugin T) :=
  match o with
  | OpAdd a k us => addSessionKey now a k us st
  | OpUpdate a k us => updateKeyPermissions now a k us st
  | OpRemove a k p => removeSessionKey a k p st
  | OpRotate a k p k' => rotateSessionKey a k p k' st
  | OpReset a k => resetSessionKeyGasLimitTimestamp now a k st
  | OpInstall a ks ts us => onInstall now a ks ts us st
  | OpUninstall a => mret (onUninstall a st)
  | OpValidate a op calls k rec => r ← userOpValidation a op calls k rec st; mret r.2
  | OpExecute a calls k => r ← executeWithSessionKey now a calls k st; mret r.2
  end.

Inductive reachable : Plugin T → Prop :=
| reach_init : reachable emptyPlugin
| reach_step st now o st' : reachable st → plugin_step now o st = Ok st' → reachable st'.

(** ** The abstract specification: a map from keys to policies *)

Notation policies := (gmap (Z * Z) KeyStore).

Definition spec_add (now a k : Z) (us : list (list Z)) (P : policies) : option policies :=
  if (k =? 0) || bool_decide (is_Some (P !! (a, k))) then None
  else match performUpdates now us emptyKeyStore with
       | Ok ks => Some (<[(a, k) := ks]> P)
       | Throw _ => None
       end.

Fixpoint spec_adds (now a : Z) (keys : list (Z * list (list Z))) (P : policies) : option policies :=
  match keys with
  | [] => Some P
  | (k, us) :: keys => P ← spec_add now a k us P; spec_adds now a keys P
  end.

(** Changes the policy of a registered key. *)
Definition spec_change (f : KeyStore → evm KeyStore) (a k : Z) (P : policies) : option policies :=
  ks ← P !! (a, k);
  match f ks with Ok ks => Some (<[(a, k) := ks]> P) | Throw _ => None end.

Definition spec_step (now : Z) (o : plugin_op) (P : policies) : option policies :=
  match o with
  | OpAdd a k us => spec_add now a k us P
  | OpUpdate a k us => spec_change (performUpdates now us) a k P
  | OpRemove a k _ => _ ← P !! (a, k); Some (delete (a, k) P)
  | OpRotate a k _ k' =>
      ks ← P !! (a, k);
      let P := delete (a, k) P in
      if (k' =? 0) || bool_decide (is_Some (P !! (a, k'))) then None else Some (<[(a, k') := ks]> P)
  | OpReset a k =>
      spec_change (λ ks, mret (if gasLimitResetThisBundle (keyData ks)
        then ks <| keyData ::= λ d, d <| gasLimitResetThisBundle := false |>
               <| gasLimitTimeInfo ::= λ ti, ti <| lastUsed := uint48 now |> |> |> else ks)) a k P
  | OpInstall a ks _ us => spec_adds now a (zip ks us) P
  | OpUninstall a => Some (filter (λ e, e.1.1 ≠ a) P)
  | OpValidate a op calls k _ =>
      spec_change (λ ks, '(v, ks') ← checkUserOpPermissions op calls k ks;
                         if negb (va_success v) then Throw PermissionsCheckFailed else mret ks') a k P
  | OpExecute a calls k =>
      match P !! (a, k) with
      | Some _ => spec_change (updateLimitsPreExec now a k calls) a k P
      | None => Some P
      end
  end.

(** The policy of a registered key. *)
Definition policyOf st (a k : Z) : option KeyStore :=
  if ks_contains (sessionKeys st) a k then Some (storeOf st a (idOf st a k)) else None.

Definition represents st (P : policies) : Prop := ∀ a k, policyOf st a k = P !! (a, k).

(** ** The invariant *)

Record plugin_wf st : Prop := {
  wf_registered a k : ks_contains (sessionKeys st) a k = true ↔ idOf st a k ≠ 0;
  wf_range a k : 0 ≤ idOf st a k ≤ counterOf st a;
  wf_inj a k k' : idOf st a k ≠ 0 → idOf st a k = idOf st a k' → k = k';
  wf_fresh a id : counterOf st a < id → storeOf st a id = emptyKeyStore }.
End plugin.

Notation policies := (gmap (Z * Z) KeyStore).

(** ** Lookups after an update *)

Section lookups.
Context {T : Type}.
Implicit Types st : Plugin T.

Lemma idOf_update st a k id a' k' :
  idOf (updateSessionKeyId a k id st) a' k' =
  if decide ((a', k') = (a, k)) then id else idOf st a' k'.
Proof.
  unfold idOf. change (sessionKeyIds (updateSessionKeyId a k id st))
    with (<[(a, k) := id]> (sessionKeyIds st)).
  case_decide as E; [by rewrite E, lookup_insert_eq | by rewrite lookup_insert_ne].
Qed.

Lemma storeOf_set st a id ks a' id' :
  storeOf (setStore a id ks st) a' id' =
  if decide ((a', id') = (a, id)) then ks else storeOf st a' id'.
Proof.
  unfold storeOf. change (stores (setStore a id ks st)) with (<[(a, id) := ks]> (stores st)).
  case_decide as E; [by rewrite E, lookup_insert_eq | by rewrite lookup_insert_ne].
Qed.

Lemma idOf_setStore st a id ks a' k' : idOf (setStore a id ks st) a' k' = idOf st a' k'.
Proof. done. Qed.
Lemma keys_setStore st a id ks : sessionKeys (setStore a id ks st) = sessionKeys st.
Proof. done. Qed.
Lemma keys_updateId st a k id : sessionKeys (updateSessionKeyId a k id st) = sessionKeys st.
Proof. done. Qed.
Lemma counter_updateId st a k id a' : counterOf (updateSessionKeyId a k id st) a' = counterOf st a'.
Proof. done. Qed.
Lemma storeOf_updateId st a k id a' id' :
  storeOf (updateSessionKeyId a k id st) a' id' = storeOf st a' id'.
Proof. done. Qed.
End lookups.
#[export] Hint Rewrite @idOf_update @storeOf_set @idOf_setStore @keys_setStore @keys_updateId
  @counter_updateId @storeOf_updateId : plugin.

Lemma add256_ok a b c : add256 a b = Ok c ↔ a + b < UINT256 ∧ c = a + b.
Proof.
  unfold add256. destruct (a + b <? UINT256) eqn:E; zify_bool; split; intros H.
  - injection H as <-. done.
  - by destruct H as [_ ->].
  - discriminate.
  - lia.
Qed.

Section refinement.
Context {T : Type} `{KeySetLaws T} `{Viem}.
Implicit Types st : Plugin T.

Lemma emptyPlugin_wf : plugin_wf (emptyPlugin (T:=T)).
Proof.
  split; intros; try done.
  change (ks_contains ks_empty a k = true ↔ (0:Z) ≠ 0). rewrite empty_contains. split; congruence.
Qed.

Lemma emptyPlugin_represents : represents (emptyPlugin (T:=T)) ∅.
Proof.
  intros a k. unfold policyOf. change (sessionKeys emptyPlugin) with (ks_empty (T:=T)).
  by rewrite empty_contains, lookup_empty.
Qed.

(** Writing the store of an id in use keeps the invariant. *)
Lemma setStore_wf st a k ks : plugin_wf st → plugin_wf (setStore a (idOf st a k) ks st).
Proof.
  intros [W1 W2 W3 W4]. split; autorewrite with plugin; [done..|].
  change (counterOf (setStore a (idOf st a k) ks st)) with (counterOf st).
  intros a' id Hid. rewrite storeOf_set. case_decide as E; [|by apply W4].
  injection E as -> ->. pose proof (W2 a k). lia.
Qed.

(** ... and changes exactly that key's policy. *)
Lemma setStore_represents st P a k ks :
  plugin_wf st → represents st P → ks_contains (sessionKeys st) a k = true →
  represents (setStore a (idOf st a k) ks st) (<[(a, k) := ks]> P).
Proof.
  intros W R Hk a' k'. unfold policyOf. rewrite keys_setStore, idOf_setStore, storeOf_set.
  destruct (decide ((a', k') = (a, k))) as [E|E].
  - injection E as -> ->. by rewrite lookup_insert_eq, Hk, decide_True.
  - rewrite lookup_insert_ne by done. rewrite <- (R a' k'). unfold policyOf.
    destruct (ks_contains (sessionKeys st) a' k') eqn:Hk'; [|done].
    rewrite decide_False; [done|]. intros [= -> Hid].
    apply wf_registered in Hk'; [|done]. apply E. f_equal. by apply (wf_inj st W a).
Qed.

(** The store of the zero id belongs to no key. *)
Lemma setStore_zero_represents st P a k ks :
  plugin_wf st → represents st P → ks_contains (sessionKeys st) a k = false →
  represents (setStore a (idOf st a k) ks st) P.
Proof.
  intros W R Hk a' k'. unfold policyOf. rewrite keys_setStore, idOf_setStore, storeOf_set.
  rewrite <- (R a' k'). unfold policyOf.
  destruct (ks_contains (sessionKeys st) a' k') eqn:Hk'; [|done].
  rewrite decide_False; [done|]. intros [= -> Hid].
  apply wf_registered in Hk'; [|done]. apply Hk'. rewrite Hid.
  destruct (decide (idOf st a k = 0)) as [E|E]; [done|].
  apply wf_registered in E; [|done]. congruence.
Qed.

Lemma loadSessionKeyId_ok st a k id :
  plugin_wf st → loadSessionKeyId st a k = Ok id →
  id = idOf st a k ∧ ks_contains (sessionKeys st) a k = true.
Proof.
  intros W. unfold loadSessionKeyId. destruct (idOf st a k =? 0) eqn:E; [done|].
  zify_bool. intros [= <-]. split; [done|]. by apply wf_registered.
Qed.

Lemma represents_some st P a k :
  represents st P → ks_contains (sessionKeys st) a k = true →
  P !! (a, k) = Some (storeOf st a (idOf st a k)).
Proof. intros R Hk. rewrite <- (R a k). unfold policyOf. by rewrite Hk. Qed.

Lemma represents_none st P a k :
  represents st P → ks_contains (sessionKeys st) a k = false → P !! (a, k) = None.
Proof. intros R Hk. rewrite <- (R a k). unfold policyOf. by rewrite Hk. Qed.

(** Every operation that rewrites one registered key's store. *)
Lemma change_refines st P f a k ks :
  plugin_wf st → represents st P → ks_contains (sessionKeys st) a k = true →
  f (storeOf st a (idOf st a k)) = Ok ks →
  let st' := setStore a (idOf st a k) ks st in
  plugin_wf st' ∧ ∃ P', spec_change f a k P = Some P' ∧ represents st' P'.
Proof.
  intros W R Hk Hf st'. split; [by apply setStore_wf|].
  exists (<[(a, k) := ks]> P). split; [|by apply setStore_represents].
  unfold spec_change. rewrite (represents_some st P a k R Hk). cbn [mbind option_bind]. by rewrite Hf.
Qed.

Lemma update_refines now st P a k us st' :
  plugin_wf st → represents st P → updateKeyPermissions now a k us st = Ok st' →
  plugin_wf st' ∧ ∃ P', spec_change (performUpdates now us) a k P = Some P' ∧ represents st' P'.
Proof.
  intros W R Hu. unfold updateKeyPermissions in Hu. ok_inv.
  apply loadSessionKeyId_ok in Hr as [-> Hk]; [|done]. subst st'. by eapply change_refines.
Qed.

(** Giving a key an id nobody uses. *)
Lemma rehome_refines st P a k id set' :
  plugin_wf st → represents st P → ks_tryAdd (sessionKeys st) a k = (true, set') →
  0 < id ≤ counterOf st a → (∀ k', idOf st a k' ≠ id) →
  let st1 := updateSessionKeyId a k id (st <| sessionKeys := set' |>) in
  plugin_wf st1 ∧ represents st1 (<[(a, k) := storeOf st a id]> P) ∧
  ks_contains (sessionKeys st1) a k = true ∧ (k =? 0) = false ∧ P !! (a, k) = None.
Proof.
  intros W R Hadd Hpos Huse st1.
  assert (Hk : k ≠ 0 ∧ ks_contains (sessionKeys st) a k = false).
  { pose proof (tryAdd_fails (sessionKeys st) a k) as F. rewrite Hadd in F.
    cbn [fst] in F. split; [intros E | apply not_true_iff_false; intros E];
      assert (true = false) by (apply F; auto); discriminate. }
  destruct Hk as [Hk0 Hk]. destruct W as [W1 W2 W3 W4].
  assert (Hid : ∀ a' k', idOf st1 a' k' = if decide ((a', k') = (a, k)) then id else idOf st a' k')
    by (intros; unfold st1; by rewrite idOf_update).
  assert (Hset : ∀ a' k', ks_contains (sessionKeys st1) a' k' =
    ks_contains (sessionKeys st) a' k' || bool_decide ((a', k') = (a, k))).
  { intros. change (sessionKeys st1) with set'. by apply tryAdd_adds. }
  split_and!.
  - split; [| |intros a' k1 k2|exact W4].
    + intros a' k'. rewrite Hset, Hid, orb_true_iff, W1, bool_decide_eq_true.
      case_decide; [|intuition]. split; [lia|auto].
    + intros a' k'. rewrite Hid. change (counterOf st1 a') with (counterOf st a').
      pose proof (W2 a' k'). case_decide; simplify_eq; lia.
    + rewrite !Hid. repeat case_decide; simplify_eq; try (by eauto); intros _ E;
        exfalso; [by apply (Huse k2) | by apply (Huse k1)].
  - intros a' k'. unfold policyOf. rewrite Hset, Hid.
    destruct (decide ((a', k') = (a, k))) as [E|E].
    + injection E as -> ->. rewrite lookup_insert_eq, bool_decide_eq_true_2 by done.
      by rewrite orb_true_r.
    + rewrite lookup_insert_ne by done. rewrite bool_decide_eq_false_2 by done.
      rewrite orb_false_r. apply R.
  - by rewrite Hset, bool_decide_eq_true_2, orb_true_r.
  - by apply Z.eqb_neq.
  - by apply (represents_none st).
Qed.

(** Taking the next id. *)
Lemma bump_wf st P a :
  plugin_wf st → represents st P →
  let st1 := st <| keyIdCounter ::= <[a := counterOf st a + 1]> |> in
  plugin_wf st1 ∧ represents st1 P ∧ counterOf st1 a = counterOf st a + 1.
Proof.
  intros [W1 W2 W3 W4] R st1.
  assert (Hcnt : ∀ a', counterOf st1 a' = if decide (a' = a) then counterOf st a + 1 else counterOf st a').
  { intros a'. unfold counterOf.
    change (keyIdCounter st1) with (<[a := default 0 (keyIdCounter st !! a) + 1]> (keyIdCounter st)).
    case_decide as E; [by rewrite E, lookup_insert_eq | by rewrite lookup_insert_ne]. }
  split_and!; [|exact R|by rewrite Hcnt, decide_True].
  split; [exact W1| |exact W3|].
  - intros a' k'. rewrite Hcnt. change (idOf st1 a' k') with (idOf st a' k').
    pose proof (W2 a' k'). case_decide; subst; lia.
  - intros a' id' Hlt. apply W4. rewrite Hcnt in Hlt. case_decide; subst; lia.
Qed.

(** Registering a new key under the next id. *)
Lemma register_refines st P a k set' :
  plugin_wf st → represents st P → ks_tryAdd (sessionKeys st) a k = (true, set') →
  let id := counterOf st a + 1 in
  let st1 := updateSessionKeyId a k id (st <| sessionKeys := set' |> <| keyIdCounter ::= <[a := id]> |>) in
  plugin_wf st1 ∧ represents st1 (<[(a, k) := emptyKeyStore]> P) ∧
  ks_contains (sessionKeys st1) a k = true ∧ (k =? 0) = false ∧ P !! (a, k) = None.
Proof.
  intros W R Hadd id. destruct (bump_wf st P a W R) as (Wb & Rb & Hcnt).
  pose proof (wf_range st W a) as Hr. pose proof (wf_fresh st W a id ltac:(unfold id; lia)) as Hf.
  pose proof (rehome_refines _ P a k id set' Wb Rb Hadd) as Hre.
  rewrite Hcnt in Hre. change (storeOf (set keyIdCounter _ st) a id) with (storeOf st a id) in Hre.
  rewrite Hf in Hre. apply Hre; [pose proof (Hr 0); unfold id; lia|].
  intros k'. change (idOf _ a k') with (idOf st a k'). pose proof (Hr k'). unfold id. lia.
Qed.

Lemma add_refines now st P a k us st' :
  plugin_wf st → represents st P → addSessionKey now a k us st = Ok st' →
  plugin_wf st' ∧ ∃ P', spec_add now a k us P = Some P' ∧ represents st' P'.
Proof.
  intros W R Ha. unfold addSessionKey in Ha.
  destruct (ks_tryAdd (sessionKeys st) a k) as [added set'] eqn:Hadd.
  destruct added; cbn [negb] in Ha; [|discriminate].
  apply bind_ok in Ha as (id & [Hmax ->]%add256_ok & Ha). cbv zeta in Ha.
  destruct (register_refines st P a k set' W R Hadd) as (W1 & R1 & Hk & Hk0 & HP).
  cbv zeta in W1, R1, Hk. unfold spec_add. rewrite Hk0, HP. cbn [orb].
  rewrite bool_decide_eq_false_2 by (by intros [? ?]).
  destruct us as [|u us].
  - apply ok_inj in Ha as <-. split; [done|]. eexists. split; [done|]. exact R1.
  - eapply update_refines in Ha as (W2 & P' & HP' & R'); [|done..]. split; [done|]. exists P'.
    split; [|done]. revert HP'. unfold spec_change. rewrite lookup_insert_eq.
    cbn [mbind option_bind]. destruct (performUpdates now (u :: us) emptyKeyStore) as [ks|]; [|done].
    by rewrite insert_insert_eq.
Qed.

Lemma adds_refines now a keys st P st' :
  plugin_wf st → represents st P → addSessionKeys now a keys st = Ok st' →
  plugin_wf st' ∧ ∃ P', spec_adds now a keys P = Some P' ∧ represents st' P'.
Proof.
  revert st P. induction keys as [|[k us] keys IH]; intros st P W R Ha; cbn in Ha.
  - apply ok_inj in Ha as <-. split; [done|]. by exists P.
  - apply bind_ok in Ha as (st1 & Ha1 & Ha).
    eapply add_refines in Ha1 as (W1 & P1 & HP1 & R1); [|done..].
    cbn [spec_adds]. rewrite HP1. cbn [mbind option_bind]. eauto.
Qed.

(** Unregistering a key. *)
Lemma unregister_refines st P a k p set' :
  plugin_wf st → represents st P → ks_tryRemoveKnown (sessionKeys st) a k p = (true, set') →
  let st1 := updateSessionKeyId a k 0 (st <| sessionKeys := set' |>) in
  plugin_wf st1 ∧ represents st1 (delete (a, k) P) ∧
  P !! (a, k) = Some (storeOf st a (idOf st a k)) ∧ ks_contains (sessionKeys st) a k = true.
Proof.
  intros W R Hrm st1. assert (Hk := tryRemove_present _ _ _ _ _ Hrm).
  assert (Hid : ∀ a' k', idOf st1 a' k' = if decide ((a', k') = (a, k)) then 0 else idOf st a' k')
    by (intros; unfold st1; by rewrite idOf_update).
  assert (Hset : ∀ a' k', ks_contains (sessionKeys st1) a' k' =
    ks_contains (sessionKeys st) a' k' && negb (bool_decide ((a', k') = (a, k)))).
  { intros. change (sessionKeys st1) with set'. by eapply tryRemove_removes. }
  split_and!; [| |by apply represents_some|done].
  - destruct W as [W1 W2 W3 W4]. split.
    + intros a' k'. rewrite Hset, Hid, andb_true_iff, W1, negb_true_iff, bool_decide_eq_false.
      case_decide; intuition.
    + intros a' k'. rewrite Hid. change (counterOf st1 a') with (counterOf st a').
      pose proof (W2 a' k'). case_decide; simplify_eq; lia.
    + intros a' k1 k2. rewrite !Hid. repeat case_decide; simplify_eq; eauto; congruence.
    + exact W4.
  - intros a' k'. unfold policyOf. rewrite Hset, Hid.
    destruct (decide ((a', k') = (a, k))) as [E|E].
    + rewrite E, lookup_delete_eq, bool_decide_eq_true_2 by congruence. by rewrite andb_false_r.
    + rewrite lookup_delete_ne by done. rewrite bool_decide_eq_false_2, andb_true_r by done. apply R.
Qed.

Lemma rotate_refines now st P a k p k' st' :
  plugin_wf st → represents st P → rotateSessionKey a k p k' st = Ok st' →
  plugin_wf st' ∧ ∃ P', spec_step now (OpRotate a k p k') P = Some P' ∧ represents st' P'.
Proof.
  intros W R Hr. unfold rotateSessionKey in Hr.
  destruct (ks_tryRemoveKnown (sessionKeys st) a k p) as [rm set1] eqn:Hrm.
  destruct rm; cbn [negb] in Hr; [|discriminate].
  destruct (ks_tryAdd set1 a k') as [ad set2] eqn:Had.
  destruct ad; cbn [negb] in Hr; [|discriminate].
  destruct (unregister_refines st P a k p set1 W R Hrm) as (W1 & R1 & HP & Hk). cbv zeta in *.
  set (id := idOf st a k) in *.
  assert (Hid : id ≠ 0) by (by apply wf_registered).
  destruct (rehome_refines _ _ a k' id set2 W1 R1 Had) as (W2 & R2 & _ & Hk0 & HP').
  - change (counterOf _ a) with (counterOf st a). pose proof (wf_range st W a k). lia.
  - intros j. rewrite idOf_update. case_decide as E; [by auto|]. intros Ej.
    apply E. f_equal. symmetry. by apply (wf_inj st W a).
  - apply ok_inj in Hr as <-. split; [exact W2|]. eexists. split; [|exact R2].
    cbn [spec_step]. rewrite HP. cbn [mbind option_bind]. rewrite Hk0, HP'. cbn [orb].
    by rewrite bool_decide_eq_false_2 by (by intros [? ?]).
Qed.

(** Clearing the ids of a list of keys. *)
Lemma clear_ids_spec a keys st :
  let st1 := foldl (λ st k, updateSessionKeyId a k 0 st) st keys in
  (∀ a' k', idOf st1 a' k' = if decide (a' = a ∧ k' ∈ keys) then 0 else idOf st a' k') ∧
  sessionKeys st1 = sessionKeys st ∧ keyIdCounter st1 = keyIdCounter st ∧ stores st1 = stores st.
Proof.
  revert st. induction keys as [|k keys IH]; intros st; cbn [foldl].
  - split_and!; try done. intros a' k'. case_decide as E; [set_solver|done].
  - destruct (IH (updateSessionKeyId a k 0 st)) as (Ha & Hb & Hc & Hd). cbv zeta.
    split_and!; [|by rewrite Hb|by rewrite Hc|by rewrite Hd].
    intros a' k'. rewrite Ha, idOf_update. repeat case_decide; simplify_eq; set_solver.
Qed.

Lemma uninstall_refines st P a :
  plugin_wf st → represents st P →
  plugin_wf (onUninstall a st) ∧ represents (onUninstall a st) (filter (λ e, e.1.1 ≠ a) P).
Proof.
  intros W R. unfold onUninstall.
  destruct (clear_ids_spec a (ks_getAll (sessionKeys st) a) st) as (Hid & Hks & Hcn & Hst).
  set (st1 := foldl _ st _) in *. set (st2 := set sessionKeys _ st1).
  assert (Hid2 : ∀ a' k', idOf st2 a' k' = if decide (a' = a) then 0 else idOf st a' k').
  { intros a' k'. change (idOf st2 a' k') with (idOf st1 a' k'). rewrite Hid.
    destruct (decide (a' = a)) as [->|Ha]; [|rewrite decide_False by naive_solver; done].
    case_decide as E; [done|]. destruct (decide (idOf st a k' = 0)) as [|Hn]; [done|].
    exfalso. apply E. split; [done|]. apply getAll_elem. by apply wf_registered. }
  assert (Hset : ∀ a' k', ks_contains (sessionKeys st2) a' k' =
    ks_contains (sessionKeys st) a' k' && negb (bool_decide (a' = a))).
  { intros. change (sessionKeys st2) with (ks_clear (sessionKeys st1) a).
    rewrite Hks. apply clear_contains. }
  assert (Hsto : ∀ a' i, storeOf st2 a' i = storeOf st a' i).
  { intros. unfold storeOf. change (stores st2) with (stores st1). by rewrite Hst. }
  assert (Hcnt : ∀ a', counterOf st2 a' = counterOf st a').
  { intros. unfold counterOf. change (keyIdCounter st2) with (keyIdCounter st1). by rewrite Hcn. }
  destruct W as [W1 W2 W3 W4]. split; [split|].
  - intros a' k'. rewrite Hset, Hid2, andb_true_iff, W1, negb_true_iff, bool_decide_eq_false.
    case_decide; intuition.
  - intros a' k'. rewrite Hid2, Hcnt. pose proof (W2 a' k'). case_decide; lia.
  - intros a' k1 k2. rewrite !Hid2. repeat case_decide; [congruence|apply W3].
  - intros a' i. rewrite Hcnt, Hsto. apply W4.
  - intros a' k'. unfold policyOf. rewrite Hset, Hid2, Hsto.
    destruct (decide (a' = a)) as [->|Ha].
    + rewrite bool_decide_eq_true_2 by done. rewrite andb_false_r. symmetry.
      apply map_lookup_filter_None. right. intros x _ F. by apply F.
    + rewrite bool_decide_eq_false_2 by done. rewrite andb_true_r, map_lookup_filter, <- (R a' k').
      unfold policyOf. destruct (ks_contains _ a' k'); [|done]. cbn. by rewrite option_guard_True.
Qed.

Lemma validate_refines now st P a op calls k rec r :
  plugin_wf st → represents st P → userOpValidation a op calls k rec st = Ok r →
  plugin_wf r.2 ∧ ∃ P', spec_step now (OpValidate a op calls k rec) P = Some P' ∧ represents r.2 P'.
Proof.
  intros W R Hv. unfold userOpValidation in Hv. destruct rec as [signer|]; [|discriminate].
  destruct (ks_contains (sessionKeys st) a k) eqn:Hk; cbn [negb] in Hv; [|discriminate].
  apply bind_ok in Hv as ([v ks] & Hc & Hv).
  destruct (va_success v) eqn:Hs; cbn [negb] in Hv; [|discriminate].
  apply ok_inj in Hv as <-. cbn [snd spec_step]. apply change_refines; [done..|].
  rewrite Hc. cbn [mbind result_bind]. by rewrite Hs.
Qed.

Lemma execute_refines now st P a calls k r :
  plugin_wf st → represents st P → executeWithSessionKey now a calls k st = Ok r →
  plugin_wf r.2 ∧ ∃ P', spec_step now (OpExecute a calls k) P = Some P' ∧ represents r.2 P'.
Proof.
  intros W R He. unfold executeWithSessionKey in He. ok_inv. subst r. cbn [snd spec_step].
  destruct (ks_contains (sessionKeys st) a k) eqn:Hk.
  - rewrite (represents_some st P a k R Hk). by apply change_refines.
  - rewrite (represents_none st P a k R Hk). split; [by apply setStore_wf|].
    exists P. split; [done|]. by apply setStore_zero_represents.
Qed.

Lemma reset_refines now st P a k st' :
  plugin_wf st → represents st P → resetSessionKeyGasLimitTimestamp now a k st = Ok st' →
  plugin_wf st' ∧ ∃ P', spec_step now (OpReset a k) P = Some P' ∧ represents st' P'.
Proof.
  intros W R Hr. unfold resetSessionKeyGasLimitTimestamp in Hr.
  apply bind_ok in Hr as (id & [-> Hk]%loadSessionKeyId_ok & Hr); [|done]. apply ok_inj in Hr as <-.
  cbn [spec_step]. set (ks := storeOf st a (idOf st a k)).
  destruct (gasLimitResetThisBundle (keyData ks)) eqn:Eg.
  - apply change_refines; [done..|]. cbv beta. fold ks. by rewrite Eg.
  - split; [done|]. exists (<[(a, k) := ks]> P). unfold spec_change.
    rewrite (represents_some st P a k R Hk). cbn [mbind option_bind]. fold ks. rewrite Eg. split; [done|].
    intros a' k'. rewrite (R a' k'). symmetry. destruct (decide ((a', k') = (a, k))) as [E|E].
    + rewrite E, lookup_insert_eq. by rewrite (represents_some st P a k R Hk).
    + by rewrite lookup_insert_ne.
Qed.

Lemma step_refines now o st P st' :
  plugin_wf st → represents st P → plugin_step now o st = Ok st' →
  plugin_wf st' ∧ ∃ P', spec_step now o P = Some P' ∧ represents st' P'.
Proof.
  intros W R Hs. destruct o; cbn [plugin_step] in Hs.
  - by eapply add_refines.
  - by eapply update_refines.
  - unfold removeSessionKey in Hs.
    destruct (ks_tryRemoveKnown (sessionKeys st) account key predecessor) as [rm set1] eqn:Hrm.
    destruct rm; cbn [negb] in Hs; [|discriminate]. apply ok_inj in Hs as <-.
    destruct (unregister_refines st P account key predecessor set1 W R Hrm) as (W1 & R1 & HP & _).
    split; [done|]. exists (delete (account, key) P). cbn [spec_step]. by rewrite HP.
  - by eapply rotate_refines.
  - by eapply reset_refines.
  - unfold onInstall in Hs. do 2 (case_match; [discriminate|]). by eapply adds_refines.
  - apply ok_inj in Hs as <-. destruct (uninstall_refines st P account W R). eauto.
  - apply bind_ok in Hs as (r & Hr & Hs). apply ok_inj in Hs as <-. by eapply validate_refines.
  - apply bind_ok in Hs as (r & Hr & Hs). apply ok_inj in Hs as <-. by eapply execute_refines.
Qed.

Lemma reachable_represented st : reachable st → plugin_wf st ∧ ∃ P, represents st P.
Proof.
  induction 1 as [|st now o st' _ (W & P & R) Hs].
  - split; [apply emptyPlugin_wf|]. exists ∅. apply emptyPlugin_represents.
  - eapply step_refines in Hs as (W' & P' & _ & R'); eauto.
Qed.
End refinement.

(** ** A concrete set of keys *)

Definition sample_keys (s : list (Z * Z)) (a : Z) : list Z := (filter (λ e, e.1 = a) s).*2.

(** The predecessor of a key: the key before it, or the sentinel 1. *)
Fixpoint sample_pred (prev : Z) (l : list Z) (k : Z) : option Z :=
  match l with
  | [] => None
  | x :: l => if x =? k then Some prev else sample_pred x l k
  end.

#[global] Instance sample_keyset : KeySet (list (Z * Z)) := {
  ks_contains s a k := bool_decide ((a, k) ∈ s);
  ks_tryAdd s a k :=
    if (k =? 0) || bool_decide ((a, k) ∈ s) then (false, s) else (true, (a, k) :: s);
  ks_tryRemoveKnown s a k p :=
    if bool_decide ((a, k) ∈ s) && bool_decide (sample_pred 1 (sample_keys s a) k = Some p)
    then (true, filter (λ e, e ≠ (a, k)) s) else (false, s);
  ks_getAll := sample_keys;
  ks_clear s a := filter (λ e, e.1 ≠ a) s;
  ks_empty := [] }.

#[global] Instance sample_keyset_laws : KeySetLaws (list (Z * Z)).
Proof.
  split; cbn [ks_contains ks_tryAdd ks_tryRemoveKnown ks_getAll ks_clear ks_empty sample_keyset].
  - intros s a k. rewrite <- Z.eqb_eq. destruct (k =? 0), (bool_decide ((a, k) ∈ s)); naive_solver.
  - intros s a k s' a' k' E. destruct ((k =? 0) || _); [discriminate|]. injection E as <-.
    rewrite <- bool_decide_or. apply bool_decide_ext. rewrite elem_of_cons. tauto.
  - intros s a k p s' E. destruct (bool_decide ((a, k) ∈ s)); [done|discriminate].
  - intros s a k p s' a' k' E. destruct (_ && _); [|discriminate]. injection E as <-.
    rewrite <- bool_decide_not, <- bool_decide_and. apply bool_decide_ext.
    rewrite list_elem_of_filter. tauto.
  - intros s a k. unfold sample_keys. rewrite bool_decide_eq_true, list_elem_of_fmap. split.
    + by intros ([a' k'] & -> & [<- Hin]%list_elem_of_filter).
    + intros Hin. exists (a, k). split; [done|]. by apply list_elem_of_filter.
  - intros s a a' k. rewrite <- bool_decide_not, <- bool_decide_and.
    apply bool_decide_ext. rewrite list_elem_of_filter. cbn. tauto.
  - intros a k. apply bool_decide_eq_false. set_solver.
Qed.

(** ** The plugin is a map from keys to policies *)

(** C29: in every reachable state the id counters, the id table and the linked
    set of keys stand for a plain map from (account, session key) to policies,
    and every operation of the plugin is that map's operation: registering a
    key starts from the empty policy (no permission of an earlier key, removed
    or uninstalled, is ever reused), rotation moves the policy, removal and
    uninstall forget it, and no operation touches the policy of another key or
    account. *)
Theorem plugin_refines_policies {T} `{KeySetLaws T} `{Viem} (st : Plugin T) :
  reachable st →
  ∃ P : policies, represents st P ∧
    ∀ now o st', plugin_step now o st = Ok st' →
    ∃ P', spec_step now o P = Some P' ∧ represents st' P'.
Proof.
  intros Hr. destruct (reachable_represented st Hr) as (W & P & R).
  exists P. split; [done|]. intros now o st' Hs.
  by eapply step_refines in Hs as (_ & HP').
Qed.

(** A reverted operation leaves the state as it was. *)
Definition run_op {T} `{KeySet T} `{Viem} (now : Z) (o : plugin_op) (st : Plugin T) : Plugin T :=
  match plugin_step now o st with Ok s => s | Throw _ => st end.

Lemma run_op_reachable {T} `{KeySet T} `{Viem} now o (st : Plugin T) :
  reachable st → reachable (run_op now o st).
Proof.
  intros Hr. unfold run_op. destruct (plugin_step now o st) eqn:E; [|done]. by eapply reach_step.
Qed.

(** A state with two keys of account 1, the second one rotated. *)
Definition sample_plugin : Plugin (list (Z * Z)) :=
  run_op 1001 (OpRotate 1 6 1 9) (run_op 1000 (OpAdd 1 6 []) (run_op 1000 (OpAdd 1 5 []) emptyPlugin)).

Lemma sample_plugin_reachable : reachable sample_plugin.
Proof. repeat apply run_op_reachable. apply reach_init. Qed.

Lemma plugin_refines_policies_witness :
  reachable sample_plugin ∧ idOf sample_plugin 1 9 = 2 ∧
  ∃ P : policies, represents sample_plugin P ∧
    ∀ now o st', plugin_step now o sample_plugin = Ok st' →
    ∃ P', spec_step now o P = Some P' ∧ represents st' P'.
Proof.
  split; [exact sample_plugin_reachable|]. split; [vm_compute; reflexivity|].
  exact (plugin_refines_policies sample_plugin sample_plugin_reachable).
Defined.
