(* ===== verification/SessionKeySpend.v ===== *)
(** * What a session key can spend over time

    The accounting of [_runtimeUpdateSpendLimitUsage] and
    [_updateLimitsPreExec], followed over any history of the plugin: executions
    of the key, of other keys and of other accounts, validations, reverted
    operations, in any order. *)

From S2P Require Import Prelude.
From S2P Require Import Encoding.
From S2P Require Import Abi.
From S2P Require Import AbiSample.
From S2P Require Import SessionKey.
From S2P Require Import SessionKeyChecks.
From S2P Require Import SessionKeyPlugin.

(** ** One charge *)

(** [s] was charged to a limit, taking it from [(ti, l)] to [(ti', l')]. With
    a refresh interval, the limit was started afresh [n] times, each at least
    an interval after the time before. *)
Record metered (now s : Z) (ti : SpendLimitTimeInfo) (l : SpendLimit)
    (ti' : SpendLimitTimeInfo) (l' : SpendLimit) : Prop := {
  me_interval : refreshInterval ti' = refreshInterval ti;
  me_amount : limitAmount l' = limitAmount l;
  me_used : 0 ≤ limitUsed l' ≤ limitAmount l;
  me_last : lastUsed ti ≤ lastUsed ti' ≤ Z.max (lastUsed ti) now;
  me_once : refreshInterval ti = 0 → lastUsed ti' = lastUsed ti ∧ s = limitUsed l' - limitUsed l;
  me_resets : ∃ n, 0 ≤ n ∧ n * refreshInterval ti ≤ lastUsed ti' - lastUsed ti ∧
    s ≤ limitUsed l' - limitUsed l + limitAmount l * n }.

Lemma metered_refl now ti l : 0 ≤ limitUsed l ≤ limitAmount l → metered now 0 ti l ti l.
Proof. intros. split; try done; intros; try lia. exists 0. lia. Qed.

Lemma metered_trans now now' s1 s2 ti l ti1 l1 ti2 l2 :
  now ≤ now' → metered now s1 ti l ti1 l1 → metered now' s2 ti1 l1 ti2 l2 →
  metered now' (s1 + s2) ti l ti2 l2.
Proof.
  intros Hn [A1 A2 A3 A4 A5 A6] [B1 B2 B3 B4 B5 B6].
  rewrite A1, A2 in *. split; try lia. destruct A6 as (n1 & ? & ? & ?), B6 as (n2 & ? & ? & ?).
  exists (n1 + n2). lia.
Qed.

Lemma add48_ok a b c : add48 a b = Ok c ↔ a + b < UINT48 ∧ c = a + b.
Proof.
  unfold add48. destruct (a + b <? UINT48) eqn:E; zify_bool; split; intros H.
  - injection H as <-. done.
  - by destruct H as [_ ->].
  - discriminate.
  - lia.
Qed.

Lemma runtimeUpdate_metered now s ti l ti' l' :
  0 ≤ s < UINT256 → 0 ≤ limitUsed l ≤ limitAmount l → limitAmount l < UINT256 →
  lastUsed ti ≤ now < UINT48 → 0 ≤ now →
  runtimeUpdateSpendLimitUsage now s ti l = Ok (Some (ti', l')) →
  metered now s ti l ti' l'.
Proof.
  intros Hs Hu Hl Ht Hn Hr. unfold runtimeUpdateSpendLimitUsage in Hr.
  apply bind_ok in Hr as (active & Hactive & Hr).
  assert (Hwrap : (wrap256 (s + limitUsed l) <? s) || (limitAmount l <? wrap256 (s + limitUsed l)) = false →
    wrap256 (s + limitUsed l) = s + limitUsed l ∧ s + limitUsed l ≤ limitAmount l).
  { unfold wrap256. intros [E1 E2]%orb_false_iff. zify_bool.
    destruct (Z.lt_ge_cases (s + limitUsed l) UINT256) as [Hlt|Hge].
    - rewrite Z.mod_small in * by lia. done.
    - exfalso. rewrite <- (Z_mod_plus_full _ (-1)), Z.mod_small in E1 by lia. lia. }
  destruct active.
  - destruct (_ || _) eqn:E; [discriminate|]. destruct (Hwrap eq_refl) as [Hw Hle].
    injection Hr as <- <-. rewrite Hw. split; cbn; try done; intros; try lia.
    exists 0. lia.
  - destruct (limitAmount l <? s) eqn:E; [discriminate|]. zify_bool. injection Hr as <- <-.
    destruct (refreshInterval ti =? 0) eqn:Er; [by apply ok_inj in Hactive|]. zify_bool.
    apply bind_ok in Hactive as (next & [Hnext ->]%add48_ok & Hactive). apply ok_inj in Hactive.
    zify_bool. unfold uint48. rewrite Z.mod_small by lia.
    split; cbn; try done; intros; try lia. exists 1. lia.
Qed.

Section batch.
Context `{Viem}.
Implicit Types ks : KeyStore.

(** Calls as the EVM sees them: 256-bit values, bytes. *)
Definition call_ok (c : EvmCall) : Prop :=
  0 ≤ ec_value c < UINT256 ∧ Forall (λ b, 0 ≤ b < 256) (ec_data c).

(** What a batch of calls spends of a token, by the plugin's reading of the
    calldata. *)
Definition spentOn (t : Z) (calls : list EvmCall) : Z :=
  sumZ ((λ c, getTokenSpendAmount (ec_data c)) <$> filter (λ c, ec_target c = t) calls).

Lemma be_value_bound bs :
  Forall (λ b, 0 ≤ b < 256) bs → 0 ≤ be_value bs < 256 ^ Z.of_nat (length bs).
Proof.
  induction bs as [|b bs IH] using rev_ind; [done|]. rewrite Forall_app, Forall_singleton.
  intros [Hbs Hb]. specialize (IH Hbs).
  rewrite length_app, be_value_snoc. cbn [length]. rewrite Nat.add_1_r, Nat2Z.inj_succ, Z.pow_succ_r by lia. lia.
Qed.

Lemma getTokenSpendAmount_bound data :
  Forall (λ b, 0 ≤ b < 256) data → 0 ≤ getTokenSpendAmount data < UINT256.
Proof.
  intros Hd. unfold getTokenSpendAmount, UINT256. destruct (isAllowedERC20Function _); [|lia].
  destruct (length data <? 68)%nat; [lia|]. unfold wordAt.
  pose proof (be_value_bound (take 32 (drop 36 data)) ltac:(by apply Forall_take, Forall_drop)) as Hb.
  rewrite length_take in Hb.
  assert (256 ^ Z.of_nat (32 `min` length (drop 36 data)) ≤ 2 ^ 256); [|lia].
  change (2 ^ 256) with (256 ^ 32). apply Z.pow_le_mono_r; lia.
Qed.

(** What a key can spend is metered per purse: the native token and each
    budgeted ERC-20 token. *)
Inductive purse : Type := Native | Token (t : Z).

Record Meter : Type := { mt_on : bool; mt_time : SpendLimitTimeInfo; mt_limit : SpendLimit }.

Definition meterOf (ks : KeyStore) (p : purse) : Meter :=
  match p with
  | Native => {| mt_on := negb (nativeTokenSpendLimitBypassed (keyData ks));
                 mt_time := nativeTokenSpendLimitTimeInfo (keyData ks);
                 mt_limit := nativeTokenSpendLimit (keyData ks) |}
  | Token t => {| mt_on := isERC20WithSpendLimit (contractDataOf ks t);
                  mt_time := erc20SpendLimitTimeInfo (contractDataOf ks t);
                  mt_limit := erc20SpendLimit (contractDataOf ks t) |}
  end.

Definition spent (p : purse) (calls : list EvmCall) : Z :=
  match p with Native => sumZ (ec_value <$> calls) | Token t => spentOn t calls end.

Definition meter_ok (now : Z) (m : Meter) : Prop :=
  mt_on m = true ∧ limitAmount (mt_limit m) < UINT256 ∧
  0 ≤ limitUsed (mt_limit m) ≤ limitAmount (mt_limit m) ∧ lastUsed (mt_time m) ≤ now.

Definition charged (now s : Z) (m m' : Meter) : Prop :=
  mt_on m' = mt_on m ∧ metered now s (mt_time m) (mt_limit m) (mt_time m') (mt_limit m').

Lemma meter_ok_after now s m m' : meter_ok now m → charged now s m m' → meter_ok now m'.
Proof.
  intros (M1 & M2 & M3 & M4) (F & [A1 A2 A3 A4 A5 A6]). unfold meter_ok. rewrite F, A2.
  split_and!; [done|lia..].
Qed.

Lemma charged_refl now m : 0 ≤ limitUsed (mt_limit m) ≤ limitAmount (mt_limit m) → charged now 0 m m.
Proof. intros. split; [done|]. by apply metered_refl. Qed.

Lemma charged_trans now now' s1 s2 m m1 m2 :
  now ≤ now' → charged now s1 m m1 → charged now' s2 m1 m2 → charged now' (s1 + s2) m m2.
Proof.
  intros Hn [F1 G1] [F2 G2]. split; [by rewrite F2|]. by eapply metered_trans.
Qed.

(** The loop over the calls: the native value adds up without overflow and a
    token's meter is charged what the batch spends of it. *)
Lemma updateCallLimits_native now a k calls native ks r :
  updateCallLimits now a k calls native ks = Ok r →
  r.1 = native + sumZ (ec_value <$> calls) ∧ keyData r.2 = keyData ks ∧ (native < UINT256 → r.1 < UINT256).
Proof.
  revert native ks. induction calls as [|c calls IH]; intros native ks Hr; cbn [updateCallLimits] in Hr.
  - apply ok_inj in Hr as <-. cbn. split_and!; [lia|done|done].
  - apply bind_ok in Hr as (native' & [Hlt ->]%add256_ok & Hr). apply bind_ok in Hr as (ks1 & Hks & Hr).
    apply IH in Hr as (I1 & I2 & I3). rewrite I1, I2. rewrite sumZ_fmap_cons. split_and!; [lia| |lia].
    destruct (isERC20WithSpendLimit _); [|by apply ok_inj in Hks as <-].
    apply bind_ok in Hks as ([[ti l]|] & _ & Hks); [|discriminate]. by apply ok_inj in Hks as <-.
Qed.

Lemma updateCallLimits_metered now a k t calls native ks r :
  0 ≤ now < UINT48 → Forall call_ok calls → meter_ok now (meterOf ks (Token t)) →
  updateCallLimits now a k calls native ks = Ok r →
  charged now (spentOn t calls) (meterOf ks (Token t)) (meterOf r.2 (Token t)).
Proof.
  intros Hnow Hc. revert native ks. induction Hc as [|c calls [Hv Hd] Hc IH]; intros native ks M Hr;
    cbn [updateCallLimits] in Hr.
  - apply ok_inj in Hr as <-. apply charged_refl. apply M.
  - apply bind_ok in Hr as (native' & _ & Hr). apply bind_ok in Hr as (ks1 & Hks & Hr).
    set (cd := contractDataOf ks (ec_target c)) in *.
    assert (G : charged now (if decide (ec_target c = t) then getTokenSpendAmount (ec_data c) else 0)
      (meterOf ks (Token t)) (meterOf ks1 (Token t))).
    { destruct M as (M1 & M2 & M3 & M4). cbn [meterOf mt_on mt_time mt_limit] in M1, M2, M3, M4.
      destruct (isERC20WithSpendLimit cd) eqn:Ecd; [|apply ok_inj in Hks as <-].
      - apply bind_ok in Hks as ([[ti l]|] & Hru & Hks); [|discriminate]. apply ok_inj in Hks as <-.
        assert (Hcd : contractDataOf (setContract (ec_target c)
          (λ cd, cd <| erc20SpendLimitTimeInfo := ti |> <| erc20SpendLimit := l |>) ks) t =
          if decide (t = ec_target c) then cd <| erc20SpendLimitTimeInfo := ti |> <| erc20SpendLimit := l |>
          else contractDataOf ks t) by apply contractDataOf_setContract.
        unfold meterOf. rewrite Hcd. clear Hcd.
        destruct (decide (ec_target c = t)) as [<-|Hne].
        + rewrite decide_True by done. split; [done|]. cbn [mt_time mt_limit].
          apply runtimeUpdate_metered; try done; [by apply getTokenSpendAmount_bound|lia..].
        + rewrite decide_False by auto. by apply charged_refl.
      - destruct (decide (ec_target c = t)) as [<-|Hne].
        + fold cd in M1. congruence.
        + by apply charged_refl. }
    assert (spentOn t (c :: calls) =
      (if decide (ec_target c = t) then getTokenSpendAmount (ec_data c) else 0) + spentOn t calls) as ->.
    { unfold spentOn. rewrite filter_cons. by destruct (decide (ec_target c = t)). }
    apply IH in Hr; [|by eapply meter_ok_after]. eapply charged_trans; [|exact G|exact Hr]. lia.
Qed.

Lemma updateLimits_charged now a k p calls ks ks' :
  0 ≤ now < UINT48 → Forall call_ok calls → meter_ok now (meterOf ks p) →
  updateLimitsPreExec now a k calls ks = Ok ks' →
  charged now (spent p calls) (meterOf ks p) (meterOf ks' p).
Proof.
  intros Hnow Hc M Hu. unfold updateLimitsPreExec in Hu.
  apply bind_ok in Hu as ([native ks1] & Hcl & Hu). apply bind_ok in Hu as (ks2 & H2 & Hu).
  apply ok_inj in Hu as <-.
  assert (E : ∀ q, meterOf (if gasLimitResetThisBundle (keyData ks2)
    then ks2 <| keyData ::= λ d, d <| gasLimitResetThisBundle := false |>
           <| gasLimitTimeInfo ::= λ ti, ti <| lastUsed := uint48 now |> |> |> else ks2) q = meterOf ks2 q)
    by (intros q; by destruct (gasLimitResetThisBundle (keyData ks2)), q).
  rewrite E. clear E. destruct p as [|t].
  - destruct (updateCallLimits_native _ _ _ _ _ _ _ Hcl) as (S1 & S2 & S3). cbn [fst snd] in *.
    destruct M as (M1 & M2 & M3 & M4). cbn [meterOf mt_on mt_time mt_limit] in M1, M2, M3, M4.
    rewrite S2 in H2. apply negb_true_iff in M1. rewrite M1 in H2.
    apply bind_ok in H2 as ([[ti l]|] & Hru & H2); [|discriminate]. apply ok_inj in H2 as <-.
    cbn [spent]. rewrite Z.add_0_l in S1. rewrite <- S1. unfold meterOf.
    assert (Hkd : keyData (ks1 <| keyData ::= λ d, d <| nativeTokenSpendLimitTimeInfo := ti |>
      <| nativeTokenSpendLimit := l |> |>) = keyData ks <| nativeTokenSpendLimitTimeInfo := ti |>
      <| nativeTokenSpendLimit := l |>) by (rewrite <- S2; done).
    rewrite Hkd. split; [done|]. cbn [mt_time mt_limit]. apply runtimeUpdate_metered; try done; [|lia..].
    split; [|apply S3; unfold UINT256; lia]. rewrite S1. apply sumZ_nonneg, Forall_fmap.
    eapply Forall_impl; [exact Hc|]. intros c [? _]. cbn. lia.
  - assert (meterOf ks2 (Token t) = meterOf ks1 (Token t)) as ->.
    { destruct (nativeTokenSpendLimitBypassed (keyData ks1)); [by apply ok_inj in H2 as <-|].
      apply bind_ok in H2 as ([[ti l]|] & _ & H2); [|discriminate]. by apply ok_inj in H2 as <-. }
    by apply (updateCallLimits_metered _ _ _ t _ _ _ _ Hnow Hc M Hcl).
Qed.

(** Validation meters gas only. *)
Lemma checkUserOp_meters op calls k ks v ks' p :
  checkUserOpPermissions op calls k ks = Ok (v, ks') → meterOf ks' p = meterOf ks p.
Proof.
  unfold checkUserOpPermissions. intros Hc.
  apply bind_ok in Hc as ([n ok] & _ & Hc). apply bind_ok in Hc as ([ok1 after] & _ & Hc).
  apply bind_ok in Hc as ([[ok2 after2] d] & Hg & Hc). apply ok_inj in Hc. injection Hc as _ <-.
  destruct p; [|done]. cbn [meterOf].
  change (keyData (set keyData (λ _, d) ks)) with d.
  destruct (hasGasLimit (keyData ks)); [|apply ok_inj in Hg; by injection Hg as _ _ <-].
  apply bind_ok in Hg as (cost & _ & Hg). apply bind_ok in Hg as ([[gok ga] d'] & Hu & Hg).
  apply ok_inj in Hg. injection Hg as _ _ <-. unfold checkAndUpdateGasLimitUsage in Hu.
  repeat (case_match; [|]); ok_inv; simplify_eq; done.
Qed.
End batch.

(** ** Histories *)

Section history.
Context {T : Type} `{KeySetLaws T} `{Viem}.
Implicit Types (st : Plugin T) (P : policies).

(** An operation that changes the registration or the permissions of a key. *)
Definition manages (a k : Z) (o : plugin_op) : bool :=
  match o with
  | OpUpdate a' k' _ | OpRemove a' k' _ | OpRotate a' k' _ _ => bool_decide ((a', k') = (a, k))
  | OpUninstall a' => bool_decide (a' = a)
  | _ => false
  end.

(** What an operation spends of a purse with key [k] of account [a]. *)
Definition op_spend (a k : Z) (p : purse) (o : plugin_op) : Z :=
  match o with
  | OpExecute a' calls k' => if bool_decide ((a', k') = (a, k)) then spent p calls else 0
  | _ => 0
  end.

Definition op_ok (o : plugin_op) : Prop :=
  match o with OpExecute _ calls _ => Forall call_ok calls | _ => True end.

Notation history := (list (Z * plugin_op)).

Fixpoint run_history (h : history) st : Plugin T :=
  match h with [] => st | (now, o) :: h => run_history h (run_op now o st) end.

(** The spending of the operations that did not revert. *)
Fixpoint history_spend (a k : Z) (p : purse) (h : history) st : Z :=
  match h with
  | [] => 0
  | (now, o) :: h =>
      (match plugin_step now o st with Ok _ => op_spend a k p o | Throw _ => 0 end)
      + history_spend a k p h (run_op now o st)
  end.

(** Times do not go back, from [t0] on. *)
Fixpoint chronological (t0 : Z) (h : history) : Prop :=
  match h with [] => True | (now, _) :: h => t0 ≤ now < UINT48 ∧ chronological now h end.

(** The time of the last operation. *)
Fixpoint end_time (t0 : Z) (h : history) : Z :=
  match h with [] => t0 | (now, _) :: h => end_time now h end.

Lemma spec_adds_keep now a' keys P P' x ks :
  spec_adds now a' keys P = Some P' → P !! x = Some ks → P' !! x = Some ks.
Proof.
  revert P. induction keys as [|[k' us] keys IH]; intros P Hs Hx; cbn [spec_adds] in Hs.
  - by injection Hs as <-.
  - destruct (spec_add now a' k' us P) as [P1|] eqn:E; [|discriminate]. apply (IH P1 Hs).
    unfold spec_add in E. destruct ((k' =? 0) || _) eqn:Eg; [discriminate|].
    apply orb_false_iff in Eg as [_ Eg%bool_decide_eq_false].
    destruct (performUpdates now us emptyKeyStore); [|discriminate]. injection E as <-.
    rewrite lookup_insert_ne; [done|]. intros <-. apply Eg. by eexists.
Qed.

Lemma spec_change_other f a' k' P P' x ks :
  spec_change f a' k' P = Some P' → P !! x = Some ks →
  (x = (a', k') ∧ ∃ ks', f ks = Ok ks' ∧ P' !! x = Some ks') ∨ (x ≠ (a', k') ∧ P' !! x = Some ks).
Proof.
  unfold spec_change. intros Hc Hx. destruct (P !! (a', k')) as [ks0|] eqn:E0; [|discriminate].
  cbn [mbind option_bind] in Hc. destruct (f ks0) as [ks1|] eqn:Ef; [|discriminate].
  injection Hc as <-. destruct (decide (x = (a', k'))) as [->|Hne].
  - left. split; [done|]. assert (ks0 = ks) as -> by congruence. exists ks1.
    by rewrite lookup_insert_eq.
  - right. by rewrite lookup_insert_ne.
Qed.

(** What one operation that does not manage a key does to the key's policy:
    an execution charges it, anything else leaves the meters alone. *)
Lemma spec_step_policy now o P P' a k ks :
  manages a k o = false → spec_step now o P = Some P' → P !! (a, k) = Some ks →
  ∃ ks', P' !! (a, k) = Some ks' ∧
    match o with
    | OpExecute a' calls k' =>
        if bool_decide ((a', k') = (a, k)) then updateLimitsPreExec now a k calls ks = Ok ks'
        else ks' = ks
    | _ => ∀ p, meterOf ks' p = meterOf ks p
    end.
Proof.
  intros Hm Hs Hk. destruct o; cbn [manages spec_step] in *.
  - exists ks. split; [|done]. apply (spec_adds_keep now account [(key, updates)] P P' _ ks); [|done].
    cbn [spec_adds]. by rewrite Hs.
  - apply bool_decide_eq_false in Hm. destruct (spec_change_other _ _ _ _ _ _ _ Hs Hk) as [[E _]|[_ ?]];
      [congruence|by exists ks].
  - apply bool_decide_eq_false in Hm. destruct (P !! (account, key)); [|discriminate].
    injection Hs as <-. exists ks. by rewrite lookup_delete_ne.
  - apply bool_decide_eq_false in Hm. destruct (P !! (account, old)) as [ks0|]; [|discriminate].
    cbn [mbind option_bind] in Hs. destruct ((new =? 0) || _) eqn:Eg; [discriminate|].
    injection Hs as <-. apply orb_false_iff in Eg as [_ Eg%bool_decide_eq_false].
    exists ks. split; [|done]. rewrite lookup_insert_ne.
    + by rewrite lookup_delete_ne.
    + intros E. apply Eg. rewrite E, lookup_delete_ne by done. by eexists.
  - destruct (spec_change_other _ _ _ _ _ _ _ Hs Hk) as [[_ (ks' & Hf & ?)]|[_ ?]]; [|by exists ks].
    exists ks'. split; [done|]. apply ok_inj in Hf as <-. intros p. by destruct (gasLimitResetThisBundle _), p.
  - exists ks. split; [|done]. by eapply spec_adds_keep.
  - apply bool_decide_eq_false in Hm. injection Hs as <-. exists ks. split; [|done].
    rewrite map_lookup_filter, Hk. cbn. by rewrite option_guard_True by congruence.
  - destruct (spec_change_other _ _ _ _ _ _ _ Hs Hk) as [[_ (ks' & Hf & ?)]|[_ ?]]; [|by exists ks].
    exists ks'. split; [done|]. apply bind_ok in Hf as ([v ks1] & Hc & Hf).
    destruct (va_success v); [|discriminate]. apply ok_inj in Hf as <-.
    intros p. by eapply checkUserOp_meters.
  - destruct (P !! (account, key)) as [ks0|] eqn:E0.
    + destruct (spec_change_other _ _ _ _ _ _ _ Hs Hk) as [[E (ks' & Hf & ?)]|[Hne ?]].
      * injection E as -> ->. exists ks'. split; [done|]. by rewrite bool_decide_eq_true_2.
      * exists ks. split; [done|]. by rewrite bool_decide_eq_false_2 by congruence.
    + injection Hs as <-. exists ks. split; [done|].
      rewrite bool_decide_eq_false_2; [done|]. intros [= -> ->]. congruence.
Qed.

(** One operation, run or reverted. *)
Lemma run_op_charged now o st a k ks p t0 :
  reachable st → policyOf st a k = Some ks → manages a k o = false → op_ok o →
  t0 ≤ now < UINT48 → 0 ≤ t0 → meter_ok t0 (meterOf ks p) →
  ∃ ks', policyOf (run_op now o st) a k = Some ks' ∧
    charged now (match plugin_step now o st with Ok _ => op_spend a k p o | Throw _ => 0 end)
      (meterOf ks p) (meterOf ks' p).
Proof.
  intros Hr Hk Hm Ho Hnow Ht0 M.
  assert (M' : meter_ok now (meterOf ks p)).
  { destruct M as (M1 & M2 & M3 & M4). split_and!; try done; lia. }
  assert (Hrefl : charged now 0 (meterOf ks p) (meterOf ks p)) by (apply charged_refl, M).
  unfold run_op. destruct (plugin_step now o st) as [st'|] eqn:Hs; [|by exists ks].
  destruct (reachable_represented st Hr) as (W & P & R).
  destruct (step_refines now o st P st' W R Hs) as (_ & P' & HP' & R').
  rewrite (R a k) in Hk.
  destruct (spec_step_policy now o P P' a k ks Hm HP' Hk) as (ks' & Hk' & E).
  exists ks'. split; [by rewrite (R' a k)|].
  destruct o; cbn [op_spend op_ok] in *; try (rewrite E; exact Hrefl).
  case_bool_decide.
  - by eapply updateLimits_charged; [lia|..].
  - by rewrite E.
Qed.

Lemma history_charged h st a k ks p t0 :
  reachable st → policyOf st a k = Some ks →
  Forall (λ e, manages a k e.2 = false ∧ op_ok e.2) h →
  chronological t0 h → 0 ≤ t0 → meter_ok t0 (meterOf ks p) →
  t0 ≤ end_time t0 h ∧ ∃ ks', policyOf (run_history h st) a k = Some ks' ∧
    charged (end_time t0 h) (history_spend a k p h st) (meterOf ks p) (meterOf ks' p).
Proof.
  intros Hr Hk Hf. revert t0 st ks Hr Hk.
  induction Hf as [|[now o] h [Hm Ho] Hf IH]; intros t0 st ks Hr Hk Hc Ht0 M; cbn [chronological] in Hc.
  - split; [done|]. exists ks. split; [done|]. apply charged_refl, M.
  - destruct Hc as [Hnow Hc].
    destruct (run_op_charged now o st a k ks p t0 Hr Hk Hm Ho Hnow Ht0 M) as (ks1 & Hk1 & G1).
    assert (M1 : meter_ok now (meterOf ks1 p)).
    { eapply meter_ok_after; [|exact G1]. destruct M as (? & ? & ? & ?). split_and!; try done; lia. }
    destruct (IH now _ _ (run_op_reachable now o st Hr) Hk1 Hc ltac:(lia) M1) as (Hend & ks' & Hk' & G2).
    cbn [end_time run_history history_spend]. split; [lia|]. exists ks'. split; [done|].
    eapply charged_trans; [exact Hend|exact G1|exact G2].
Qed.

(** The bound: what is left of the limit, or, with a refresh interval, the
    limit once and once more for every whole interval that passed. *)
Lemma history_bounded h st a k ks p t0 :
  reachable st → policyOf st a k = Some ks →
  Forall (λ e, manages a k e.2 = false ∧ op_ok e.2) h →
  chronological t0 h → 0 ≤ t0 → meter_ok t0 (meterOf ks p) →
  let l := mt_limit (meterOf ks p) in
  let r := refreshInterval (mt_time (meterOf ks p)) in
  let s := history_spend a k p h st in
  (r = 0 → s ≤ limitAmount l - limitUsed l) ∧
  (0 < r → s ≤ limitAmount l * (1 + (end_time t0 h - lastUsed (mt_time (meterOf ks p))) / r)).
Proof.
  intros Hr Hk Hf Hc Ht0 M l r s.
  destruct (history_charged h st a k ks p t0 Hr Hk Hf Hc Ht0 M) as (Hend & ks' & _ & _ & [A1 A2 A3 A4 A5 A6]).
  destruct M as (_ & M2 & M3 & M4). fold l r s in A1, A2, A3, A5, A6, M2, M3 |- *.
  clearbody r s. clear Hf Hc. split; intros E.
  - specialize (A5 E). lia.
  - destruct A6 as (n & Hn & Hnr & Hs). set (L := lastUsed (mt_time (meterOf ks p))) in *.
    assert (n ≤ (end_time t0 h - L) / r) by (apply Z.div_le_lower_bound; lia).
    assert (limitAmount l * n ≤ limitAmount l * ((end_time t0 h - L) / r)) by (apply Z.mul_le_mono_nonneg_l; lia). lia.
Qed.
End history.
