(* ===== verification/Grant.v ===== *)
(** * Session-key grants: the TypeScript compiler of a policy

    Models [packages/modular-wallets-core/src/types/bufi.ts] (the grant),
    [abis/sessionKey.ts] (the permission updates), and
    [actions/plugins/sessionKey/permissionUpdates.ts] and
    [buildBufiGrant.ts]. The end of the file gives the meaning of the compiled
    updates in the plugin. *)

From S2P Require Import Prelude.
From S2P Require Import Js.
From S2P Require Import Encoding.
From S2P Require Import Abi.
From S2P Require Import AbiSample.
From S2P Require Import SessionKey.
From S2P Require Import SessionKeyChecks.
From S2P Require Import SessionKeyPlugin.

(** ** The grant *)

Record BufiGrantScopeEntry : Type := {
  se_target : string;
  se_selectors : option (list string) }.

Record BufiGrantErc20Budget : Type := {
  eb_token : string; eb_limit : Z; eb_refreshIntervalSeconds : Z }.

Record BufiGrantSpendBudget : Type := { sb_limit : Z; sb_refreshIntervalSeconds : Z }.

Record BufiGrantBudget : Type := {
  gb_erc20 : option (list BufiGrantErc20Budget);
  gb_native : option BufiGrantSpendBudget;
  gb_gas : option BufiGrantSpendBudget }.

Record BufiGrantExpiry : Type := { ex_validAfter : option Z; ex_validUntil : Z }.

Record BufiGrant : Type := {
  g_allow : list BufiGrantScopeEntry;
  g_budget : option BufiGrantBudget;
  g_expiry : BufiGrantExpiry;
  g_requiredPaymaster : option string }.

(** [entry.selectors ?? []] and the like. *)
Definition selectorsOf (e : BufiGrantScopeEntry) : list string := default [] (se_selectors e).
Definition erc20Budgets (g : BufiGrant) : list BufiGrantErc20Budget :=
  default [] (g_budget g ≫= gb_erc20).
Definition grantValidAfter (g : BufiGrant) : Z := default 0 (ex_validAfter (g_expiry g)).

(** ** The permission update encoders *)

Definition SESSION_KEY_PERMISSIONS_UPDATES_ABI : list abi_item :=
  [{| item_name := "setAccessListType"; item_inputs := [TUint 8] |};
   {| item_name := "updateAccessListAddressEntry"; item_inputs := [TAddress; TBool; TBool] |};
   {| item_name := "updateAccessListFunctionEntry"; item_inputs := [TAddress; TBytesN 4; TBool] |};
   {| item_name := "updateTimeRange"; item_inputs := [TUint 48; TUint 48] |};
   {| item_name := "setNativeTokenSpendLimit"; item_inputs := [TUint 256; TUint 48] |};
   {| item_name := "setERC20SpendLimit"; item_inputs := [TAddress; TUint 256; TUint 48] |};
   {| item_name := "setGasSpendLimit"; item_inputs := [TUint 256; TUint 48] |};
   {| item_name := "setRequiredPaymaster"; item_inputs := [TAddress] |}].

(** The TypeScript enum [ContractAccessControlType]. *)
Definition accessControlNumber (t : ContractAccessControlType) : Z :=
  match t with ALLOWLIST => 0 | DENYLIST => 1 | ALLOW_ALL_ACCESS => 2 end.

Section encoders.
Context `{Viem}.
Notation Hex := (list Z).
Notation encodeUpdate := (encodeFunctionData SESSION_KEY_PERMISSIONS_UPDATES_ABI).

Definition encodeSetAccessListType (t : ContractAccessControlType) : result ts_error Hex :=
  encodeUpdate "setAccessListType" [ANum (accessControlNumber t)].

Definition encodeUpdateAccessListAddressEntry (contractAddress : string) (isOnList checkSelectors : bool) :
    result ts_error Hex :=
  encodeUpdate "updateAccessListAddressEntry" [AText contractAddress; AFlag isOnList; AFlag checkSelectors].

Definition encodeUpdateAccessListFunctionEntry (contractAddress selector : string) (isOnList : bool) :
    result ts_error Hex :=
  encodeUpdate "updateAccessListFunctionEntry" [AText contractAddress; AText selector; AFlag isOnList].

Definition encodeUpdateTimeRange (validAfter validUntil : Z) : result ts_error Hex :=
  encodeUpdate "updateTimeRange" [ANum validAfter; ANum validUntil].

Definition encodeSetNativeTokenSpendLimit (spendLimit refreshInterval : Z) : result ts_error Hex :=
  encodeUpdate "setNativeTokenSpendLimit" [ANum spendLimit; ANum refreshInterval].

Definition encodeSetERC20SpendLimit (token : string) (spendLimit refreshInterval : Z) : result ts_error Hex :=
  encodeUpdate "setERC20SpendLimit" [AText token; ANum spendLimit; ANum refreshInterval].

Definition encodeSetGasSpendLimit (spendLimit refreshInterval : Z) : result ts_error Hex :=
  encodeUpdate "setGasSpendLimit" [ANum spendLimit; ANum refreshInterval].

Definition encodeSetRequiredPaymaster (requiredPaymaster : string) : result ts_error Hex :=
  encodeUpdate "setRequiredPaymaster" [AText requiredPaymaster].

(** ** [buildBufiGrant] *)

(** The updates of one scope entry. *)
Definition entryUpdates (e : BufiGrantScopeEntry) : result ts_error (list Hex) :=
  let selectors := selectorsOf e in
  u ← encodeUpdateAccessListAddressEntry (se_target e) true (bool_decide (0 < length selectors)%nat);
  us ← mapM (λ s, encodeUpdateAccessListFunctionEntry (se_target e) s true) selectors;
  mret (u :: us).

(** An optional part of the grant contributes one update or none. *)
Definition optionUpdate {A} (f : A → result ts_error Hex) (x : option A) : result ts_error (list Hex) :=
  match x with None => mret [] | Some x => u ← f x; mret [u] end.

Definition buildBufiGrant (g : BufiGrant) : result ts_error (list Hex) :=
  throw_if (bool_decide (g_allow g = [])) (Err "A BUFI grant must allow at least one target.") ≫= λ _,
  let validAfter := grantValidAfter g in
  let validUntil := ex_validUntil (g_expiry g) in
  throw_if (validUntil <=? validAfter) (Err "A BUFI grant must expire after it becomes valid.") ≫= λ _,
  u0 ← encodeSetAccessListType ALLOWLIST;
  scope ← mapM entryUpdates (g_allow g);
  erc20 ← mapM (λ b, encodeSetERC20SpendLimit (eb_token b) (eb_limit b) (eb_refreshIntervalSeconds b))
            (erc20Budgets g);
  native ← optionUpdate (λ b, encodeSetNativeTokenSpendLimit (sb_limit b) (sb_refreshIntervalSeconds b))
             (g_budget g ≫= gb_native);
  gas ← optionUpdate (λ b, encodeSetGasSpendLimit (sb_limit b) (sb_refreshIntervalSeconds b))
          (g_budget g ≫= gb_gas);
  time ← encodeUpdateTimeRange validAfter validUntil;
  paymaster ← optionUpdate encodeSetRequiredPaymaster (truthy (g_requiredPaymaster g));
  mret ([u0] ++ mjoin scope ++ erc20 ++ native ++ gas ++ [time] ++ paymaster).
End encoders.

(** ** What one encoded update does *)

Section meaning.
Context `{ViemLaws}.
Context (now : Z).
Implicit Types ks : KeyStore.

Lemma wordAt_cons w ws i :
  length w = 32%nat → wordAt (32 * S i) (w ++ ws) = wordAt (32 * i) ws.
Proof.
  intros Hw. unfold wordAt. replace (32 * S i)%nat with (length w + 32 * i)%nat by lia.
  by rewrite <- drop_drop, drop_app_length.
Qed.

(** Decoding the words of encoded arguments gives the arguments. *)
Lemma decode_encoded ts vs ws :
  forallb type_ok ts = true → encodeWords ts vs = Some ws →
  decodeWords (length ts) ws = Ok (zip_with argValue ts vs).
Proof.
  intros Hts Hws.
  assert (G : length ws = (32 * length ts)%nat ∧
    (λ i, wordAt (32 * i) ws) <$> seq 0 (length ts) = zip_with argValue ts vs).
  { revert vs ws Hws. induction ts as [|t ts IH]; intros [|v vs] ws Hws; try discriminate.
    - by injection Hws as <-.
    - cbn [forallb] in Hts. apply andb_true_iff in Hts as [Ht Hts]. specialize (IH Hts). cbn [encodeWords] in Hws. destruct (encodeWord t v) as [w|] eqn:Ew; [|discriminate].
      destruct (encodeWords ts vs) as [ws'|] eqn:Ews; [|discriminate]. injection Hws as <-.
      destruct (IH vs ws' Ews) as [IH1 IH2]. destruct (encodeWord_spec t v w Ht Ew) as [Hl Hv].
      split; [rewrite length_app; cbn [length]; lia|].
      cbn [length seq zip_with]. rewrite fmap_cons, <- fmap_S_seq, <- list_fmap_compose. f_equal.
      + unfold wordAt. change (32 * 0)%nat with 0%nat. by rewrite drop_0, <- Hl, take_app_length.
      + rewrite <- IH2. apply list_fmap_ext. intros i x _. by apply wordAt_cons. }
  destruct G as [G1 G2]. unfold decodeWords. rewrite G1.
  destruct (32 * length ts <? 32 * length ts)%nat eqn:E; [apply Nat.ltb_lt in E; lia|]. by rewrite G2.
Qed.

Lemma asBool_arg b : asBool (Z.b2z b) = Ok b.
Proof. by destruct b. Qed.

Lemma asBytes4_arg x : asBytes4 (x * 256 ^ (32 - Z.of_nat 4)) = Ok x.
Proof.
  unfold asBytes4. change (256 ^ (32 - Z.of_nat 4)) with (2 ^ 224).
  rewrite Z.mod_mul, Z.div_mul by lia. done.
Qed.

Lemma address_arg a : isAddress a = true → asAddress (hexNumber a) = Ok (hexNumber a).
Proof.
  intros Ha. apply isAddress_format, hexNumber_range in Ha.
  change (256 ^ Z.of_nat 20) with (2 ^ 160) in Ha. unfold asAddress.
  by rewrite (proj2 (Z.ltb_lt _ _)) by lia.
Qed.

Lemma uint48_arg n : n < 2 ^ 48 → asUint48 n = Ok n.
Proof. intros. unfold asUint48, UINT48. by rewrite (proj2 (Z.ltb_lt _ _)). Qed.

Lemma selector_eqb s t :
  s ∈ codeSignatures → t ∈ codeSignatures → (selectorOf s =? selectorOf t) = String.eqb s t.
Proof.
  intros Hs Ht. destruct (String.eqb_spec s t) as [->|Hne]; [apply Z.eqb_refl|].
  apply Z.eqb_neq. intros E. by apply Hne, selector_distinct.
Qed.

Lemma selector_bytes sig ws :
  bytes4_of (be_bytes 4 (selectorOf sig) ++ ws) = selectorOf sig ∧
  drop 4 (be_bytes 4 (selectorOf sig) ++ ws) = ws ∧
  (length (be_bytes 4 (selectorOf sig) ++ ws) <? 4)%nat = false.
Proof.
  pose proof (be_bytes_length 4 (selectorOf sig)) as Hl. split_and!.
  - rewrite bytes4_of_app by done. apply be_bytes_value.
    change (256 ^ Z.of_nat 4) with (2 ^ 32). apply selector_range.
  - by rewrite <- Hl at 1; rewrite drop_app_length.
  - apply Nat.ltb_ge. rewrite length_app. lia.
Qed.
End meaning.

(** Resolves the comparisons of selectors of known signatures. *)
Ltac known_sig := apply (bool_decide_unpack _); vm_compute; reflexivity.
Ltac pick_selector :=
  rewrite ?selector_eqb by known_sig; cbn [String.eqb Ascii.eqb Bool.eqb andb].

Section encoder_meaning.
Context `{ViemLaws}.
Context (now : Z).
Implicit Types ks : KeyStore.

(** An encoded update reaches the plugin as its selector and its arguments. *)
Lemma encoded_update name it args u :
  findItem SESSION_KEY_PERMISSIONS_UPDATES_ABI name = Some it →
  forallb type_ok (item_inputs it) = true →
  encodeFunctionData SESSION_KEY_PERMISSIONS_UPDATES_ABI name args = Ok u →
  is_Some (encodeWords (item_inputs it) args) ∧
  bytes4_of u = selectorOf (signature it) ∧ (length u <? 4)%nat = false ∧
  decodeWords (length (item_inputs it)) (drop 4 u) = Ok (zip_with argValue (item_inputs it) args).
Proof.
  intros Hf Hok He.
  apply (encodeFunctionData_ok _ _ it) in He as (ws & Hws & ->); [|done|by apply type_ok_static].
  destruct (selector_bytes (signature it) ws) as (H1 & H2 & H3).
  rewrite H1, H2, H3. split_and!; [by eexists|done|done|]. by apply decode_encoded.
Qed.
End encoder_meaning.

(** Splits a successful check of an encoder. *)
Ltac word_args H :=
  repeat match type of H with
  | match (if ?b then _ else _) with _ => _ end = Some _ =>
      let E := fresh "Harg" in destruct b eqn:E; [|discriminate H]
  | match (match ?x with _ => _ end) with _ => _ end = Some _ =>
      let E := fresh "Harg" in destruct x eqn:E; [|discriminate H]
  | match ?x with _ => _ end = Some _ =>
      let E := fresh "Harg" in destruct x eqn:E; [|discriminate H]
  end;
  repeat match goal with
  | E : (if ?b then Some _ else None) = Some _ |- _ =>
      let E' := fresh "Harg" in destruct b eqn:E'; [apply (inj Some) in E; subst|discriminate E]
  | E : match ?x with _ => _ end = Some _ |- _ =>
      let E' := fresh "Harg" in destruct x eqn:E'; [|discriminate E]
  end.

(** Runs [performUpdate] on an encoded update, leaving the argument checks. *)
Ltac encoded H it sig :=
  apply (encoded_update _ it) in H as (Hwords & Hsel & Hlen & Hdec);
  [|vm_compute; reflexivity|vm_compute; reflexivity];
  cbn [item_inputs] in Hwords, Hdec; cbn [length zip_with argValue] in Hdec;
  destruct Hwords as [? Hwords]; cbn [encodeWords encodeWord] in Hwords;
  word_args Hwords;
  unfold performUpdate; rewrite Hlen, Hsel; change (signature _) with sig; pick_selector;
  rewrite Hdec; cbn [mbind result_bind arg nth].

Section encoder_lemmas.
Context `{ViemLaws}.
Context (now : Z).
Implicit Types ks : KeyStore.

Lemma perform_setAccessListType t u :
  encodeSetAccessListType t = Ok u →
  ∀ ks, performUpdate now u ks = Ok (setAccessListType t ks).
Proof.
  intros He ks.
  encoded He {| item_name := "setAccessListType"; item_inputs := [TUint 8] |} "setAccessListType(uint8)".
  by destruct t.
Qed.

Lemma perform_addressEntry a onList check u :
  encodeUpdateAccessListAddressEntry a onList check = Ok u →
  ∀ ks, isAddress a = true ∧
    performUpdate now u ks = Ok (updateAccessListAddressEntry (hexNumber a) onList check ks).
Proof.
  intros He ks.
  encoded He {| item_name := "updateAccessListAddressEntry"; item_inputs := [TAddress; TBool; TBool] |}
    "updateAccessListAddressEntry(address,bool,bool)".
  split; [done|]. rewrite address_arg by done. cbn [mbind result_bind].
  rewrite asBool_arg. cbn [mbind result_bind]. by rewrite asBool_arg.
Qed.

Lemma perform_functionEntry a sel onList u :
  encodeUpdateAccessListFunctionEntry a sel onList = Ok u →
  ∀ ks, isHexBytes 4 sel = true ∧
    performUpdate now u ks = Ok (updateAccessListFunctionEntry (hexNumber a) (hexNumber sel) onList ks).
Proof.
  intros He ks.
  encoded He {| item_name := "updateAccessListFunctionEntry"; item_inputs := [TAddress; TBytesN 4; TBool] |}
    "updateAccessListFunctionEntry(address,bytes4,bool)".
  split; [done|]. rewrite address_arg by done. cbn [mbind result_bind].
  rewrite asBytes4_arg. cbn [mbind result_bind]. by rewrite asBool_arg.
Qed.

Lemma perform_timeRange after until u :
  encodeUpdateTimeRange after until = Ok u →
  ∀ ks, (0 ≤ after < UINT48 ∧ 0 ≤ until < UINT48) ∧
    performUpdate now u ks = Ok (updateTimeRange after until ks).
Proof.
  intros He ks.
  encoded He {| item_name := "updateTimeRange"; item_inputs := [TUint 48; TUint 48] |}
    "updateTimeRange(uint48,uint48)".
  ok_inv. zify_bool. unfold UINT48. rewrite !uint48_arg; [|lia..]. split; [lia|done].
Qed.

Lemma perform_native limit interval u :
  encodeSetNativeTokenSpendLimit limit interval = Ok u →
  ∀ ks, (0 ≤ limit < UINT256 ∧ 0 ≤ interval < UINT48) ∧
    performUpdate now u ks = Ok (setNativeTokenSpendLimit now limit interval ks).
Proof.
  intros He ks.
  encoded He {| item_name := "setNativeTokenSpendLimit"; item_inputs := [TUint 256; TUint 48] |}
    "setNativeTokenSpendLimit(uint256,uint48)".
  ok_inv. zify_bool. unfold UINT48, UINT256. rewrite uint48_arg; [|lia]. split; [lia|done].
Qed.

Lemma perform_gas limit interval u :
  encodeSetGasSpendLimit limit interval = Ok u →
  ∀ ks, (0 ≤ limit < UINT256 ∧ 0 ≤ interval < UINT48) ∧
    performUpdate now u ks = Ok (setGasSpendLimit now limit interval ks).
Proof.
  intros He ks.
  encoded He {| item_name := "setGasSpendLimit"; item_inputs := [TUint 256; TUint 48] |}
    "setGasSpendLimit(uint256,uint48)".
  ok_inv. zify_bool. unfold UINT48, UINT256. rewrite uint48_arg; [|lia]. split; [lia|done].
Qed.

Lemma perform_erc20 token limit interval u :
  encodeSetERC20SpendLimit token limit interval = Ok u →
  ∀ ks, (isAddress token = true ∧ 0 ≤ limit < UINT256 ∧ 0 ≤ interval < UINT48) ∧
    performUpdate now u ks = setERC20SpendLimit now (hexNumber token) limit interval ks.
Proof.
  intros He ks.
  encoded He {| item_name := "setERC20SpendLimit"; item_inputs := [TAddress; TUint 256; TUint 48] |}
    "setERC20SpendLimit(address,uint256,uint48)".
  ok_inv. zify_bool. unfold UINT48, UINT256. rewrite address_arg by done. cbn.
  rewrite uint48_arg; [|lia]. split; [|done]. split; [done|lia].
Qed.

Lemma perform_paymaster p u :
  encodeSetRequiredPaymaster p = Ok u →
  ∀ ks, isAddress p = true ∧ performUpdate now u ks = Ok (setRequiredPaymaster (hexNumber p) ks).
Proof.
  intros He ks.
  encoded He {| item_name := "setRequiredPaymaster"; item_inputs := [TAddress] |}
    "setRequiredPaymaster(address)".
  by rewrite address_arg.
Qed.
End encoder_lemmas.

(** ** The store a compiled grant leaves *)

Definition targetOf (e : BufiGrantScopeEntry) : Z := hexNumber (se_target e).
Definition selectorNumbers (e : BufiGrantScopeEntry) : list Z := hexNumber <$> selectorsOf e.
Definition restricted (e : BufiGrantScopeEntry) : bool := bool_decide (0 < length (selectorsOf e))%nat.

Definition applyEntry (ks : KeyStore) (e : BufiGrantScopeEntry) : KeyStore :=
  foldl (λ ks s, updateAccessListFunctionEntry (targetOf e) s true ks)
    (updateAccessListAddressEntry (targetOf e) true (restricted e) ks) (selectorNumbers e).

Definition applyScope (allow : list BufiGrantScopeEntry) (ks : KeyStore) : KeyStore :=
  foldl applyEntry ks allow.

Definition tokenOf (b : BufiGrantErc20Budget) : Z := hexNumber (eb_token b).

Definition applyBudget (now : Z) (ks : KeyStore) (b : BufiGrantErc20Budget) : KeyStore :=
  setContract (tokenOf b) (λ c,
    let '(enabled, ti, l) := updateSpendLimits now (eb_limit b) (eb_refreshIntervalSeconds b)
                               (erc20SpendLimitTimeInfo c) (erc20SpendLimit c) in
    c <| isERC20WithSpendLimit := enabled |>
      <| erc20SpendLimitTimeInfo := ti |> <| erc20SpendLimit := l |>) ks.

Definition applyOption {A} (f : A → KeyStore → KeyStore) (x : option A) (ks : KeyStore) : KeyStore :=
  match x with None => ks | Some x => f x ks end.

Definition grantStore (now : Z) (g : BufiGrant) (ks : KeyStore) : KeyStore :=
  applyOption (λ p, setRequiredPaymaster (hexNumber p)) (truthy (g_requiredPaymaster g))
  (updateTimeRange (grantValidAfter g) (ex_validUntil (g_expiry g))
  (applyOption (λ b, setGasSpendLimit now (sb_limit b) (sb_refreshIntervalSeconds b)) (g_budget g ≫= gb_gas)
  (applyOption (λ b, setNativeTokenSpendLimit now (sb_limit b) (sb_refreshIntervalSeconds b))
     (g_budget g ≫= gb_native)
  (foldl (applyBudget now)
     (applyScope (g_allow g) (setAccessListType ALLOWLIST ks)) (erc20Budgets g))))).

(** What the encoders checked about a grant they compiled. *)
Record grant_ok `{Viem} (g : BufiGrant) : Prop := {
  go_allow : g_allow g ≠ [];
  go_targets e : e ∈ g_allow g → isAddress (se_target e) = true;
  go_selectors e s : e ∈ g_allow g → s ∈ selectorsOf e → isHexBytes 4 s = true;
  go_tokens b : b ∈ erc20Budgets g → isAddress (eb_token b) = true;
  go_limits b : b ∈ erc20Budgets g →
    0 ≤ eb_limit b < UINT256 ∧ 0 ≤ eb_refreshIntervalSeconds b < UINT48;
  go_native b : g_budget g ≫= gb_native = Some b →
    0 ≤ sb_limit b < UINT256 ∧ 0 ≤ sb_refreshIntervalSeconds b < UINT48;
  go_gas b : g_budget g ≫= gb_gas = Some b →
    0 ≤ sb_limit b < UINT256 ∧ 0 ≤ sb_refreshIntervalSeconds b < UINT48;
  go_window : 0 ≤ grantValidAfter g < ex_validUntil (g_expiry g) ∧ ex_validUntil (g_expiry g) < UINT48;
  go_paymaster p : truthy (g_requiredPaymaster g) = Some p → isAddress p = true }.

Section compile.
Context `{ViemLaws}.
Context (now : Z).
Implicit Types ks : KeyStore.

Lemma performUpdates_app us vs ks ks' :
  performUpdates now us ks = Ok ks' →
  performUpdates now (us ++ vs) ks = performUpdates now vs ks'.
Proof.
  revert ks. induction us as [|u us IH]; intros ks Hu; cbn [performUpdates app] in *.
  - by apply ok_inj in Hu as ->.
  - apply bind_ok in Hu as (ks1 & -> & Hu). cbn [mbind result_bind]. by apply IH.
Qed.

Lemma entry_perform e us :
  entryUpdates e = Ok us →
  isAddress (se_target e) = true ∧ (∀ s, s ∈ selectorsOf e → isHexBytes 4 s = true) ∧
  ∀ ks, performUpdates now us ks = Ok (applyEntry ks e).
Proof.
  intros He. unfold entryUpdates in He. ok_inv. subst us.
  pose proof (perform_addressEntry now _ _ _ _ Hr) as Ha. apply mapM_ok in Hr0.
  split; [apply (Ha emptyKeyStore)|].
  assert (G : (∀ s, s ∈ selectorsOf e → isHexBytes 4 s = true) ∧ ∀ ks, performUpdates now r0 ks =
    Ok (foldl (λ ks s, updateAccessListFunctionEntry (targetOf e) s true ks) ks (selectorNumbers e))).
  { unfold selectorNumbers. clear Ha Hr. induction Hr0 as [|s u ss us Hs _ [IH1 IH2]].
    - split; [set_solver|done].
    - pose proof (perform_functionEntry now _ _ _ _ Hs) as Hp. split.
      + intros s' [->|Hs']%elem_of_cons; [apply (Hp emptyKeyStore)|auto].
      + intros ks. cbn [performUpdates]. rewrite (proj2 (Hp ks)). cbn [mbind result_bind].
        apply IH2. }
  destruct G as [G1 G2]. split; [done|]. intros ks. cbn [performUpdates].
  rewrite (proj2 (Ha ks)). cbn [mbind result_bind]. by rewrite G2.
Qed.

Lemma scope_perform allow uss :
  mapM entryUpdates allow = Ok uss →
  (∀ e, e ∈ allow → isAddress (se_target e) = true ∧ ∀ s, s ∈ selectorsOf e → isHexBytes 4 s = true) ∧
  ∀ ks, performUpdates now (mjoin uss) ks = Ok (applyScope allow ks).
Proof.
  rewrite mapM_ok. induction 1 as [|e us allow uss He _ [IH1 IH2]].
  - split; [set_solver|done].
  - apply entry_perform in He as (He1 & He2 & He3). split.
    + intros e' [->|Hin]%elem_of_cons; auto.
    + intros ks. change (mjoin (us :: uss)) with (us ++ mjoin uss).
      rewrite (performUpdates_app _ _ _ _ (He3 ks)). apply IH2.
Qed.

Lemma budgets_perform bs us :
  mapM (λ b, encodeSetERC20SpendLimit (eb_token b) (eb_limit b) (eb_refreshIntervalSeconds b)) bs = Ok us →
  (∀ b, b ∈ bs → isAddress (eb_token b) = true ∧
     0 ≤ eb_limit b < UINT256 ∧ 0 ≤ eb_refreshIntervalSeconds b < UINT48) ∧
  ∀ ks, performUpdates now us ks =
    if bool_decide (Exists (λ b, tokenOf b = 0) bs) then Throw (InvalidToken 0)
    else Ok (foldl (applyBudget now) ks bs).
Proof.
  rewrite mapM_ok. induction 1 as [|b u bs us Hb _ [IH1 IH2]].
  - split; [set_solver|]. intros ks. by rewrite bool_decide_eq_false_2 by (intros E; inversion E).
  - pose proof (perform_erc20 now _ _ _ _ Hb) as Hp. split.
    + intros b' [->|Hin]%elem_of_cons; [apply (Hp emptyKeyStore)|auto].
    + intros ks. cbn [performUpdates]. rewrite (proj2 (Hp ks)). unfold setERC20SpendLimit.
      fold (tokenOf b). destruct (tokenOf b =? 0) eqn:E; cbn [mbind result_bind].
      * zify_bool. rewrite bool_decide_eq_true_2 by (rewrite Exists_cons; auto). by rewrite E.
      * zify_bool. rewrite IH2.
        rewrite (bool_decide_ext _ (Exists (λ b, tokenOf b = 0) (b :: bs))); [done|].
        rewrite Exists_cons. tauto.
Qed.

Lemma option_perform {A} (enc : A → result ts_error (list Z)) (f : A → KeyStore → KeyStore) (P : A → Prop) x us :
  optionUpdate enc x = Ok us →
  (∀ a u, enc a = Ok u → ∀ ks, P a ∧ performUpdate now u ks = Ok (f a ks)) →
  (∀ a, x = Some a → P a) ∧ ∀ ks, performUpdates now us ks = Ok (applyOption f x ks).
Proof.
  intros Hx Hf. destruct x as [a|]; cbn [optionUpdate] in Hx; ok_inv; subst us.
  - pose proof (Hf _ _ Hr) as Hp. split; [intros b [= <-]; apply (Hp emptyKeyStore)|].
    intros ks. cbn [performUpdates]. by rewrite (proj2 (Hp ks)).
  - split; [done|]. intros ks. done.
Qed.

(** The compiled updates, run on any store, leave [grantStore] or are
    refused because a budget names the zero address. *)
Lemma build_perform g us :
  buildBufiGrant g = Ok us →
  grant_ok g ∧ ∀ ks, performUpdates now us ks =
    if bool_decide (Exists (λ b, tokenOf b = 0) (erc20Budgets g)) then Throw (InvalidToken 0)
    else Ok (grantStore now g ks).
Proof.
  intros Hb. unfold buildBufiGrant in Hb. rewrite !throw_if_bind_ok in Hb.
  destruct Hb as (Ha & Hw & Hb). ok_inv. subst us.
  apply scope_perform in Hr0 as [S1 S2]. apply budgets_perform in Hr1 as [B1 B2].
  pose (in_range (b : BufiGrantSpendBudget) :=
    0 ≤ sb_limit b < UINT256 ∧ 0 ≤ sb_refreshIntervalSeconds b < UINT48).
  destruct (option_perform _ (λ b, setNativeTokenSpendLimit now (sb_limit b) (sb_refreshIntervalSeconds b))
    in_range _ _ Hr2 (λ b, perform_native now _ _)) as [N1 N2].
  destruct (option_perform _ (λ b, setGasSpendLimit now (sb_limit b) (sb_refreshIntervalSeconds b))
    in_range _ _ Hr3 (λ b, perform_gas now _ _)) as [G1 G2].
  destruct (option_perform _ (λ p, setRequiredPaymaster (hexNumber p)) _ _ _ Hr5
    (perform_paymaster now)) as [P1 P2].
  pose proof (perform_timeRange now _ _ _ Hr4) as T2.
  split.
  - zify_bool. destruct (T2 emptyKeyStore) as [[T3 T4] _].
    split; [done|..].
    + intros e He. by apply S1.
    + intros e s He Hs. by apply (S1 e).
    + intros b Hin. by apply B1.
    + intros b Hin. by apply B1.
    + exact N1.
    + exact G1.
    + lia.
    + exact P1.
  - intros ks. cbn [app performUpdates]. rewrite (perform_setAccessListType now _ _ Hr).
    cbn [mbind result_bind]. rewrite (performUpdates_app _ _ _ _ (S2 _)).
    specialize (B2 (applyScope (g_allow g) (setAccessListType ALLOWLIST ks))). revert B2.
    case_bool_decide as E; intros B2.
    + revert B2. generalize (applyScope (g_allow g) (setAccessListType ALLOWLIST ks)).
      rename r1 into us. clear B1 E.
      induction us as [|u us IH]; intros k Hk; cbn [performUpdates app] in *; [discriminate|].
      apply bind_throw in Hk as [->|(k' & -> & Hk)]; cbn [mbind result_bind]; [done|]. by apply IH.
    + rewrite (performUpdates_app _ _ _ _ B2), (performUpdates_app _ _ _ _ (N2 _)),
        (performUpdates_app _ _ _ _ (G2 _)).
      cbn [app performUpdates]. rewrite (proj2 (T2 _)). cbn [mbind result_bind]. by rewrite P2.
Qed.
End compile.

(** ** The policy a grant means *)

Definition entriesAt (g : BufiGrant) (t : Z) : list BufiGrantScopeEntry :=
  filter (λ e, targetOf e = t) (g_allow g).

Definition budgetAt (g : BufiGrant) (t : Z) : option BufiGrantErc20Budget :=
  last (filter (λ b, tokenOf b = t) (erc20Budgets g)).

(** A budget of 2^256-1 is no budget. *)
Definition UNLIMITED : Z := UINT256 - 1.

Definition budgeted (g : BufiGrant) (t : Z) : bool :=
  match budgetAt g t with Some b => negb (eb_limit b =? UNLIMITED) | None => false end.

(** The calls a grant admits: the target is listed; when its last entry names
    selectors the selector is one listed for the target, and on a budgeted
    token it is transfer or approve. *)
Definition grantAllows `{Viem} (g : BufiGrant) (target : Z) (data : list Z) : bool :=
  let entries := entriesAt g target in
  match last entries with
  | None => false
  | Some e =>
      if negb (restricted e) then true
      else existsb (λ e, bool_decide (bytes4_of data ∈ selectorNumbers e)) entries
           && implb (budgeted g target) (isAllowedERC20Function (bytes4_of data))
  end.

(** What a limit of [limit] per [interval] starts from at [now]. *)
Definition freshTimeInfo (now interval : Z) : SpendLimitTimeInfo :=
  {| refreshInterval := interval; lastUsed := if interval =? 0 then 0 else uint48 now |}.
Definition freshLimit (limit : Z) : SpendLimit := {| limitAmount := limit; limitUsed := 0 |}.

Definition spendTimeInfo (now : Z) (b : option BufiGrantSpendBudget) : SpendLimitTimeInfo :=
  match b with
  | Some b => if sb_limit b =? UNLIMITED then zeroTimeInfo else freshTimeInfo now (sb_refreshIntervalSeconds b)
  | None => zeroTimeInfo
  end.
Definition spendLimitOf (b : option BufiGrantSpendBudget) : SpendLimit :=
  match b with
  | Some b => if sb_limit b =? UNLIMITED then zeroLimit else freshLimit (sb_limit b)
  | None => zeroLimit
  end.

(** The key's own data: without a native budget no native token may be spent,
    without a gas budget gas is not metered. *)
Definition grantKeyData (now : Z) (g : BufiGrant) : SessionKeyData :=
  let native := g_budget g ≫= gb_native in
  let gas := g_budget g ≫= gb_gas in
  let paymaster := match truthy (g_requiredPaymaster g) with Some p => hexNumber p | None => 0 end in
  {| contractAccessControlType := ALLOWLIST;
     validAfter := grantValidAfter g;
     validUntil := ex_validUntil (g_expiry g);
     hasRequiredPaymaster := negb (paymaster =? 0);
     hasGasLimit := match gas with Some b => negb (sb_limit b =? UNLIMITED) | None => false end;
     nativeTokenSpendLimitBypassed := match native with Some b => sb_limit b =? UNLIMITED | None => false end;
     gasLimitResetThisBundle := false;
     gasLimitTimeInfo := spendTimeInfo now gas;
     nativeTokenSpendLimitTimeInfo := spendTimeInfo now native;
     requiredPaymaster := paymaster;
     gasLimit := spendLimitOf gas;
     nativeTokenSpendLimit := spendLimitOf native |}.

(** *** Lookups in the store of a grant *)

Lemma functionOnList_insert t s b ks t' s' :
  functionOnList (updateAccessListFunctionEntry t s b ks) t' s' =
  if decide ((t', s') = (t, s)) then b else functionOnList ks t' s'.
Proof.
  unfold functionOnList, updateAccessListFunctionEntry.
  change (functions (set functions ?f ks)) with (f (functions ks)).
  case_decide as E; [by rewrite E, lookup_insert_eq | by rewrite lookup_insert_ne].
Qed.

Section entries.
Implicit Types ks : KeyStore.

(** The selectors of one entry. *)
Lemma applySelectors_spec t sels ks :
  let ks' := foldl (λ ks s, updateAccessListFunctionEntry t s true ks) ks sels in
  keyData ks' = keyData ks ∧ contracts ks' = contracts ks ∧
  ∀ t' s', functionOnList ks' t' s' =
    bool_decide (t' = t ∧ s' ∈ sels) || functionOnList ks t' s'.
Proof.
  revert ks. induction sels as [|s sels IH]; intros ks; cbn [foldl].
  - split_and!; [done..|]. intros. rewrite bool_decide_eq_false_2; [done|]. set_solver.
  - destruct (IH (updateAccessListFunctionEntry t s true ks)) as (I1 & I2 & I3). cbv zeta.
    split_and!; [by rewrite I1|by rewrite I2|]. intros t' s'. rewrite I3, functionOnList_insert.
    destruct (functionOnList ks t' s'); [by case_decide; rewrite !orb_true_r|].
    case_decide as E; rewrite ?orb_true_r, ?orb_false_r.
    + simplify_eq. symmetry. apply bool_decide_eq_true. set_solver.
    + apply bool_decide_ext. set_solver.
Qed.

Definition entryMark (c : ContractData) (e : option BufiGrantScopeEntry) : ContractData :=
  match e with
  | None => c
  | Some e => c <| isOnList := true |> <| checkSelectors := restricted e |>
  end.

Lemma applyEntry_spec e ks :
  keyData (applyEntry ks e) = keyData ks ∧
  (∀ t, contractDataOf (applyEntry ks e) t =
     if decide (t = targetOf e) then entryMark (contractDataOf ks t) (Some e) else contractDataOf ks t) ∧
  ∀ t s, functionOnList (applyEntry ks e) t s =
    bool_decide (t = targetOf e ∧ s ∈ selectorNumbers e) || functionOnList ks t s.
Proof.
  unfold applyEntry.
  destruct (applySelectors_spec (targetOf e) (selectorNumbers e)
    (updateAccessListAddressEntry (targetOf e) true (restricted e) ks)) as (I1 & I2 & I3).
  cbv zeta in *. split_and!; [by rewrite I1| |exact I3].
  intros t. unfold contractDataOf at 1. rewrite I2.
  change (default zeroContractData (contracts ?k !! t)) with (contractDataOf k t).
  unfold updateAccessListAddressEntry. rewrite contractDataOf_setContract.
  by case_decide as E; [rewrite E|].
Qed.

Lemma applyScope_spec allow ks :
  keyData (applyScope allow ks) = keyData ks ∧
  (∀ t, contractDataOf (applyScope allow ks) t =
     entryMark (contractDataOf ks t) (last (filter (λ e, targetOf e = t) allow))) ∧
  ∀ t s, functionOnList (applyScope allow ks) t s =
    existsb (λ e, bool_decide (s ∈ selectorNumbers e)) (filter (λ e, targetOf e = t) allow)
    || functionOnList ks t s.
Proof.
  unfold applyScope. induction allow as [|e allow (I1 & I2 & I3)] using rev_ind; [done|].
  rewrite foldl_app. cbn [foldl].
  destruct (applyEntry_spec e (foldl applyEntry ks allow)) as (E1 & E2 & E3).
  split_and!; [by rewrite E1| |].
  - intros t. rewrite E2, filter_app, filter_cons, filter_nil.
    destruct (decide (t = targetOf e)) as [->|Hne].
    + rewrite decide_True by done. rewrite last_snoc, I2.
      by destruct (last (filter _ allow)).
    + rewrite decide_False by done. by rewrite app_nil_r, I2.
  - intros t s. rewrite E3, I3, filter_app, filter_cons, filter_nil, existsb_app, orb_assoc. f_equal.
    destruct (decide (t = targetOf e)) as [->|Hne].
    + rewrite decide_True by done. cbn [existsb]. rewrite orb_false_r, orb_comm. f_equal.
      apply bool_decide_ext. tauto.
    + rewrite decide_False by done. cbn [existsb]. rewrite orb_false_r.
      rewrite bool_decide_eq_false_2; [done|tauto].
Qed.
End entries.

Section budgets.
Context (now : Z).
Implicit Types ks : KeyStore.

(** How one contract's entry [c'] relates to the entry [c] before budgets. *)
Definition budgetMark (b : option BufiGrantErc20Budget) (c c' : ContractData) : Prop :=
  isOnList c' = isOnList c ∧ checkSelectors c' = checkSelectors c ∧
  (limitUsed (erc20SpendLimit c) = 0 → limitUsed (erc20SpendLimit c') = 0) ∧
  match b with
  | None => c' = c
  | Some b =>
      isERC20WithSpendLimit c' = negb (eb_limit b =? UNLIMITED) ∧
      (eb_limit b ≠ UNLIMITED →
       erc20SpendLimitTimeInfo c' = freshTimeInfo now (eb_refreshIntervalSeconds b) ∧
       limitAmount (erc20SpendLimit c') = eb_limit b)
  end.

Lemma applyBudgets_spec bs ks :
  let ks' := foldl (applyBudget now) ks bs in
  keyData ks' = keyData ks ∧ functions ks' = functions ks ∧
  ∀ t, budgetMark (last (filter (λ b, tokenOf b = t) bs)) (contractDataOf ks t) (contractDataOf ks' t).
Proof.
  induction bs as [|b bs (I1 & I2 & I3)] using rev_ind; [by repeat split|].
  rewrite foldl_app. cbn [foldl]. cbv zeta. set (ks1 := foldl _ ks bs) in *.
  split; [exact I1|]. split; [exact I2|]. intros t. specialize (I3 t).
  rewrite filter_app, filter_cons, filter_nil. unfold applyBudget. rewrite contractDataOf_setContract.
  destruct (decide (tokenOf b = t)) as [<-|Hne].
  - rewrite decide_True by done. rewrite last_snoc. destruct I3 as (J1 & J2 & J3 & _).
    unfold updateSpendLimits, budgetMark. fold UNLIMITED.
    destruct (Z.eqb_spec (eb_limit b) UNLIMITED) as [E|E]; split_and!; try done; intros; try done.
  - rewrite decide_False by auto. by rewrite app_nil_r.
Qed.
End budgets.

Section policy.
Context `{ViemLaws}.
Context (now : Z).

Lemma grantStore_keyData g :
  keyData (grantStore now g emptyKeyStore) = grantKeyData now g.
Proof.
  unfold grantStore, grantKeyData.
  set (ks1 := foldl _ _ _).
  assert (H1 : keyData ks1 = zeroKeyData).
  { unfold ks1. destruct (applyBudgets_spec now (erc20Budgets g)
      (applyScope (g_allow g) (setAccessListType ALLOWLIST emptyKeyStore))) as (-> & _).
    by destruct (applyScope_spec (g_allow g) (setAccessListType ALLOWLIST emptyKeyStore)) as (-> & _). }
  destruct ks1 as [kd cs fs]. cbn in H1. subst kd.
  destruct (g_budget g ≫= gb_native) as [[nl ni]|], (g_budget g ≫= gb_gas) as [[gl gi]|],
    (truthy (g_requiredPaymaster g)) as [p|]; cbn [applyOption sb_limit sb_refreshIntervalSeconds];
    unfold spendTimeInfo, spendLimitOf, freshTimeInfo, UNLIMITED; cbn [sb_limit sb_refreshIntervalSeconds];
    try (generalize (hexNumber p); intros h);
    unfold setRequiredPaymaster, updateTimeRange, setGasSpendLimit, setNativeTokenSpendLimit, updateSpendLimits;
    repeat match goal with |- context [?a =? ?b] => destruct (a =? b) eqn:? end; cbn;
    try reflexivity; zify_bool; subst; first [reflexivity | congruence].
Qed.

(** The access list of a grant on a fresh key. *)
Lemma grantStore_contract g t :
  let c := contractDataOf (grantStore now g emptyKeyStore) t in
  isOnList c = bool_decide (is_Some (last (entriesAt g t))) ∧
  (∀ e, last (entriesAt g t) = Some e → checkSelectors c = restricted e) ∧
  isERC20WithSpendLimit c = budgeted g t ∧
  (∀ b, budgetAt g t = Some b → budgeted g t = true →
     erc20SpendLimitTimeInfo c = freshTimeInfo now (eb_refreshIntervalSeconds b) ∧
     erc20SpendLimit c = freshLimit (eb_limit b)).
Proof.
  set (ks1 := foldl (applyBudget now) (applyScope (g_allow g) (setAccessListType ALLOWLIST emptyKeyStore))
                (erc20Budgets g)).
  assert (E : contractDataOf (grantStore now g emptyKeyStore) t = contractDataOf ks1 t).
  { unfold contractDataOf, grantStore. fold ks1.
    by destruct (truthy _), (g_budget g ≫= gb_native), (g_budget g ≫= gb_gas). }
  cbv zeta. rewrite E. clear E. unfold ks1.
  destruct (applyBudgets_spec now (erc20Budgets g)
    (applyScope (g_allow g) (setAccessListType ALLOWLIST emptyKeyStore))) as (_ & _ & B).
  destruct (applyScope_spec (g_allow g) (setAccessListType ALLOWLIST emptyKeyStore)) as (_ & S & _).
  specialize (B t). specialize (S t). unfold budgetMark in B. fold (budgetAt g t) in B.
  fold (entriesAt g t) in S. rewrite S in B. set (c := contractDataOf _ t) in B |- *.
  change (contractDataOf (setAccessListType ALLOWLIST emptyKeyStore) t) with zeroContractData in B.
  destruct B as (-> & -> & B3 & B4). unfold budgeted.
  split; [by destruct (last (entriesAt g t))|].
  split; [by intros e ->|].
  assert (B3' : limitUsed (erc20SpendLimit c) = 0) by (apply B3; by destruct (last (entriesAt g t))).
  destruct (budgetAt g t) as [b|].
  - destruct B4 as [-> B4]. split; [done|]. intros b' [= <-] Hb. zify_bool.
    apply negb_true_iff, Z.eqb_neq in Hb. destruct (B4 Hb) as [-> Ha]. split; [done|].
    destruct (erc20SpendLimit c) as [la lu]. cbn in *. by subst.
  - rewrite B4. by destruct (last (entriesAt g t)).
Qed.

Lemma grantStore_function g t s :
  functionOnList (grantStore now g emptyKeyStore) t s =
  existsb (λ e, bool_decide (s ∈ selectorNumbers e)) (entriesAt g t).
Proof.
  set (ks1 := foldl (applyBudget now) (applyScope (g_allow g) (setAccessListType ALLOWLIST emptyKeyStore))
                (erc20Budgets g)).
  assert (E : functionOnList (grantStore now g emptyKeyStore) t s = functionOnList ks1 t s).
  { unfold functionOnList, grantStore. fold ks1.
    by destruct (truthy _), (g_budget g ≫= gb_native), (g_budget g ≫= gb_gas). }
  rewrite E. unfold functionOnList, ks1.
  destruct (applyBudgets_spec now (erc20Budgets g)
    (applyScope (g_allow g) (setAccessListType ALLOWLIST emptyKeyStore))) as (_ & -> & _).
  destruct (applyScope_spec (g_allow g) (setAccessListType ALLOWLIST emptyKeyStore)) as (_ & _ & S).
  specialize (S t s). unfold functionOnList in S. rewrite S. cbn. by rewrite orb_false_r.
Qed.

Lemma grantStore_allows g target data :
  checkCallPermissions ALLOWLIST (grantStore now g emptyKeyStore) target data = grantAllows g target data.
Proof.
  destruct (grantStore_contract g target) as (C1 & C2 & C3 & _). unfold checkCallPermissions, grantAllows.
  rewrite C1, C3, grantStore_function. destruct (last (entriesAt g target)) as [e|]; [|done].
  rewrite (C2 e eq_refl). cbn. destruct (restricted e); [|done]. cbn.
  destruct (budgeted g target), (isAllowedERC20Function (bytes4_of data)); cbn;
    by rewrite ?andb_true_r, ?andb_false_r.
Qed.
End policy.

(** What a key store enforces is the grant. *)
Record enforces `{Viem} (now : Z) (g : BufiGrant) (ks : KeyStore) : Prop := {
  en_keyData : keyData ks = grantKeyData now g;
  en_calls target data :
    checkCallPermissions (contractAccessControlType (keyData ks)) ks target data = grantAllows g target data;
  en_metered t : isERC20WithSpendLimit (contractDataOf ks t) = budgeted g t;
  en_budgets t b : budgetAt g t = Some b → budgeted g t = true →
    erc20SpendLimitTimeInfo (contractDataOf ks t) = freshTimeInfo now (eb_refreshIntervalSeconds b) ∧
    erc20SpendLimit (contractDataOf ks t) = freshLimit (eb_limit b) }.

Lemma grantStore_enforces `{ViemLaws} now g : enforces now g (grantStore now g emptyKeyStore).
Proof.
  split.
  - by apply grantStore_keyData.
  - intros target data. rewrite grantStore_keyData. apply grantStore_allows.
  - intros t. apply grantStore_contract.
  - intros t b. apply grantStore_contract.
Qed.

(** Registering a key with a compiled grant. *)
Lemma granted_key `{KeySetLaws T} `{ViemLaws} (st : Plugin T) now a k g us st' :
  reachable st → buildBufiGrant g = Ok us → addSessionKey now a k us st = Ok st' →
  grant_ok g ∧ policyOf st' a k = Some (grantStore now g emptyKeyStore) ∧
  (∀ b, b ∈ erc20Budgets g → tokenOf b ≠ 0).
Proof.
  intros Hr Hb Ha. destruct (build_perform now g us Hb) as [Hok Hp]. specialize (Hp emptyKeyStore).
  destruct (reachable_represented st Hr) as (W & P & R).
  destruct (add_refines now st P a k us st' W R Ha) as (_ & P' & HP' & R').
  unfold spec_add in HP'. destruct ((k =? 0) || _); [discriminate|].
  rewrite Hp in HP'. case_bool_decide as E; [discriminate|]. injection HP' as <-.
  split; [done|]. split; [by rewrite (R' a k), lookup_insert_eq|].
  intros b Hb' Ht. apply E, Exists_exists. eauto.
Qed.

(** C30: registering a session key with the updates [buildBufiGrant] compiles
    gives the key, whatever the plugin held before (other keys, earlier keys
    with the same address), exactly the policy of the grant: the call check
    admits a call iff the grant's scope lists it, the validity window, native
    and gas budgets and paymaster rule are the grant's, the tokens metered are
    the budgeted ones, and every budget starts unspent with its own limit and
    refresh interval. *)
Theorem granted_key_enforces_grant `{KeySetLaws T} `{ViemLaws} (st : Plugin T) now a k g us st' :
  reachable st → buildBufiGrant g = Ok us → addSessionKey now a k us st = Ok st' →
  ∃ ks, policyOf st' a k = Some ks ∧ enforces now g ks.
Proof.
  intros Hr Hb Ha. destruct (granted_key st now a k g us st' Hr Hb Ha) as (_ & Hp & _).
  exists (grantStore now g emptyKeyStore). split; [done|]. apply grantStore_enforces.
Qed.

(** A grant on the sample plugin: transfers of one token under a budget, and
    withdrawals from one vault. *)
Definition sample_token : string := "0x00000000000000000000000000000000000000Aa".
Definition sample_vault : string := "0x00000000000000000000000000000000000000bB".
Definition sample_grant : BufiGrant :=
  {| g_allow :=
       [{| se_target := sample_token;
           se_selectors := Some [toFunctionSelector "function transfer(address,uint256)"] |};
        {| se_target := sample_vault;
           se_selectors := Some [toFunctionSelector "function withdraw(uint256,address,address)"] |}];
     g_budget := Some {| gb_erc20 := Some [{| eb_token := sample_token; eb_limit := 100;
                                              eb_refreshIntervalSeconds := 60 |}];
                         gb_native := None;
                         gb_gas := Some {| sb_limit := 500; sb_refreshIntervalSeconds := 86400 |} |};
     g_expiry := {| ex_validAfter := None; ex_validUntil := 5000 |};
     g_requiredPaymaster := None |}.
Definition sample_updates : list (list Z) :=
  match buildBufiGrant sample_grant with Ok us => us | Throw _ => [] end.

Lemma granted_key_enforces_grant_witness :
  length sample_updates = 8%nat ∧
  ∃ st', addSessionKey 1000 1 7 sample_updates sample_plugin = Ok st' ∧
  ∃ ks, policyOf st' 1 7 = Some ks ∧ enforces 1000 sample_grant ks.
Proof.
  split; [vm_compute; reflexivity|].
  exists (run_op 1000 (OpAdd 1 7 sample_updates) sample_plugin).
  assert (Ha : addSessionKey 1000 1 7 sample_updates sample_plugin
               = Ok (run_op 1000 (OpAdd 1 7 sample_updates) sample_plugin)) by (vm_compute; reflexivity).
  split; [exact Ha|].
  apply (granted_key_enforces_grant sample_plugin 1000 1 7 sample_grant sample_updates _
           sample_plugin_reachable); [vm_compute; reflexivity|exact Ha].
Defined.
