(* ===== verification/GrantSpend.v ===== *)
(** * What a granted session key can spend

    The composition of the grant compiler ([Grant]) with the plugin's
    accounting ([SessionKeySpend]): from the registration of the key on, over
    any history of the plugin. *)

From S2P Require Import Prelude.
From S2P Require Import Js.
From S2P Require Import Encoding.
From S2P Require Import Abi.
From S2P Require Import AbiSample.
From S2P Require Import SessionKey.
From S2P Require Import SessionKeyChecks.
From S2P Require Import SessionKeyPlugin.
From S2P Require Import SessionKeySpend.
From S2P Require Import Grant.

(** [s] is within [limit] for every [interval] begun since the grant, [elapsed]
    seconds ago; within [limit] for ever when the interval is zero. *)
Definition within_budget (limit interval elapsed s : Z) : Prop :=
  if interval =? 0 then s ≤ limit else s ≤ limit * (1 + elapsed / interval).

Section spend.
Context `{KeySetLaws T} `{ViemLaws}.

Lemma fresh_meter_bounded (st : Plugin T) a k ks p t0 h limit interval :
  reachable st → policyOf st a k = Some ks →
  meterOf ks p = {| mt_on := true; mt_time := freshTimeInfo t0 interval; mt_limit := freshLimit limit |} →
  0 ≤ limit < UINT256 → 0 ≤ interval → 0 ≤ t0 < UINT48 →
  Forall (λ e, manages a k e.2 = false ∧ op_ok e.2) h → chronological t0 h →
  within_budget limit interval (end_time t0 h - t0) (history_spend a k p h st).
Proof.
  intros Hr Hk Hm Hl Hi Ht0 Hf Hc.
  assert (Hlast : lastUsed (freshTimeInfo t0 interval) = if interval =? 0 then 0 else t0).
  { cbn. unfold uint48. by rewrite Z.mod_small. }
  destruct (history_bounded h st a k ks p t0 Hr Hk Hf Hc ltac:(lia)) as [B1 B2].
  - rewrite Hm. split_and!; cbn [mt_on mt_time mt_limit freshLimit limitAmount limitUsed]; try done; try lia.
    rewrite Hlast. destruct (interval =? 0); lia.
  - rewrite Hm in B1, B2. cbn [mt_time mt_limit freshLimit limitAmount limitUsed] in B1, B2.
    rewrite Hlast in B2. cbn [freshTimeInfo refreshInterval] in B1, B2.
    unfold within_budget. destruct (interval =? 0) eqn:E; zify_bool; [specialize (B1 E); lia|apply B2; lia].
Qed.
End spend.

(** C31: whatever happens after a session key was registered with a compiled
    grant - any mix of its own operations, those of other keys and accounts,
    validations and reverted calls, as long as the owners do not change the
    key - the amount of each budgeted token the plugin lets it transfer or
    approve is at most the budget if it never refreshes, and otherwise at most
    the budget for every refresh interval begun since the registration (the
    budget itself before the first interval is over, twice the budget before the
    second is); the native value it sends is bounded the same way and is nothing
    at all without a native budget. A budget of the largest uint256 asks for no
    limit and none is claimed for it. *)
Theorem granted_key_spending_bounded `{KeySetLaws T} `{ViemLaws} (st st1 : Plugin T) t0 a k g us h :
  reachable st → buildBufiGrant g = Ok us → addSessionKey t0 a k us st = Ok st1 →
  0 ≤ t0 < UINT48 → chronological t0 h →
  Forall (λ e, manages a k e.2 = false ∧ op_ok e.2) h →
  (∀ t b, budgetAt g t = Some b → eb_limit b ≠ UNLIMITED →
     within_budget (eb_limit b) (eb_refreshIntervalSeconds b) (end_time t0 h - t0)
       (history_spend a k (Token t) h st1)) ∧
  match g_budget g ≫= gb_native with
  | None => history_spend a k Native h st1 ≤ 0
  | Some b => sb_limit b ≠ UNLIMITED →
      within_budget (sb_limit b) (sb_refreshIntervalSeconds b) (end_time t0 h - t0)
        (history_spend a k Native h st1)
  end.
Proof.
  intros Hr Hb Ha Ht0 Hc Hf.
  destruct (granted_key st t0 a k g us st1 Hr Hb Ha) as (Hok & Hp & _).
  pose proof (grantStore_enforces t0 g) as [Ekd _ Emt Ebud].
  set (ks := grantStore t0 g emptyKeyStore) in *.
  assert (Hr1 : reachable st1) by (apply (reach_step st t0 (OpAdd a k us)); done).
  split.
  - intros t b Hbud Hne.
    assert (Hbt : budgeted g t = true) by (unfold budgeted; rewrite Hbud; by apply negb_true_iff, Z.eqb_neq).
    assert (Hin : b ∈ erc20Budgets g).
    { unfold budgetAt in Hbud. apply last_Some_elem_of in Hbud. by apply list_elem_of_filter in Hbud as [_ ?]. }
    destruct (go_limits g Hok b Hin). destruct (Ebud t b Hbud Hbt) as [E1 E2].
    eapply (fresh_meter_bounded _ _ _ ks); try done; try lia. unfold meterOf. by rewrite Emt, Hbt, E1, E2.
  - destruct (g_budget g ≫= gb_native) as [b|] eqn:Eb.
    + intros Hne. destruct (go_native g Hok b Eb).
      eapply (fresh_meter_bounded _ _ _ ks); try done; try lia. unfold meterOf. rewrite Ekd. unfold grantKeyData.
      rewrite Eb. cbn. by rewrite (proj2 (Z.eqb_neq _ _) Hne).
    + change (within_budget 0 0 (end_time t0 h - t0) (history_spend a k Native h st1)).
      eapply (fresh_meter_bounded _ _ _ ks); try done; try lia. unfold meterOf. rewrite Ekd. unfold grantKeyData.
      by rewrite Eb.
Qed.

(** Three transfers of 60 under a budget of 100 per 60 seconds: the second one
    reverts, the third one is in the next interval. *)
Definition sample_transfer (amount : Z) : EvmCall :=
  {| ec_target := 170; ec_value := 0;
     ec_data := be_bytes 4 transferSelector ++ word 11 ++ word amount |}.
Definition sample_history : list (Z * plugin_op) :=
  [(1001, OpExecute 1 [sample_transfer 60] 7); (1002, OpExecute 1 [sample_transfer 60] 7);
   (1070, OpExecute 1 [sample_transfer 60] 7)].
Definition sample_granted : Plugin (list (Z * Z)) := run_op 1000 (OpAdd 1 7 sample_updates) sample_plugin.

Lemma granted_key_spending_bounded_witness :
  history_spend 1 7 (Token 170) sample_history sample_granted = 120 ∧
  within_budget 100 60 70 120 ∧ history_spend 1 7 Native sample_history sample_granted ≤ 0.
Proof.
  pose proof (granted_key_spending_bounded sample_plugin sample_granted 1000 1 7 sample_grant sample_updates
    sample_history sample_plugin_reachable ltac:(vm_compute; reflexivity) ltac:(vm_compute; reflexivity)
    ltac:(vm_compute; split; congruence) ltac:(vm_compute; intuition congruence)
    ltac:(repeat constructor; vm_compute; intuition congruence)) as [H1 H2].
  assert (E : history_spend 1 7 (Token 170) sample_history sample_granted = 120) by (vm_compute; reflexivity).
  split; [exact E|]. split; [|exact H2]. rewrite <- E.
  apply (H1 170 {| eb_token := sample_token; eb_limit := 100; eb_refreshIntervalSeconds := 60 |});
    [vm_compute; reflexivity | vm_compute; congruence].
Defined.
