(* ===== verification/GrantPresets.v ===== *)
(** * Agent roles: the grant presets

    Models [packages/modular-wallets-core/src/cascade/agentGrantPresets.ts]:
    the six role presets, their metadata and the text shown for approval. *)

From S2P Require Import Prelude.
From S2P Require Import Js.
From S2P Require Import Encoding.
From S2P Require Import Abi.
From S2P Require Import AbiSample.
From S2P Require Import SessionKey.
From S2P Require Import SessionKeyChecks.
From S2P Require Import SessionKeyPlugin.
From S2P Require Import Grant.

(** 0.5 native token per 24 hours. *)
Definition DEFAULT_AGENT_GAS_BUDGET : BufiGrantSpendBudget :=
  {| sb_limit := 500000000000000000; sb_refreshIntervalSeconds := 86400 |}.

Definition ARC_TESTNET_ERC8183_JOBS : string := "0x0747EEf0706327138c69792bF28Cd525089e4583".
Definition ARC_TESTNET_ERC8004_REPUTATION : string := "0x8004B663056A597Dffe9eCcC1965A193B7388713".

(** The parameters every preset shares. *)
Record AgentGrantPresetBase : Type := {
  pb_expiry : BufiGrantExpiry;
  pb_gas : option BufiGrantSpendBudget;
  pb_requiredPaymaster : option string }.

Record Erc8183BuyerGrantParameters : Type := {
  buyer_base : AgentGrantPresetBase;
  buyer_jobContract : option string;
  buyer_token : string;
  buyer_budget : BufiGrantSpendBudget;
  buyer_includeComplete : option bool }.

Record Erc8183ProviderGrantParameters : Type := {
  provider_base : AgentGrantPresetBase;
  provider_jobContract : option string }.

Record Erc8004RaterGrantParameters : Type := {
  rater_base : AgentGrantPresetBase;
  rater_reputationRegistry : option string;
  rater_giveFeedbackSignature : option string }.

Record FloatFunderGrantParameters : Type := {
  funder_base : AgentGrantPresetBase;
  funder_token : string;
  funder_recipients : list string;
  funder_budget : BufiGrantSpendBudget }.

Record GatewayDepositorGrantParameters : Type := {
  depositor_base : AgentGrantPresetBase;
  depositor_gatewayWallet : string;
  depositor_token : string;
  depositor_budget : BufiGrantSpendBudget }.

Record SpendFromYieldGrantParameters : Type := {
  yield_base : AgentGrantPresetBase;
  yield_token : string;
  yield_vaults : list string;
  yield_recipients : list string;
  yield_budget : BufiGrantSpendBudget;
  yield_includeRedeem : option bool }.

Definition ERC8004_GIVE_FEEDBACK_SIGNATURE : string :=
  "function giveFeedback(uint256,int128,uint8,string,string,string,string,bytes32)".

Section presets.
Context `{Viem}.

Definition ERC20_TRANSFER_SELECTOR : string := toFunctionSelector "function transfer(address,uint256)".
Definition ERC20_APPROVE_SELECTOR : string := toFunctionSelector "function approve(address,uint256)".

Definition ERC4626_withdraw : string := toFunctionSelector "function withdraw(uint256,address,address)".
Definition ERC4626_redeem : string := toFunctionSelector "function redeem(uint256,address,address)".

Definition ERC8183_createJob : string :=
  toFunctionSelector "function createJob(address,address,uint256,string,address)".
Definition ERC8183_setBudget : string := toFunctionSelector "function setBudget(uint256,uint256,bytes)".
Definition ERC8183_fund : string := toFunctionSelector "function fund(uint256,bytes)".
Definition ERC8183_submit : string := toFunctionSelector "function submit(uint256,bytes32,bytes)".
Definition ERC8183_complete : string := toFunctionSelector "function complete(uint256,bytes32,bytes)".
Definition ERC8183_reject : string := toFunctionSelector "function reject(uint256,bytes32,bytes)".

Definition GATEWAY_deposit : string := toFunctionSelector "function deposit(address,uint256)".
Definition GATEWAY_depositFor : string := toFunctionSelector "function depositFor(address,address,uint256)".

(** The helper [grant(scope, expiry, erc20, gas, requiredPaymaster)]. *)
Definition grant (scope : list BufiGrantScopeEntry) (base : AgentGrantPresetBase)
    (erc20 : option (string * BufiGrantSpendBudget)) : BufiGrant :=
  {| g_allow := scope;
     g_budget := Some
       {| gb_erc20 :=
            match erc20 with
            | Some (token, budget) =>
                Some [{| eb_token := token; eb_limit := sb_limit budget;
                         eb_refreshIntervalSeconds := sb_refreshIntervalSeconds budget |}]
            | None => None
            end;
          gb_native := None;
          gb_gas := Some (default DEFAULT_AGENT_GAS_BUDGET (pb_gas base)) |};
     g_expiry := pb_expiry base;
     g_requiredPaymaster := truthy (pb_requiredPaymaster base) |}.

Definition scopeEntry (target : string) (selectors : list string) : BufiGrantScopeEntry :=
  {| se_target := target; se_selectors := Some selectors |}.

Definition erc8183BuyerGrant (p : Erc8183BuyerGrantParameters) : BufiGrant :=
  let jobSelectors :=
    [ERC8183_createJob; ERC8183_fund; ERC8183_reject]
    ++ (if default false (buyer_includeComplete p) then [ERC8183_complete] else []) in
  grant [scopeEntry (buyer_token p) [ERC20_APPROVE_SELECTOR; ERC20_TRANSFER_SELECTOR];
         scopeEntry (default ARC_TESTNET_ERC8183_JOBS (buyer_jobContract p)) jobSelectors]
    (buyer_base p) (Some (buyer_token p, buyer_budget p)).

Definition erc8183ProviderGrant (p : Erc8183ProviderGrantParameters) : BufiGrant :=
  grant [scopeEntry (default ARC_TESTNET_ERC8183_JOBS (provider_jobContract p))
           [ERC8183_setBudget; ERC8183_submit]]
    (provider_base p) None.

Definition erc8004RaterGrant (p : Erc8004RaterGrantParameters) : BufiGrant :=
  grant [scopeEntry (default ARC_TESTNET_ERC8004_REPUTATION (rater_reputationRegistry p))
           [toFunctionSelector (default ERC8004_GIVE_FEEDBACK_SIGNATURE (rater_giveFeedbackSignature p))]]
    (rater_base p) None.

Definition floatFunderGrant (p : FloatFunderGrantParameters) : result ts_error BufiGrant :=
  throw_if (bool_decide (funder_recipients p = []))
    (Err "A float funder grant must name at least one recipient.") ≫= λ _,
  mret (grant [scopeEntry (funder_token p) [ERC20_TRANSFER_SELECTOR]]
          (funder_base p) (Some (funder_token p, funder_budget p))).

Definition gatewayDepositorGrant (p : GatewayDepositorGrantParameters) : BufiGrant :=
  grant [scopeEntry (depositor_token p) [ERC20_APPROVE_SELECTOR];
         scopeEntry (depositor_gatewayWallet p) [GATEWAY_deposit; GATEWAY_depositFor]]
    (depositor_base p) (Some (depositor_token p, depositor_budget p)).

(** The loop over the vaults: each distinct vault once, none may be the
    budgeted token. *)
Fixpoint vaultScope (token : string) (vaultSelectors : list string) (seen : gset string)
    (vaults : list string) : result ts_error (list BufiGrantScopeEntry) :=
  match vaults with
  | [] => mret []
  | vault :: vaults =>
      if bool_decide (toLowerCase vault = toLowerCase token) then
        Throw (Err ("A spend-from-yield grant cannot use the budgeted token " +:+ token +:+
          " as a vault: the ERC-20 spend limit would flag it, and a flagged contract admits transfer and approve only, so withdraw would be rejected at validation."))
      else if bool_decide (toLowerCase vault ∈ seen) then vaultScope token vaultSelectors seen vaults
      else rest ← vaultScope token vaultSelectors ({[toLowerCase vault]} ∪ seen) vaults;
           mret (scopeEntry vault vaultSelectors :: rest)
  end.

Definition spendFromYieldGrant (p : SpendFromYieldGrantParameters) : result ts_error BufiGrant :=
  throw_if (bool_decide (yield_vaults p = []))
    (Err "A spend-from-yield grant must name at least one vault. For a key that only spends a liquid balance, use floatFunderGrant.") ≫= λ _,
  throw_if (bool_decide (yield_recipients p = []))
    (Err "A spend-from-yield grant must name at least one recipient.") ≫= λ _,
  let vaultSelectors :=
    [ERC4626_withdraw] ++ (if default false (yield_includeRedeem p) then [ERC4626_redeem] else []) in
  vaults ← vaultScope (yield_token p) vaultSelectors ∅ (yield_vaults p);
  mret (grant (scopeEntry (yield_token p) [ERC20_TRANSFER_SELECTOR] :: vaults)
          (yield_base p) (Some (yield_token p, yield_budget p))).
End presets.

(** ** Metadata *)

Inductive agent_role : Type :=
| Erc8183Buyer | Erc8183Provider | Erc8004Rater | FloatFunder | SpendFromYield | GatewayDepositor.
Inductive agent_plugin : Type := BufiSessionKey | ColdStorageAddressBook | RecipientHook | BufiEarnModule.

Record AgentRolePresetMeta : Type := {
  rp_role : agent_role;
  rp_description : string;
  rp_plugins : list agent_plugin;
  rp_addressBookRecipients : list string }.

Definition AGENT_ROLE_PRESETS : list AgentRolePresetMeta :=
  [{| rp_role := Erc8183Buyer;
      rp_description := "Create, budget and fund ERC-8183 jobs; reject a bad delivery. Settling (complete) stays with the owners.";
      rp_plugins := [BufiSessionKey; ColdStorageAddressBook; RecipientHook];
      rp_addressBookRecipients := ["jobContract"; "providerAccount"] |};
   {| rp_role := Erc8183Provider;
      rp_description := "Set the accepted budget and submit deliverables. Never spends.";
      rp_plugins := [BufiSessionKey];
      rp_addressBookRecipients := [] |};
   {| rp_role := Erc8004Rater;
      rp_description := "Rate a counterparty on the ERC-8004 reputation registry. Identity minting stays an owner operation.";
      rp_plugins := [BufiSessionKey];
      rp_addressBookRecipients := [] |};
   {| rp_role := FloatFunder;
      rp_description := "Top up an x402 signer or a card funding wallet under budget. The hot wallet signs; the agent only funds it.";
      rp_plugins := [BufiSessionKey; ColdStorageAddressBook; RecipientHook];
      rp_addressBookRecipients := ["hotWallet"] |};
   {| rp_role := SpendFromYield;
      rp_description := "Pay out of an ERC-4626 position: redeem the shortfall and transfer in one operation. The vault is a plain permitted call, never a budgeted ERC-20. Vault addresses come from the account's adopted earn config (getEarnConfigs); the earn module itself is only needed for the deposit side.";
      rp_plugins := [BufiSessionKey; ColdStorageAddressBook; RecipientHook];
      rp_addressBookRecipients := ["vaults"; "recipients"] |};
   {| rp_role := GatewayDepositor;
      rp_description := "Fund a Circle Gateway position. Burn intents are owner-signed (ERC-1271) and are not reachable by a key.";
      rp_plugins := [BufiSessionKey; ColdStorageAddressBook; RecipientHook];
      rp_addressBookRecipients := ["gatewayWallet"] |}].

(** ** [describeGrant] *)

Definition describeEntry (e : BufiGrantScopeEntry) : string :=
  match se_selectors e with
  | Some (s :: ss) => "may call " +:+ String.concat ", " (s :: ss) +:+ " on " +:+ se_target e
  | _ => "may call any function on " +:+ se_target e
  end.

Definition describeGrant (g : BufiGrant) : list string :=
  (describeEntry <$> g_allow g)
  ++ ((λ b, "may spend up to " +:+ pretty (eb_limit b) +:+ " of " +:+ eb_token b +:+ " per "
            +:+ pretty (eb_refreshIntervalSeconds b) +:+ "s") <$> erc20Budgets g)
  ++ (match g_budget g ≫= gb_native with
      | Some b => ["may spend up to " +:+ pretty (sb_limit b) +:+ " wei of native token per "
                   +:+ pretty (sb_refreshIntervalSeconds b) +:+ "s"]
      | None => []
      end)
  ++ (match g_budget g ≫= gb_gas with
      | Some b => ["may consume up to " +:+ pretty (sb_limit b) +:+ " wei of gas per "
                   +:+ pretty (sb_refreshIntervalSeconds b) +:+ "s"]
      | None => []
      end)
  ++ [if 0 <? grantValidAfter g
      then "valid from " +:+ pretty (grantValidAfter g) +:+ " until " +:+ pretty (ex_validUntil (g_expiry g))
      else "valid until " +:+ pretty (ex_validUntil (g_expiry g))]
  ++ (match truthy (g_requiredPaymaster g) with
      | Some p => ["must be sponsored by " +:+ p]
      | None => []
      end).

(** ** What a preset admits *)

Section facts.
Context `{ViemLaws}.

(** The grants a role preset can produce. *)
Inductive preset_grant : BufiGrant → Prop :=
| preset_buyer p : preset_grant (erc8183BuyerGrant p)
| preset_provider p : preset_grant (erc8183ProviderGrant p)
| preset_rater p : preset_grant (erc8004RaterGrant p)
| preset_funder p g : floatFunderGrant p = Ok g → preset_grant g
| preset_depositor p : preset_grant (gatewayDepositorGrant p)
| preset_yield p g : spendFromYieldGrant p = Ok g → preset_grant g.

Lemma vaultScope_entries token sels seen vaults es :
  vaultScope token sels seen vaults = Ok es →
  (∀ e, e ∈ es → ∃ v, v ∈ vaults ∧ e = scopeEntry v sels ∧ toLowerCase v ≠ toLowerCase token) ∧
  (∀ v, v ∈ vaults → toLowerCase v ∈ seen ∨ ∃ e, e ∈ es ∧ toLowerCase (se_target e) = toLowerCase v).
Proof.
  revert seen es. induction vaults as [|v vaults IH]; intros seen es Hv; cbn [vaultScope] in Hv.
  - apply ok_inj in Hv as <-. set_solver.
  - case_bool_decide as E1; [discriminate|]. case_bool_decide as E2.
    + destruct (IH seen es Hv) as [I1 I2]. split; [set_solver|]. intros v' [->|?]%elem_of_cons; auto.
    + apply bind_ok in Hv as (rest & Hr & Hv). apply ok_inj in Hv as <-.
      destruct (IH _ _ Hr) as [I1 I2]. split.
      * intros e [->|He]%elem_of_cons; [exists v; set_solver|].
        destruct (I1 e He) as (v' & ? & ? & ?). exists v'. set_solver.
      * intros v' [->|Hin]%elem_of_cons; [right; exists (scopeEntry v sels); set_solver|].
        destruct (I2 v' Hin) as [Hs|(e & ? & ?)]; [|right; exists e; set_solver].
        apply elem_of_union in Hs as [->%elem_of_singleton|]; [|by left].
        right. exists (scopeEntry v sels). set_solver.
Qed.

(** Every entry of a preset names selectors. *)
Lemma preset_restricted g : preset_grant g → ∀ e, e ∈ g_allow g → restricted e = true.
Proof.
  assert (Hse : ∀ t s ss, restricted (scopeEntry t (s :: ss)) = true) by (intros; reflexivity).
  intros Hg. destruct Hg as [p|p|p|p g Hg|p|p g Hg]; intros e He;
    try (cbn in He; repeat (apply elem_of_cons in He as [->|He]; [apply Hse|]); by apply not_elem_of_nil in He).
  - unfold floatFunderGrant in Hg. rewrite throw_if_bind_ok in Hg. destruct Hg as [_ Hg].
    apply ok_inj in Hg as <-. cbn in He. apply elem_of_cons in He as [->|He]; [apply Hse|].
    by apply not_elem_of_nil in He.
  - unfold spendFromYieldGrant in Hg. rewrite !throw_if_bind_ok in Hg. destruct Hg as (_ & _ & Hg).
    apply bind_ok in Hg as (es & Hes & Hg). apply ok_inj in Hg as <-. cbn [g_allow grant] in He.
    apply elem_of_cons in He as [->|He]; [apply Hse|].
    apply vaultScope_entries in Hes as [Hes _]. destruct (Hes e He) as (v & _ & -> & _). apply Hse.
Qed.

(** On a grant whose entries all name selectors a budgeted token only admits
    the two functions the plugin meters. *)
Lemma restricted_metered g target data :
  (∀ e, e ∈ g_allow g → restricted e = true) → budgeted g target = true →
  grantAllows g target data = true → isAllowedERC20Function (bytes4_of data) = true.
Proof.
  intros Hres Hb Ha. unfold grantAllows in Ha. destruct (last (entriesAt g target)) as [e|] eqn:El; [|discriminate].
  rewrite Hres in Ha.
  - cbn [negb] in Ha. rewrite Hb in Ha. by apply andb_true_iff in Ha as [_ ?].
  - apply last_Some_elem_of in El. by apply list_elem_of_filter in El as [_ ?].
Qed.

(** C34: under every agent role a call the key may make to the budgeted token
    is one of the two functions the plugin meters (transfer, approve), no
    native token may be spent at all, and gas is metered: an agent role cannot
    move its token around its budget. (A hand-written grant can: an entry that
    names no selectors turns the function check off.) *)
Theorem agent_roles_are_metered g target data :
  preset_grant g →
  (budgeted g target = true → grantAllows g target data = true →
   isAllowedERC20Function (bytes4_of data) = true) ∧
  g_budget g ≫= gb_native = None ∧ is_Some (g_budget g ≫= gb_gas).
Proof.
  intros Hg. split.
  - intros Hb Ha. eapply restricted_metered; [by apply preset_restricted|exact Hb|exact Ha].
  - destruct Hg as [p|p|p|p g Hg|p|p g Hg]; try (split; [done|by eexists]).
    + unfold floatFunderGrant in Hg. rewrite throw_if_bind_ok in Hg. destruct Hg as [_ Hg].
      apply ok_inj in Hg as <-. split; [done|by eexists].
    + unfold spendFromYieldGrant in Hg. rewrite !throw_if_bind_ok in Hg. destruct Hg as (_ & _ & Hg).
      apply bind_ok in Hg as (es & _ & Hg). apply ok_inj in Hg as <-. split; [done|by eexists].
Qed.
End facts.

Definition sample_base : AgentGrantPresetBase :=
  {| pb_expiry := {| ex_validAfter := None; ex_validUntil := 5000 |}; pb_gas := None;
     pb_requiredPaymaster := None |}.
Definition sample_buyer : Erc8183BuyerGrantParameters :=
  {| buyer_base := sample_base; buyer_jobContract := None; buyer_token := sample_token;
     buyer_budget := {| sb_limit := 100; sb_refreshIntervalSeconds := 60 |};
     buyer_includeComplete := None |}.

Lemma agent_roles_are_metered_witness :
  let g := erc8183BuyerGrant sample_buyer in
  let data := be_bytes 4 transferSelector ++ word 11 ++ word 60 in
  budgeted g 170 = true ∧ grantAllows g 170 data = true ∧
  isAllowedERC20Function (bytes4_of data) = true.
Proof.
  cbv zeta. split; [vm_compute; reflexivity|]. split; [vm_compute; reflexivity|].
  apply (proj1 (agent_roles_are_metered (erc8183BuyerGrant sample_buyer) 170
           (be_bytes 4 transferSelector ++ word 11 ++ word 60) (preset_buyer sample_buyer)));
    vm_compute; reflexivity.
Defined.
