(* ===== verification/YieldCalls.v ===== *)
(** * Paying out of a yield position

    Models [packages/modular-wallets-core/src/cascade/buildSpendFromYieldCalls.ts]:
    redeem the shortfall of every token from its vault, then transfer, in one
    batch. The end of the file runs the batch through the session key plugin
    under the [spendFromYieldGrant] preset. *)

From S2P Require Import Prelude.
From S2P Require Import Js.
From S2P Require Import Encoding.
From S2P Require Import Abi.
From S2P Require Import AbiSample.
From S2P Require Import SessionKey.
From S2P Require Import SessionKeyChecks.
From S2P Require Import SessionKeyPlugin.
From S2P Require Import SessionKeySpend.
From S2P Require Import Grant.
From S2P Require Import GrantPresets.

Record YieldPayment : Type := { yp_token : string; yp_to : string; yp_amount : Z }.
Record TokenBalance : Type := { tb_token : string; tb_balance : Z }.
Record VaultConfig : Type := { vc_token : string; vc_vault : string }.

(** [Call] of [types/bufi.ts] *)
Record Call : Type := { call_target : string; call_value : Z; call_data : list Z }.

Record BuildSpendFromYieldCallsParameters : Type := {
  yc_account : string;
  yc_payments : list YieldPayment;
  yc_balances : list TokenBalance;
  yc_vaults : list VaultConfig }.

Record Sourced : Type := { src_token : string; src_vault : string; src_amount : Z }.

Record SpendFromYieldCalls : Type := {
  sc_withdrawals : list Call;
  sc_transfers : list Call;
  sc_calls : list Call;
  sc_sourced : list Sourced }.

Definition normalize (address : string) : string := toLowerCase address.

(** The maps [liquid] and [vaultOf]: a later entry replaces an earlier one. *)
Definition liquidMap (balances : list TokenBalance) : gmap string Z :=
  foldl (λ m b, <[normalize (tb_token b) := tb_balance b]> m) ∅ balances.
Definition vaultMap (vaults : list VaultConfig) : gmap string string :=
  foldl (λ m v, <[normalize (vc_token v) := vc_vault v]> m) ∅ vaults.

(** The map [needed], which the code iterates in insertion order: key, token
    as first written, amount. *)
Notation needed_map := (list (string * (string * Z))).

Fixpoint addNeeded (p : YieldPayment) (m : needed_map) : needed_map :=
  match m with
  | [] => [(normalize (yp_token p), (yp_token p, yp_amount p))]
  | (key, (token, amount)) :: m =>
      if bool_decide (key = normalize (yp_token p)) then (key, (token, amount + yp_amount p)) :: m
      else (key, (token, amount)) :: addNeeded p m
  end.

(** The loop that aggregates the payments. *)
Fixpoint aggregate (payments : list YieldPayment) (m : needed_map) : result ts_error needed_map :=
  match payments with
  | [] => mret m
  | p :: payments =>
      if yp_amount p <? 0 then
        Throw (Err ("buildSpendFromYieldCalls: negative amount for token " +:+ yp_token p))
      else aggregate payments (addNeeded p m)
  end.

Section calls.
Context `{Viem}.

(** The loop that sources the shortfalls. *)
Fixpoint sourceShortfalls (account : string) (liquid : gmap string Z) (vaultOf : gmap string string)
    (needed : needed_map) : result ts_error (list (Call * Sourced)) :=
  match needed with
  | [] => mret []
  | (key, (token, amount)) :: needed =>
      let shortfall := amount - default 0 (liquid !! key) in
      if shortfall <=? 0 then sourceShortfalls account liquid vaultOf needed
      else match vaultOf !! key with
           | None => Throw (Err ("buildSpendFromYieldCalls: short " +:+ pretty shortfall +:+ " of " +:+ token
                                 +:+ " and no adopted vault to source it from"))
           | Some vault =>
               data ← encodeFunctionData erc4626Abi "withdraw" [ANum shortfall; AText account; AText account];
               rest ← sourceShortfalls account liquid vaultOf needed;
               mret (({| call_target := vault; call_value := 0; call_data := data |},
                      {| src_token := token; src_vault := vault; src_amount := shortfall |}) :: rest)
           end
  end.

Definition transferCall (p : YieldPayment) : result ts_error Call :=
  data ← encodeFunctionData erc20Abi "transfer" [AText (yp_to p); ANum (yp_amount p)];
  mret {| call_target := yp_token p; call_value := 0; call_data := data |}.

Definition buildSpendFromYieldCalls (ps : BuildSpendFromYieldCallsParameters) :
    result ts_error SpendFromYieldCalls :=
  let liquid := liquidMap (yc_balances ps) in
  let vaultOf := vaultMap (yc_vaults ps) in
  needed ← aggregate (yc_payments ps) [];
  ws ← sourceShortfalls (yc_account ps) liquid vaultOf needed;
  transfers ← mapM transferCall (yc_payments ps);
  mret {| sc_withdrawals := ws.*1; sc_transfers := transfers;
          sc_calls := ws.*1 ++ transfers; sc_sourced := ws.*2 |}.
End calls.

(** ** Aggregation *)

(** What the payments ask of a token, whatever the case it is written in. *)
Definition owed (key : string) (payments : list YieldPayment) : Z :=
  sumZ (yp_amount <$> filter (λ p, normalize (yp_token p) = key) payments).

Definition neededOf (key : string) (m : needed_map) : Z :=
  sumZ ((λ e, e.2.2) <$> filter (λ e, e.1 = key) m).

Lemma addNeeded_of p m key :
  neededOf key (addNeeded p m) = neededOf key m + (if decide (normalize (yp_token p) = key) then yp_amount p else 0).
Proof.
  unfold neededOf. induction m as [|[k [t a]] m IH]; cbn [addNeeded].
  - rewrite filter_cons, filter_nil. cbn [fst]. destruct (decide (normalize (yp_token p) = key)); cbn; lia.
  - case_bool_decide as E; rewrite !filter_cons; cbn [fst].
    + rewrite E. destruct (decide (normalize (yp_token p) = key)); cbn; lia.
    + destruct (decide (k = key)); cbn in *; lia.
Qed.

Lemma addNeeded_keys p m : (addNeeded p m).*1 = set_add (m.*1) (normalize (yp_token p)).
Proof.
  unfold set_add. induction m as [|[k [t a]] m IH]; cbn [addNeeded].
  - by rewrite decide_False by set_solver.
  - rewrite !fmap_cons. cbn [fst]. case_bool_decide as E; cbn.
    + by rewrite decide_True by set_solver.
    + rewrite IH. destruct (decide (normalize (yp_token p) ∈ m.*1)) as [Hin|Hin].
      * by rewrite decide_True by set_solver.
      * by rewrite decide_False by set_solver.
Qed.

Lemma aggregate_spec payments m m' :
  aggregate payments m = Ok m' →
  Forall (λ p, 0 ≤ yp_amount p) payments ∧ m'.*1 = foldl set_add (m.*1) ((λ p, normalize (yp_token p)) <$> payments) ∧
  ∀ key, neededOf key m' = neededOf key m + owed key payments.
Proof.
  revert m. induction payments as [|p payments IH]; intros m Ha; cbn [aggregate] in Ha.
  - apply ok_inj in Ha as <-. split_and!; [done..|]. intros. unfold owed. cbn. lia.
  - destruct (yp_amount p <? 0) eqn:E; [discriminate|]. zify_bool.
    destruct (IH _ Ha) as (I1 & I2 & I3). split_and!; [by constructor| |].
    + rewrite I2, addNeeded_keys. done.
    + intros key. rewrite I3, addNeeded_of. unfold owed. rewrite filter_cons.
      destruct (decide (normalize (yp_token p) = key)); cbn; lia.
Qed.

Lemma aggregate_fails payments m e :
  aggregate payments m = Throw e ↔
  ∃ ps1 p ps2, payments = ps1 ++ p :: ps2 ∧ Forall (λ p, 0 ≤ yp_amount p) ps1 ∧ yp_amount p < 0 ∧
    e = Err ("buildSpendFromYieldCalls: negative amount for token " +:+ yp_token p).
Proof.
  revert m. induction payments as [|p payments IH]; intros m; cbn [aggregate].
  - split; [done|]. by intros ([|? ?] & ? & ? & ? & _).
  - destruct (yp_amount p <? 0) eqn:E; zify_bool.
    + split.
      * intros [= <-]. exists [], p, payments. done.
      * intros ([|p1 ps1] & p' & ps2 & [= -> ->] & Hps & Hp & ->); [done|]. inversion Hps. lia.
    + rewrite IH. split.
      * intros (ps1 & p' & ps2 & -> & Hps & Hp & ->). exists (p :: ps1), p', ps2.
        split_and!; try done. by constructor.
      * intros ([|p1 ps1] & p' & ps2 & [= -> ->] & Hps & Hp & ->); [lia|].
        inversion Hps. eauto 10.
Qed.

(** ** Sourcing *)

Definition shortfallOf (liquid : gmap string Z) (e : string * (string * Z)) : Z :=
  e.2.2 - default 0 (liquid !! e.1).

Section sourcing.
Context `{ViemLaws}.

Definition short (liquid : gmap string Z) : string * (string * Z) → Prop := λ e, 0 < shortfallOf liquid e.
#[global] Instance short_dec liquid e : Decision (short liquid e).
Proof. unfold short. apply _. Defined.

(** One withdrawal per short token, in order, of exactly the shortfall. *)
Definition sourcing (account : string) (vaultOf : gmap string string) (liquid : gmap string Z)
    (e : string * (string * Z)) (w : Call * Sourced) : Prop :=
  vaultOf !! e.1 = Some (call_target w.1) ∧ call_value w.1 = 0 ∧
  encodeFunctionData erc4626Abi "withdraw" [ANum (shortfallOf liquid e); AText account; AText account]
    = Ok (call_data w.1) ∧
  w.2 = {| src_token := e.2.1; src_vault := call_target w.1; src_amount := shortfallOf liquid e |}.

Lemma sourceShortfalls_ok account liquid vaultOf needed ws :
  sourceShortfalls account liquid vaultOf needed = Ok ws →
  Forall2 (sourcing account vaultOf liquid) (filter (short liquid) needed) ws.
Proof.
  revert ws. induction needed as [|[key [token amount]] needed IH]; intros ws Hs; cbn [sourceShortfalls] in Hs.
  - apply ok_inj in Hs as <-. constructor.
  - rewrite filter_cons. destruct (amount - default 0 (liquid !! key) <=? 0) eqn:E; zify_bool.
    + rewrite decide_False by (unfold short, shortfallOf; cbn; lia). by apply IH.
    + rewrite decide_True by (unfold short, shortfallOf; cbn; lia).
      destruct (vaultOf !! key) as [vault|] eqn:Ev; [|discriminate].
      apply bind_ok in Hs as (data & Hd & Hs). apply bind_ok in Hs as (rest & Hr & Hs).
      apply ok_inj in Hs as <-. constructor; [|by apply IH]. split_and!; done.
Qed.
End sourcing.

(** ** The batch *)

Lemma set_adds_nodup {A} `{EqDecision A} (s l : list A) : NoDup s → NoDup (foldl set_add s l).
Proof. revert s. induction l as [|x l IH]; intros s Hs; cbn; [done|]. by apply IH, set_add_nodup. Qed.

Lemma addNeeded_norm p m :
  Forall (λ e, e.1 = normalize e.2.1) m → Forall (λ e, e.1 = normalize e.2.1) (addNeeded p m).
Proof.
  induction 1 as [|[k [t a]] m Hx Hm IH]; cbn [addNeeded]; [by repeat constructor|].
  case_bool_decide; by constructor.
Qed.

Lemma aggregate_norm payments m m' :
  Forall (λ e, e.1 = normalize e.2.1) m → aggregate payments m = Ok m' →
  Forall (λ e, e.1 = normalize e.2.1) m'.
Proof.
  revert m. induction payments as [|p payments IH]; intros m Hm Ha; cbn [aggregate] in Ha.
  - by apply ok_inj in Ha as <-.
  - destruct (yp_amount p <? 0); [discriminate|]. eapply IH; [|exact Ha]. by apply addNeeded_norm.
Qed.

Lemma neededOf_elem m e :
  NoDup (m.*1) → e ∈ m → neededOf e.1 m = e.2.2.
Proof.
  unfold neededOf. induction m as [|x m IH]; intros Hnd He; [by apply elem_of_nil in He|].
  rewrite fmap_cons in Hnd. apply NoDup_cons in Hnd as [Hx Hnd]. rewrite filter_cons.
  apply elem_of_cons in He as [->|He].
  - rewrite decide_True by done. rewrite sumZ_fmap_cons.
    assert (filter (λ y, y.1 = x.1) m = []) as ->; [|cbn; lia].
    apply filter_none. intros y Hy E. apply Hx. rewrite <- E. by apply list_elem_of_fmap_2.
  - rewrite decide_False; [by apply IH|]. intros E. apply Hx. rewrite E. by apply list_elem_of_fmap_2.
Qed.

(** What the batch withdraws for a token. *)
Definition sourcedFor (key : string) (l : list Sourced) : Z :=
  sumZ (src_amount <$> filter (λ s, normalize (src_token s) = key) l).

Lemma sourced_amounts `{Viem} account vaultOf liquid es ws key :
  Forall (λ e, e.1 = normalize e.2.1) es → Forall2 (sourcing account vaultOf liquid) es ws →
  sourcedFor key (ws.*2) = sumZ (shortfallOf liquid <$> filter (λ e, e.1 = key) es) ∧
  (λ s, normalize (src_token s)) <$> ws.*2 = es.*1.
Proof.
  unfold sourcedFor. intros Hn Hf. induction Hf as [|e w es ws (H1 & H2 & H3 & H4) Hf IH]; [done|].
  apply Forall_cons in Hn as [Hne Hn]. destruct (IH Hn) as [I1 I2].
  rewrite !fmap_cons, !filter_cons, I2, H4. cbn [src_token src_amount]. rewrite <- Hne. split; [|done].
  destruct (decide (e.1 = key)); [|done]. rewrite !sumZ_fmap_cons, I1. done.
Qed.

Lemma owed_prefix n key payments :
  Forall (λ p, 0 ≤ yp_amount p) payments → owed key (take n payments) ≤ owed key payments.
Proof.
  intros Hp. rewrite <- (take_drop n payments) at 2. unfold owed.
  rewrite filter_app, fmap_app, sumZ_app.
  enough (0 ≤ sumZ (yp_amount <$> filter (λ p, normalize (yp_token p) = key) (drop n payments))) by lia.
  by apply sumZ_nonneg, Forall_fmap, Forall_filter_impl, Forall_drop.
Qed.

(** C35: the batch [buildSpendFromYieldCalls] builds is the withdrawals
    followed by the transfers of the payments, in order; it withdraws, at most
    once per token however the token is written, exactly what the payments of
    the token exceed its liquid balance by, from the vault adopted for it and
    back to the account; so after the withdrawals no prefix of the transfers
    can overdraw a token. *)
Theorem yield_calls_cover_payments `{ViemLaws} ps r :
  buildSpendFromYieldCalls ps = Ok r →
  let liquid := liquidMap (yc_balances ps) in
  let keys := (λ p, normalize (yp_token p)) <$> yc_payments ps in
  sc_calls r = sc_withdrawals r ++ sc_transfers r ∧
  Forall2 (λ p c, transferCall p = Ok c) (yc_payments ps) (sc_transfers r) ∧
  NoDup ((λ s, normalize (src_token s)) <$> sc_sourced r) ∧
  Forall2 (λ s c, vaultMap (yc_vaults ps) !! normalize (src_token s) = Some (call_target c) ∧
      src_vault s = call_target c ∧ call_value c = 0 ∧
      encodeFunctionData erc4626Abi "withdraw" [ANum (src_amount s); AText (yc_account ps); AText (yc_account ps)]
        = Ok (call_data c)) (sc_sourced r) (sc_withdrawals r) ∧
  (∀ key, sourcedFor key (sc_sourced r) =
     if bool_decide (key ∈ keys) then Z.max 0 (owed key (yc_payments ps) - default 0 (liquid !! key)) else 0) ∧
  ∀ n key, key ∈ keys → 0 ≤ default 0 (liquid !! key) + sourcedFor key (sc_sourced r) - owed key (take n (yc_payments ps)).
Proof.
  intros Hb liquid keys. unfold buildSpendFromYieldCalls in Hb. fold liquid in Hb.
  apply bind_ok in Hb as (m & Ha & Hb). apply bind_ok in Hb as (ws & Hs & Hb).
  apply bind_ok in Hb as (ts & Ht & Hb). apply ok_inj in Hb as <-.
  cbn [sc_calls sc_withdrawals sc_transfers sc_sourced].
  pose proof (aggregate_norm _ [] _ ltac:(constructor) Ha) as Hnorm.
  apply aggregate_spec in Ha as (Hpos & Hkeys & Hneed). cbn [fmap list_fmap] in Hkeys. fold keys in Hkeys.
  apply sourceShortfalls_ok in Hs.
  assert (Hnd : NoDup (m.*1)) by (rewrite Hkeys; apply set_adds_nodup; constructor).
  assert (Hnorm' : Forall (λ e, e.1 = normalize e.2.1) (filter (short liquid) m)) by by apply Forall_filter_impl.
  assert (Hsrc : ∀ key, sourcedFor key (ws.*2) =
    if bool_decide (key ∈ keys) then Z.max 0 (owed key (yc_payments ps) - default 0 (liquid !! key)) else 0).
  { intros key. destruct (sourced_amounts _ _ _ _ _ key Hnorm' Hs) as [-> _].
    assert (Hin : key ∈ keys ↔ key ∈ m.*1).
    { rewrite Hkeys. change (foldl set_add [] keys) with (js_set keys). by rewrite js_set_elem. }
    case_bool_decide as Hk.
    - apply Hin, list_elem_of_fmap in Hk as (e & -> & He).
      assert (Hamt : e.2.2 = owed e.1 (yc_payments ps)) by (rewrite <- (neededOf_elem m e Hnd He), Hneed; done).
      rewrite <- Hamt. clear -Hnd He. change (e.2.2 - default 0 (liquid !! e.1)) with (shortfallOf liquid e).
      induction m as [|x m IH]; [by apply elem_of_nil in He|].
      rewrite fmap_cons in Hnd. apply NoDup_cons in Hnd as [Hx Hnd].
      rewrite filter_cons. apply elem_of_cons in He as [<-|He].
      + assert (filter (λ y, y.1 = e.1) (filter (short liquid) m) = []) as Hnil.
        { apply filter_none. intros y [_ Hy]%list_elem_of_filter E. apply Hx. rewrite <- E.
          by apply list_elem_of_fmap_2. }
        destruct (decide (short liquid e)) as [Hsh|Hsh]; unfold short in Hsh.
        * rewrite filter_cons, decide_True by done. rewrite sumZ_fmap_cons, Hnil. cbn. lia.
        * rewrite Hnil. cbn. lia.
      + assert (x.1 ≠ e.1) by (intros E; apply Hx; rewrite E; by apply list_elem_of_fmap_2).
        destruct (decide (short liquid x)); [rewrite filter_cons, decide_False by done|]; by apply IH.
    - assert (filter (λ e, e.1 = key) (filter (short liquid) m) = []) as ->; [|done].
      apply filter_none. intros e [_ He]%list_elem_of_filter E. apply Hk, Hin. rewrite <- E.
      by apply list_elem_of_fmap_2. }
  split_and!; [done|by apply mapM_ok| | |done|].
  - destruct (sourced_amounts _ _ _ _ _ "" Hnorm' Hs) as [_ ->].
    eapply sublist_NoDup; [exact Hnd|]. apply fmap_sublist, sublist_filter.
  - clear -Hs Hnorm'. induction Hs as [|e w es ws (H1 & H2 & H3 & H4) Hs IH]; [constructor|].
    apply Forall_cons in Hnorm' as [Hne Hn]. constructor; [|by apply IH].
    rewrite H4. cbn [src_token src_amount src_vault snd fst]. rewrite <- Hne. done.
  - intros n key Hk. rewrite Hsrc, bool_decide_eq_true_2 by done.
    pose proof (owed_prefix n key (yc_payments ps) Hpos). lia.
Qed.

(** Two payments of one token, written in two cases, 90 against 50 liquid. *)
Definition sample_account : string := "0x0000000000000000000000000000000000000001".
Definition sample_payee : string := "0x000000000000000000000000000000000000000C".
Definition sample_spend : BuildSpendFromYieldCallsParameters :=
  {| yc_account := sample_account;
     yc_payments :=
       [{| yp_token := sample_token; yp_to := sample_payee; yp_amount := 60 |};
        {| yp_token := "0x00000000000000000000000000000000000000AA"; yp_to := sample_payee; yp_amount := 30 |}];
     yc_balances := [{| tb_token := sample_token; tb_balance := 50 |}];
     yc_vaults := [{| vc_token := sample_token; vc_vault := sample_vault |}] |}.
Definition sample_spend_calls : SpendFromYieldCalls :=
  match buildSpendFromYieldCalls sample_spend with
  | Ok r => r
  | Throw _ => {| sc_withdrawals := []; sc_transfers := []; sc_calls := []; sc_sourced := [] |}
  end.

Lemma yield_calls_cover_payments_witness :
  sc_sourced sample_spend_calls = [{| src_token := sample_token; src_vault := sample_vault; src_amount := 40 |}] ∧
  sc_calls sample_spend_calls = sc_withdrawals sample_spend_calls ++ sc_transfers sample_spend_calls ∧
  sourcedFor (toLowerCase sample_token) (sc_sourced sample_spend_calls) = 40.
Proof.
  assert (E : buildSpendFromYieldCalls sample_spend = Ok sample_spend_calls) by (vm_compute; reflexivity).
  destruct (yield_calls_cover_payments sample_spend sample_spend_calls E)
    as (H1 & _ & _ & _ & H2 & _).
  split; [vm_compute; reflexivity|]. split; [exact H1|].
  rewrite (H2 (toLowerCase sample_token)). vm_compute. reflexivity.
Defined.
