(* ===== verification/YieldLive.v ===== *)
(** * A payment out of yield goes through

    The composition of the grant compiler, the [spendFromYieldGrant] preset,
    [buildSpendFromYieldCalls] and the session key plugin: an agent whose key
    was registered with the preset can pay what its budget and the adopted
    vaults cover. *)

From S2P Require Import Prelude.
From S2P Require Import Js.
From S2P Require Import Encoding.
From S2P Require Import Abi.
From S2P Require Import AbiSample.
From S2P Require Import SessionKey.
From S2P Require Import SessionKeyChecks.
From S2P Require Import SessionKeyPlugin.
From S2P Require Import SessionKeySpend.
From S2P Require Import Grant.
From S2P Require Import GrantPresets.
From S2P Require Import YieldCalls.

(** What [encodeExecuteWithSessionKey] hands to the plugin. *)
Definition toEvm (c : Call) : EvmCall :=
  {| ec_target := hexNumber (call_target c); ec_value := call_value c; ec_data := call_data c |}.

(** ** Executing within the limits *)

Section execute.
Context `{Viem}.

(** A meter with room for [s] more at time [now]. *)
Record room (now s : Z) (ti : SpendLimitTimeInfo) (l : SpendLimit) : Prop := {
  ro_used : 0 ≤ limitUsed l;
  ro_left : limitUsed l + s ≤ limitAmount l;
  ro_max : limitAmount l < UINT256;
  ro_interval : 0 ≤ refreshInterval ti;
  ro_last : lastUsed ti + refreshInterval ti < UINT48;
  ro_next : now + refreshInterval ti < UINT48 }.

Lemma runtimeUpdate_room now s rest ti l :
  0 ≤ now → 0 ≤ s → 0 ≤ rest → room now (s + rest) ti l →
  ∃ ti' l', runtimeUpdateSpendLimitUsage now s ti l = Ok (Some (ti', l')) ∧ room now rest ti' l'.
Proof.
  intros Hnow Hs Hrest [R1 R2 R3 R4 R5 R6]. unfold runtimeUpdateSpendLimitUsage.
  assert (Hw : wrap256 (s + limitUsed l) = s + limitUsed l) by (apply Z.mod_small; lia).
  assert (Hok : (s + limitUsed l <? s) || (limitAmount l <? s + limitUsed l) = false)
    by (apply orb_false_iff; split; apply Z.ltb_ge; lia).
  assert (Hroom : room now rest ti (l <| limitUsed := s + limitUsed l |>)) by (split; cbn; lia).
  destruct (refreshInterval ti =? 0) eqn:E; cbn [mbind result_bind mret result_ret].
  - rewrite Hw, Hok. by do 2 eexists.
  - rewrite (proj2 (add48_ok _ _ _)) by done. cbn [mbind result_bind mret result_ret].
    destruct (now <? lastUsed ti + refreshInterval ti).
    + rewrite Hw, Hok. by do 2 eexists.
    + rewrite (proj2 (Z.ltb_ge _ _)) by lia. do 2 eexists. split; [done|].
      unfold uint48. split; cbn; rewrite ?Z.mod_small by lia; lia.
Qed.

(** A batch that only spends of one metered token, and within its room. *)
Definition pays (t : Z) (ks : KeyStore) (c : EvmCall) : Prop :=
  ec_value c = 0 ∧ 0 ≤ getTokenSpendAmount (ec_data c) ∧
  (ec_target c = t ∨ isERC20WithSpendLimit (contractDataOf ks (ec_target c)) = false).

Lemma updateCallLimits_room now a k t calls ks :
  0 ≤ now → Forall (pays t ks) calls →
  (isERC20WithSpendLimit (contractDataOf ks t) = true →
   room now (spentOn t calls) (erc20SpendLimitTimeInfo (contractDataOf ks t)) (erc20SpendLimit (contractDataOf ks t))) →
  ∃ ks', updateCallLimits now a k calls 0 ks = Ok (0, ks') ∧ keyData ks' = keyData ks.
Proof.
  intros Hnow. revert ks. induction calls as [|c calls IH]; intros ks Hp Hroom; cbn [updateCallLimits].
  - by exists ks.
  - apply Forall_cons in Hp as [(Hv & Hs & Ht) Hp].
    rewrite Hv. change (add256 0 0) with (Ok 0 : evm Z). cbn [mbind result_bind].
    assert (Hnn : 0 ≤ spentOn t calls).
    { apply sumZ_nonneg, Forall_fmap, Forall_filter_impl. eapply Forall_impl; [exact Hp|].
      intros c' (_ & ? & _). done. }
    destruct (isERC20WithSpendLimit (contractDataOf ks (ec_target c))) eqn:Ec.
    + destruct Ht as [Ht|]; [|congruence]. subst t.
      assert (Hsp : spentOn (ec_target c) (c :: calls) = getTokenSpendAmount (ec_data c) + spentOn (ec_target c) calls)
        by (unfold spentOn; rewrite filter_cons, decide_True by done; done).
      rewrite Hsp in Hroom. destruct (runtimeUpdate_room _ _ _ _ _ Hnow Hs Hnn (Hroom Ec)) as (ti & l & Hru & Hr').
      rewrite Hru. cbn [mbind result_bind mret result_ret].
      set (ks1 := setContract _ _ ks).
      assert (Hcd : ∀ x, contractDataOf ks1 x = if decide (x = ec_target c)
        then contractDataOf ks (ec_target c) <| erc20SpendLimitTimeInfo := ti |> <| erc20SpendLimit := l |>
        else contractDataOf ks x) by (intros; apply contractDataOf_setContract).
      destruct (IH ks1) as (ks' & Hks' & Hkd).
      * eapply Forall_impl; [exact Hp|]. intros c' (? & ? & [?|Hf]); repeat split; auto. right.
        rewrite Hcd. case_decide as E; [rewrite E in Hf; congruence|done].
      * intros _. rewrite Hcd, decide_True by done. exact Hr'.
      * by exists ks'.
    + apply IH; [done|]. intros Et. specialize (Hroom Et). destruct Hroom. split; try done.
      enough (spentOn t (c :: calls) = spentOn t calls) by lia.
      unfold spentOn. rewrite filter_cons, decide_False; [done|]. intros <-. congruence.
Qed.

(** Without native value the native limit is no obstacle. *)
Lemma updateLimits_room now a k t calls ks :
  0 ≤ now → Forall (pays t ks) calls →
  (isERC20WithSpendLimit (contractDataOf ks t) = true →
   room now (spentOn t calls) (erc20SpendLimitTimeInfo (contractDataOf ks t)) (erc20SpendLimit (contractDataOf ks t))) →
  room now 0 (nativeTokenSpendLimitTimeInfo (keyData ks)) (nativeTokenSpendLimit (keyData ks)) →
  ∃ ks', updateLimitsPreExec now a k calls ks = Ok ks'.
Proof.
  intros Hnow Hp Hroom Hnat. unfold updateLimitsPreExec.
  destruct (updateCallLimits_room now a k t calls ks Hnow Hp Hroom) as (ks1 & -> & Hkd).
  cbn [mbind result_bind]. rewrite Hkd. destruct (nativeTokenSpendLimitBypassed (keyData ks)); [by eexists|].
  destruct (runtimeUpdate_room now 0 0 _ _ Hnow ltac:(lia) ltac:(lia) Hnat) as (ti & l & -> & _).
  cbn [mbind result_bind]. by eexists.
Qed.

(** Validation of a batch without native value whose calls are all permitted. *)
Lemma checkCalls_all t ks calls ok :
  Forall (λ c, ec_value c = 0 ∧ checkCallPermissions t ks (ec_target c) (ec_data c) = true) calls →
  checkCalls t ks calls 0 ok = Ok (0, ok).
Proof.
  intros Hc. revert ok. induction Hc as [|c calls [Hv Hp] Hc IH]; intros ok; [done|].
  cbn [checkCalls]. rewrite Hv, Hp. change (add256 0 0) with (Ok 0 : evm Z). cbn [mbind result_bind].
  by rewrite andb_true_r.
Qed.
End execute.

(** ** The preset admits the batch *)

Section admission.
Context `{ViemLaws}.

Lemma selector_number sig it :
  signature it = sig → hexNumber (toFunctionSelector ("function " +:+ sig)) = selectorOf sig.
Proof. intros <-. apply toFunctionSelector_number. Qed.

Lemma transfer_number : hexNumber ERC20_TRANSFER_SELECTOR = transferSelector.
Proof.
  apply (selector_number "transfer(address,uint256)"
    {| item_name := "transfer"; item_inputs := [TAddress; TUint 256] |}). vm_compute. reflexivity.
Qed.

Lemma withdraw_number : hexNumber ERC4626_withdraw = selectorOf "withdraw(uint256,address,address)".
Proof.
  apply (selector_number "withdraw(uint256,address,address)"
    {| item_name := "withdraw"; item_inputs := [TUint 256; TAddress; TAddress] |}). vm_compute. reflexivity.
Qed.

(** The calldata of a transfer, as the plugin reads it. *)
Lemma transfer_data to amount data :
  encodeFunctionData erc20Abi "transfer" [AText to; ANum amount] = Ok data →
  bytes4_of data = transferSelector ∧ getTokenSpendAmount data = amount ∧ 0 ≤ amount < UINT256.
Proof.
  intros He. apply (encodeFunctionData_ok _ _ _ _ _ erc20Abi_transfer) in He as (ws & Hw & ->);
    [|by repeat constructor].
  cbn [item_inputs encodeWords encodeWord] in Hw. word_args Hw. apply (inj Some) in Hw as <-.
  ok_inv. zify_bool.
  change (signature _) with "transfer(address,uint256)".
  destruct (selector_bytes "transfer(address,uint256)"
    (word (hexNumber to) ++ word amount ++ [])) as (Hsel & _ & _).
  split; [exact Hsel|]. split; [|unfold UINT256; lia].
  unfold getTokenSpendAmount. rewrite Hsel. unfold isAllowedERC20Function, transferSelector.
  rewrite Z.eqb_refl. cbn [orb]. rewrite app_nil_r.
  replace (length _ <? 68)%nat with false
    by (symmetry; apply Nat.ltb_ge; rewrite !length_app, be_bytes_length, !word_length; lia).
  unfold wordAt. rewrite app_assoc, drop_app_length'
    by (rewrite length_app, be_bytes_length, word_length; done).
  rewrite take_ge by (rewrite word_length; done). apply word_value. lia.
Qed.

Lemma withdraw_data amount a b data :
  encodeFunctionData erc4626Abi "withdraw" [ANum amount; AText a; AText b] = Ok data →
  bytes4_of data = selectorOf "withdraw(uint256,address,address)".
Proof.
  intros He. apply (encodeFunctionData_ok _ _ _ _ _ erc4626Abi_withdraw) in He as (ws & _ & ->);
    [|by repeat constructor].
  change (signature _) with "withdraw(uint256,address,address)". apply selector_bytes.
Qed.

Lemma withdraw_not_spend data :
  bytes4_of data = selectorOf "withdraw(uint256,address,address)" → isAllowedERC20Function (bytes4_of data) = false.
Proof.
  intros ->. unfold isAllowedERC20Function, transferSelector, approveSelector. by pick_selector.
Qed.

(** The scope of the preset. *)
Record yield_scope (p : SpendFromYieldGrantParameters) (g : BufiGrant) : Prop := {
  ys_entries : ∃ sels es, g_allow g = scopeEntry (yield_token p) [ERC20_TRANSFER_SELECTOR] :: es ∧
    ERC4626_withdraw ∈ sels ∧
    (∀ e, e ∈ es → ∃ v, v ∈ yield_vaults p ∧ e = scopeEntry v sels ∧ toLowerCase v ≠ toLowerCase (yield_token p)) ∧
    (∀ v, v ∈ yield_vaults p → ∃ e, e ∈ es ∧ toLowerCase (se_target e) = toLowerCase v);
  ys_budgets : erc20Budgets g = [{| eb_token := yield_token p; eb_limit := sb_limit (yield_budget p);
    eb_refreshIntervalSeconds := sb_refreshIntervalSeconds (yield_budget p) |}];
  ys_native : g_budget g ≫= gb_native = None;
  ys_gas : g_budget g ≫= gb_gas = Some (default DEFAULT_AGENT_GAS_BUDGET (pb_gas (yield_base p)));
  ys_expiry : g_expiry g = pb_expiry (yield_base p);
  ys_paymaster : truthy (g_requiredPaymaster g) = truthy (pb_requiredPaymaster (yield_base p)) }.

Lemma spendFromYield_scope p g : spendFromYieldGrant p = Ok g → yield_scope p g.
Proof.
  intros Hg. unfold spendFromYieldGrant in Hg. rewrite !throw_if_bind_ok in Hg. destruct Hg as (_ & _ & Hg).
  apply bind_ok in Hg as (es & Hes & Hg). apply ok_inj in Hg as <-.
  split; try done; [|cbn [g_requiredPaymaster grant]; by destruct (pb_requiredPaymaster (yield_base p)) as [[|c s]|]].
  apply vaultScope_entries in Hes as [E1 E2]. do 2 eexists. split; [done|]. split; [left|]. split; [exact E1|].
  intros v Hv. destruct (E2 v Hv) as [F|]; [set_solver|done].
Qed.

Lemma address_eq a b :
  isAddress a = true → isAddress b = true → hexNumber a = hexNumber b ↔ toLowerCase a = toLowerCase b.
Proof. intros Ha Hb. apply (hexNumber_eq 20); by apply isAddress_format. Qed.

Context (p : SpendFromYieldGrantParameters) (g : BufiGrant).
Context (Hscope : yield_scope p g) (Hok : grant_ok g).

Lemma yield_token_address : isAddress (yield_token p) = true.
Proof.
  destruct (ys_entries p g Hscope) as (sels & es & Ha & _).
  apply (go_targets g Hok (scopeEntry (yield_token p) [ERC20_TRANSFER_SELECTOR])). rewrite Ha. left.
Qed.

Lemma yield_budgeted t :
  budgeted g t = bool_decide (t = hexNumber (yield_token p)) && negb (sb_limit (yield_budget p) =? UNLIMITED).
Proof.
  unfold budgeted, budgetAt. rewrite (ys_budgets p g Hscope), filter_cons, filter_nil.
  unfold tokenOf. cbn [eb_token]. destruct (decide (hexNumber (yield_token p) = t)) as [<-|Hne].
  - by rewrite bool_decide_eq_true_2.
  - by rewrite bool_decide_eq_false_2 by auto.
Qed.

(** A vault entry never matches the token. *)
Lemma vault_entry_token es sels e :
  g_allow g = scopeEntry (yield_token p) [ERC20_TRANSFER_SELECTOR] :: es →
  (∀ e, e ∈ es → ∃ v, v ∈ yield_vaults p ∧ e = scopeEntry v sels ∧ toLowerCase v ≠ toLowerCase (yield_token p)) →
  e ∈ es → targetOf e ≠ hexNumber (yield_token p).
Proof.
  intros Ha He Hin E. destruct (He e Hin) as (v & _ & -> & Hne). apply Hne, address_eq; [|apply yield_token_address|done].
  apply (go_targets g Hok (scopeEntry v sels)). rewrite Ha. by right.
Qed.

Lemma transfer_allowed t data :
  t = hexNumber (yield_token p) → bytes4_of data = transferSelector → grantAllows g t data = true.
Proof.
  intros -> Hd. destruct (ys_entries p g Hscope) as (sels & es & Ha & _ & He & _).
  unfold grantAllows, entriesAt. rewrite Ha, filter_cons, decide_True by done.
  rewrite (filter_none _ es) by (intros e Hin; by eapply vault_entry_token).
  cbn [last]. change (restricted _) with true. cbn [negb existsb]. rewrite Hd.
  change (selectorNumbers (scopeEntry (yield_token p) [ERC20_TRANSFER_SELECTOR]))
    with [hexNumber ERC20_TRANSFER_SELECTOR].
  rewrite transfer_number, bool_decide_eq_true_2 by left. cbn [orb andb].
  unfold isAllowedERC20Function. rewrite Z.eqb_refl. cbn [orb]. by destruct (budgeted g _).
Qed.

Lemma withdraw_allowed v w data :
  v ∈ yield_vaults p → isAddress w = true → toLowerCase v = toLowerCase w →
  bytes4_of data = selectorOf "withdraw(uint256,address,address)" →
  grantAllows g (hexNumber w) data = true ∧ budgeted g (hexNumber w) = false.
Proof.
  intros Hv Hw Hlow Hd. destruct (ys_entries p g Hscope) as (sels & es & Ha & Hsel & He & Hall).
  destruct (Hall v Hv) as (e & Hin & Hte).
  assert (Heq : targetOf e = hexNumber w).
  { apply address_eq; [|done|congruence]. apply (go_targets g Hok). rewrite Ha. by right. }
  assert (Hnt : hexNumber w ≠ hexNumber (yield_token p)).
  { rewrite <- Heq. by eapply vault_entry_token. }
  assert (Hb : budgeted g (hexNumber w) = false).
  { rewrite yield_budgeted, bool_decide_eq_false_2; done. }
  split; [|done]. unfold grantAllows, entriesAt. rewrite Ha, filter_cons, decide_False by (intros E; apply Hnt; by rewrite <- E).
  assert (Hf : e ∈ filter (λ e, targetOf e = hexNumber w) es) by by apply list_elem_of_filter.
  assert (Hsels : ∀ e', e' ∈ filter (λ e, targetOf e = hexNumber w) es →
    restricted e' = true ∧ bytes4_of data ∈ selectorNumbers e').
  { intros e' [_ Hin']%list_elem_of_filter. destruct (He e' Hin') as (v' & _ & -> & _).
    unfold restricted, selectorNumbers, selectorsOf, scopeEntry. cbn [se_selectors default].
    split; [destruct sels; [by apply elem_of_nil in Hsel|done]|].
    rewrite Hd, <- withdraw_number. by apply list_elem_of_fmap_2. }
  destruct (last (filter (λ e, targetOf e = hexNumber w) es)) as [e'|] eqn:El.
  - rewrite (proj1 (Hsels e' (last_Some_elem_of _ _ El))). cbn [negb]. rewrite Hb. cbn [implb]. rewrite andb_true_r.
    apply existsb_exists. exists e. split; [by apply list_elem_of_In|]. apply bool_decide_eq_true, Hsels, Hf.
  - apply last_None in El. rewrite El in Hf. by apply elem_of_nil in Hf.
Qed.
End admission.

(** ** Validation and execution of an admitted batch *)

Section live.
Context `{ViemLaws}.
Context (t0 now : Z) (p : SpendFromYieldGrantParameters) (g : BufiGrant) (ks : KeyStore).
Context (Hscope : yield_scope p g) (Hok : grant_ok g) (Hen : enforces t0 g ks).
Context (calls : list EvmCall).

(** A call of the batch: no native value, admitted, and either a transfer of
    the token or a call to something unmetered. *)
Definition admitted (c : EvmCall) : Prop :=
  grantAllows g (ec_target c) (ec_data c) = true ∧ ec_value c = 0 ∧
  0 ≤ getTokenSpendAmount (ec_data c) ∧
  (ec_target c = hexNumber (yield_token p) ∨ budgeted g (ec_target c) = false).

Context (Hcalls : Forall admitted calls).

Lemma fresh_gas_ok cost :
  let d := grantKeyData t0 g in
  hasGasLimit d = true → 0 ≤ cost ≤ sb_limit (default DEFAULT_AGENT_GAS_BUDGET (pb_gas (yield_base p))) →
  cost < UINT256 →
  ∃ d', checkAndUpdateGasLimitUsage cost d = Ok (true, 0, d') ∧
    hasRequiredPaymaster d' = hasRequiredPaymaster d ∧ requiredPaymaster d' = requiredPaymaster d ∧
    validUntil d' = validUntil d ∧ nativeTokenSpendLimitTimeInfo d' = nativeTokenSpendLimitTimeInfo d ∧
    nativeTokenSpendLimit d' = nativeTokenSpendLimit d ∧ nativeTokenSpendLimitBypassed d' = nativeTokenSpendLimitBypassed d.
Proof.
  intros d Hg Hc Hmax. unfold d, grantKeyData in Hg. rewrite (ys_gas p g Hscope) in Hg.
  cbn [hasGasLimit] in Hg. set (gas := default DEFAULT_AGENT_GAS_BUDGET (pb_gas (yield_base p))) in *.
  apply negb_true_iff in Hg.
  assert (El : gasLimit d = freshLimit (sb_limit gas)).
  { unfold d, grantKeyData. rewrite (ys_gas p g Hscope). cbn [gasLimit spendLimitOf]. fold gas. by rewrite Hg. }
  unfold checkAndUpdateGasLimitUsage. rewrite El. cbn [limitUsed limitAmount freshLimit].
  assert (Hw : wrap256 (cost + 0) = cost) by (unfold wrap256; rewrite Z.mod_small; lia).
  rewrite Hw, Z.ltb_irrefl, (proj2 (Z.leb_le _ _)) by lia.
  change (gasLimitResetThisBundle d) with false.
  destruct (refreshInterval (gasLimitTimeInfo d) =? 0); eexists; split; try done; done.
Qed.

Lemma validation_succeeds op k cost :
  calls ≠ [] → (uo_nonce op / 2 ^ 64) mod 2 ^ 192 = k →
  getMaxGasCost op = Ok cost →
  0 ≤ cost ≤ sb_limit (default DEFAULT_AGENT_GAS_BUDGET (pb_gas (yield_base p))) → cost < UINT256 →
  (∀ q, truthy (pb_requiredPaymaster (yield_base p)) = Some q →
     match uo_paymaster op with Some pm => pm_address pm | None => 0 end = hexNumber q) →
  ∃ ks', checkUserOpPermissions op calls k ks =
      Ok ({| va_success := true; va_after := grantValidAfter g; va_until := ex_validUntil (g_expiry g) |}, ks') ∧
    ∀ q, meterOf ks' q = meterOf ks q.
Proof.
  intros Hne Hnonce Hcost Hc Hmax Hpm.
  assert (Hlen : (0 <? Z.of_nat (length calls)) = true) by (destruct calls; [done|]; apply Z.ltb_lt; cbn [length]; lia).
  pose proof (go_window g Hok) as Hwin.
  unfold checkUserOpPermissions. rewrite checkCalls_all.
  2:{ eapply Forall_impl; [exact Hcalls|]. intros c (Ha & Hv & _). split; [done|]. by rewrite (en_calls t0 g ks Hen). }
  cbn [mbind result_bind]. rewrite Hlen, (en_keyData t0 g ks Hen). set (d := grantKeyData t0 g).
  assert (Hnat : nativeTokenSpendLimitBypassed d = false ∧ nativeTokenSpendLimitTimeInfo d = zeroTimeInfo ∧
    nativeTokenSpendLimit d = zeroLimit).
  { unfold d, grantKeyData. rewrite (ys_native p g Hscope). done. }
  destruct Hnat as (Hn1 & Hn2 & Hn3). rewrite Hn1, Hn2, Hn3.
  change (checkSpendLimitUsage 0 zeroTimeInfo zeroLimit) with (Ok (true, 0) : evm (bool * Z)).
  cbn [mbind result_bind mret result_ret]. rewrite Hnonce, Z.eqb_refl. cbn [andb].
  assert (Hmx : max48 (validAfter d) 0 = validAfter d).
  { unfold max48. change (validAfter d) with (grantValidAfter g). destruct (0 <? grantValidAfter g) eqn:E; zify_bool; lia. }
  rewrite Hmx.
  assert (Hpay : ∀ d' : SessionKeyData, hasRequiredPaymaster d' = hasRequiredPaymaster d →
    requiredPaymaster d' = requiredPaymaster d →
    (if hasRequiredPaymaster d' then
      (match uo_paymaster op with Some pm => pm_address pm | None => 0 end =? requiredPaymaster d')
    else true) = true).
  { intros d' -> ->. unfold d, grantKeyData. cbn [hasRequiredPaymaster requiredPaymaster].
    rewrite (ys_paymaster p g Hscope). destruct (truthy (pb_requiredPaymaster (yield_base p))) as [q|]; [|done].
    rewrite (Hpm q eq_refl). destruct (hexNumber q =? 0); cbn [negb andb]; [done|]. apply Z.eqb_refl. }
  destruct (hasGasLimit d) eqn:Hg.
  - rewrite Hcost. cbn [mbind result_bind].
    destruct (fresh_gas_ok cost Hg Hc Hmax) as (d' & Hd & D1 & D2 & D3 & D4 & D5 & D6). fold d in Hd, D1, D2, D3, D4, D5, D6.
    rewrite Hd. cbn [mbind result_bind mret result_ret andb]. rewrite (Hpay d' D1 D2), Hmx, D3.
    eexists. split; [done|]. intros [|t]; [|done]. unfold meterOf. rewrite (en_keyData t0 g ks Hen). fold d.
    change (keyData (set keyData (λ _, d') ks)) with d'. by rewrite D4, D5, D6.
  - cbn [mbind result_bind mret result_ret andb]. rewrite (Hpay d eq_refl eq_refl).
    eexists. split; [done|]. intros [|t]; [|done]. unfold meterOf. by rewrite (en_keyData t0 g ks Hen).
Qed.

Lemma execution_succeeds a k ks' :
  (∀ q, meterOf ks' q = meterOf ks q) → 0 ≤ t0 ≤ now → now < UINT48 →
  now + sb_refreshIntervalSeconds (yield_budget p) < UINT48 →
  spentOn (hexNumber (yield_token p)) calls ≤ sb_limit (yield_budget p) →
  ∃ ks'', updateLimitsPreExec now a k calls ks' = Ok ks''.
Proof.
  intros Hm Ht0 Hnow Hint Hsum. set (t := hexNumber (yield_token p)) in *.
  pose proof (Hm Native) as HmN. unfold meterOf in HmN. rewrite (en_keyData t0 g ks Hen) in HmN.
  unfold grantKeyData in HmN. rewrite (ys_native p g Hscope) in HmN.
  injection HmN as _ HmT HmL.
  assert (Hmt : ∀ x, isERC20WithSpendLimit (contractDataOf ks' x) = budgeted g x ∧
    erc20SpendLimitTimeInfo (contractDataOf ks' x) = erc20SpendLimitTimeInfo (contractDataOf ks x) ∧
    erc20SpendLimit (contractDataOf ks' x) = erc20SpendLimit (contractDataOf ks x)).
  { intros x. pose proof (Hm (Token x)) as Hx. injection Hx as H1 H2 H3. rewrite H1, H2, H3.
    by rewrite (en_metered t0 g ks Hen). }
  apply (updateLimits_room now a k t); [lia| | |].
  - eapply Forall_impl; [exact Hcalls|]. intros c (_ & Hv & Hs & Ht). split_and!; [done..|].
    destruct Ht as [|Hb]; [by left|right]. by rewrite (proj1 (Hmt _)).
  - intros Hb. destruct (Hmt t) as (E1 & -> & ->). rewrite E1 in Hb.
    set (b := {| eb_token := yield_token p; eb_limit := sb_limit (yield_budget p);
                 eb_refreshIntervalSeconds := sb_refreshIntervalSeconds (yield_budget p) |}).
    assert (Hbud : budgetAt g t = Some b).
    { unfold budgetAt. rewrite (ys_budgets p g Hscope), filter_cons, decide_True by done. done. }
    destruct (en_budgets t0 g ks Hen t b Hbud Hb) as [-> ->].
    destruct (go_limits g Hok b) as [L1 L2]; [rewrite (ys_budgets p g Hscope); left|].
    unfold b in *. cbn [eb_limit eb_refreshIntervalSeconds] in L1, L2 |- *.
    split; cbn [limitUsed limitAmount freshLimit freshTimeInfo lastUsed refreshInterval];
      unfold uint48; rewrite ?Z.mod_small by lia; destruct (sb_refreshIntervalSeconds (yield_budget p) =? 0); try lia.
  - rewrite HmT, HmL. split; cbn; unfold UINT48, UINT256 in *; lia.
Qed.
End live.

(** ** The calls of the batch are admitted *)

Section batch.
Context `{ViemLaws}.
Context (p : SpendFromYieldGrantParameters) (g : BufiGrant).
Context (Hscope : yield_scope p g) (Hok : grant_ok g).

(** The payments are in the granted token and the adopted vaults are granted. *)
Record spend_in_scope (ps : BuildSpendFromYieldCallsParameters) : Prop := {
  ss_payments : yc_payments ps ≠ [];
  ss_token pay : pay ∈ yc_payments ps →
    isAddress (yp_token pay) = true ∧ toLowerCase (yp_token pay) = toLowerCase (yield_token p);
  ss_vaults v : v ∈ yc_vaults ps →
    isAddress (vc_vault v) = true ∧ ∃ v', v' ∈ yield_vaults p ∧ toLowerCase v' = toLowerCase (vc_vault v);
  ss_total : sumZ (yp_amount <$> yc_payments ps) ≤ sb_limit (yield_budget p) }.

Lemma vaultMap_elem vaults key vault :
  vaultMap vaults !! key = Some vault → ∃ v, v ∈ vaults ∧ vc_vault v = vault.
Proof.
  unfold vaultMap. enough (∀ m, foldl (λ m v, <[normalize (vc_token v) := vc_vault v]> m) m vaults !! key = Some vault →
    m !! key = Some vault ∨ ∃ v, v ∈ vaults ∧ vc_vault v = vault) as G
    by (intros Hl; by destruct (G ∅ Hl) as [Hm|]; [rewrite lookup_empty in Hm|]).
  induction vaults as [|v vaults IH]; intros m Hl; cbn [foldl] in Hl; [by left|].
  destruct (IH _ Hl) as [Hm|(v' & ? & ?)]; [|right; exists v'; set_solver].
  destruct (decide (key = normalize (vc_token v))) as [->|Hne].
  - rewrite lookup_insert_eq in Hm. injection Hm as <-. right. exists v. set_solver.
  - rewrite lookup_insert_ne in Hm by done. by left.
Qed.

Lemma transfers_admitted ps cs :
  spend_in_scope ps → mapM transferCall (yc_payments ps) = Ok cs →
  Forall (admitted p g) (toEvm <$> cs) ∧
  spentOn (hexNumber (yield_token p)) (toEvm <$> cs) = sumZ (yp_amount <$> yc_payments ps).
Proof.
  intros [_ Htok _ _] Hm. apply mapM_ok in Hm.
  assert (Hty := yield_token_address p g Hscope Hok).
  induction Hm as [|pay c pays cs Hc Hm IH]; [done|].
  destruct IH as [I1 I2]; [intros; apply Htok; by right|].
  unfold transferCall in Hc. apply bind_ok in Hc as (data & Hd & Hc). apply ok_inj in Hc as <-.
  apply transfer_data in Hd as (D1 & D2 & D3).
  destruct (Htok pay) as [T1 T2]; [left|].
  assert (Ht : hexNumber (yp_token pay) = hexNumber (yield_token p)) by by apply address_eq.
  rewrite !fmap_cons. unfold toEvm at 1 3. cbn [call_target call_value call_data]. split.
  - constructor; [|done]. split_and!; cbn [ec_target ec_value ec_data]; [|done|lia|by left].
    rewrite Ht. by apply (transfer_allowed p g Hscope Hok).
  - unfold spentOn in *. rewrite filter_cons, decide_True by done. rewrite !sumZ_fmap_cons, I2.
    cbn [ec_data]. by rewrite D2.
Qed.

Lemma withdrawals_admitted ps liquid needed ws :
  spend_in_scope ps → sourceShortfalls (yc_account ps) liquid (vaultMap (yc_vaults ps)) needed = Ok ws →
  Forall (admitted p g) (toEvm <$> ws.*1) ∧
  spentOn (hexNumber (yield_token p)) (toEvm <$> ws.*1) = 0.
Proof.
  intros [_ _ Hv _] Hs. apply sourceShortfalls_ok in Hs.
  induction Hs as [|e w es ws (S1 & S2 & S3 & S4) Hs [I1 I2]]; [done|].
  apply vaultMap_elem in S1 as (v & Hin & Hvv). destruct (Hv v Hin) as (V1 & v' & V2 & V3).
  rewrite Hvv in V1, V3. apply withdraw_data in S3.
  destruct (withdraw_allowed p g Hscope Hok v' (call_target w.1) (call_data w.1) V2 V1 V3 S3) as [A1 A2].
  assert (Hz : getTokenSpendAmount (call_data w.1) = 0)
    by (unfold getTokenSpendAmount; by rewrite withdraw_not_spend).
  rewrite !fmap_cons. split.
  - constructor; [|done]. unfold admitted, toEvm. cbn [ec_target ec_value ec_data]. rewrite Hz.
    split_and!; [done|done|lia|by right].
  - unfold spentOn in *. rewrite filter_cons. case_decide; [|exact I2].
    rewrite sumZ_fmap_cons, I2. unfold toEvm. cbn [ec_data]. lia.
Qed.

Lemma batch_admitted ps r :
  spend_in_scope ps → buildSpendFromYieldCalls ps = Ok r →
  Forall (admitted p g) (toEvm <$> sc_calls r) ∧ toEvm <$> sc_calls r ≠ [] ∧
  spentOn (hexNumber (yield_token p)) (toEvm <$> sc_calls r) = sumZ (yp_amount <$> yc_payments ps).
Proof.
  intros Hss Hb. unfold buildSpendFromYieldCalls in Hb.
  apply bind_ok in Hb as (m & _ & Hb). apply bind_ok in Hb as (ws & Hs & Hb).
  apply bind_ok in Hb as (ts & Ht & Hb). apply ok_inj in Hb as <-. cbn [sc_calls].
  destruct (transfers_admitted ps ts Hss Ht) as [T1 T2].
  destruct (withdrawals_admitted ps _ _ ws Hss Hs) as [W1 W2].
  rewrite fmap_app. split_and!.
  - by apply Forall_app.
  - intros [_ E]%app_nil. apply mapM_ok, Forall2_length in Ht. destruct ts; [|done].
    apply (ss_payments ps Hss). by apply nil_length_inv.
  - unfold spentOn in *. by rewrite filter_app, fmap_app, sumZ_app, W2, T2.
Qed.
End batch.

(** What the agent's operation must look like for the key to accept it: the
    key's own nonce lane, gas within the gas budget, the required paymaster. *)
Record op_accepted (p : SpendFromYieldGrantParameters) `{Viem} (k : Z) (op : PackedUserOperation) : Prop := {
  oa_lane : (uo_nonce op / 2 ^ 64) mod 2 ^ 192 = k;
  oa_gas : ∃ cost, getMaxGasCost op = Ok cost ∧
    0 ≤ cost ≤ sb_limit (default DEFAULT_AGENT_GAS_BUDGET (pb_gas (yield_base p)));
  oa_paymaster q : truthy (pb_requiredPaymaster (yield_base p)) = Some q →
    match uo_paymaster op with Some pm => pm_address pm | None => 0 end = hexNumber q }.

(** C32: an agent that was granted the spend-from-yield role can actually pay:
    once its key is registered with the preset, every batch
    [buildSpendFromYieldCalls] builds for payments in the granted token, within
    the budget and out of granted vaults, passes the plugin's validation with
    the grant's validity window and is executed by the plugin, withdrawals
    first. In particular the vault withdrawals are not blocked by the token's
    budget, and an address may be written in any case. *)
Theorem yield_payment_goes_through `{KeySetLaws T} `{ViemLaws}
    (st st1 : Plugin T) t0 now a k p g us ps r op :
  spendFromYieldGrant p = Ok g → buildBufiGrant g = Ok us →
  reachable st → addSessionKey t0 a k us st = Ok st1 →
  buildSpendFromYieldCalls ps = Ok r → spend_in_scope p ps → op_accepted p k op →
  0 ≤ t0 ≤ now → now < UINT48 → now + sb_refreshIntervalSeconds (yield_budget p) < UINT48 →
  let calls := toEvm <$> sc_calls r in
  ∃ v st2 st3,
    userOpValidation a op calls k (Some k) st1 = Ok (true, v, st2) ∧
    v = {| va_success := true; va_after := grantValidAfter g; va_until := ex_validUntil (g_expiry g) |} ∧
    executeWithSessionKey now a calls k st2 = Ok (calls, st3).
Proof.
  intros Hg Hb Hr Ha Hc Hss [Hlane (cost & Hcost & Hgas) Hpm] Ht0 Hnow Hint calls.
  destruct (granted_key st t0 a k g us st1 Hr Hb Ha) as (Hok & Hp & _).
  pose proof (grantStore_enforces t0 g) as Hen. set (ks := grantStore t0 g emptyKeyStore) in *.
  apply spendFromYield_scope in Hg as Hscope.
  destruct (batch_admitted p g Hscope Hok ps r Hss Hc) as (Hadm & Hne & Hsum). fold calls in Hadm, Hne, Hsum.
  unfold policyOf in Hp. destruct (ks_contains (sessionKeys st1) a k) eqn:Hk; [|discriminate].
  apply (inj Some) in Hp.
  assert (Hmax : cost < UINT256).
  { unfold getMaxGasCost in Hcost. destruct (match uo_paymaster op with Some _ => _ | None => _ end) as [g1 g2].
    do 4 apply bind_ok in Hcost as (? & _ & Hcost). unfold mul256 in Hcost.
    destruct (_ <? UINT256) eqn:E; [|discriminate]. apply ok_inj in Hcost as <-. by zify_bool. }
  destruct (validation_succeeds t0 p g ks Hscope Hok Hen calls Hadm op k cost Hne Hlane Hcost Hgas Hmax Hpm)
    as (ks' & Hval & Hmeter).
  destruct (execution_succeeds t0 now p g ks Hscope Hok Hen calls Hadm a k ks' Hmeter Ht0 Hnow Hint) as (ks'' & Hex).
  { rewrite Hsum. apply (ss_total p ps Hss). }
  unfold userOpValidation, executeWithSessionKey. rewrite Hk, Hp, Hval. cbn [negb mbind result_bind va_success].
  do 3 eexists. split; [by rewrite bool_decide_eq_true_2|]. split; [done|].
  rewrite idOf_setStore, storeOf_set, decide_True by done. rewrite Hex. done.
Qed.

Definition sample_yield : SpendFromYieldGrantParameters :=
  {| yield_base := sample_base; yield_token := sample_token; yield_vaults := [sample_vault];
     yield_recipients := [sample_payee];
     yield_budget := {| sb_limit := 100; sb_refreshIntervalSeconds := 60 |};
     yield_includeRedeem := None |}.
Definition sample_yield_grant : BufiGrant :=
  match spendFromYieldGrant sample_yield with Ok g => g | Throw _ => sample_grant end.
Definition sample_yield_updates : list (list Z) :=
  match buildBufiGrant sample_yield_grant with Ok us => us | Throw _ => [] end.
Definition sample_yield_plugin : Plugin (list (Z * Z)) :=
  run_op 1000 (OpAdd 1 7 sample_yield_updates) sample_plugin.
Definition sample_op : PackedUserOperation :=
  {| uo_nonce := 7 * 2 ^ 64; uo_verificationGasLimit := 100; uo_callGasLimit := 50;
     uo_preVerificationGas := 20; uo_maxFeePerGas := 2; uo_paymaster := None |}.

Lemma yield_payment_goes_through_witness :
  length (sc_calls sample_spend_calls) = 3%nat ∧
  ∃ v st2 st3,
    userOpValidation 1 sample_op (toEvm <$> sc_calls sample_spend_calls) 7 (Some 7) sample_yield_plugin
      = Ok (true, v, st2) ∧
    v = {| va_success := true; va_after := 0; va_until := 5000 |} ∧
    executeWithSessionKey 1200 1 (toEvm <$> sc_calls sample_spend_calls) 7 st2
      = Ok (toEvm <$> sc_calls sample_spend_calls, st3).
Proof.
  split; [vm_compute; reflexivity|].
  assert (E1 : spendFromYieldGrant sample_yield = Ok sample_yield_grant) by (vm_compute; reflexivity).
  assert (E2 : buildBufiGrant sample_yield_grant = Ok sample_yield_updates) by (vm_compute; reflexivity).
  assert (E3 : addSessionKey 1000 1 7 sample_yield_updates sample_plugin = Ok sample_yield_plugin)
    by (vm_compute; reflexivity).
  assert (E4 : buildSpendFromYieldCalls sample_spend = Ok sample_spend_calls) by (vm_compute; reflexivity).
  apply (yield_payment_goes_through sample_plugin sample_yield_plugin 1000 1200 1 7 sample_yield
    sample_yield_grant sample_yield_updates sample_spend sample_spend_calls sample_op
    E1 E2 sample_plugin_reachable E3 E4).
  - split; [done| | |vm_compute; congruence].
    + apply Forall_forall. unfold sample_spend. cbn [yc_payments].
      repeat (apply Forall_cons_2; [split; vm_compute; reflexivity|]). apply Forall_nil_2.
    + apply Forall_forall. unfold sample_spend. cbn [yc_vaults].
      apply Forall_cons_2; [|apply Forall_nil_2]. split; [vm_compute; reflexivity|].
      exists sample_vault. split; [left|reflexivity].
  - split; [vm_compute; reflexivity| |done].
    exists 340. split; [vm_compute; reflexivity|]. vm_compute. split; congruence.
  - lia.
  - vm_compute. reflexivity.
  - vm_compute. reflexivity.
Defined.
