(* ===== verification/AgentFace.v ===== *)
(** * Plugin calls and the agent and treasury faces

    Models the encoders of [packages/modular-wallets-core/src/actions/plugins]
    (session key, plugin manager, address book, weighted multisig, earn), the
    builders of [cascade/buildAgentFaceCalls.ts] and
    [cascade/buildTreasuryBootstrapCalls.ts], and the deployments of
    [constants/deployments.ts] and [utils/deployment/toStackDeployment.ts]. *)

From S2P Require Import Prelude.
From S2P Require Import Js.
From S2P Require Import CreJson.
From S2P Require Import Encoding.
From S2P Require Import Abi.
From S2P Require Import EvmAbi.
From S2P Require Import AbiLayout.
From S2P Require Import AbiSample.
From S2P Require Import SessionKey.
From S2P Require Import SessionKeyChecks.
From S2P Require Import SessionKeyPlugin.
From S2P Require Import SessionKeySpend.
From S2P Require Import Grant.
From S2P Require Import YieldCalls.

(** ** Data *)

Record PluginDeployment : Type := { pd_address : string; pd_manifestHash : string }.

Record StackDeployment : Type := {
  sd_chainId : option Z;
  sd_entryPoint : string;
  sd_upgradableMscaFactory : string;
  sd_upgradableMsca : string;
  sd_pluginManager : string;
  sd_weightedWebauthnMultisig : PluginDeployment;
  sd_coldStorageAddressBook : PluginDeployment;
  sd_bufiSessionKey : option PluginDeployment;
  sd_bufiEarnModule : option PluginDeployment;
  sd_bufiSessionRecipientHook : option PluginDeployment;
  sd_paymaster : option string;
  sd_tokens : option (list (string * string)) }.

Record FunctionReference : Type := { fr_plugin : string; fr_functionId : Z }.

Record EncodedCall : Type := { en_to : string; en_value : Z; en_data : list Z }.

Record SessionKeyRegistration : Type := {
  sr_sessionKey : string;
  sr_tag : option string;
  sr_permissionUpdates : list (list Z) }.

(** viem's 32 zero bytes. *)
Definition zeroHash : string := "0x0000000000000000000000000000000000000000000000000000000000000000".

(** ** Deployments *)

Definition ENTRY_POINT_07_ADDRESS : string := "0x0000000071727De22E5E9d8BAf0edAc6f37da032".
Definition FACTORY : string := "0x0000000DF7E6c9Dc387cAFc5eCBfa6c3a6179AdD".
Definition UPGRADABLE_MSCA : string := "0xA70F1296869DA9D7CB69578123F21888E6dB2B62".
Definition CIRCLE_WEIGHTED_WEB_AUTHN_MULTISIG_PLUGIN : PluginDeployment :=
  {| pd_address := "0x0000000C984AFf541D6cE86Bb697e68ec57873C8";
     pd_manifestHash := "0xa043327d77a74c1c55cfa799284b831fe09535a88b9f5fa4173d334e5ba0fd91" |}.
Definition CIRCLE_PLUGIN_MANAGER : string := "0x00000005e69188224e4dEeF607801916DC0936d5".
Definition CIRCLE_COLD_STORAGE_ADDRESS_BOOK_PLUGIN : PluginDeployment :=
  {| pd_address := "0x0000000d81083B16EA76dfab46B0315B0eDBF3d0";
     pd_manifestHash := "0x9d177c1c9573b10436b693b7a49f0face36b677c1606a2c579bba1415be349d8" |}.

Definition CIRCLE_CANONICAL_DEPLOYMENT : StackDeployment :=
  {| sd_chainId := None;
     sd_entryPoint := ENTRY_POINT_07_ADDRESS;
     sd_upgradableMscaFactory := FACTORY;
     sd_upgradableMsca := UPGRADABLE_MSCA;
     sd_pluginManager := CIRCLE_PLUGIN_MANAGER;
     sd_weightedWebauthnMultisig := CIRCLE_WEIGHTED_WEB_AUTHN_MULTISIG_PLUGIN;
     sd_coldStorageAddressBook := CIRCLE_COLD_STORAGE_ADDRESS_BOOK_PLUGIN;
     sd_bufiSessionKey := None; sd_bufiEarnModule := None; sd_bufiSessionRecipientHook := None;
     sd_paymaster := None; sd_tokens := None |}.

Definition WEIGHTED_MULTISIG_OWNER_USER_OP_VALIDATION_FUNCTION_ID : Z := 0.
Definition WEIGHTED_MULTISIG_UNIMPLEMENTED_RUNTIME_VALIDATION_FUNCTION_ID : Z := 1.
Definition EARN_MODULE_OWNER_RUNTIME_VALIDATION_DEPENDENCY_INDEX : nat := 0.
Definition EARN_MODULE_OWNER_USER_OP_VALIDATION_DEPENDENCY_INDEX : nat := 1.

Definition bufiSessionKey_testnet : PluginDeployment :=
  {| pd_address := "0xBd607dBAC82CF1351C352FB65fC29dE9D0095339";
     pd_manifestHash := "0xa32b3449ba437645e2386051ad0fcb64b0c2a9fed66b2eb4349505a2cb11ff5d" |}.
Definition bufiEarnModule_testnet : PluginDeployment :=
  {| pd_address := "0xeb94A8b7412418B506b24dBeD4Aed0E9ba5453c2";
     pd_manifestHash := "0x5adab6895bc4f41df3405079667ae5103316a130ce3ebe225402958a96652e53" |}.
Definition bufiSessionRecipientHook_testnet : PluginDeployment :=
  {| pd_address := "0xAa8B4fb76e8Eb712435E2b948B3A35c4C069d98A";
     pd_manifestHash := "0x0870010f2468b943064a0d1273050e7e37bd40ca26c70138156e850a57e999da" |}.

(** The canonical stack with the testnet plugins on one chain. *)
Definition testnetDeployment (chainId : Z) (usdc : string) : StackDeployment :=
  {| sd_chainId := Some chainId;
     sd_entryPoint := sd_entryPoint CIRCLE_CANONICAL_DEPLOYMENT;
     sd_upgradableMscaFactory := sd_upgradableMscaFactory CIRCLE_CANONICAL_DEPLOYMENT;
     sd_upgradableMsca := sd_upgradableMsca CIRCLE_CANONICAL_DEPLOYMENT;
     sd_pluginManager := sd_pluginManager CIRCLE_CANONICAL_DEPLOYMENT;
     sd_weightedWebauthnMultisig := sd_weightedWebauthnMultisig CIRCLE_CANONICAL_DEPLOYMENT;
     sd_coldStorageAddressBook := sd_coldStorageAddressBook CIRCLE_CANONICAL_DEPLOYMENT;
     sd_bufiSessionKey := Some bufiSessionKey_testnet;
     sd_bufiEarnModule := Some bufiEarnModule_testnet;
     sd_bufiSessionRecipientHook := Some bufiSessionRecipientHook_testnet;
     sd_paymaster := None;
     sd_tokens := Some [("usdc", usdc)] |}.
Definition AVAX_FUJI_DEPLOYMENT : StackDeployment :=
  testnetDeployment 43113 "0x5425890298aed601595a70AB815c96711a31Bc65".
Definition ARC_TESTNET_DEPLOYMENT : StackDeployment :=
  testnetDeployment 5042002 "0x3600000000000000000000000000000000000000".

(** ** ABIs *)

Definition CALL_COMPONENTS : list abi_type := [TAddress; TUint 256; TBytes].
Definition SESSION_KEY_PLUGIN_ABI : list abi_item :=
  [{| item_name := "executeWithSessionKey"; item_inputs := [TArray (TTuple CALL_COMPONENTS); TAddress] |};
   {| item_name := "addSessionKey"; item_inputs := [TAddress; TBytesN 32; TArray TBytes] |};
   {| item_name := "removeSessionKey"; item_inputs := [TAddress; TBytesN 32] |};
   {| item_name := "rotateSessionKey"; item_inputs := [TAddress; TBytesN 32; TAddress] |};
   {| item_name := "updateKeyPermissions"; item_inputs := [TAddress; TArray TBytes] |}].
Definition SESSION_KEY_INSTALL_DATA_ABI_PARAMS : list abi_type :=
  [TArray TAddress; TArray (TBytesN 32); TArray (TArray TBytes)].
Definition PLUGIN_MANAGER_ABI : list abi_item :=
  [{| item_name := "installPlugin";
      item_inputs := [TAddress; TBytesN 32; TBytes; TArray (TTuple [TAddress; TUint 8])] |};
   {| item_name := "uninstallPlugin"; item_inputs := [TAddress; TBytes; TBytes] |}].
Definition ADDRESS_BOOK_PLUGIN_ABI : list abi_item :=
  [{| item_name := "addAllowedRecipients"; item_inputs := [TArray TAddress] |};
   {| item_name := "removeAllowedRecipients"; item_inputs := [TArray TAddress] |};
   {| item_name := "getAllowedRecipients"; item_inputs := [TAddress] |}].
Definition ADDRESS_BOOK_INSTALL_DATA_ABI_PARAMS : list abi_type := [TArray TAddress].
Definition CIRCLE_PLUGIN_UPDATE_MULTISIG_WEIGHTS_ABI : list abi_item :=
  [{| item_name := "updateMultisigWeights";
      item_inputs := [TArray TAddress; TArray (TUint 256); TArray (TTuple [TUint 256; TUint 256]);
                      TArray (TUint 256); TUint 256] |}].
Definition CONFIG_INPUT_COMPONENTS : list abi_type := [TUint 256; TAddress; TAddress].
Definition EARN_MODULE_ABI : list abi_item :=
  [{| item_name := "autoEarn"; item_inputs := [TAddress; TUint 256] |};
   {| item_name := "changeConfigHash"; item_inputs := [TUint 256] |};
   {| item_name := "setConfig"; item_inputs := [TArray (TTuple CONFIG_INPUT_COMPONENTS)] |}].
Definition EARN_CONFIG_ABI_PARAMS : list abi_type := [TArray (TTuple CONFIG_INPUT_COMPONENTS)].
Definition EARN_MODULE_INSTALL_DATA_ABI_PARAMS : list abi_type := [TUint 256].

Section encoders.
Context `{Viem}.
Notation Hex := (list Z).

(** ** Plugin manager *)

Definition encodeInstallPlugin (account plugin manifestHash : string) (pluginInstallData : option Hex)
    (dependencies : option (list FunctionReference)) : result ts_error EncodedCall :=
  data ← encodeFunctionData PLUGIN_MANAGER_ABI "installPlugin"
    [AText plugin; AText manifestHash; AData (default [] pluginInstallData);
     AList ((λ d, AStruct [("plugin", AText (fr_plugin d)); ("functionId", ANum (fr_functionId d))])
            <$> default [] dependencies)];
  mret {| en_to := account; en_value := 0; en_data := data |}.

Definition encodeUninstallPlugin (account plugin : string) (config pluginUninstallData : option Hex) :
    result ts_error EncodedCall :=
  data ← encodeFunctionData PLUGIN_MANAGER_ABI "uninstallPlugin"
    [AText plugin; AData (default [] config); AData (default [] pluginUninstallData)];
  mret {| en_to := account; en_value := 0; en_data := data |}.

(** ** Session keys *)

Definition encodeAddSessionKey (r : SessionKeyRegistration) : result ts_error Hex :=
  encodeFunctionData SESSION_KEY_PLUGIN_ABI "addSessionKey"
    [AText (sr_sessionKey r); AText (default zeroHash (sr_tag r)); AList (AData <$> sr_permissionUpdates r)].

Definition encodeExecuteWithSessionKey (calls : list Call) (sessionKey : string) : result ts_error Hex :=
  encodeFunctionData SESSION_KEY_PLUGIN_ABI "executeWithSessionKey"
    [AList ((λ c, AStruct [("target", AText (call_target c)); ("value", ANum (call_value c));
                           ("data", AData (call_data c))]) <$> calls);
     AText sessionKey].

Definition encodeRemoveSessionKey (sessionKey predecessor : string) : result ts_error Hex :=
  encodeFunctionData SESSION_KEY_PLUGIN_ABI "removeSessionKey" [AText sessionKey; AText predecessor].

Definition encodeRotateSessionKey (oldSessionKey predecessor newSessionKey : string) : result ts_error Hex :=
  encodeFunctionData SESSION_KEY_PLUGIN_ABI "rotateSessionKey"
    [AText oldSessionKey; AText predecessor; AText newSessionKey].

Definition encodeUpdateKeyPermissions (sessionKey : string) (updates : list Hex) : result ts_error Hex :=
  encodeFunctionData SESSION_KEY_PLUGIN_ABI "updateKeyPermissions" [AText sessionKey; AList (AData <$> updates)].

Definition encodeSessionKeyInstallData (registrations : list SessionKeyRegistration) : result ts_error Hex :=
  encodeAbiParameters SESSION_KEY_INSTALL_DATA_ABI_PARAMS
    [AList ((λ r, AText (sr_sessionKey r)) <$> registrations);
     AList ((λ r, AText (default zeroHash (sr_tag r))) <$> registrations);
     AList ((λ r, AList (AData <$> sr_permissionUpdates r)) <$> registrations)].

Definition sessionKeyDependencies (weightedPluginAddress : string) : list FunctionReference :=
  [{| fr_plugin := weightedPluginAddress;
      fr_functionId := WEIGHTED_MULTISIG_UNIMPLEMENTED_RUNTIME_VALIDATION_FUNCTION_ID |};
   {| fr_plugin := weightedPluginAddress;
      fr_functionId := WEIGHTED_MULTISIG_OWNER_USER_OP_VALIDATION_FUNCTION_ID |}].

Definition encodeInstallSessionKeyPlugin (account : string) (registrations : option (list SessionKeyRegistration))
    (deployment : StackDeployment) : result ts_error EncodedCall :=
  match sd_bufiSessionKey deployment with
  | None => Throw (Err "The stack deployment has no BUFI session key plugin.")
  | Some plugin =>
      data ← encodeSessionKeyInstallData (default [] registrations);
      encodeInstallPlugin account (pd_address plugin) (pd_manifestHash plugin) (Some data)
        (Some (sessionKeyDependencies (pd_address (sd_weightedWebauthnMultisig deployment))))
  end.

(** ** Address book *)

Definition addressBookDependencies (weightedPluginAddress : string) : list FunctionReference :=
  [{| fr_plugin := weightedPluginAddress;
      fr_functionId := WEIGHTED_MULTISIG_UNIMPLEMENTED_RUNTIME_VALIDATION_FUNCTION_ID |};
   {| fr_plugin := weightedPluginAddress;
      fr_functionId := WEIGHTED_MULTISIG_OWNER_USER_OP_VALIDATION_FUNCTION_ID |}].

Definition encodeAddAllowedRecipients (recipients : list string) : result ts_error Hex :=
  encodeFunctionData ADDRESS_BOOK_PLUGIN_ABI "addAllowedRecipients" [AList (AText <$> recipients)].

Definition encodeRemoveAllowedRecipients (recipients : list string) : result ts_error Hex :=
  encodeFunctionData ADDRESS_BOOK_PLUGIN_ABI "removeAllowedRecipients" [AList (AText <$> recipients)].

(** The filter that keeps the first spelling of every recipient. *)
Fixpoint uniqueRecipients (seen : gset string) (recipients : list string) : list string :=
  match recipients with
  | [] => []
  | r :: recipients =>
      let key := toLowerCase r in
      if bool_decide (key ∈ seen) then uniqueRecipients seen recipients
      else r :: uniqueRecipients ({[key]} ∪ seen) recipients
  end.

Definition encodeAddressBookInstallData (recipients : list string) : result ts_error Hex :=
  encodeAbiParameters ADDRESS_BOOK_INSTALL_DATA_ABI_PARAMS
    [AList (AText <$> uniqueRecipients ∅ recipients)].

Definition encodeInstallAddressBook (account : string) (recipients : option (list string))
    (deployment : option StackDeployment) : result ts_error EncodedCall :=
  let deployment := default CIRCLE_CANONICAL_DEPLOYMENT deployment in
  data ← encodeAddressBookInstallData (default [] recipients);
  encodeInstallPlugin account (pd_address (sd_coldStorageAddressBook deployment))
    (pd_manifestHash (sd_coldStorageAddressBook deployment)) (Some data)
    (Some (addressBookDependencies (pd_address (sd_weightedWebauthnMultisig deployment)))).

(** ** Weighted multisig *)

Record EncodeUpdateMultisigWeightsParameters : Type := {
  uw_owners : option (list (string * Z));
  uw_publicKeyOwners : option (list (Z * Z * Z));      (* x, y, weight *)
  uw_thresholdWeight : Z }.

Definition encodeUpdateMultisigWeights (p : EncodeUpdateMultisigWeightsParameters) : result ts_error Hex :=
  let owners := default [] (uw_owners p) in
  let publicKeyOwners := default [] (uw_publicKeyOwners p) in
  encodeFunctionData CIRCLE_PLUGIN_UPDATE_MULTISIG_WEIGHTS_ABI "updateMultisigWeights"
    [AList ((λ o, AText o.1) <$> owners);
     AList ((λ o, ANum o.2) <$> owners);
     AList ((λ o, AStruct [("x", ANum o.1.1); ("y", ANum o.1.2)]) <$> publicKeyOwners);
     AList ((λ o, ANum o.2) <$> publicKeyOwners);
     ANum (uw_thresholdWeight p)].

(** ** Earn module *)

Record EarnConfigInput : Type := { ec_chainId : Z; ec_token : string; ec_vault : string }.

Definition computeEarnConfigHash (configs : list EarnConfigInput) : result ts_error Z :=
  data ← encodeAbiParameters EARN_CONFIG_ABI_PARAMS
    [AList ((λ c, AStruct [("chainId", ANum (ec_chainId c)); ("token", AText (ec_token c));
                           ("vault", AText (ec_vault c))]) <$> configs)];
  mret (keccak256 data).

(** The slots are assigned by index into an empty array; both indices are
    known, so the array is their table. *)
Definition earnModuleDependencies (weightedPluginAddress : string) : list FunctionReference :=
  let runtime := {| fr_plugin := weightedPluginAddress;
                    fr_functionId := WEIGHTED_MULTISIG_UNIMPLEMENTED_RUNTIME_VALIDATION_FUNCTION_ID |} in
  let userOp := {| fr_plugin := weightedPluginAddress;
                   fr_functionId := WEIGHTED_MULTISIG_OWNER_USER_OP_VALIDATION_FUNCTION_ID |} in
  (λ i, if (i =? EARN_MODULE_OWNER_USER_OP_VALIDATION_DEPENDENCY_INDEX)%nat then userOp else runtime)
  <$> seq EARN_MODULE_OWNER_RUNTIME_VALIDATION_DEPENDENCY_INDEX 2.

Definition encodeAutoEarn (token : string) (amountToSave : Z) : result ts_error Hex :=
  encodeFunctionData EARN_MODULE_ABI "autoEarn" [AText token; ANum amountToSave].

Definition encodeChangeConfigHash (account : string) (newConfigHash : Z) : result ts_error EncodedCall :=
  data ← encodeFunctionData EARN_MODULE_ABI "changeConfigHash" [ANum newConfigHash];
  mret {| en_to := account; en_value := 0; en_data := data |}.

Definition encodeEarnModuleInstallData (configHash : Z) : result ts_error Hex :=
  throw_if (configHash <=? 0) (Err "Earn module config hash must be a non-zero uint256.") ≫= λ _,
  encodeAbiParameters EARN_MODULE_INSTALL_DATA_ABI_PARAMS [ANum configHash].

Definition encodeInstallEarnModule (account : string) (configHash : Z) (deployment : StackDeployment) :
    result ts_error EncodedCall :=
  match sd_bufiEarnModule deployment with
  | None => Throw (Err "The stack deployment has no BufiEarnModule.")
  | Some plugin =>
      data ← encodeEarnModuleInstallData configHash;
      encodeInstallPlugin account (pd_address plugin) (pd_manifestHash plugin) (Some data)
        (Some (earnModuleDependencies (pd_address (sd_weightedWebauthnMultisig deployment))))
  end.

(** ** Cascades *)

Record AgentGrant : Type := { ag_sessionKey : string; ag_tag : option string; ag_grant : BufiGrant }.

Record AgentFaceCalls : Type := {
  af_installSessionKeyPlugin : EncodedCall;
  af_addSessionKeys : list EncodedCall;
  af_registrations : list SessionKeyRegistration }.

(** The registration of one agent. *)
Definition registration (agent : AgentGrant) : result ts_error SessionKeyRegistration :=
  us ← buildBufiGrant (ag_grant agent);
  mret {| sr_sessionKey := ag_sessionKey agent; sr_tag := Some (default zeroHash (ag_tag agent));
          sr_permissionUpdates := us |}.

Definition buildAgentFaceCalls (account : string) (agents : list AgentGrant) (deployment : StackDeployment) :
    result ts_error AgentFaceCalls :=
  registrations ← mapM registration agents;
  install ← encodeInstallSessionKeyPlugin account (Some registrations) deployment;
  adds ← mapM (λ r, data ← encodeAddSessionKey r;
                    mret {| en_to := account; en_value := 0; en_data := data |}) registrations;
  mret {| af_installSessionKeyPlugin := install; af_addSessionKeys := adds; af_registrations := registrations |}.

Record TreasuryBootstrapCalls : Type := {
  tb_updateMultisigWeights : EncodedCall;
  tb_installAddressBook : EncodedCall }.

Definition buildTreasuryBootstrapCalls (account : string) (weights : EncodeUpdateMultisigWeightsParameters)
    (allowedRecipients : list string) (deployment : option StackDeployment) :
    result ts_error TreasuryBootstrapCalls :=
  data ← encodeUpdateMultisigWeights weights;
  install ← encodeInstallAddressBook account (Some allowedRecipients)
              (Some (default CIRCLE_CANONICAL_DEPLOYMENT deployment));
  mret {| tb_updateMultisigWeights := {| en_to := account; en_value := 0; en_data := data |};
          tb_installAddressBook := install |}.
End encoders.

(** ** The install data registers every agent under its grant *)

Lemma spec_adds_lookup `{Viem} (now a : Z) (keys : list (Z * list (list Z))) (P P' : policies) (k : Z) (us : list (list Z)) :
  spec_adds now a keys P = Some P' → (k, us) ∈ keys →
  ∃ ks, performUpdates now us emptyKeyStore = Ok ks ∧ P' !! (a, k) = Some ks.
Proof.
  revert P. induction keys as [|[k' us'] keys IH]; intros P Hs Hin; cbn [spec_adds] in Hs;
    [by apply elem_of_nil in Hin|].
  destruct (spec_add now a k' us' P) as [P1|] eqn:E; [|discriminate].
  apply elem_of_cons in Hin as [Hin|Hin]; [|by eapply IH].
  injection Hin as -> ->. unfold spec_add in E. destruct ((k' =? 0) || _); [discriminate|].
  destruct (performUpdates now us' emptyKeyStore) as [ks|]; [|discriminate]. injection E as <-.
  exists ks. split; [done|]. eapply spec_adds_keep; [exact Hs|]. by rewrite lookup_insert_eq.
Qed.

(** [abi.decode(data, (address[], bytes32[], bytes[][]))] in [onInstall], and the
    reading of the third array from the calldata, which finds the same bytes. *)
Definition decodeInstallData (data : list Z) : option (list Z * list Z * list (list (list Z))) :=
  sessionKeysToAdd ← readSeq readAddressAt data 0 0;
  tags ← readSeq readWordAt data 0 32;
  permissionUpdates ← readSeq (readSeq readBytes) data 0 64;
  Some (sessionKeysToAdd, tags, permissionUpdates).

Definition hexWord (w : Z) : string := "0x" +:+ hexDigits 64 w.

(** [onInstall(data)]: the modifier [isNotInitialized] runs before the body. *)
Definition onInstallData `{KeySet T} `{Viem} (now account : Z) (data : list Z) (st : Plugin T) : evm (Plugin T) :=
  if negb (bool_decide (ks_getAll (sessionKeys st) account = [])) then Throw AlreadyInitialized else
  match decodeInstallData data with
  | None => Throw AbiDecode
  | Some (sessionKeysToAdd, tags, permissionUpdates) =>
      onInstall now account sessionKeysToAdd (hexWord <$> tags) permissionUpdates st
  end.

Definition keyOf (r : SessionKeyRegistration) : Z := hexNumber (sr_sessionKey r).
Definition tagOf (r : SessionKeyRegistration) : string := default zeroHash (sr_tag r).

(** What the encoder writes, the decoder reads. *)
Lemma install_data_reads `{ViemLaws} `{!ViemParamLaws} regs data :
  Forall (λ r, hexData (tagOf r) = true) regs → encodeSessionKeyInstallData regs = Ok data →
  lenZ data < 2 ^ 64 →
  decodeInstallData data
  = Some (keyOf <$> regs, (λ r, hexNumber (tagOf r)) <$> regs, sr_permissionUpdates <$> regs).
Proof.
  intros Htags Hd Hlen. apply encodeAbiParameters_ok in Hd.
  2: { cbn [typedAll SESSION_KEY_INSTALL_DATA_ABI_PARAMS typed]. rewrite !andb_true_r, !andb_true_iff.
       repeat split; apply forallb_forall; intros v (r & -> & Hr)%list_elem_of_In%list_elem_of_fmap; cbn [typed]; [done|..].
       - rewrite Forall_forall in Htags. by apply Htags.
       - apply forallb_forall. by intros v (bs & -> & _)%list_elem_of_In%list_elem_of_fmap. }
  pose proof (λ A i t v elem value, abiEncode_reads (A := A) _ _ data i t v elem value Hd eq_refl Hlen) as Hread.
  pose proof (Hread _ 0%nat _ _ _ _ eq_refl eq_refl (decodes_array _ _ _ decodes_address)) as Hkeys.
  pose proof (Hread _ 1%nat _ _ _ _ eq_refl eq_refl (decodes_array _ _ _ decodes_bytes32)) as Hwords.
  pose proof (Hread _ 2%nat _ _ _ _ eq_refl eq_refl (decodes_array _ _ _ (decodes_array _ _ _ decodes_bytes)))
    as Hupdates.
  change (32 * Z.of_nat 0) with 0 in Hkeys. change (32 * Z.of_nat 1) with 32 in Hwords.
  change (32 * Z.of_nat 2) with 64 in Hupdates.
  unfold decodeInstallData. rewrite Hkeys, Hwords, Hupdates.
  cbn [mbind option_bind listOf]. rewrite <- !list_fmap_compose. do 2 f_equal.
  apply list_fmap_ext. intros _ r _. cbn [compose listOf]. rewrite <- list_fmap_compose. apply list_fmap_id.
Qed.

(** The registrations of a list of agents, installed, put every agent's key
    under its own grant. *)
Lemma registrations_enforce `{KeySetLaws T} `{ViemLaws} (st st' : Plugin T) now a agents regs tags :
  mapM registration agents = Ok regs → reachable st →
  onInstall now a (keyOf <$> regs) tags (sr_permissionUpdates <$> regs) st = Ok st' →
  ∀ agent, agent ∈ agents →
  ∃ ks, policyOf st' a (hexNumber (ag_sessionKey agent)) = Some ks ∧ enforces now (ag_grant agent) ks.
Proof.
  intros Hregs%mapM_ok Hr Hi agent Hin. destruct (reachable_represented st Hr) as (W & P & R).
  destruct (step_refines now (OpInstall a (keyOf <$> regs) tags (sr_permissionUpdates <$> regs)) st P st' W R Hi)
    as (_ & P' & HP' & R').
  cbn [spec_step] in HP'.
  apply list_elem_of_lookup in Hin as [i Hi']. destruct (Forall2_lookup_l _ _ _ _ _ Hregs Hi') as (reg & Hreg & E).
  unfold registration in E. apply bind_ok in E as (us & Hus & E). apply ok_inj in E as <-.
  assert (Hz : (hexNumber (ag_sessionKey agent), us) ∈ zip (keyOf <$> regs) (sr_permissionUpdates <$> regs)).
  { apply list_elem_of_lookup. exists i. by rewrite lookup_zip_with, !list_lookup_fmap, Hreg. }
  destruct (spec_adds_lookup _ _ _ _ _ _ _ HP' Hz) as (ks & Hks & Hl).
  exists ks. split; [by rewrite (R' a (hexNumber (ag_sessionKey agent)))|].
  destruct (build_perform now _ _ Hus) as [_ Hp]. rewrite Hp in Hks.
  case_bool_decide; [discriminate|]. apply ok_inj in Hks as <-. apply grantStore_enforces.
Qed.

Lemma registrations_tags `{Viem} agents regs :
  mapM registration agents = Ok regs →
  (∀ agent tag, agent ∈ agents → ag_tag agent = Some tag → hexData tag = true) →
  Forall (λ r, hexData (tagOf r) = true) regs.
Proof.
  intros Hregs%mapM_ok Ht. induction Hregs as [|agent reg agents regs E _ IH]; [constructor|].
  constructor; [|apply IH; intros a tag Ha; apply Ht; by right].
  unfold registration in E. apply bind_ok in E as (us & _ & E). apply ok_inj in E as <-. unfold tagOf. cbn [sr_tag default].
  destruct (ag_tag agent) as [tag|] eqn:Et; [|done]. apply (Ht agent); [left|done].
Qed.

(** C33: the install call [buildAgentFaceCalls] compiles is the [installPlugin]
    call of the deployment's session key plugin, and its install data puts every
    agent under its own grant: decoded by [onInstall] on an account without keys
    (the arrays read from the bytes by offset and length), every agent's key is
    registered, and its policy enforces exactly the grant that agent was given,
    whatever other agents are installed with it. The agents' tags are hexadecimal
    texts of whole bytes and the data is shorter than [2 ^ 64] bytes. *)
Theorem agent_face_enforces_grants `{KeySetLaws T} `{ViemLaws} `{!ViemParamLaws}
    account agents deployment r :
  buildAgentFaceCalls account agents deployment = Ok r →
  (∀ agent tag, agent ∈ agents → ag_tag agent = Some tag → hexData tag = true) →
  ∃ plugin data,
    sd_bufiSessionKey deployment = Some plugin ∧ encodeSessionKeyInstallData (af_registrations r) = Ok data ∧
    encodeInstallPlugin account (pd_address plugin) (pd_manifestHash plugin) (Some data)
      (Some (sessionKeyDependencies (pd_address (sd_weightedWebauthnMultisig deployment))))
    = Ok (af_installSessionKeyPlugin r) ∧
    ∀ (st st' : Plugin T) now a, lenZ data < 2 ^ 64 → reachable st → onInstallData now a data st = Ok st' →
    ∀ agent, agent ∈ agents →
    ∃ ks, policyOf st' a (hexNumber (ag_sessionKey agent)) = Some ks ∧ enforces now (ag_grant agent) ks.
Proof.
  intros Hb Ht. unfold buildAgentFaceCalls in Hb.
  apply bind_ok in Hb as (regs & Hregs & Hb). apply bind_ok in Hb as (install & Hin & Hb).
  apply bind_ok in Hb as (adds & _ & Hb). apply ok_inj in Hb as <-. cbn [af_installSessionKeyPlugin af_registrations].
  unfold encodeInstallSessionKeyPlugin in Hin. destruct (sd_bufiSessionKey deployment) as [plugin|]; [|discriminate].
  apply bind_ok in Hin as (data & Hdata & Hin). cbn [default] in Hdata.
  exists plugin, data. do 3 (split; [done|]). intros st st' now a Hlen Hr Hi.
  unfold onInstallData in Hi. destruct (negb _); [discriminate|].
  rewrite (install_data_reads regs data) in Hi by eauto using registrations_tags.
  by eapply registrations_enforce.
Qed.

Definition sample_agents : list AgentGrant :=
  [{| ag_sessionKey := "0x0000000000000000000000000000000000000007"; ag_tag := None; ag_grant := sample_grant |};
   {| ag_sessionKey := "0x0000000000000000000000000000000000000008"; ag_tag := None; ag_grant := sample_grant |}].
Definition sample_face : AgentFaceCalls :=
  match buildAgentFaceCalls sample_account sample_agents ARC_TESTNET_DEPLOYMENT with
  | Ok r => r
  | Throw _ => {| af_installSessionKeyPlugin := {| en_to := ""; en_value := 0; en_data := [] |};
                  af_addSessionKeys := []; af_registrations := [] |}
  end.
Definition sample_registrations : list SessionKeyRegistration := af_registrations sample_face.
Definition sample_install_data : list Z :=
  match encodeSessionKeyInstallData sample_registrations with Ok data => data | Throw _ => [] end.
Definition sample_installed : Plugin (list (Z * Z)) :=
  match onInstallData 1000 2 sample_install_data sample_plugin with Ok st => st | Throw _ => sample_plugin end.

Lemma agent_face_enforces_grants_witness :
  encodeSessionKeyInstallData sample_registrations = Ok sample_install_data ∧
  onInstallData 1000 2 sample_install_data sample_plugin = Ok sample_installed ∧
  (∃ ks, policyOf sample_installed 2 7 = Some ks ∧ enforces 1000 sample_grant ks) ∧
  ∃ ks, policyOf sample_installed 2 8 = Some ks ∧ enforces 1000 sample_grant ks.
Proof.
  assert (E1 : buildAgentFaceCalls sample_account sample_agents ARC_TESTNET_DEPLOYMENT = Ok sample_face)
    by (vm_compute; reflexivity).
  assert (E2 : encodeSessionKeyInstallData sample_registrations = Ok sample_install_data)
    by (vm_compute; reflexivity).
  assert (E3 : onInstallData 1000 2 sample_install_data sample_plugin = Ok sample_installed)
    by (vm_compute; reflexivity).
  assert (E4 : lenZ sample_install_data < 2 ^ 64) by (vm_compute; reflexivity).
  assert (E5 : ∀ agent tag, agent ∈ sample_agents → ag_tag agent = Some tag → hexData tag = true).
  { intros agent tag Hin Htag. exfalso.
    apply elem_of_cons in Hin as [->|Hin]; [discriminate Htag|].
    apply elem_of_cons in Hin as [->|Hin]; [discriminate Htag | by apply elem_of_nil in Hin]. }
  destruct (agent_face_enforces_grants sample_account sample_agents ARC_TESTNET_DEPLOYMENT sample_face E1 E5)
    as (plugin & data & _ & D & _ & G).
  change (encodeSessionKeyInstallData sample_registrations = Ok data) in D. rewrite E2 in D.
  apply ok_inj in D. subst data.
  pose proof (G sample_plugin sample_installed 1000 2 E4 sample_plugin_reachable E3) as G'.
  split; [exact E2|]. split; [exact E3|]. split.
  - apply (G' {| ag_sessionKey := "0x0000000000000000000000000000000000000007"; ag_tag := None; ag_grant := sample_grant |}).
    left.
  - apply (G' {| ag_sessionKey := "0x0000000000000000000000000000000000000008"; ag_tag := None; ag_grant := sample_grant |}).
    right. left.
Defined.

(** ** [toStackDeployment] *)

(** A JSON value as [toStackDeployment] reads it. *)
Definition isRecord (v : jsval) : bool := match v with VObj _ => true | _ => false end.
Definition nullish (v : jsval) : bool := match v with VUndefined | VNull => true | _ => false end.

Section deployment.
(** viem's [isAddress(value, { strict: false })] and [isHash]. *)
Context (isLooseAddress isHash : string → bool).

Definition readAddress (record : jsval) (path key : string) : result ts_error string :=
  match prop key record with
  | VStr s => if isLooseAddress s then mret s else
      Throw (Err ("Invalid stack deployment: " +:+ q +:+ path +:+ key +:+ q +:+ " must be a 20-byte hex address."))
  | _ => Throw (Err ("Invalid stack deployment: " +:+ q +:+ path +:+ key +:+ q +:+ " must be a 20-byte hex address."))
  end.

Definition readHash (record : jsval) (path key : string) : result ts_error string :=
  match prop key record with
  | VStr s => if isHash s then mret s else
      Throw (Err ("Invalid stack deployment: " +:+ q +:+ path +:+ key +:+ q +:+ " must be a 32-byte hex string."))
  | _ => Throw (Err ("Invalid stack deployment: " +:+ q +:+ path +:+ key +:+ q +:+ " must be a 32-byte hex string."))
  end.

Definition readPlugin (value : jsval) (path : string) : result ts_error PluginDeployment :=
  throw_if (negb (isRecord value))
    (Err ("Invalid stack deployment: " +:+ q +:+ path +:+ q +:+ " must be an object with " +:+ q +:+ "address" +:+ q
          +:+ " and " +:+ q +:+ "manifestHash" +:+ q +:+ ".")) ≫= λ _,
  address ← readAddress value (path +:+ ".") "address";
  manifestHash ← readHash value (path +:+ ".") "manifestHash";
  mret {| pd_address := address; pd_manifestHash := manifestHash |}.

Definition readOptionalPlugin (value : jsval) (path : string) : result ts_error (option PluginDeployment) :=
  if nullish value then mret None else p ← readPlugin value path; mret (Some p).

Definition validChainId (v : jsval) : bool :=
  match v with VUndefined => true | VNum (JInt z) => 0 <? z | _ => false end.

(** [tokens] may be absent, but not null. *)
Definition validTokens (v : jsval) : bool :=
  match v with VUndefined => true | v => isRecord v end.

Definition objectKeys (v : jsval) : list string := match v with VObj l => l.*1 | _ => [] end.

Definition toStackDeployment (json : jsval) : result ts_error StackDeployment :=
  throw_if (negb (isRecord json)) (Err "Invalid stack deployment: expected a JSON object.") ≫= λ _,
  let chainId := prop "chainId" json in
  throw_if (negb (validChainId chainId))
    (Err ("Invalid stack deployment: " +:+ q +:+ "chainId" +:+ q +:+ " must be a positive integer.")) ≫= λ _,
  let plugins := prop "plugins" json in
  throw_if (negb (isRecord plugins))
    (Err ("Invalid stack deployment: " +:+ q +:+ "plugins" +:+ q +:+ " must be an object.")) ≫= λ _,
  let paymaster := prop "paymaster" json in
  throw_if (negb (nullish paymaster) && negb (isRecord paymaster))
    (Err ("Invalid stack deployment: " +:+ q +:+ "paymaster" +:+ q +:+ " must be an object or null.")) ≫= λ _,
  let tokens := prop "tokens" json in
  throw_if (negb (validTokens tokens))
    (Err ("Invalid stack deployment: " +:+ q +:+ "tokens" +:+ q +:+ " must be an object.")) ≫= λ _,
  entryPoint ← readAddress json "" "entryPoint";
  upgradableMscaFactory ← readAddress json "" "upgradableMscaFactory";
  upgradableMsca ← readAddress json "" "upgradableMscaImpl";
  pluginManager ← readAddress json "" "pluginManager";
  weightedWebauthnMultisig ←
    readPlugin (prop "weightedWebauthnMultisig" plugins) "plugins.weightedWebauthnMultisig";
  coldStorageAddressBook ← readPlugin (prop "coldStorageAddressBook" plugins) "plugins.coldStorageAddressBook";
  bufiSessionKey ← readOptionalPlugin (prop "bufiSessionKey" plugins) "plugins.bufiSessionKey";
  bufiEarnModule ← readOptionalPlugin (prop "bufiEarnModule" plugins) "plugins.bufiEarnModule";
  bufiSessionRecipientHook ←
    readOptionalPlugin (prop "bufiSessionRecipientHook" plugins) "plugins.bufiSessionRecipientHook";
  paymaster ← (if isRecord paymaster then a ← readAddress paymaster "paymaster." "address"; mret (Some a)
               else mret None);
  tokens ← (if isRecord tokens then
              l ← mapM (λ symbol, a ← readAddress tokens "tokens." symbol; mret (symbol, a)) (objectKeys tokens);
              mret (Some l)
            else mret None);
  mret {| sd_chainId := match chainId with VNum (JInt z) => Some z | _ => None end;
          sd_entryPoint := entryPoint;
          sd_upgradableMscaFactory := upgradableMscaFactory;
          sd_upgradableMsca := upgradableMsca;
          sd_pluginManager := pluginManager;
          sd_weightedWebauthnMultisig := weightedWebauthnMultisig;
          sd_coldStorageAddressBook := coldStorageAddressBook;
          sd_bufiSessionKey := bufiSessionKey;
          sd_bufiEarnModule := bufiEarnModule;
          sd_bufiSessionRecipientHook := bufiSessionRecipientHook;
          sd_paymaster := paymaster;
          sd_tokens := tokens |}.

(** What the type [StackDeployment] promises: addresses and hashes. *)
Definition plugin_typed (p : PluginDeployment) : Prop :=
  isLooseAddress (pd_address p) = true ∧ isHash (pd_manifestHash p) = true.
Definition optional {A} (P : A → Prop) (x : option A) : Prop := match x with Some a => P a | None => True end.

Record deployment_typed (d : StackDeployment) : Prop := {
  dt_chainId : optional (λ z, 0 < z) (sd_chainId d);
  dt_entryPoint : isLooseAddress (sd_entryPoint d) = true;
  dt_factory : isLooseAddress (sd_upgradableMscaFactory d) = true;
  dt_msca : isLooseAddress (sd_upgradableMsca d) = true;
  dt_manager : isLooseAddress (sd_pluginManager d) = true;
  dt_weighted : plugin_typed (sd_weightedWebauthnMultisig d);
  dt_addressBook : plugin_typed (sd_coldStorageAddressBook d);
  dt_sessionKey : optional plugin_typed (sd_bufiSessionKey d);
  dt_earn : optional plugin_typed (sd_bufiEarnModule d);
  dt_hook : optional plugin_typed (sd_bufiSessionRecipientHook d);
  dt_paymaster : optional (λ a, isLooseAddress a = true) (sd_paymaster d);
  dt_tokens : optional (Forall (λ t, isLooseAddress t.2 = true)) (sd_tokens d) }.

Lemma readAddress_ok record path key s :
  readAddress record path key = Ok s → prop key record = VStr s ∧ isLooseAddress s = true.
Proof.
  unfold readAddress. destruct (prop key record); try discriminate.
  destruct (isLooseAddress s0) eqn:E; [|discriminate]. intros Ha. by apply ok_inj in Ha as <-.
Qed.

Lemma readHash_ok record path key s :
  readHash record path key = Ok s → prop key record = VStr s ∧ isHash s = true.
Proof.
  unfold readHash. destruct (prop key record); try discriminate.
  destruct (isHash s0) eqn:E; [|discriminate]. intros Ha. by apply ok_inj in Ha as <-.
Qed.

Lemma readPlugin_ok value path p :
  readPlugin value path = Ok p →
  prop "address" value = VStr (pd_address p) ∧ prop "manifestHash" value = VStr (pd_manifestHash p) ∧ plugin_typed p.
Proof.
  unfold readPlugin. rewrite throw_if_bind_ok. intros [_ Hp]. ok_inv. subst p.
  apply readAddress_ok in Hr as [? ?]. apply readHash_ok in Hr0 as [? ?]. done.
Qed.

Lemma readOptionalPlugin_ok value path p :
  readOptionalPlugin value path = Ok p → optional plugin_typed p ∧ (p = None ↔ nullish value = true).
Proof.
  unfold readOptionalPlugin. destruct (nullish value).
  - intros Hp. by apply ok_inj in Hp as <-.
  - intros Hp. ok_inv. subst p. by apply readPlugin_ok in Hr as (_ & _ & ?).
Qed.

Lemma tokens_ok tokens symbols l :
  mapM (λ symbol, a ← readAddress tokens "tokens." symbol; mret (symbol, a)) symbols = Ok l →
  l.*1 = symbols ∧ Forall (λ t, isLooseAddress t.2 = true) l ∧
  ∀ s a, (s, a) ∈ l → prop s tokens = VStr a.
Proof.
  rewrite mapM_ok. induction 1 as [|s [s' a] ss l Hs _ (I1 & I2 & I3)]; [set_solver|].
  apply bind_ok in Hs as (a' & [Hp Ha]%readAddress_ok & Hs). apply ok_inj in Hs. injection Hs as <- <-.
  split_and!; [cbn; by rewrite I1|by constructor|].
  intros s1 a1 [[= -> ->]|Hin]%elem_of_cons; auto.
Qed.
End deployment.

(** A deployment file [toStackDeployment] accepts is a [StackDeployment]:
    every address and hash it carries was tested, the chain id is a positive
    integer, the fields are the file's own, an optional plugin is absent
    exactly when the file leaves it out or null, and nothing else of the file
    gets in. *)
Theorem toStackDeployment_typed isLooseAddress isHash json d :
  toStackDeployment isLooseAddress isHash json = Ok d →
  deployment_typed isLooseAddress isHash d ∧
  prop "entryPoint" json = VStr (sd_entryPoint d) ∧
  prop "upgradableMscaImpl" json = VStr (sd_upgradableMsca d) ∧
  prop "address" (prop "coldStorageAddressBook" (prop "plugins" json)) = VStr (pd_address (sd_coldStorageAddressBook d)) ∧
  (sd_bufiSessionKey d = None ↔ nullish (prop "bufiSessionKey" (prop "plugins" json)) = true) ∧
  (sd_bufiEarnModule d = None ↔ nullish (prop "bufiEarnModule" (prop "plugins" json)) = true) ∧
  (∀ ts, sd_tokens d = Some ts →
     ts.*1 = objectKeys (prop "tokens" json) ∧ ∀ s a, (s, a) ∈ ts → prop s (prop "tokens" json) = VStr a).
Proof.
  intros Hd. unfold toStackDeployment in Hd. rewrite !throw_if_bind_ok in Hd.
  destruct Hd as (_ & Hc & _ & _ & _ & Hd). apply negb_false_iff in Hc. ok_inv. subst d.
  repeat match goal with
  | H : readAddress _ _ _ _ = Ok _ |- _ => apply readAddress_ok in H as [? ?]
  | H : readPlugin _ _ _ _ = Ok _ |- _ => apply readPlugin_ok in H as (? & ? & ?)
  | H : readOptionalPlugin _ _ _ _ = Ok _ |- _ => apply readOptionalPlugin_ok in H as (? & ?)
  end.
  assert (Hpm : optional (λ a, isLooseAddress a = true) r8).
  { destruct (isRecord (prop "paymaster" json)); [|by apply ok_inj in Hr8 as <-].
    apply bind_ok in Hr8 as (a & [_ Ha]%readAddress_ok & Hr8). by apply ok_inj in Hr8 as <-. }
  assert (Htok : ∀ ts, r9 = Some ts → ts.*1 = objectKeys (prop "tokens" json) ∧
    Forall (λ t, isLooseAddress t.2 = true) ts ∧ ∀ s a, (s, a) ∈ ts → prop s (prop "tokens" json) = VStr a).
  { intros ts ->. destruct (isRecord (prop "tokens" json)); [|by apply ok_inj in Hr9].
    apply bind_ok in Hr9 as (l & Hl & Hr9). apply ok_inj in Hr9. injection Hr9 as ->. by apply tokens_ok in Hl. }
  split; [|split_and!; try done; intros ts Hts; by destruct (Htok ts Hts) as (? & _ & ?)].
  split; try done.
  - cbn [sd_chainId]. destruct (prop "chainId" json) as [| | |[z|]| | | |]; cbn in *; try done. by zify_bool.
  - cbn [sd_tokens]. destruct r9 as [ts|]; [|done]. by destruct (Htok ts eq_refl) as (_ & ? & _).
Qed.

(** Any text is an address or a hash: the checks are the caller's. *)
Definition sample_deployment_json : jsval :=
  VObj [("chainId", VNum (JInt 31337)); ("entryPoint", VStr "0xe"); ("upgradableMscaFactory", VStr "0xf");
        ("upgradableMscaImpl", VStr "0xa"); ("pluginManager", VStr "0xb"); ("rpcUrl", VStr "http");
        ("plugins", VObj [("weightedWebauthnMultisig", VObj [("address", VStr "0x1"); ("manifestHash", VStr "0x2")]);
                          ("coldStorageAddressBook", VObj [("address", VStr "0x3"); ("manifestHash", VStr "0x4")]);
                          ("bufiSessionKey", VNull)]);
        ("tokens", VObj [("usdc", VStr "0x5")])].
Definition sample_deployment : StackDeployment :=
  match toStackDeployment (startsWith "0x") (startsWith "0x") sample_deployment_json with
  | Ok d => d
  | Throw _ => CIRCLE_CANONICAL_DEPLOYMENT
  end.

Lemma toStackDeployment_typed_witness :
  sd_chainId sample_deployment = Some 31337 ∧ sd_tokens sample_deployment = Some [("usdc", "0x5")] ∧
  deployment_typed (startsWith "0x") (startsWith "0x") sample_deployment ∧
  sd_bufiSessionKey sample_deployment = None.
Proof.
  assert (E : toStackDeployment (startsWith "0x") (startsWith "0x") sample_deployment_json = Ok sample_deployment)
    by (vm_compute; reflexivity).
  destruct (toStackDeployment_typed (startsWith "0x") (startsWith "0x") sample_deployment_json sample_deployment E)
    as (Ht & _ & _ & _ & Hk & _ & _).
  split; [vm_compute; reflexivity|]. split; [vm_compute; reflexivity|]. split; [exact Ht|].
  apply Hk. vm_compute. reflexivity.
Defined.
