(* ===== verification/GtPolicy.v ===== *)
(** * The Gateway intent policy on chain

    [contracts/src/bufi/gateway-guard/GatewayIntentPolicy.sol]: the burn
    intent as a contract sees it, its EIP-712 digest, and the scalar checks
    every integration shares. Addresses and [bytes32] are integers, [bytes] the
    list of its bytes; keccak256 is a parameter ([Viem.keccak256]), and so are
    the precompile behind [ECDSA.tryRecover] and a call to another contract. *)

From S2P Require Import Prelude.
From S2P Require Import Js.
From S2P Require Import Encoding.
From S2P Require Import Abi.
From S2P Require Import EvmAbi.

(** ** Structs *)

Record TransferSpec : Type := {
  version : Z; sourceDomain : Z; destinationDomain : Z;
  sourceContract : Z; destinationContract : Z; sourceToken : Z; destinationToken : Z;
  sourceDepositor : Z; destinationRecipient : Z; sourceSigner : Z; destinationCaller : Z;
  value : Z; salt : Z; hookData : list Z }.
Record BurnIntent : Type := { maxBlockHeight : Z; maxFee : Z; spec : TransferSpec }.

Record IntentLimits : Type := {
  il_gatewayWallet : Z; il_sourceDomain : Z; il_depositor : Z;
  il_maxExpiryBlocks : Z; il_perIntentCap : Z; il_maxFeeCap : Z }.

(** [abi.decode(payload, (BurnIntent))] *)
Definition decodeBurnIntent (d : list Z) : option BurnIntent :=
  p ← readSize d 0;
  height ← readWord d p;
  fee ← readWord d (p + 32);
  rel ← readSize d (p + 64);
  let ps := p + rel in
  w0 ← readUint 32 d ps;
  w1 ← readUint 32 d (ps + 32);
  w2 ← readUint 32 d (ps + 64);
  w3 ← readWord d (ps + 96);
  w4 ← readWord d (ps + 128);
  w5 ← readWord d (ps + 160);
  w6 ← readWord d (ps + 192);
  w7 ← readWord d (ps + 224);
  w8 ← readWord d (ps + 256);
  w9 ← readWord d (ps + 288);
  w10 ← readWord d (ps + 320);
  w11 ← readWord d (ps + 352);
  w12 ← readWord d (ps + 384);
  hook ← readBytes d ps (ps + 416);
  Some {| maxBlockHeight := height; maxFee := fee;
          spec := {| version := w0; sourceDomain := w1; destinationDomain := w2; sourceContract := w3;
                     destinationContract := w4; sourceToken := w5; destinationToken := w6; sourceDepositor := w7;
                     destinationRecipient := w8; sourceSigner := w9; destinationCaller := w10; value := w11;
                     salt := w12; hookData := hook |} |}.

(** The same struct as the contract ABI lays it out. *)
Definition words (ws : list Z) : list Z := concat (word <$> ws).
Definition intentWords (i : BurnIntent) : list Z :=
  let s := spec i in
  [32; maxBlockHeight i; maxFee i; 96; version s; sourceDomain s; destinationDomain s; sourceContract s;
   destinationContract s; sourceToken s; destinationToken s; sourceDepositor s; destinationRecipient s;
   sourceSigner s; destinationCaller s; value s; salt s; 448].
Definition encodeBurnIntent (i : BurnIntent) : list Z := words (intentWords i) ++ bytesTail (hookData (spec i)).

(** ** Words *)

Definition toBytes32 (a : Z) : Z := a.
Definition isCanonicalAddress (w : Z) : bool := Z.shiftr w 160 =? 0.
Definition SOLANA_DOMAIN : Z := 5.
Definition isEvmDomain (domain : Z) : bool := negb (domain =? SOLANA_DOMAIN).
Definition matchesDomainShape (domain w : Z) : bool :=
  if w =? 0 then false
  else if isEvmDomain domain then isCanonicalAddress w else negb (isCanonicalAddress w).

Lemma isCanonicalAddress_lt w : 0 ≤ w → isCanonicalAddress w = true ↔ w < 2 ^ 160.
Proof.
  intros Hw. unfold isCanonicalAddress. rewrite Z.eqb_eq, Z.shiftr_div_pow2 by lia. split; intros H.
  - apply Z.div_small_iff in H; [|done]. lia.
  - apply Z.div_small. lia.
Qed.

(** ** What the contract reads of its environment *)

Record Block : Type := { timestamp : Z; number : Z; chainid : Z }.

(** [ECDSA.tryRecover] ([None] is any [RecoverError]), the size of an
    account's code, and a static call ([None] when it fails, the returned bytes
    otherwise). *)
Class EvmChain : Type := {
  tryRecover : Z → Z → Z → Z → option Z;
  codeLength : Z → Z;
  staticcall : Z → Z → list Z → option (list Z) }.

Section policy.
Context `{Viem}.

(** ** Digests *)

(** [bytes("text")] *)
Fixpoint textBytes (s : string) : list Z :=
  match s with EmptyString => [] | String c s => code c :: textBytes s end.
Definition keccakText (s : string) : Z := keccak256 (textBytes s).

Definition TRANSFER_SPEC_TEXT : string :=
  "TransferSpec(uint32 version,uint32 sourceDomain,uint32 destinationDomain,bytes32 sourceContract,bytes32 destinationContract,bytes32 sourceToken,bytes32 destinationToken,bytes32 sourceDepositor,bytes32 destinationRecipient,bytes32 sourceSigner,bytes32 destinationCaller,uint256 value,bytes32 salt,bytes hookData)".
Definition TRANSFER_SPEC_TYPEHASH : Z := keccakText TRANSFER_SPEC_TEXT.
Definition BURN_INTENT_TYPEHASH : Z :=
  keccakText ("BurnIntent(uint256 maxBlockHeight,uint256 maxFee,TransferSpec spec)" +:+ TRANSFER_SPEC_TEXT).
Definition EIP712_DOMAIN_TYPEHASH_NOCHAIN : Z := keccakText "EIP712Domain(string name,string version)".
Definition EIP712_DOMAIN_TYPEHASH_FULL : Z :=
  keccakText "EIP712Domain(string name,string version,uint256 chainId,address verifyingContract)".
Definition RWA_TYPEHASH : Z :=
  keccakText "ReceiveWithAuthorization(address from,address to,uint256 value,uint256 validAfter,uint256 validBefore,bytes32 nonce)".
Definition GATEWAY_DOMAIN_SEPARATOR : Z :=
  keccak256 (words [EIP712_DOMAIN_TYPEHASH_NOCHAIN; keccakText "GatewayWallet"; keccakText "1"]).

(** [keccak256(abi.encodePacked("\x19\x01", separator, structHash))] *)
Definition typedDigest (separator structHash : Z) : Z := keccak256 ([25; 1] ++ word separator ++ word structHash).

Definition specHash (s : TransferSpec) : Z :=
  keccak256 (words [TRANSFER_SPEC_TYPEHASH; version s; sourceDomain s; destinationDomain s; sourceContract s;
                    destinationContract s; sourceToken s; destinationToken s]
             ++ words [sourceDepositor s; destinationRecipient s; sourceSigner s; destinationCaller s; value s; salt s;
                       keccak256 (hookData s)]).
Definition burnIntentDigest (i : BurnIntent) : Z :=
  typedDigest GATEWAY_DOMAIN_SEPARATOR
    (keccak256 (words [BURN_INTENT_TYPEHASH; maxBlockHeight i; maxFee i; specHash (spec i)])).

Definition receiveWithAuthorizationDigest (b : Block) (tokenName tokenVersion : list Z)
    (token from to value validAfter validBefore nonce : Z) : Z :=
  typedDigest
    (keccak256 (words [EIP712_DOMAIN_TYPEHASH_FULL; keccak256 tokenName; keccak256 tokenVersion; chainid b; token]))
    (keccak256 (words [RWA_TYPEHASH; from; to; value; validAfter; validBefore; nonce])).

(** ** The scalar checks *)

(** [None] is [(false, address(0))]. *)
Definition checkIntentShape (b : Block) (i : BurnIntent) (l : IntentLimits) : option Z :=
  let s := spec i in
  if negb (version s =? 1) then None
  else if negb (sourceDomain s =? il_sourceDomain l) then None
  else if negb (sourceContract s =? toBytes32 (il_gatewayWallet l)) then None
  else if negb (sourceDepositor s =? toBytes32 (il_depositor l)) then None
  else if negb (sourceSigner s =? toBytes32 (il_depositor l)) then None
  else if (number b <? maxBlockHeight i) && (il_maxExpiryBlocks l <? maxBlockHeight i - number b) then None
  else if negb (isCanonicalAddress (sourceToken s)) then None
  else if negb (lenZ (hookData s) =? 0) then None
  else if (value s =? 0) || (il_perIntentCap l <? value s) then None
  else if il_maxFeeCap l <? maxFee i then None
  else Some (sourceToken s).

(** ** A contract owner's signature *)

Definition ERC1271_MAGICVALUE : Z := 0x1626ba7e.

Definition isValidERC1271 `{EvmChain} (signer hash : Z) (sig : list Z) (gasCap : Z) : bool :=
  if codeLength signer =? 0 then false
  else
    let callData := be_bytes 4 ERC1271_MAGICVALUE ++ word hash ++ word 64 ++ bytesTail sig in
    match staticcall gasCap signer callData with
    | Some ret => (32 <=? lenZ ret) && (wordAt 0 ret =? ERC1271_MAGICVALUE * 2 ^ 224)
    | None => false
    end.
End policy.

(** ** The decoder reads the layout back *)

(** A struct of the declared types, its hook data addressable. *)
Record intent_ok (i : BurnIntent) : Prop := {
  iok_version : 0 ≤ version (spec i) < 2 ^ 32;
  iok_source : 0 ≤ sourceDomain (spec i) < 2 ^ 32;
  iok_destination : 0 ≤ destinationDomain (spec i) < 2 ^ 32;
  iok_words : Forall (λ w, 0 ≤ w < 2 ^ 256)
    [maxBlockHeight i; maxFee i; sourceContract (spec i); destinationContract (spec i); sourceToken (spec i);
     destinationToken (spec i); sourceDepositor (spec i); destinationRecipient (spec i); sourceSigner (spec i);
     destinationCaller (spec i); value (spec i); salt (spec i)];
  iok_hook : lenZ (hookData (spec i)) < 2 ^ 64 }.

Lemma words_split (ws : list Z) k z :
  ws !! k = Some z → words ws = words (take k ws) ++ word z ++ words (drop (S k) ws).
Proof.
  intros Hk. rewrite <- (take_drop_middle ws k z Hk) at 1. unfold words. by rewrite fmap_app, concat_app, fmap_cons.
Qed.

Lemma lenZ_words (ws : list Z) : lenZ (words ws) = 32 * Z.of_nat (length ws).
Proof.
  unfold words. induction ws as [|w ws IH]; [done|]. rewrite fmap_cons. cbn [concat length].
  rewrite lenZ_app, lenZ_word, IH. lia.
Qed.

Lemma readUint_words bits (ws : list Z) t k z off :
  ws !! k = Some z → off = 32 * Z.of_nat k → 0 ≤ z < 2 ^ bits → bits ≤ 256 →
  readUint bits (words ws ++ t) off = Some z.
Proof.
  intros Hk -> Hz Hb. rewrite (words_split ws k z Hk), <- !app_assoc. apply readUint_at; [|done..].
  rewrite lenZ_words, length_take_le; [done|]. apply lookup_lt_Some in Hk. lia.
Qed.

Lemma readWord_words (ws : list Z) t k z off :
  ws !! k = Some z → off = 32 * Z.of_nat k → 0 ≤ z < 2 ^ 256 → readWord (words ws ++ t) off = Some z.
Proof.
  intros Hk -> Hz. rewrite (words_split ws k z Hk), <- !app_assoc. apply readWord_at; [|done].
  rewrite lenZ_words, length_take_le; [done|]. apply lookup_lt_Some in Hk. lia.
Qed.

Tactic Notation "read_word" uconstr(H) := rewrite H by (reflexivity || assumption || lia); cbn [mbind option_bind].

Lemma decode_encodeBurnIntent i : intent_ok i → decodeBurnIntent (encodeBurnIntent i) = Some i.
Proof.
  intros [H1 H2 H3 Hw Hh]. rewrite !Forall_cons in Hw.
  destruct Hw as (W1 & W2 & W3 & W4 & W5 & W6 & W7 & W8 & W9 & W10 & W11 & W12 & _).
  unfold decodeBurnIntent, encodeBurnIntent, readSize. set (t := bytesTail _).
  read_word (readUint_words 64 _ _ 0 32 0).
  read_word (readWord_words _ _ 1 (maxBlockHeight i) 32).
  read_word (readWord_words _ _ 2 (maxFee i) (32 + 32)).
  read_word (readUint_words 64 _ _ 3 96 (32 + 64)). cbv zeta.
  change (32 + 96) with 128.
  read_word (readUint_words 32 _ _ 4 (version (spec i)) 128).
  read_word (readUint_words 32 _ _ 5 (sourceDomain (spec i)) (128 + 32)).
  read_word (readUint_words 32 _ _ 6 (destinationDomain (spec i)) (128 + 64)).
  read_word (readWord_words _ _ 7 (sourceContract (spec i)) (128 + 96)).
  read_word (readWord_words _ _ 8 (destinationContract (spec i)) (128 + 128)).
  read_word (readWord_words _ _ 9 (sourceToken (spec i)) (128 + 160)).
  read_word (readWord_words _ _ 10 (destinationToken (spec i)) (128 + 192)).
  read_word (readWord_words _ _ 11 (sourceDepositor (spec i)) (128 + 224)).
  read_word (readWord_words _ _ 12 (destinationRecipient (spec i)) (128 + 256)).
  read_word (readWord_words _ _ 13 (sourceSigner (spec i)) (128 + 288)).
  read_word (readWord_words _ _ 14 (destinationCaller (spec i)) (128 + 320)).
  read_word (readWord_words _ _ 15 (value (spec i)) (128 + 352)).
  read_word (readWord_words _ _ 16 (salt (spec i)) (128 + 384)).
  rewrite (readBytes_at _ 128 (128 + 416) 448 (hookData (spec i)) (words (take 17 (intentWords i))) t
             (words (intentWords i)) []); [by destruct i as [? ? []]| | |by rewrite app_nil_r|done|lia|done].
  - rewrite (words_split (intentWords i) 17 448) by done. by rewrite <- !app_assoc.
  - done.
Qed.
