(* ===== verification/GatewayTreasury.v ===== *)
(** * The treasury contract

    [contracts/src/bufi/gateway-treasury/GatewayTreasury.sol]: a weighted
    multisig that signs Gateway burn intents (ERC-1271) and administers itself
    through a timelock. A revert is an error and leaves the state as it was.
    Calls the contract makes to tokens, to the Gateway wallet and to contract
    owners are answers of the environment; a contract called by an
    administrative operation may call back, which is the operation it calls
    executed next, since nothing is written after the call. *)

From S2P Require Import Prelude.
From S2P Require Import Js.
From S2P Require Import Encoding.
From S2P Require Import Abi.
From S2P Require Import EvmAbi.
From S2P Require Import GtPolicy.

Inductive gt_error : Type :=
| InvalidOwnerSet | InvalidThreshold | InvalidWeights | DuplicateOwner | InvalidGatewayWallet
| EmptyRecipientAllowlist | InvalidCap | NonceAlreadyUsed | TimelockNotExpired | OpNotFound
| OpAlreadyExecuted | OpAlreadyCancelled | InvalidCallTarget | TransferFailed | ZeroBalance
| TokenNotAllowed | WouldEmptyAllowlist | SelfCallFailed | QuorumNotReached | RecipientNotAllowed
| ZeroRecipient | InvalidTokenConfig | InvalidDestinationConfig | SignatureExpired | OpExpired | OpStale
| Panic | CalleeReverted.

Definition ADMIN_OP_GRACE : Z := 7 * 86400.
Definition ERC1271_INVALID : Z := 0xffffffff.
Definition NESTED_SIG_GAS : Z := 1000000.
Definition SECP256K1N_DIV_2 : Z := 0x7FFFFFFFFFFFFFFFFFFFFFFFFFFFFFFF5D576E7357A4501DDFE92F46681B20A0.

(** [a + b] on [uint256]. *)
Definition add256 (a b : Z) : result gt_error Z := if a + b <? 2 ^ 256 then Ok (a + b) else Throw Panic.

(** ** Storage *)

Record TokenInfo : Type := { eip712Name : list Z; eip712Version : list Z }.
Record AdminOp : Type := { callHash : Z; eta : Z; executed : bool; cancelled : bool; epoch : Z }.
Definition noOp : AdminOp := {| callHash := 0; eta := 0; executed := false; cancelled := false; epoch := 0 |}.

(** [this] is [address(this)]; the immutables are fields. *)
Record Treasury : Type := {
  this : Z;
  owners : list Z;
  weights : gmap Z Z;
  thresholdWeight : Z;
  gatewayWallet : Z;
  recipientCount : Z;
  allowedRecipients : gset Z;
  allowedDestinationDomains : gset Z;
  allowedTokens : gmap Z TokenInfo;
  allowedDestinationTokens : gset Z;
  allowedDestinationCallers : gset Z;
  destinationMinters : gmap Z Z;
  localDomain : Z;
  paused : bool;
  revokedIntents : gset Z;
  perIntentCap : Z;
  maxFeeCap : Z;
  adminTimelock : Z;
  maxExpiryBlocks : Z;
  adminOps : gmap Z AdminOp;
  usedNonces : gset Z;
  adminEpoch : Z;
  adminDomainSep : Z }.

#[global] Instance eta_op : Eta AdminOp :=
  λ r, {| callHash := callHash r; eta := eta r; executed := executed r; cancelled := cancelled r; epoch := epoch r |}.
#[global] Instance eta_treasury : Eta Treasury :=
  λ r, {| this := this r; owners := owners r; weights := weights r; thresholdWeight := thresholdWeight r;
          gatewayWallet := gatewayWallet r; recipientCount := recipientCount r;
          allowedRecipients := allowedRecipients r; allowedDestinationDomains := allowedDestinationDomains r;
          allowedTokens := allowedTokens r; allowedDestinationTokens := allowedDestinationTokens r;
          allowedDestinationCallers := allowedDestinationCallers r; destinationMinters := destinationMinters r;
          localDomain := localDomain r; paused := paused r; revokedIntents := revokedIntents r;
          perIntentCap := perIntentCap r; maxFeeCap := maxFeeCap r; adminTimelock := adminTimelock r;
          maxExpiryBlocks := maxExpiryBlocks r; adminOps := adminOps r; usedNonces := usedNonces r;
          adminEpoch := adminEpoch r; adminDomainSep := adminDomainSep r |}.

Implicit Types (t : Treasury) (b : Block).

Definition weightOf t (a : Z) : Z := default 0 (weights t !! a).
(** [bytes(allowedTokens[token].eip712Name).length != 0] *)
Definition tokenInfo t (token : Z) : TokenInfo :=
  default {| eip712Name := []; eip712Version := [] |} (allowedTokens t !! token).
Definition tokenAllowed t (token : Z) : bool := negb (lenZ (eip712Name (tokenInfo t token)) =? 0).
Definition adminOp t (nonce : Z) : AdminOp := default noOp (adminOps t !! nonce).

(** ** Owner sets *)

(** The loop that validates a proposed owner set; the result is its total
    weight. *)
Fixpoint checkOwners (self : Z) (seen : list Z) (os ws : list Z) (total : Z) : result gt_error Z :=
  match os, ws with
  | o :: os, w :: ws =>
      _ ← throw_if ((o =? 0) || (o =? self)) InvalidOwnerSet;
      _ ← throw_if (w <? 1) InvalidWeights;
      _ ← throw_if (bool_decide (o ∈ seen)) DuplicateOwner;
      checkOwners self (o :: seen) os ws (total + w)
  | _, _ => Ok total
  end.

Definition checkOwnerSet (self : Z) (os ws : list Z) (threshold : Z) : result gt_error () :=
  let n := Z.of_nat (length os) in
  _ ← throw_if ((n <? 1) || (20 <? n) || negb (n =? Z.of_nat (length ws))) InvalidOwnerSet;
  total ← checkOwners self [] os ws 0;
  throw_if ((threshold <? 1) || (total <? threshold)) InvalidThreshold.

Definition setWeights (m : gmap Z Z) (os ws : list Z) : gmap Z Z :=
  foldl (λ m ow, <[ow.1 := ow.2]> m) m (zip os ws).

(** ** The constructor *)

Record SignerParams : Type := { sp_owners : list Z; sp_weights : list Z; sp_thresholdWeight : Z; sp_gatewayWallet : Z }.
Record PolicyParams : Type := {
  pp_allowedRecipients : list Z; pp_allowedDestinationDomains : list Z; pp_tokenAddresses : list Z;
  pp_tokenNames : list (list Z); pp_tokenVersions : list (list Z); pp_allowedDestinationTokens : list Z;
  pp_perIntentCap : Z; pp_maxFeeCap : Z; pp_adminTimelock : Z; pp_maxExpiryBlocks : Z; pp_localDomain : Z;
  pp_destinationMinters : list Z; pp_allowedDestinationCallers : list Z }.

(** The recipients and how many distinct ones there are. *)
Definition addRecipient (sn : gset Z * Z) (r : Z) : gset Z * Z :=
  if bool_decide (r ∈ sn.1) then sn else ({[r]} ∪ sn.1, sn.2 + 1).

Fixpoint initDomains (domains minters : list Z) (ds : gset Z) (ms : gmap Z Z) : result gt_error (gset Z * gmap Z Z) :=
  match domains, minters with
  | d :: domains, m :: minters =>
      _ ← throw_if (m =? 0) InvalidDestinationConfig;
      initDomains domains minters ({[d]} ∪ ds) (<[d := m]> ms)
  | _, _ => Ok (ds, ms)
  end.

Fixpoint initTokens (tokens : list Z) (names versions : list (list Z)) (m : gmap Z TokenInfo) :
    result gt_error (gmap Z TokenInfo) :=
  match tokens, names, versions with
  | a :: tokens, n :: names, v :: versions =>
      _ ← throw_if ((a =? 0) || (lenZ n =? 0)) InvalidTokenConfig;
      initTokens tokens names versions (<[a := {| eip712Name := n; eip712Version := v |}]> m)
  | _, _, _ => Ok m
  end.

Section treasury.
Context `{Viem} `{chain : Block → EvmChain}.

Definition constructor (b : Block) (self : Z) (s : SignerParams) (pol : PolicyParams) : result gt_error Treasury :=
  _ ← throw_if (sp_gatewayWallet s =? 0) InvalidGatewayWallet;
  _ ← throw_if (length (pp_allowedRecipients pol) <? 1)%nat EmptyRecipientAllowlist;
  _ ← throw_if ((pp_perIntentCap pol =? 0) || (pp_maxExpiryBlocks pol =? 0)) InvalidCap;
  _ ← throw_if (negb (length (pp_tokenAddresses pol) =? length (pp_tokenNames pol))%nat
                || negb (length (pp_tokenAddresses pol) =? length (pp_tokenVersions pol))%nat) InvalidTokenConfig;
  _ ← throw_if (negb (length (pp_destinationMinters pol) =? length (pp_allowedDestinationDomains pol))%nat)
        InvalidDestinationConfig;
  _ ← checkOwnerSet self (sp_owners s) (sp_weights s) (sp_thresholdWeight s);
  let '(recipients, count) := foldl addRecipient (∅, 0) (pp_allowedRecipients pol) in
  _ ← throw_if (count =? 0) EmptyRecipientAllowlist;
  '(domains, minters) ← initDomains (pp_allowedDestinationDomains pol) (pp_destinationMinters pol) ∅ ∅;
  tokens ← initTokens (pp_tokenAddresses pol) (pp_tokenNames pol) (pp_tokenVersions pol) ∅;
  mret {| this := self;
          owners := sp_owners s;
          weights := setWeights ∅ (sp_owners s) (sp_weights s);
          thresholdWeight := sp_thresholdWeight s;
          gatewayWallet := sp_gatewayWallet s;
          recipientCount := count;
          allowedRecipients := recipients;
          allowedDestinationDomains := domains;
          allowedTokens := tokens;
          allowedDestinationTokens := list_to_set (pp_allowedDestinationTokens pol);
          allowedDestinationCallers := list_to_set (pp_allowedDestinationCallers pol);
          destinationMinters := minters;
          localDomain := pp_localDomain pol;
          paused := false;
          revokedIntents := ∅;
          perIntentCap := pp_perIntentCap pol;
          maxFeeCap := pp_maxFeeCap pol;
          adminTimelock := pp_adminTimelock pol;
          maxExpiryBlocks := pp_maxExpiryBlocks pol;
          adminOps := ∅;
          usedNonces := ∅;
          adminEpoch := 0;
          adminDomainSep := keccak256 (words [EIP712_DOMAIN_TYPEHASH_FULL; keccakText "GatewayTreasury"; keccakText "1";
                                              chainid b; self]) |}.

(** ** The weighted quorum *)

(** One slot of the static part: its signer and the new end of the static
    part; [None] is [return false]. *)
Definition readSlot b t (hash : Z) (sigs : list Z) (i : nat) (staticEnd prevSigner : Z) : option (Z * Z) :=
  let len := lenZ sigs in
  let base := (65 * i)%nat in
  let r := wordAt base sigs in
  let s := wordAt (base + 32) sigs in
  let v := nth (base + 64) sigs 0 in
  let slotEnd := (Z.of_nat i + 1) * 65 in
  if v =? 0 then
    if negb (isCanonicalAddress r) then None
    else if r =? this t then None
    else if (s <? slotEnd) || (len - 32 <? s) then None
    else
      let dynLen := wordAt (Z.to_nat s) sigs in
      if len - s - 32 <? dynLen then None
      else if r <=? prevSigner then None
      else if weightOf t r =? 0 then None
      else
        let nested := take (Z.to_nat dynLen) (drop (Z.to_nat s + 32) sigs) in
        if negb (@isValidERC1271 (chain b) r hash nested NESTED_SIG_GAS) then None
        else Some (r, if s <? staticEnd then s else staticEnd)
  else
    if SECP256K1N_DIV_2 <? s then None
    else
      match @tryRecover (chain b) hash v r s with
      | None => None
      | Some signer =>
          if signer <=? prevSigner then None
          else if weightOf t signer =? 0 then None
          else Some (signer, staticEnd)
      end.

(** The loop over the slots; one unit of fuel per slot. *)
Fixpoint slotLoop (fuel : nat) b t (hash : Z) (sigs : list Z) (i : nat) (staticEnd prevSigner totalWeight : Z) :
    option (nat * Z * Z) :=
  match fuel with
  | O => None
  | S fuel =>
      if (Z.of_nat i + 1) * 65 <=? staticEnd then
        match readSlot b t hash sigs i staticEnd prevSigner with
        | None => None
        | Some (signer, staticEnd) =>
            slotLoop fuel b t hash sigs (S i) staticEnd signer (totalWeight + weightOf t signer)
        end
      else Some (i, staticEnd, totalWeight)
  end.

Definition checkWeightedSigs b t (hash : Z) (sigs : list Z) : bool :=
  if lenZ sigs =? 0 then false
  else
    match slotLoop (S (length sigs)) b t hash sigs 0 (lenZ sigs) 0 0 with
    | None => false
    | Some (i, staticEnd, totalWeight) =>
        if (i =? 0)%nat || negb (Z.of_nat i * 65 =? staticEnd) then false
        else thresholdWeight t <=? totalWeight
    end.
(** ** ERC-1271 *)

Definition limitsOf t : IntentLimits :=
  {| il_gatewayWallet := gatewayWallet t; il_sourceDomain := localDomain t; il_depositor := this t;
     il_maxExpiryBlocks := maxExpiryBlocks t; il_perIntentCap := perIntentCap t; il_maxFeeCap := maxFeeCap t |}.

Definition destinationAllowed t (s : TransferSpec) : bool :=
  let domain := destinationDomain s in
  let minter := default 0 (destinationMinters t !! domain) in
  if negb (bool_decide (domain ∈ allowedDestinationDomains t)) then false
  else if (minter =? 0) || negb (destinationContract s =? minter) then false
  else if negb (bool_decide (destinationToken s ∈ allowedDestinationTokens t)) then false
  else if negb (matchesDomainShape domain (destinationToken s)) then false
  else if negb (bool_decide (destinationRecipient s ∈ allowedRecipients t)) then false
  else if negb (matchesDomainShape domain (destinationRecipient s)) then false
  else if negb (destinationCaller s =? 0) then
    bool_decide (destinationCaller s ∈ allowedDestinationCallers t) && matchesDomainShape domain (destinationCaller s)
  else true.

(** [None] is a revert. *)
Definition validateBurnIntent b t (hash : Z) (payload ownerSigs : list Z) : option bool :=
  if paused t || bool_decide (hash ∈ revokedIntents t) then Some false
  else
    intent ← decodeBurnIntent payload;
    if negb (burnIntentDigest intent =? hash) then Some false
    else
      match checkIntentShape b intent (limitsOf t) with
      | None => Some false
      | Some sourceToken =>
          if negb (tokenAllowed t sourceToken) then Some false
          else if negb (destinationAllowed t (spec intent)) then Some false
          else Some (checkWeightedSigs b t hash ownerSigs)
      end.

Definition validateReceiveWithAuth b t (hash : Z) (payload ownerSigs : list Z) (caller : Z) : option bool :=
  if negb (tokenAllowed t caller) then Some false
  else
    from ← readUint 160 payload 0;
    to ← readUint 160 payload 32;
    value ← readWord payload 64;
    validAfter ← readWord payload 96;
    validBefore ← readWord payload 128;
    nonce ← readWord payload 160;
    let ti := tokenInfo t caller in
    let digest := receiveWithAuthorizationDigest b (eip712Name ti) (eip712Version ti) caller from to value
                    validAfter validBefore nonce in
    if negb (digest =? hash) then Some false
    else if negb (from =? this t) then Some false
    else if negb (to =? gatewayWallet t) then Some false
    else Some (checkWeightedSigs b t hash ownerSigs).

Definition validateSignatureInternal b t (hash : Z) (signature : list Z) (originalCaller : Z) : option bool :=
  kind ← readUint 8 signature 0;
  payload ← readBytes signature 0 32;
  ownerSigs ← readBytes signature 0 64;
  if kind =? 0 then validateBurnIntent b t hash payload ownerSigs
  else if kind =? 1 then validateReceiveWithAuth b t hash payload ownerSigs originalCaller
  else Some false.

Definition isValidSignature b t (caller hash : Z) (signature : list Z) : Z :=
  if lenZ signature <? 33 then ERC1271_INVALID
  else match validateSignatureInternal b t hash signature caller with
       | Some true => ERC1271_MAGICVALUE
       | _ => ERC1271_INVALID
       end.

(** ** Administrative operations *)

Inductive admin_call : Type :=
| SetOwners (newOwners newWeights : list Z) (newThreshold : Z)
| SetAllowedRecipient (recipient : Z) (allowed : bool)
| SetAllowedDestinationDomain (domain : Z) (allowed : bool)
| SetAllowedToken (token : Z) (name version : list Z) (allowed : bool)
| SetAllowedDestinationToken (token : Z) (allowed : bool)
| SetPerIntentCap (cap : Z)
| SetMaxFeeCap (cap : Z)
| SetAdminTimelock (secs : Z)
| GatewayInitiateWithdrawal (token value : Z)
| GatewayWithdraw (token : Z)
| SetMaxExpiryBlocks (blocks : Z)
| TransferToRecipient (token recipient amount : Z)
| SetDestinationMinter (domain minter : Z)
| SetAllowedDestinationCaller (caller : Z) (allowed : bool)
| SetPaused (paused : bool).

Definition adminSignatures : list string :=
  ["setOwners(address[],uint16[],uint256)"; "setAllowedRecipient(bytes32,bool)";
   "setAllowedDestinationDomain(uint32,bool)"; "setAllowedToken(address,string,string,bool)";
   "setAllowedDestinationToken(bytes32,bool)"; "setPerIntentCap(uint256)"; "setMaxFeeCap(uint256)";
   "setAdminTimelock(uint32)"; "gatewayInitiateWithdrawal(address,uint256)"; "gatewayWithdraw(address)";
   "setMaxExpiryBlocks(uint256)"; "transferToRecipient(address,bytes32,uint256)";
   "setDestinationMinter(uint32,bytes32)"; "setAllowedDestinationCaller(bytes32,bool)"; "setPaused(bool)"].

Definition isAllowedAdminSelector (sel : Z) : bool := bool_decide (sel ∈ selectorOf <$> adminSignatures).

(** The argument decoder of the function a selector names. *)
Definition decodeArgs (name : string) (d : list Z) : option admin_call :=
  let flag off := w ← readWord d off; asFlag w in
  if bool_decide (name = "setOwners(address[],uint16[],uint256)") then
    os ← readArray 160 d 0 0; ws ← readArray 16 d 0 32; th ← readWord d 64; Some (SetOwners os ws th)
  else if bool_decide (name = "setAllowedRecipient(bytes32,bool)") then
    r ← readWord d 0; f ← flag 32; Some (SetAllowedRecipient r f)
  else if bool_decide (name = "setAllowedDestinationDomain(uint32,bool)") then
    x ← readUint 32 d 0; f ← flag 32; Some (SetAllowedDestinationDomain x f)
  else if bool_decide (name = "setAllowedToken(address,string,string,bool)") then
    a ← readUint 160 d 0; n ← readBytes d 0 32; v ← readBytes d 0 64; f ← flag 96; Some (SetAllowedToken a n v f)
  else if bool_decide (name = "setAllowedDestinationToken(bytes32,bool)") then
    x ← readWord d 0; f ← flag 32; Some (SetAllowedDestinationToken x f)
  else if bool_decide (name = "setPerIntentCap(uint256)") then x ← readWord d 0; Some (SetPerIntentCap x)
  else if bool_decide (name = "setMaxFeeCap(uint256)") then x ← readWord d 0; Some (SetMaxFeeCap x)
  else if bool_decide (name = "setAdminTimelock(uint32)") then x ← readUint 32 d 0; Some (SetAdminTimelock x)
  else if bool_decide (name = "gatewayInitiateWithdrawal(address,uint256)") then
    a ← readUint 160 d 0; x ← readWord d 32; Some (GatewayInitiateWithdrawal a x)
  else if bool_decide (name = "gatewayWithdraw(address)") then a ← readUint 160 d 0; Some (GatewayWithdraw a)
  else if bool_decide (name = "setMaxExpiryBlocks(uint256)") then x ← readWord d 0; Some (SetMaxExpiryBlocks x)
  else if bool_decide (name = "transferToRecipient(address,bytes32,uint256)") then
    a ← readUint 160 d 0; r ← readWord d 32; x ← readWord d 64; Some (TransferToRecipient a r x)
  else if bool_decide (name = "setDestinationMinter(uint32,bytes32)") then
    x ← readUint 32 d 0; m ← readWord d 32; Some (SetDestinationMinter x m)
  else if bool_decide (name = "setAllowedDestinationCaller(bytes32,bool)") then
    c ← readWord d 0; f ← flag 32; Some (SetAllowedDestinationCaller c f)
  else if bool_decide (name = "setPaused(bool)") then f ← flag 0; Some (SetPaused f)
  else None.

(** The call the contract makes to itself: the dispatcher finds the function
    by its selector, then decodes its arguments. *)
Definition decodeAdminCall (call : list Z) : option admin_call :=
  name ← List.find (λ s, selectorOf s =? bytes4_of call) adminSignatures;
  decodeArgs name (drop 4 call).

(** How a call to a token or to the Gateway wallet ended: reverted, or what
    it returned. *)
Definition callee := option bool.

Definition setAllowedRecipient (recipient : Z) (allowed : bool) t : result gt_error Treasury :=
  if bool_decide (recipient ∈ allowedRecipients t) then
    if allowed then mret t
    else
      _ ← throw_if (recipientCount t <=? 1) WouldEmptyAllowlist;
      mret (t <| recipientCount := recipientCount t - 1 |> <| allowedRecipients ::= λ s, s ∖ {[recipient]} |>)
  else
    if allowed then
      n ← add256 (recipientCount t) 1;
      mret (t <| recipientCount := n |> <| allowedRecipients ::= λ s, {[recipient]} ∪ s |>)
    else mret t.

Definition setMember (x : Z) (allowed : bool) (s : gset Z) : gset Z := if allowed then {[x]} ∪ s else s ∖ {[x]}.

Definition setOwners (newOwners newWeights : list Z) (newThreshold : Z) t : result gt_error Treasury :=
  _ ← checkOwnerSet (this t) newOwners newWeights newThreshold;
  let cleared := foldl (λ m a, delete a m) (weights t) (owners t) in
  epoch ← add256 (adminEpoch t) 1;
  mret (t <| owners := newOwners |> <| weights := setWeights cleared newOwners newWeights |>
          <| thresholdWeight := newThreshold |> <| adminEpoch := epoch |>).

Definition setAllowedToken (token : Z) (name version : list Z) (allowed : bool) t : result gt_error Treasury :=
  if allowed then
    _ ← throw_if ((token =? 0) || (lenZ name =? 0)) InvalidTokenConfig;
    mret (t <| allowedTokens ::= <[token := {| eip712Name := name; eip712Version := version |}]> |>)
  else mret (t <| allowedTokens ::= delete token |>).

Definition setAdminTimelock (secs : Z) t : result gt_error Treasury :=
  epoch ← add256 (adminEpoch t) 1;
  mret (t <| adminTimelock := secs |> <| adminEpoch := epoch |>).

Definition transferToRecipient (recipient : Z) (out : callee) t : result gt_error Treasury :=
  _ ← throw_if (negb (bool_decide (recipient ∈ allowedRecipients t))) RecipientNotAllowed;
  _ ← throw_if (negb (Z.shiftr recipient 160 =? 0)) RecipientNotAllowed;
  _ ← throw_if (recipient =? 0) ZeroRecipient;
  match out with
  | None => Throw CalleeReverted
  | Some ok => _ ← throw_if (negb ok) TransferFailed; mret t
  end.

Definition gatewayCall (token : Z) (out : callee) t : result gt_error Treasury :=
  _ ← throw_if (negb (tokenAllowed t token)) TokenNotAllowed;
  match out with None => Throw CalleeReverted | Some _ => mret t end.

Definition performAdmin (c : admin_call) (out : callee) t : result gt_error Treasury :=
  match c with
  | SetOwners os ws th => setOwners os ws th t
  | SetAllowedRecipient r f => setAllowedRecipient r f t
  | SetAllowedDestinationDomain d f => mret (t <| allowedDestinationDomains ::= setMember d f |>)
  | SetAllowedToken a n v f => setAllowedToken a n v f t
  | SetAllowedDestinationToken a f => mret (t <| allowedDestinationTokens ::= setMember a f |>)
  | SetPerIntentCap cap => _ ← throw_if (cap =? 0) InvalidCap; mret (t <| perIntentCap := cap |>)
  | SetMaxFeeCap cap => mret (t <| maxFeeCap := cap |>)
  | SetAdminTimelock secs => setAdminTimelock secs t
  | GatewayInitiateWithdrawal a _ => gatewayCall a out t
  | GatewayWithdraw a => gatewayCall a out t
  | SetMaxExpiryBlocks n => _ ← throw_if (n =? 0) InvalidCap; mret (t <| maxExpiryBlocks := n |>)
  | TransferToRecipient _ r _ => transferToRecipient r out t
  | SetDestinationMinter d m => mret (t <| destinationMinters ::= <[d := m]> |>)
  | SetAllowedDestinationCaller c f => mret (t <| allowedDestinationCallers ::= setMember c f |>)
  | SetPaused p => mret (t <| paused := p |>)
  end.

(** ** Transactions *)

Definition ADMIN_OP_TYPEHASH : Z :=
  keccakText "AdminOp(bytes32 callHash,uint256 nonce,uint256 deadline,uint256 epoch)".
Definition CANCEL_ADMIN_OP_TYPEHASH : Z := keccakText "CancelAdminOp(uint256 nonce)".
Definition REVOKE_INTENT_TYPEHASH : Z := keccakText "RevokeIntent(bytes32 digest)".
Definition PAUSE_TYPEHASH : Z := keccakText "Pause(uint256 nonce)".

Definition adminDigest t (structHash : Z) : Z := typedDigest (adminDomainSep t) structHash.
Definition queueDigest t (callHash nonce deadline epoch : Z) : Z :=
  adminDigest t (keccak256 (words [ADMIN_OP_TYPEHASH; callHash; nonce; deadline; epoch])).

Definition queueAdmin b (call : list Z) (nonce deadline : Z) (ownerSigs : list Z) t : result gt_error Treasury :=
  _ ← throw_if (bool_decide (nonce ∈ usedNonces t)) NonceAlreadyUsed;
  _ ← throw_if (deadline <? timestamp b) SignatureExpired;
  let callHash := keccak256 call in
  let epoch := adminEpoch t in
  _ ← throw_if (negb (checkWeightedSigs b t (queueDigest t callHash nonce deadline epoch) ownerSigs)) QuorumNotReached;
  eta ← add256 (timestamp b) (adminTimelock t);
  mret (t <| usedNonces ::= λ s, {[nonce]} ∪ s |>
          <| adminOps ::= <[nonce := {| callHash := callHash; eta := eta; executed := false; cancelled := false;
                                        epoch := epoch |}]> |>).

Definition executeAdmin b (call : list Z) (nonce : Z) (out : callee) t : result gt_error Treasury :=
  let op := adminOp t nonce in
  _ ← throw_if (callHash op =? 0) OpNotFound;
  _ ← throw_if (executed op) OpAlreadyExecuted;
  _ ← throw_if (cancelled op) OpAlreadyCancelled;
  _ ← throw_if (negb (epoch op =? adminEpoch t)) OpStale;
  _ ← throw_if (timestamp b <? eta op) TimelockNotExpired;
  dead ← add256 (eta op) ADMIN_OP_GRACE;
  _ ← throw_if (dead <? timestamp b) OpExpired;
  _ ← throw_if (negb (keccak256 call =? callHash op)) OpNotFound;
  _ ← throw_if (lenZ call <? 4) InvalidCallTarget;
  _ ← throw_if (negb (isAllowedAdminSelector (bytes4_of call))) InvalidCallTarget;
  let t := t <| adminOps ::= <[nonce := op <| executed := true |>]> |> in
  match decodeAdminCall call with
  | None => Throw SelfCallFailed
  | Some c => match performAdmin c out t with Ok t => mret t | Throw _ => Throw SelfCallFailed end
  end.

Definition cancelAdmin b (nonce : Z) (ownerSigs : list Z) t : result gt_error Treasury :=
  let op := adminOp t nonce in
  _ ← (if callHash op =? 0 then throw_if (bool_decide (nonce ∈ usedNonces t)) OpNotFound
       else _ ← throw_if (executed op) OpAlreadyExecuted; throw_if (cancelled op) OpAlreadyCancelled);
  let digest := adminDigest t (keccak256 (words [CANCEL_ADMIN_OP_TYPEHASH; nonce])) in
  _ ← throw_if (negb (checkWeightedSigs b t digest ownerSigs)) QuorumNotReached;
  mret (t <| usedNonces ::= λ s, {[nonce]} ∪ s |> <| adminOps ::= <[nonce := op <| cancelled := true |>]> |>).

Definition revokeIntent b (digest : Z) (ownerSigs : list Z) t : result gt_error Treasury :=
  _ ← throw_if (negb (checkWeightedSigs b t (adminDigest t (keccak256 (words [REVOKE_INTENT_TYPEHASH; digest]))) ownerSigs))
        QuorumNotReached;
  mret (t <| revokedIntents ::= λ s, {[digest]} ∪ s |>).

Definition pause b (nonce : Z) (ownerSigs : list Z) t : result gt_error Treasury :=
  _ ← throw_if (bool_decide (nonce ∈ usedNonces t)) NonceAlreadyUsed;
  _ ← throw_if (negb (checkWeightedSigs b t (adminDigest t (keccak256 (words [PAUSE_TYPEHASH; nonce]))) ownerSigs))
        QuorumNotReached;
  mret (t <| usedNonces ::= λ s, {[nonce]} ∪ s |> <| paused := true |>).

(** Anyone may sweep an allowed token's balance into the Gateway wallet: the
    token's balance and how its two approvals and the deposit ended. *)
Definition sweepToGateway (token : Z) (balance : option Z) (approved deposited reset : callee) t : result gt_error () :=
  _ ← throw_if (negb (tokenAllowed t token)) TokenNotAllowed;
  match balance with
  | None => Throw CalleeReverted
  | Some bal =>
      _ ← throw_if (bal =? 0) ZeroBalance;
      match approved with
      | None => Throw CalleeReverted
      | Some ok =>
          _ ← throw_if (negb ok) TransferFailed;
          match deposited, reset with Some _, Some _ => mret tt | _, _ => Throw CalleeReverted end
      end
  end.
End treasury.
