(* ===== verification/GtSample.v ===== *)
(** * A concrete chain and treasury for the witnesses

    [tryRecover] returns [r] for [v = 27], accounts from 2^16 up have code and
    every contract approves. The treasury has two owners, a key of weight 1 and
    a contract of weight 2, and the threshold 3. *)

From S2P Require Import Prelude.
From S2P Require Import Js.
From S2P Require Import Encoding.
From S2P Require Import Abi.
From S2P Require Import AbiSample.
From S2P Require Import EvmAbi.
From S2P Require Import GtPolicy.
From S2P Require Import GatewayTreasury.

Definition sample_chain (b : Block) : EvmChain :=
  {| tryRecover hash v r s := if v =? 27 then Some r else None;
     codeLength a := if a <? 2 ^ 16 then 0 else 1;
     staticcall gas a d := Some (word (ERC1271_MAGICVALUE * 2 ^ 224)) |}.

Definition blockAt (now : Z) : Block := {| timestamp := now; number := 100; chainid := 5042002 |}.

Definition sampleKey : Z := 0x51.
Definition sampleContract : Z := 0xc0de00.
Definition sampleSelf : Z := 0x7ea5.
Definition sampleWallet : Z := 0x77.
Definition sampleMinter : Z := 0x22.
Definition sampleUsdc : Z := 0x36.
Definition sampleBaseUsdc : Z := 0x03.
Definition samplePayee : Z := 0xaa.

Definition sampleSigners : SignerParams :=
  {| sp_owners := [sampleContract; sampleKey]; sp_weights := [2; 1]; sp_thresholdWeight := 3;
     sp_gatewayWallet := sampleWallet |}.
Definition samplePolicy : PolicyParams :=
  {| pp_allowedRecipients := [samplePayee; samplePayee]; pp_allowedDestinationDomains := [6]; pp_tokenAddresses := [sampleUsdc];
     pp_tokenNames := [textBytes "USDC"]; pp_tokenVersions := [textBytes "2"]; pp_allowedDestinationTokens := [sampleBaseUsdc];
     pp_perIntentCap := 5000000; pp_maxFeeCap := 3000000; pp_adminTimelock := 3600; pp_maxExpiryBlocks := 1250000;
     pp_localDomain := 26; pp_destinationMinters := [sampleMinter]; pp_allowedDestinationCallers := [] |}.

Definition sampleTreasury : Treasury :=
  match constructor (blockAt 1000) sampleSelf sampleSigners samplePolicy with
  | Ok t => t
  | Throw _ => {| this := 0; owners := []; weights := ∅; thresholdWeight := 0; gatewayWallet := 0; recipientCount := 0;
                  allowedRecipients := ∅; allowedDestinationDomains := ∅; allowedTokens := ∅; allowedDestinationTokens := ∅;
                  allowedDestinationCallers := ∅; destinationMinters := ∅; localDomain := 0; paused := false;
                  revokedIntents := ∅; perIntentCap := 0; maxFeeCap := 0; adminTimelock := 0; maxExpiryBlocks := 0;
                  adminOps := ∅; usedNonces := ∅; adminEpoch := 0; adminDomainSep := 0 |}
  end.

Lemma sampleTreasury_ok : constructor (blockAt 1000) sampleSelf sampleSigners samplePolicy = Ok sampleTreasury.
Proof. reflexivity. Qed.

Definition sampleIntent : BurnIntent :=
  {| maxBlockHeight := 1000000; maxFee := 2010000;
     spec := {| version := 1; sourceDomain := 26; destinationDomain := 6; sourceContract := sampleWallet;
                destinationContract := sampleMinter; sourceToken := sampleUsdc; destinationToken := sampleBaseUsdc;
                sourceDepositor := sampleSelf; destinationRecipient := samplePayee; sourceSigner := sampleSelf;
                destinationCaller := 0; value := 1000000; salt := 77; hookData := [] |} |}.
