(* ===== verification/GtQuorum.v ===== *)
(** * What the weighted quorum of the treasury accepts

    [checkWeightedSigs] reads a blob of 65-byte slots. [approval] is one
    owner's consent, [quorum] says that a list of approvals carries the
    threshold, [encodeApprovals] lays a list out the way the contract reads it.
    A blob is accepted only on a quorum, and every quorum has a blob that is. *)

From S2P Require Import Prelude.
From S2P Require Import Js.
From S2P Require Import Encoding.
From S2P Require Import Abi.
From S2P Require Import EvmAbi.
From S2P Require Import GtPolicy.
From S2P Require Import GatewayTreasury.
From S2P Require Import AbiSample.
From S2P Require Import GtSample.

Inductive approval : Type :=
| EoaApproval (signer v r s : Z)
| ContractApproval (signer : Z) (nested : list Z).

Definition approver (a : approval) : Z :=
  match a with EoaApproval o _ _ _ => o | ContractApproval o _ => o end.

Definition isByte (b : Z) : Prop := 0 ≤ b < 256.

(** ** The blob of a list of approvals *)

Definition dynamicPart (a : approval) : list Z :=
  match a with EoaApproval _ _ _ _ => [] | ContractApproval _ n => word (lenZ n) ++ n end.
Definition slotOf (off : Z) (a : approval) : list Z :=
  match a with
  | EoaApproval _ v r s => word r ++ word s ++ [v]
  | ContractApproval o _ => word o ++ word off ++ [0]
  end.
Fixpoint slotsOf (off : Z) (l : list approval) : list Z :=
  match l with [] => [] | a :: l => slotOf off a ++ slotsOf (off + lenZ (dynamicPart a)) l end.
Definition dynamics (l : list approval) : list Z := concat (dynamicPart <$> l).
Definition encodeApprovals (l : list approval) : list Z :=
  slotsOf (65 * Z.of_nat (length l)) l ++ dynamics l.

(** ** Words of bytes *)

Lemma be_value_below bs : Forall isByte bs → 0 ≤ be_value bs < 256 ^ lenZ bs.
Proof.
  induction bs as [|x bs IH] using rev_ind; [done|]. rewrite Forall_app, Forall_singleton. intros [Hbs Hx].
  rewrite be_value_snoc, lenZ_app. change (lenZ [x]) with 1. specialize (IH Hbs). unfold isByte in Hx.
  rewrite Z.pow_add_r by (apply lenZ_nonneg || lia). lia.
Qed.

Lemma wordAt_range off d : Forall isByte d → 0 ≤ wordAt off d < 2 ^ 256.
Proof.
  intros Hd. unfold wordAt. pose proof (be_value_below (take 32 (drop off d))) as B.
  assert (lenZ (take 32 (drop off d)) ≤ 32) as L by (unfold lenZ; rewrite length_take; lia).
  assert (256 ^ lenZ (take 32 (drop off d)) ≤ 256 ^ 32) by (apply Z.pow_le_mono_r; lia).
  change (2 ^ 256) with (256 ^ 32). pose proof (B ltac:(by apply Forall_take, Forall_drop)). lia.
Qed.

Lemma nth_byte k d : Forall isByte d → isByte (nth k d 0).
Proof.
  intros Hd. destruct (Nat.lt_ge_cases k (length d)) as [Hk|Hk].
  - rewrite Forall_forall in Hd. apply Hd, list_elem_of_In, nth_In. done.
  - rewrite nth_overflow by done. done.
Qed.

Lemma word_at off pre z post :
  length pre = off → 0 ≤ z < 2 ^ 256 → wordAt off (pre ++ word z ++ post) = z.
Proof.
  intros Hp Hz. rewrite (wordAt_app pre) by done. rewrite <- (word_length z) at 1. rewrite take_app_length.
  by apply word_value.
Qed.

Lemma slotOf_length off a : length (slotOf off a) = 65%nat.
Proof. destruct a; cbn [slotOf]; rewrite !length_app, !word_length; done. Qed.

Lemma slotsOf_length off l : length (slotsOf off l) = (65 * length l)%nat.
Proof.
  revert off. induction l as [|a l IH]; intros off; [done|]. cbn [slotsOf length].
  rewrite length_app, slotOf_length, IH. lia.
Qed.

Lemma slotsOf_app off l1 l2 : slotsOf off (l1 ++ l2) = slotsOf off l1 ++ slotsOf (off + lenZ (dynamics l1)) l2.
Proof.
  revert off. induction l1 as [|a l1 IH]; intros off.
  - change (lenZ (dynamics [])) with 0. by rewrite Z.add_0_r.
  - cbn [slotsOf app]. rewrite IH, <- app_assoc. unfold dynamics. rewrite fmap_cons. cbn [concat].
    rewrite lenZ_app, Z.add_assoc. done.
Qed.

Lemma dynamics_app l1 l2 : dynamics (l1 ++ l2) = dynamics l1 ++ dynamics l2.
Proof. unfold dynamics. by rewrite fmap_app, concat_app. Qed.

(** The three fields of a slot. *)
Lemma slot_fields n pre x y v post :
  length pre = n → 0 ≤ x < 2 ^ 256 → 0 ≤ y < 2 ^ 256 →
  let d := pre ++ (word x ++ word y ++ [v]) ++ post in
  wordAt n d = x ∧ wordAt (n + 32) d = y ∧ nth (n + 64) d 0 = v.
Proof.
  intros <- Hx Hy d. unfold d. rewrite <- !app_assoc. split_and!.
  - by apply word_at.
  - rewrite (app_assoc pre). apply word_at; [|done]. by rewrite length_app, word_length.
  - rewrite app_nth2_plus, app_nth2, word_length by (rewrite word_length; lia).
    rewrite app_nth2, word_length by (rewrite word_length; lia). done.
Qed.

Section quorum.
Context `{Viem} `{chain : Block → EvmChain}.
Implicit Types (b : Block) (t : Treasury) (hash : Z) (sigs : list Z) (l : list approval).

(** ** Approvals and quorums *)

(** What makes an owner's approval of [hash] good: a low-s signature that
    recovers to the owner, or the owner contract's own word. *)
Definition approves b t hash (a : approval) : Prop :=
  match a with
  | EoaApproval o v r s =>
      isByte v ∧ v ≠ 0 ∧ 0 ≤ r < 2 ^ 256 ∧ 0 ≤ s ≤ SECP256K1N_DIV_2 ∧ @tryRecover (chain b) hash v r s = Some o
  | ContractApproval o n =>
      0 ≤ o < 2 ^ 160 ∧ o ≠ this t ∧ Forall isByte n ∧ @isValidERC1271 (chain b) o hash n NESTED_SIG_GAS = true
  end.

(** The weight a list of approvals carries. *)
Definition approvedWeight t l : Z := sumZ (weightOf t ∘ approver <$> l).

(** Approvals of distinct owners in ascending order that reach the threshold. *)
Record quorum b t hash l : Prop := {
  q_some : l ≠ [];
  q_ascending : StronglySorted Z.lt (0 :: (approver <$> l));
  q_approved : Forall (approves b t hash) l;
  q_owners : Forall (λ a, weightOf t (approver a) ≠ 0) l;
  q_weight : thresholdWeight t ≤ approvedWeight t l }.

(** ** A blob is accepted only on a quorum *)

Lemma readSlot_sound b t hash sigs i e prev o e' :
  Forall isByte sigs → readSlot (chain := chain) b t hash sigs i e prev = Some (o, e') →
  prev < o ∧ weightOf t o ≠ 0 ∧ ∃ a, approver a = o ∧ approves b t hash a.
Proof.
  intros Hb. unfold readSlot. set (r := wordAt (65 * i) sigs). set (s := wordAt (65 * i + 32) sigs).
  set (v := nth _ _ _). cbv zeta.
  assert (0 ≤ r < 2 ^ 256) as Hr by (by apply wordAt_range).
  assert (0 ≤ s < 2 ^ 256) as Hs by (by apply wordAt_range).
  assert (isByte v) as Hv by (by apply nth_byte).
  destruct (Z.eqb_spec v 0) as [_|Hv0].
  - destruct (isCanonicalAddress r) eqn:Er; [|done]. cbn [negb]. apply isCanonicalAddress_lt in Er; [|lia].
    destruct (Z.eqb_spec r (this t)) as [|Ht]; [done|]. destruct (_ || _); [done|]. destruct (_ <? wordAt _ _); [done|].
    destruct (Z.leb_spec r prev) as [|Hp]; [done|]. destruct (Z.eqb_spec (weightOf t r) 0) as [|Hw]; [done|].
    set (n := take _ _). destruct (isValidERC1271 _ _ _ _) eqn:Ec; [|done]. intros [= -> _].
    split; [done|]. split; [done|]. exists (ContractApproval o n). split; [done|]. cbn [approves].
    split; [lia|]. split; [done|]. split; [|done]. by apply Forall_take, Forall_drop.
  - destruct (Z.ltb_spec SECP256K1N_DIV_2 s) as [|Hlow]; [done|]. destruct (tryRecover _ _ _ _) as [x|] eqn:Ec; [|done].
    destruct (Z.leb_spec x prev) as [|Hp]; [done|]. destruct (Z.eqb_spec (weightOf t x) 0) as [|Hw]; [done|].
    intros [= -> _]. split; [done|]. split; [done|]. exists (EoaApproval o v r s). cbn [approver approves]. naive_solver lia.
Qed.

Lemma slotLoop_sound fuel b t hash sigs i e prev w j e' w' :
  Forall isByte sigs → slotLoop (chain := chain) fuel b t hash sigs i e prev w = Some (j, e', w') →
  ∃ l, j = (i + length l)%nat ∧ w' = w + approvedWeight t l ∧ StronglySorted Z.lt (prev :: (approver <$> l)) ∧
       Forall (approves b t hash) l ∧ Forall (λ a, weightOf t (approver a) ≠ 0) l.
Proof.
  intros Hb. revert i e prev w. induction fuel as [|fuel IH]; intros i e prev w; [done|]. cbn [slotLoop].
  destruct (_ <=? e).
  - destruct (readSlot _ _ _ _ _ _ _) as [[o e1]|] eqn:Es; [|done]. intros (l & -> & -> & Hl & Ha & Hw)%IH.
    apply readSlot_sound in Es as (Hp & Hw0 & a & <- & Hap); [|done]. exists (a :: l).
    split; [cbn; lia|]. split; [unfold approvedWeight; cbn; lia|]. split_and!.
    + constructor; [done|]. rewrite fmap_cons. constructor; [done|].
      apply StronglySorted_inv in Hl as [_ Hl]. eapply Forall_impl; [exact Hl|]. intros ??. cbn in *. lia.
    + by constructor.
    + by constructor.
  - intros [= -> _ ->]. exists []. unfold approvedWeight. cbn. repeat split; try lia; repeat constructor.
Qed.

Lemma checkWeightedSigs_sound b t hash sigs :
  Forall isByte sigs → checkWeightedSigs (chain := chain) b t hash sigs = true → ∃ l, quorum b t hash l.
Proof.
  intros Hb. unfold checkWeightedSigs. destruct (_ =? 0); [done|].
  destruct (slotLoop _ _ _ _ _ _ _ _ _) as [[[j e'] w']|] eqn:El; [|done].
  destruct (Nat.eqb_spec j 0) as [|Hj]; [done|]. cbn [orb]. destruct (negb _); [done|]. intros Hw%Z.leb_le.
  apply slotLoop_sound in El as (l & -> & -> & Hl & Ha & Ho); [|done]. exists l. constructor; try done.
  by intros ->.
Qed.

(** ** Every quorum has a blob *)

(** A slot read back from the blob it was laid out in. *)
Lemma slot_read b t hash l1 a l2 e prev off :
  let sigs := encodeApprovals (l1 ++ a :: l2) in
  let k := 65 * Z.of_nat (length (l1 ++ a :: l2)) in
  off = k + lenZ (dynamics l1) → lenZ sigs < 2 ^ 256 → k ≤ e →
  approves b t hash a → prev < approver a → weightOf t (approver a) ≠ 0 →
  readSlot (chain := chain) b t hash sigs (length l1) e prev
  = Some (approver a, match a with EoaApproval _ _ _ _ => e | ContractApproval _ _ => if off <? e then off else e end).
Proof.
  intros sigs k -> Hlen He Ha Hp Hw.
  assert (sigs = slotsOf k l1 ++ slotOf (k + lenZ (dynamics l1)) a
                 ++ slotsOf (k + lenZ (dynamics l1) + lenZ (dynamicPart a)) l2
                 ++ dynamics l1 ++ dynamicPart a ++ dynamics l2) as E.
  { unfold sigs, encodeApprovals. fold k. rewrite slotsOf_app. cbn [slotsOf]. rewrite dynamics_app.
    change (a :: l2) with ([a] ++ l2). rewrite dynamics_app. unfold dynamics at 3. cbn. rewrite app_nil_r.
    by rewrite <- !app_assoc. }
  assert (lenZ sigs = k + lenZ (dynamics l1) + lenZ (dynamicPart a) + lenZ (dynamics l2)) as Elen.
  { rewrite E, !lenZ_app. unfold lenZ at 1 2 4. rewrite slotOf_length, !slotsOf_length. unfold k. rewrite length_app. cbn. lia. }
  pose proof (lenZ_nonneg (dynamics l1)). pose proof (lenZ_nonneg (dynamics l2)).
  assert (Z.of_nat (length l1) + 1 ≤ Z.of_nat (length (l1 ++ a :: l2))) by (rewrite length_app; cbn; lia).
  assert (lenZ (slotsOf k l1) = 65 * Z.of_nat (length l1)) as L1 by (unfold lenZ; rewrite slotsOf_length; lia).
  unfold readSlot. cbv zeta. rewrite Elen. destruct a as [o v r s|o n].
  - destruct Ha as ((Hv1 & Hv2) & Hv & Hr & Hs & Ho). cbn [slotOf approver dynamicPart] in *.
    assert (SECP256K1N_DIV_2 < 2 ^ 256) by done.
    destruct (slot_fields (65 * length l1) (slotsOf k l1) r s v
      (slotsOf (k + lenZ (dynamics l1) + lenZ []) l2 ++ dynamics l1 ++ [] ++ dynamics l2)) as (F1 & F2 & F3);
      [by rewrite slotsOf_length|lia|lia|]. rewrite <- E in F1, F2, F3. rewrite F1, F2, F3.
    destruct (Z.eqb_spec v 0); [done|]. destruct (Z.ltb_spec SECP256K1N_DIV_2 s); [lia|]. rewrite Ho.
    destruct (Z.leb_spec o prev); [lia|]. destruct (Z.eqb_spec (weightOf t o) 0); done.
  - destruct Ha as (Ho & Ht & Hn & Hc). cbn [slotOf approver dynamicPart] in *.
    rewrite lenZ_app, lenZ_word in Elen, E |- *. pose proof (lenZ_nonneg n).
    set (off := k + lenZ (dynamics l1)) in *. assert (0 ≤ off) by lia.
    set (mid := slotsOf (off + (32 + lenZ n)) l2) in *.
    destruct (slot_fields (65 * length l1) (slotsOf k l1) o off 0
      (mid ++ dynamics l1 ++ (word (lenZ n) ++ n) ++ dynamics l2)) as (F1 & F2 & F3);
      [by rewrite slotsOf_length|lia|lia|]. rewrite <- E in F1, F2, F3. rewrite F1, F2, F3.
    set (D := slotsOf k l1 ++ (word o ++ word off ++ [0]) ++ mid ++ dynamics l1).
    assert (sigs = D ++ word (lenZ n) ++ n ++ dynamics l2) as E2 by (rewrite E; unfold D; by rewrite <- !app_assoc).
    assert (length D = Z.to_nat off) as LD.
    { assert (lenZ D = off); [|unfold lenZ in *; lia]. unfold off, D. rewrite !lenZ_app, !lenZ_word, L1.
      unfold lenZ at 1 2, mid. rewrite slotsOf_length. cbn [length]. unfold k. rewrite length_app. cbn [length]. lia. }
    assert (wordAt (Z.to_nat off) sigs = lenZ n) as F4 by (rewrite E2; apply word_at; [done|lia]).
    rewrite F4. assert (take (Z.to_nat (lenZ n)) (drop (Z.to_nat off + 32) sigs) = n) as F5.
    { rewrite E2, <- LD, app_assoc. replace (length D + 32)%nat with (length (D ++ word (lenZ n)))
        by (by rewrite length_app, word_length).
      rewrite drop_app_length. unfold lenZ. by rewrite Nat2Z.id, take_app_length. }
    rewrite F5, Hc. cbn [Z.eqb]. destruct (isCanonicalAddress o) eqn:Eo;
      [|apply not_true_iff_false in Eo; rewrite isCanonicalAddress_lt in Eo; lia].
    destruct (Z.eqb_spec o (this t)); [done|]. cbn [negb].
    destruct (Z.ltb_spec off ((Z.of_nat (length l1) + 1) * 65)); [lia|].
    match goal with |- context [?a - 32 <? off] => destruct (Z.ltb_spec (a - 32) off); [lia|] end. cbn [orb].
    match goal with |- context [?a - off - 32 <? lenZ n] => destruct (Z.ltb_spec (a - off - 32) (lenZ n)); [lia|] end.
    destruct (Z.leb_spec o prev); [lia|]. destruct (Z.eqb_spec (weightOf t o) 0); done.
Qed.

Definition isEoa (a : approval) : Prop := match a with EoaApproval _ _ _ _ => True | ContractApproval _ _ => False end.

Lemma dynamics_eoa l : Forall isEoa l → dynamics l = [].
Proof. induction 1 as [|[] l Ha _ IH]; done. Qed.

Lemma encodeApprovals_length l : lenZ (encodeApprovals l) = 65 * Z.of_nat (length l) + lenZ (dynamics l).
Proof. unfold encodeApprovals. rewrite lenZ_app. unfold lenZ at 1. rewrite slotsOf_length. lia. Qed.

Lemma slotLoop_complete b t hash l1 l2 :
  let l := l1 ++ l2 in
  let k := 65 * Z.of_nat (length l) in
  ∀ fuel e prev w,
  (length l2 < fuel)%nat → lenZ (encodeApprovals l) < 2 ^ 256 →
  e = k ∨ e = lenZ (encodeApprovals l) ∧ Forall isEoa l1 →
  StronglySorted Z.lt (prev :: (approver <$> l2)) → Forall (approves b t hash) l2 →
  Forall (λ a, weightOf t (approver a) ≠ 0) l2 →
  slotLoop (chain := chain) fuel b t hash (encodeApprovals l) (length l1) e prev w
  = Some (length l, k, w + approvedWeight t l2).
Proof.
  revert l1. induction l2 as [|a l2 IH]; intros l1 l k fuel e prev w Hf Hlen He Hs Ha Hw;
    (destruct fuel as [|fuel]; [cbn in Hf; lia|]); cbn [slotLoop].
  - assert (e = k) as ->.
    { destruct He as [->|[-> Hl]]; [done|]. rewrite encodeApprovals_length. unfold l. rewrite app_nil_r, dynamics_eoa by done.
      unfold k, l. rewrite app_nil_r. unfold lenZ. cbn. lia. }
    unfold k, l. rewrite app_nil_r. destruct (Z.leb_spec ((Z.of_nat (length l1) + 1) * 65) (65 * Z.of_nat (length l1))); [lia|].
    change (approvedWeight t []) with 0. by rewrite Z.add_0_r.
  - assert (k ≤ e) as Hke.
    { destruct He as [->|[-> _]]; [done|]. rewrite encodeApprovals_length. pose proof (lenZ_nonneg (dynamics l)). unfold k. lia. }
    assert (length l = S (length l1 + length l2)) as Ell by (unfold l; rewrite length_app; cbn; lia).
    destruct (Z.leb_spec ((Z.of_nat (length l1) + 1) * 65) e); [|unfold k in Hke; lia].
    apply StronglySorted_inv in Hs as [Hs Hp]. rewrite fmap_cons in Hs, Hp. apply Forall_cons_1 in Hp as [Hp _].
    apply Forall_cons_1 in Ha as [Ha Ha2]. apply Forall_cons_1 in Hw as [Hw Hw2].
    pose proof (slot_read b t hash l1 a l2 e prev (k + lenZ (dynamics l1))) as R. cbv zeta in R. fold l k in R.
    rewrite R by done. clear R.
    assert (l1 ++ a :: l2 = (l1 ++ [a]) ++ l2) as El by (by rewrite <- app_assoc).
    replace (S (length l1)) with (length (l1 ++ [a])) by (rewrite length_app; cbn; lia). unfold k, l. rewrite El.
    unfold k, l in He, Hlen. rewrite El in He, Hlen. specialize (IH (l1 ++ [a])). cbv zeta in IH.
    rewrite IH; try done; [do 2 f_equal; unfold approvedWeight; cbn; lia|cbn in Hf; lia|].
    pose proof (lenZ_nonneg (dynamics l1)). destruct a as [o v r s|o n].
    + destruct He as [->|[-> Hl]]; [by left|]. right. split; [done|]. by apply Forall_app_2; [|repeat constructor].
    + left. rewrite <- El. fold l k. destruct He as [->|[-> Hl]].
      * rewrite <- El. fold l k. destruct (Z.ltb_spec (k + lenZ (dynamics l1)) k); [lia|done].
      * rewrite <- El. fold l. rewrite dynamics_eoa by done. change (lenZ []) with 0. rewrite Z.add_0_r.
        assert (k < lenZ (encodeApprovals l)); [|by destruct (Z.ltb_spec k (lenZ (encodeApprovals l))); [|lia]].
        rewrite encodeApprovals_length. unfold l at 2. rewrite dynamics_app, lenZ_app. fold k.
        change (ContractApproval o n :: l2) with ([ContractApproval o n] ++ l2). rewrite dynamics_app, lenZ_app.
        unfold dynamics at 2. cbn [fmap list_fmap dynamicPart concat]. rewrite app_nil_r, lenZ_app, lenZ_word.
        pose proof (lenZ_nonneg (dynamics l1)). pose proof (lenZ_nonneg (dynamics l2)). pose proof (lenZ_nonneg n). lia.
Qed.

(** The verdict on a blob of good approvals is the weight's. *)
Lemma checkWeightedSigs_encoded b t hash l :
  l ≠ [] → StronglySorted Z.lt (0 :: (approver <$> l)) → Forall (approves b t hash) l →
  Forall (λ a, weightOf t (approver a) ≠ 0) l → lenZ (encodeApprovals l) < 2 ^ 256 →
  checkWeightedSigs (chain := chain) b t hash (encodeApprovals l) = (thresholdWeight t <=? approvedWeight t l).
Proof.
  intros Hne Hs Ha Hw Hlen. unfold checkWeightedSigs. pose proof (encodeApprovals_length l) as E.
  pose proof (lenZ_nonneg (dynamics l)). assert (0 < Z.of_nat (length l)) by (destruct l; cbn in *; [done|lia]).
  destruct (Z.eqb_spec (lenZ (encodeApprovals l)) 0); [lia|].
  pose proof (slotLoop_complete b t hash [] l) as C. cbv zeta in C. cbn [app length] in C. rewrite C; try done.
  - destruct (Nat.eqb_spec (length l) 0); [lia|]. cbn [orb].
    by destruct (Z.eqb_spec (Z.of_nat (length l) * 65) (65 * Z.of_nat (length l))); [|lia].
  - unfold lenZ in E. lia.
  - right. split; [done|constructor].
Qed.

Lemma quorum_encoded b t hash l :
  quorum b t hash l → lenZ (encodeApprovals l) < 2 ^ 256 →
  checkWeightedSigs (chain := chain) b t hash (encodeApprovals l) = true.
Proof. intros [] Hlen. rewrite checkWeightedSigs_encoded by done. by apply Z.leb_le. Qed.

(** C11: the weighted quorum of the treasury contract is exactly what it says:
    a signature blob (bytes a caller chooses freely) is accepted only if at
    least one and pairwise distinct owners approved this very hash, each by a
    low-s signature that recovers to the owner or by the owner contract's own
    answer and never by the treasury itself, and together they carry the
    threshold; and every such set of approvals, in ascending order, has a blob
    that is accepted, key owners and contract owners mixed. *)
Theorem quorum_exact b t hash :
  (∀ sigs, Forall isByte sigs → checkWeightedSigs (chain := chain) b t hash sigs = true → ∃ l, quorum b t hash l) ∧
  (∀ l, quorum b t hash l → lenZ (encodeApprovals l) < 2 ^ 256 →
        checkWeightedSigs (chain := chain) b t hash (encodeApprovals l) = true).
Proof. split; [apply checkWeightedSigs_sound|apply quorum_encoded]. Qed.
End quorum.

(** ** The loop ends

    The [while] of [_checkWeightedSigs] as a relation, a step a slot, without
    fuel: it runs to an end on every blob, in at most as many rounds as the blob
    has slots, and [checkWeightedSigs] gives the verdict of that end. *)

Section loop.
Context `{Viem} `{chain : Block → EvmChain}.

(** From the head of the loop, [n] rounds to a [return false] or to the exit. *)
Inductive rounds (b : Block) (t : Treasury) (hash : Z) (sigs : list Z) : nat → Z → Z → Z → nat → option (nat * Z * Z) → Prop :=
| rounds_exit i e p w : e < (Z.of_nat i + 1) * 65 → rounds b t hash sigs i e p w 0 (Some (i, e, w))
| rounds_false i e p w :
    (Z.of_nat i + 1) * 65 ≤ e → readSlot (chain := chain) b t hash sigs i e p = None → rounds b t hash sigs i e p w 1 None
| rounds_next i e p w s e' n o :
    (Z.of_nat i + 1) * 65 ≤ e → readSlot (chain := chain) b t hash sigs i e p = Some (s, e') →
    rounds b t hash sigs (S i) e' s (w + weightOf t s) n o → rounds b t hash sigs i e p w (S n) o.

(** What follows the loop. *)
Definition verdict t (o : option (nat * Z * Z)) : bool :=
  match o with
  | None => false
  | Some (i, staticEnd, totalWeight) =>
      negb ((i =? 0)%nat || negb (Z.of_nat i * 65 =? staticEnd)) && (thresholdWeight t <=? totalWeight)
  end.

Lemma readSlot_end b t hash sigs i e p s e' : readSlot (chain := chain) b t hash sigs i e p = Some (s, e') → e' ≤ e.
Proof.
  unfold readSlot. cbv zeta. repeat case_match; intros E; simplify_eq; try lia; zify_bool; lia.
Qed.

Lemma rounds_det b t hash sigs i e p w n o n' o' :
  rounds b t hash sigs i e p w n o → rounds b t hash sigs i e p w n' o' → n = n' ∧ o = o'.
Proof.
  intros Hr. revert n' o'. induction Hr as [i e p w He|i e p w He Hs|i e p w s e' n o He Hs _ IH]; intros n' o' Hr'; inversion Hr'; subst;
    try lia; try congruence; [done..|].
  match goal with E : readSlot _ _ _ _ _ _ _ = Some (?s', ?e2) |- _ => rewrite Hs in E; injection E as <- <- end.
  destruct (IH n0 o') as [-> ->]; done.
Qed.

Lemma slotLoop_rounds fuel b t hash sigs i e p w :
  e < (Z.of_nat i + Z.of_nat fuel + 1) * 65 →
  ∃ n, rounds b t hash sigs i e p w n (slotLoop (chain := chain) (S fuel) b t hash sigs i e p w) ∧
       (n = 0%nat ∨ (Z.of_nat i + Z.of_nat n) * 65 ≤ e).
Proof.
  revert i e p w. induction fuel as [|fuel IH]; intros i e p w He.
  - exists 0%nat. split; [|by left]. cbn [slotLoop]. destruct (Z.leb_spec ((Z.of_nat i + 1) * 65) e); [lia|]. by constructor.
  - remember (S fuel) as k eqn:Ek. cbn [slotLoop]. destruct (Z.leb_spec ((Z.of_nat i + 1) * 65) e) as [Hi|Hi].
    + destruct (readSlot _ _ _ _ _ _ _) as [[s e']|] eqn:Hs; [|exists 1%nat; split; [by constructor|right; lia]].
      pose proof (readSlot_end _ _ _ _ _ _ _ _ _ Hs) as Hle. subst k.
      destruct (IH (S i) e' s (w + weightOf t s)) as (n & Hn & Hb); [lia|].
      exists (S n). split; [by eapply rounds_next|]. right. lia.
    + exists 0%nat. split; [by constructor|by left].
Qed.

(** C12: the quorum check ends on every blob. The loop over the slots, taken
    without any bound, reaches an end for any bytes whatever, only one, in no
    more rounds than the blob has slots of 65 bytes; and the answer of the
    check is the verdict of that end. *)
Theorem quorum_loop_terminates b t hash sigs :
  ∃ n o, rounds b t hash sigs 0 (lenZ sigs) 0 0 n o ∧ Z.of_nat n * 65 ≤ lenZ sigs ∧
    (∀ n' o', rounds b t hash sigs 0 (lenZ sigs) 0 0 n' o' → n' = n ∧ o' = o) ∧
    checkWeightedSigs (chain := chain) b t hash sigs = verdict t o.
Proof.
  destruct (slotLoop_rounds (length sigs) b t hash sigs 0 (lenZ sigs) 0 0) as (n & Hn & Hb).
  { unfold lenZ. lia. }
  pose proof (lenZ_nonneg sigs). eexists n, _. split; [exact Hn|]. split; [lia|]. split.
  - intros n' o' Hr. by destruct (rounds_det _ _ _ _ _ _ _ _ _ _ _ _ Hn Hr).
  - unfold checkWeightedSigs. destruct (Z.eqb_spec (lenZ sigs) 0) as [E|E].
    + cbn [slotLoop]. rewrite E. done.
    + destruct (slotLoop _ _ _ _ _ _ _ _ _) as [[[i e] w]|]; [|done]. cbn [verdict]. by destruct (_ || _).
Qed.
End loop.

(** A key and a contract owner approve together. *)
Definition sampleApprovals : list approval := [EoaApproval sampleKey 27 sampleKey 9; ContractApproval sampleContract [1; 2; 3]].

Lemma sample_quorum hash b : quorum (chain := sample_chain) b sampleTreasury hash sampleApprovals.
Proof.
  constructor; [done| | | |by vm_compute].
  - repeat constructor.
  - repeat constructor; by vm_compute.
  - repeat constructor; by vm_compute.
Qed.

Lemma quorum_exact_witness :
  checkWeightedSigs (chain := sample_chain) (blockAt 2000) sampleTreasury 12345 (encodeApprovals sampleApprovals) = true ∧
  checkWeightedSigs (chain := sample_chain) (blockAt 2000) sampleTreasury 12345 (encodeApprovals (take 1 sampleApprovals)) = false.
Proof.
  split; [apply (quorum_exact (chain := sample_chain)); [apply sample_quorum|done]|by vm_compute].
Defined.
