(* ===== verification/GtSignature.v ===== *)
(** * What the treasury signs

    [isValidSignature] answers the magic value exactly for the burn intents the
    policy allows and for authorisations that bring an allowed token into the
    Gateway wallet, and in both cases only on a quorum of the owners. *)

From S2P Require Import Prelude.
From S2P Require Import Js.
From S2P Require Import Encoding.
From S2P Require Import Abi.
From S2P Require Import EvmAbi.
From S2P Require Import GtPolicy.
From S2P Require Import GatewayTreasury.
From S2P Require Import GtQuorum.
From S2P Require Import AbiSample.
From S2P Require Import GtSample.

(** The arguments of [ReceiveWithAuthorization]. *)
Record Authorization : Type := {
  au_from : Z; au_to : Z; au_value : Z; au_validAfter : Z; au_validBefore : Z; au_nonce : Z }.

(** [abi.encode(kind, payload, ownerSigs)] *)
Definition encodeSignature (kind : Z) (payload ownerSigs : list Z) : list Z :=
  words [kind; 96; 96 + lenZ (bytesTail payload)] ++ bytesTail payload ++ bytesTail ownerSigs.

Definition authorizationWords (a : Authorization) : list Z :=
  [au_from a; au_to a; au_value a; au_validAfter a; au_validBefore a; au_nonce a].

Section signature.
Context `{Viem} `{chain : Block → EvmChain}.
Implicit Types (b : Block) (t : Treasury) (hash caller : Z) (i : BurnIntent) (a : Authorization).

(** ** The policy, as a specification *)

(** A word a chain of the domain can use as an address. *)
Definition shaped (domain w : Z) : Prop := w ≠ 0 ∧ (domain ≠ 5 ↔ w < 2 ^ 160).

Record burn_allowed b t hash i : Prop := {
  ba_running : paused t = false;
  ba_live : hash ∉ revokedIntents t;
  ba_digest : burnIntentDigest i = hash;
  ba_version : version (spec i) = 1;
  ba_source : sourceDomain (spec i) = localDomain t;
  ba_wallet : sourceContract (spec i) = gatewayWallet t;
  ba_depositor : sourceDepositor (spec i) = this t;
  ba_signer : sourceSigner (spec i) = this t;
  ba_expiry : maxBlockHeight i ≤ number b + maxExpiryBlocks t;
  ba_token : sourceToken (spec i) < 2 ^ 160 ∧ tokenAllowed t (sourceToken (spec i)) = true;
  ba_hook : hookData (spec i) = [];
  ba_value : 0 < value (spec i) ≤ perIntentCap t;
  ba_fee : maxFee i ≤ maxFeeCap t;
  ba_domain : destinationDomain (spec i) ∈ allowedDestinationDomains t;
  ba_minter : destinationContract (spec i) ≠ 0 ∧
              destinationMinters t !! destinationDomain (spec i) = Some (destinationContract (spec i));
  ba_destToken : destinationToken (spec i) ∈ allowedDestinationTokens t ∧
                 shaped (destinationDomain (spec i)) (destinationToken (spec i));
  ba_recipient : destinationRecipient (spec i) ∈ allowedRecipients t ∧
                 shaped (destinationDomain (spec i)) (destinationRecipient (spec i));
  ba_caller : destinationCaller (spec i) = 0 ∨
              destinationCaller (spec i) ∈ allowedDestinationCallers t ∧
              shaped (destinationDomain (spec i)) (destinationCaller (spec i)) }.

Record authorization_allowed b t caller hash a : Prop := {
  aa_token : tokenAllowed t caller = true;
  aa_digest : receiveWithAuthorizationDigest b (eip712Name (tokenInfo t caller)) (eip712Version (tokenInfo t caller))
                caller (au_from a) (au_to a) (au_value a) (au_validAfter a) (au_validBefore a) (au_nonce a) = hash;
  aa_from : au_from a = this t;
  aa_to : au_to a = gatewayWallet t }.

(** ** The checks decide the specification *)

Lemma matchesDomainShape_spec domain w : 0 ≤ w → matchesDomainShape domain w = true ↔ shaped domain w.
Proof.
  intros Hw. unfold matchesDomainShape, shaped, isEvmDomain. change SOLANA_DOMAIN with 5.
  pose proof (isCanonicalAddress_lt w Hw) as C. destruct (Z.eqb_spec w 0), (Z.eqb_spec domain 5), (isCanonicalAddress w);
    cbn [negb]; intuition (try congruence; try lia).
Qed.

(** A failing guard of a chain of early returns. *)
Lemma guard_some {A} (c : bool) (r : option A) x : (if c then None else r) = Some x ↔ c = false ∧ r = Some x.
Proof. destruct c; intuition congruence. Qed.
Lemma guard_true (c r : bool) : (if c then false else r) = true ↔ c = false ∧ r = true.
Proof. destruct c; intuition congruence. Qed.

Lemma checkIntentShape_spec b i l tok :
  intent_ok i → 0 ≤ il_maxExpiryBlocks l →
  checkIntentShape b i l = Some tok ↔
  tok = sourceToken (spec i) ∧ version (spec i) = 1 ∧ sourceDomain (spec i) = il_sourceDomain l ∧
  sourceContract (spec i) = il_gatewayWallet l ∧ sourceDepositor (spec i) = il_depositor l ∧
  sourceSigner (spec i) = il_depositor l ∧ maxBlockHeight i ≤ number b + il_maxExpiryBlocks l ∧
  sourceToken (spec i) < 2 ^ 160 ∧ hookData (spec i) = [] ∧ 0 < value (spec i) ≤ il_perIntentCap l ∧
  maxFee i ≤ il_maxFeeCap l.
Proof.
  intros [_ _ _ Hw _] He. rewrite !Forall_cons in Hw. destruct Hw as (W1 & W2 & W3 & W4 & W5 & W6 & W7 & W8 & W9 & W10 & W11 & W12 & _).
  unfold checkIntentShape, toBytes32. rewrite !guard_some, !negb_false_iff, !orb_false_iff, andb_false_iff.
  rewrite isCanonicalAddress_lt by lia. rewrite !Z.eqb_eq, !Z.eqb_neq, !Z.ltb_ge.
  assert (lenZ (hookData (spec i)) = 0 ↔ hookData (spec i) = []) as ->
    by (unfold lenZ; destruct (hookData (spec i)); cbn; intuition (congruence || lia)).
  split; [intros (? & ? & ? & ? & ? & ? & ? & ? & ? & ? & [= <-])|intros (-> & ?)]; intuition lia.
Qed.

Lemma destinationAllowed_spec t i :
  intent_ok i →
  destinationAllowed t (spec i) = true ↔
  destinationDomain (spec i) ∈ allowedDestinationDomains t ∧
  (destinationContract (spec i) ≠ 0 ∧
   destinationMinters t !! destinationDomain (spec i) = Some (destinationContract (spec i))) ∧
  (destinationToken (spec i) ∈ allowedDestinationTokens t ∧ shaped (destinationDomain (spec i)) (destinationToken (spec i))) ∧
  (destinationRecipient (spec i) ∈ allowedRecipients t ∧
   shaped (destinationDomain (spec i)) (destinationRecipient (spec i))) ∧
  (destinationCaller (spec i) = 0 ∨ destinationCaller (spec i) ∈ allowedDestinationCallers t ∧
                                    shaped (destinationDomain (spec i)) (destinationCaller (spec i))).
Proof.
  intros [_ _ _ Hw _]. rewrite !Forall_cons in Hw. destruct Hw as (W1 & W2 & W3 & W4 & W5 & W6 & W7 & W8 & W9 & W10 & W11 & W12 & _).
  unfold destinationAllowed. cbv zeta. rewrite !guard_true, !negb_false_iff, orb_false_iff, negb_false_iff, !bool_decide_eq_true.
  rewrite !matchesDomainShape_spec by lia.
  assert ((default 0 (destinationMinters t !! destinationDomain (spec i)) =? 0) = false ∧
          (destinationContract (spec i) =? default 0 (destinationMinters t !! destinationDomain (spec i))) = true ↔
          destinationContract (spec i) ≠ 0 ∧
          destinationMinters t !! destinationDomain (spec i) = Some (destinationContract (spec i))) as ->.
  { rewrite Z.eqb_neq, Z.eqb_eq. destruct (destinationMinters t !! _); cbn; split; intros [G1 G2]; split; congruence. }
  destruct (Z.eqb_spec (destinationCaller (spec i)) 0) as [Ec|Ec]; cbn [negb].
  - rewrite Ec. intuition lia.
  - rewrite andb_true_iff, bool_decide_eq_true, matchesDomainShape_spec by lia. intuition lia.
Qed.

Lemma burn_checks b t hash i :
  intent_ok i → 0 ≤ maxExpiryBlocks t →
  burn_allowed b t hash i ↔
  paused t || bool_decide (hash ∈ revokedIntents t) = false ∧ (burnIntentDigest i =? hash) = true ∧
  checkIntentShape b i (limitsOf t) = Some (sourceToken (spec i)) ∧ tokenAllowed t (sourceToken (spec i)) = true ∧
  destinationAllowed t (spec i) = true.
Proof.
  intros Hi He. rewrite orb_false_iff, bool_decide_eq_false, Z.eqb_eq, checkIntentShape_spec by done.
  rewrite destinationAllowed_spec by done. cbn [limitsOf il_maxExpiryBlocks il_sourceDomain il_gatewayWallet il_depositor il_perIntentCap il_maxFeeCap].
  split; [intros []; intuition|intros ([] & ? & ? & ? & ?); constructor; intuition].
Qed.

(** ** What the decoders return *)

Lemma readWord_range d off w : Forall isByte d → readWord d off = Some w → 0 ≤ w < 2 ^ 256.
Proof. intros Hd. unfold readWord. destruct (_ && _); [|done]. intros [= <-]. by apply wordAt_range. Qed.

Lemma readUint_range bits d off w : Forall isByte d → readUint bits d off = Some w → 0 ≤ w < 2 ^ bits.
Proof.
  intros Hd. unfold readUint. intros (x & Hx%readWord_range & Hn)%bind_Some; [|done].
  unfold narrow in Hn. destruct (Z.ltb_spec x (2 ^ bits)); [|done]. simplify_eq. lia.
Qed.

Lemma readSlice_ok d off n s : Forall isByte d → readSlice d off n = Some s → Forall isByte s ∧ lenZ s = n.
Proof.
  intros Hd. unfold readSlice. destruct (_ && _) eqn:E; [|done]. intros [= <-]. split; [by apply Forall_take, Forall_drop|].
  rewrite !andb_true_iff in E. destruct E as [[E1%Z.leb_le E2%Z.leb_le] E3%Z.leb_le]. unfold lenZ in *.
  rewrite length_take, length_drop. lia.
Qed.

Lemma readBytes_ok d base off s : Forall isByte d → readBytes d base off = Some s → Forall isByte s ∧ lenZ s < 2 ^ 64.
Proof.
  intros Hd. unfold readBytes, readSize. intros (x & _ & (n & Hn%readUint_range & Hs%readSlice_ok)%bind_Some)%bind_Some;
    [|done..]. destruct Hs. split; [done|lia].
Qed.

Lemma decodeBurnIntent_ok d i : Forall isByte d → decodeBurnIntent d = Some i → intent_ok i.
Proof.
  intros Hd. unfold decodeBurnIntent, readSize. cbv zeta. intros E.
  repeat (apply bind_Some in E as (? & ?Hr & E)). injection E as <-.
  repeat match goal with
         | G : readWord _ _ = Some _ |- _ => apply readWord_range in G; [|done]
         | G : readUint _ _ _ = Some _ |- _ => apply readUint_range in G; [|done]
         | G : readBytes _ _ _ = Some _ |- _ => apply readBytes_ok in G as [_ G]; [|done]
         end.
  constructor; cbn [version sourceDomain destinationDomain spec hookData]; try done.
  repeat (apply Forall_cons_2; [assumption|]). constructor.
Qed.

(** ** The blob of a signature *)

Definition sizes_ok (payload ownerSigs : list Z) : Prop := lenZ payload < 2 ^ 62 ∧ lenZ ownerSigs < 2 ^ 62.

Lemma lenZ_bytesTail d : lenZ d + 32 ≤ lenZ (bytesTail d) < lenZ d + 64.
Proof.
  unfold bytesTail. rewrite lenZ_app, lenZ_word, lenZ_padWords. pose proof (Z.mod_pos_bound (- lenZ d) 32). lia.
Qed.

Lemma decode_encodeSignature kind payload ownerSigs :
  0 ≤ kind < 256 → sizes_ok payload ownerSigs →
  let sig := encodeSignature kind payload ownerSigs in
  readUint 8 sig 0 = Some kind ∧ readBytes sig 0 32 = Some payload ∧ readBytes sig 0 64 = Some ownerSigs ∧ 33 ≤ lenZ sig.
Proof.
  intros Hk [Hp Ho] sig. pose proof (lenZ_bytesTail payload) as Tp. pose proof (lenZ_bytesTail ownerSigs) as To.
  pose proof (lenZ_nonneg payload). pose proof (lenZ_nonneg ownerSigs).
  set (ws := [kind; 96; 96 + lenZ (bytesTail payload)]).
  assert (lenZ (words ws) = 96) as Lw by done. split_and!.
  - unfold sig, encodeSignature. rewrite (readUint_words 8 _ _ 0 kind) by (done || lia). done.
  - apply (readBytes_at sig 0 32 96 payload (words (take 1 ws)) (words (drop 2 ws) ++ bytesTail payload ++ bytesTail ownerSigs)
             (words ws) (bytesTail ownerSigs)); try done; try lia.
  - apply (readBytes_at sig 0 64 (96 + lenZ (bytesTail payload)) ownerSigs (words (take 2 ws))
             (words (drop 3 ws) ++ bytesTail payload ++ bytesTail ownerSigs) (words ws ++ bytesTail payload) []); try done; try lia.
    + rewrite app_nil_r, <- app_assoc. done.
    + rewrite lenZ_app. lia.
  - unfold sig, encodeSignature. fold ws. rewrite !lenZ_app, Lw. lia.
Qed.

Lemma decode_authorization a rest :
  Forall (λ w, 0 ≤ w < 2 ^ 256) (authorizationWords a) → au_from a < 2 ^ 160 → au_to a < 2 ^ 160 →
  let d := words (authorizationWords a) ++ rest in
  readUint 160 d 0 = Some (au_from a) ∧ readUint 160 d 32 = Some (au_to a) ∧ readWord d 64 = Some (au_value a) ∧
  readWord d 96 = Some (au_validAfter a) ∧ readWord d 128 = Some (au_validBefore a) ∧ readWord d 160 = Some (au_nonce a).
Proof.
  intros Hw Hf Ht d. unfold d. unfold authorizationWords in Hw. rewrite !Forall_cons in Hw.
  destruct Hw as (W1 & W2 & W3 & W4 & W5 & W6 & _). split_and!.
  - by rewrite (readUint_words 160 _ _ 0 (au_from a)) by (done || lia).
  - by rewrite (readUint_words 160 _ _ 1 (au_to a)) by (done || lia).
  - by rewrite (readWord_words _ _ 2 (au_value a)).
  - by rewrite (readWord_words _ _ 3 (au_validAfter a)).
  - by rewrite (readWord_words _ _ 4 (au_validBefore a)).
  - by rewrite (readWord_words _ _ 5 (au_nonce a)).
Qed.

Lemma encodeBurnIntent_size i : hookData (spec i) = [] → lenZ (encodeBurnIntent i) < 2 ^ 62.
Proof. intros E. unfold encodeBurnIntent. rewrite E, lenZ_app, lenZ_words. done. Qed.

(** ** The signatures the treasury gives *)

(** What a signature over [hash] may be for, when [caller] asks. *)
Definition signed_purpose b t caller hash : Prop :=
  (∃ i, intent_ok i ∧ burn_allowed b t hash i) ∨ (∃ a, authorization_allowed b t caller hash a).

Lemma isValidSignature_magic b t caller hash sig :
  isValidSignature (chain := chain) b t caller hash sig = ERC1271_MAGICVALUE ↔
  33 ≤ lenZ sig ∧ validateSignatureInternal (chain := chain) b t hash sig caller = Some true.
Proof.
  unfold isValidSignature. destruct (Z.ltb_spec (lenZ sig) 33).
  - split; [done|lia].
  - destruct (validateSignatureInternal _ _ _ _ _) as [[]|]; (split; [try done|by intros [_ ?]]).
Qed.

Lemma validateBurnIntent_sound b t hash payload os :
  Forall isByte payload → Forall isByte os → 0 ≤ maxExpiryBlocks t →
  validateBurnIntent (chain := chain) b t hash payload os = Some true →
  (∃ i, intent_ok i ∧ burn_allowed b t hash i) ∧ ∃ l, quorum (chain := chain) b t hash l.
Proof.
  intros Hp Ho He. unfold validateBurnIntent. destruct (_ || _) eqn:Ep; [done|].
  intros (i & Hi & E)%bind_Some. pose proof (decodeBurnIntent_ok _ _ Hp Hi) as Hok.
  destruct (burnIntentDigest i =? hash) eqn:Ed; [|done]. cbn [negb] in E.
  destruct (checkIntentShape _ _ _) as [tok|] eqn:Es; [|done].
  pose proof Es as Et. apply checkIntentShape_spec in Et as [-> _]; [|done..].
  destruct (tokenAllowed _ _) eqn:Ea; [|done]. destruct (destinationAllowed _ _) eqn:Eda; [|done]. cbn [negb] in E.
  injection E as E. split; [exists i; split; [done|]; by apply burn_checks|by eapply checkWeightedSigs_sound].
Qed.

Lemma validateReceiveWithAuth_sound b t hash payload os caller :
  Forall isByte os → validateReceiveWithAuth (chain := chain) b t hash payload os caller = Some true →
  (∃ a, authorization_allowed b t caller hash a) ∧ ∃ l, quorum (chain := chain) b t hash l.
Proof.
  intros Ho. unfold validateReceiveWithAuth. destruct (tokenAllowed _ _) eqn:Et; [|done]. cbn [negb]. intros E.
  repeat (apply bind_Some in E as (? & _ & E)). cbv zeta in E.
  destruct (Z.eqb_spec (receiveWithAuthorizationDigest b (eip712Name (tokenInfo t caller)) (eip712Version (tokenInfo t caller))
    caller x x0 x1 x2 x3 x4) hash) as [Ed|]; [|done].
  destruct (Z.eqb_spec x (this t)) as [Ef|]; [|done]. destruct (Z.eqb_spec x0 (gatewayWallet t)) as [Eg|]; [|done].
  injection E as E. split; [|by eapply checkWeightedSigs_sound].
  exists {| au_from := x; au_to := x0; au_value := x1; au_validAfter := x2; au_validBefore := x3; au_nonce := x4 |}. done.
Qed.

Lemma isValidSignature_sound b t caller hash sig :
  Forall isByte sig → 0 ≤ maxExpiryBlocks t →
  isValidSignature (chain := chain) b t caller hash sig = ERC1271_MAGICVALUE →
  signed_purpose b t caller hash ∧ ∃ l, quorum (chain := chain) b t hash l.
Proof.
  intros Hs He [_ E]%isValidSignature_magic. unfold validateSignatureInternal in E.
  apply bind_Some in E as (kind & _ & E). apply bind_Some in E as (p & Hp & E). apply bind_Some in E as (os & Hos & E).
  apply readBytes_ok in Hp as [Hp _], Hos as [Hos _]; [|done..]. unfold signed_purpose.
  destruct (_ =? 0); [apply validateBurnIntent_sound in E as []; auto|].
  destruct (_ =? 1); [apply validateReceiveWithAuth_sound in E as []; auto|done].
Qed.

(** The verdict on the encoding of an intent: the policy's, then the
    quorum's. *)
Lemma burn_signature_verdict b t caller hash i os :
  intent_ok i → 0 ≤ maxExpiryBlocks t → hookData (spec i) = [] → lenZ os < 2 ^ 62 →
  let verdict := isValidSignature (chain := chain) b t caller hash (encodeSignature 0 (encodeBurnIntent i) os) in
  (burn_allowed b t hash i →
     verdict = if checkWeightedSigs (chain := chain) b t hash os then ERC1271_MAGICVALUE else ERC1271_INVALID) ∧
  (¬ burn_allowed b t hash i → verdict = ERC1271_INVALID).
Proof.
  intros Hi He Hh Ho verdict. pose proof (encodeBurnIntent_size i Hh) as Hp.
  destruct (decode_encodeSignature 0 (encodeBurnIntent i) os) as (D1 & D2 & D3 & D4); [done|done|].
  assert (verdict = match validateBurnIntent (chain := chain) b t hash (encodeBurnIntent i) os with
                    | Some true => ERC1271_MAGICVALUE | _ => ERC1271_INVALID end) as ->.
  { unfold verdict, isValidSignature, validateSignatureInternal. destruct (Z.ltb_spec (lenZ (encodeSignature 0 (encodeBurnIntent i) os)) 33); [lia|].
    rewrite D1. cbn [mbind option_bind]. rewrite D2. cbn [mbind option_bind]. by rewrite D3. }
  pose proof (burn_checks b t hash i Hi He) as C. unfold validateBurnIntent. rewrite decode_encodeBurnIntent by done. cbn [mbind option_bind].
  split.
  - intros (C1 & C2 & C3 & C4 & C5)%C. rewrite C1, C2, C3. cbn [negb]. rewrite C4, C5. cbn [negb]. by destruct (checkWeightedSigs _ _ _ _).
  - intros Hn. destruct (paused t || _) eqn:C1; [done|]. destruct (_ =? hash) eqn:C2; [|done]. cbn [negb].
    destruct (checkIntentShape _ _ _) as [tok|] eqn:C3; [|done]. pose proof C3 as Et. apply checkIntentShape_spec in Et as [-> _]; [|done..].
    destruct (tokenAllowed _ _) eqn:C4; [|done]. destruct (destinationAllowed _ _) eqn:C5; [|done]. destruct Hn. by apply C.
Qed.

Lemma burn_signature_accepted b t caller hash i l :
  intent_ok i → 0 ≤ maxExpiryBlocks t → burn_allowed b t hash i → quorum (chain := chain) b t hash l →
  lenZ (encodeApprovals l) < 2 ^ 62 →
  isValidSignature (chain := chain) b t caller hash (encodeSignature 0 (encodeBurnIntent i) (encodeApprovals l)) = ERC1271_MAGICVALUE.
Proof.
  intros Hi He Ha Hq Hl. destruct (burn_signature_verdict b t caller hash i (encodeApprovals l)) as [V _]; [done..|apply Ha|done|].
  rewrite V by done. by rewrite quorum_encoded by (done || lia).
Qed.

Lemma authorization_signature_accepted b t caller hash a l :
  Forall (λ w, 0 ≤ w < 2 ^ 256) (authorizationWords a) → this t < 2 ^ 160 → gatewayWallet t < 2 ^ 160 →
  authorization_allowed b t caller hash a → quorum (chain := chain) b t hash l → lenZ (encodeApprovals l) < 2 ^ 62 →
  isValidSignature (chain := chain) b t caller hash
    (encodeSignature 1 (words (authorizationWords a)) (encodeApprovals l)) = ERC1271_MAGICVALUE.
Proof.
  intros Hw Ht Hg [Ha1 Ha2 Ha3 Ha4] Hq Hl.
  destruct (decode_encodeSignature 1 (words (authorizationWords a)) (encodeApprovals l)) as (D1 & D2 & D3 & D4); [done| |].
  { split; [by rewrite lenZ_words|done]. }
  destruct (decode_authorization a []) as (F1 & F2 & F3 & F4 & F5 & F6); [done|congruence..|]. rewrite app_nil_r in *.
  apply isValidSignature_magic. split; [done|]. unfold validateSignatureInternal. rewrite D1. cbn [mbind option_bind].
  rewrite D2. cbn [mbind option_bind]. rewrite D3. cbn [mbind option_bind]. change (1 =? 0) with false. change (1 =? 1) with true.
  cbv iota. unfold validateReceiveWithAuth. rewrite Ha1. cbn [negb]. rewrite F1, F2, F3, F4, F5, F6. cbn [mbind option_bind].
  rewrite Ha2, Ha3, Ha4, !Z.eqb_refl. cbn [negb]. rewrite quorum_encoded by (done || lia). done.
Qed.

(** C10: the treasury's ERC-1271 answer is its policy. A signature blob it
    calls valid for a hash, whoever asks, means a quorum of its owners approved
    that hash and the hash is either a Gateway burn intent the policy allows -
    not paused or revoked, from its own balance on this chain, an allowed
    token, within the caps of value, fee and expiry, to an allowed recipient
    through the minter of an allowed domain, every destination word of that
    domain's address shape - or an authorisation by which the asking token
    moves its funds into the Gateway wallet. And whatever the policy allows and
    a quorum approves has a blob that is valid, so nothing allowed is locked
    out. *)
Theorem treasury_signs_within_policy b t caller hash (He : 0 ≤ maxExpiryBlocks t) :
  (∀ sig, Forall isByte sig → isValidSignature (chain := chain) b t caller hash sig = ERC1271_MAGICVALUE →
          signed_purpose b t caller hash ∧ ∃ l, quorum (chain := chain) b t hash l) ∧
  (∀ i l, intent_ok i → burn_allowed b t hash i → quorum (chain := chain) b t hash l → lenZ (encodeApprovals l) < 2 ^ 62 →
          isValidSignature (chain := chain) b t caller hash (encodeSignature 0 (encodeBurnIntent i) (encodeApprovals l))
          = ERC1271_MAGICVALUE) ∧
  (∀ a l, Forall (λ w, 0 ≤ w < 2 ^ 256) (authorizationWords a) → this t < 2 ^ 160 → gatewayWallet t < 2 ^ 160 →
          authorization_allowed b t caller hash a → quorum (chain := chain) b t hash l → lenZ (encodeApprovals l) < 2 ^ 62 →
          isValidSignature (chain := chain) b t caller hash
            (encodeSignature 1 (words (authorizationWords a)) (encodeApprovals l)) = ERC1271_MAGICVALUE).
Proof.
  split_and!; intros.
  - by apply isValidSignature_sound with sig.
  - by apply burn_signature_accepted.
  - by apply authorization_signature_accepted.
Qed.
End signature.

Lemma treasury_signs_within_policy_witness :
  let hash := burnIntentDigest sampleIntent in
  isValidSignature (chain := sample_chain) (blockAt 2000) sampleTreasury 1 hash
    (encodeSignature 0 (encodeBurnIntent sampleIntent) (encodeApprovals sampleApprovals)) = ERC1271_MAGICVALUE.
Proof.
  intros hash. assert (intent_ok sampleIntent) as Hi by (by repeat constructor).
  assert (burn_allowed (blockAt 2000) sampleTreasury hash sampleIntent) as Ha.
  { refine (proj2 (burn_checks (chain := sample_chain) _ _ _ _ Hi _) _); [by vm_compute|]. repeat split; vm_compute; reflexivity. }
  destruct (treasury_signs_within_policy (chain := sample_chain) (blockAt 2000) sampleTreasury 1 hash) as (_ & P & _);
    [by vm_compute|].
  apply P; [done|done|apply sample_quorum|vm_compute; reflexivity].
Defined.
