(* ===== verification/GtAdmin.v ===== *)
(** * The treasury administers itself

    The contract as a machine: a transaction of any sender on any block, and
    the history of those that did not revert. A setter reached from outside
    reverts ([onlySelf]), so it is no transaction here. [wellformed] is the
    invariant of the storage. *)

From S2P Require Import Prelude.
From S2P Require Import Js.
From S2P Require Import Encoding.
From S2P Require Import Abi.
From S2P Require Import EvmAbi.
From S2P Require Import GtPolicy.
From S2P Require Import GatewayTreasury.
From S2P Require Import GtQuorum.
From S2P Require Import AbiSample.
From S2P Require Import GtSample.

Inductive tx : Type :=
| QueueAdmin (call : list Z) (nonce deadline : Z) (ownerSigs : list Z)
| ExecuteAdmin (call : list Z) (nonce : Z) (out : callee)
| CancelAdmin (nonce : Z) (ownerSigs : list Z)
| RevokeIntent (digest : Z) (ownerSigs : list Z)
| Pause (nonce : Z) (ownerSigs : list Z)
| Sweep (token : Z) (balance : option Z) (approved deposited reset : callee).

Section admin.
Context `{Viem} `{chain : Block → EvmChain}.
Implicit Types (b : Block) (t : Treasury) (x : tx).

Definition transact b x t : result gt_error Treasury :=
  match x with
  | QueueAdmin call nonce deadline sigs => queueAdmin (chain := chain) b call nonce deadline sigs t
  | ExecuteAdmin call nonce out => executeAdmin b call nonce out t
  | CancelAdmin nonce sigs => cancelAdmin (chain := chain) b nonce sigs t
  | RevokeIntent digest sigs => revokeIntent (chain := chain) b digest sigs t
  | Pause nonce sigs => pause (chain := chain) b nonce sigs t
  | Sweep token bal ok dep re => _ ← sweepToGateway token bal ok dep re t; mret t
  end.

(** The signatures a transaction carries, as bytes. *)
Definition signatures x : list Z :=
  match x with
  | QueueAdmin _ _ _ sigs | CancelAdmin _ sigs | RevokeIntent _ sigs | Pause _ sigs => sigs
  | ExecuteAdmin _ _ _ | Sweep _ _ _ _ _ => []
  end.

(** One transaction that did not revert. *)
Record entry : Type := { e_block : Block; e_before : Treasury; e_tx : tx; e_after : Treasury }.

Inductive history : Treasury → list entry → Prop :=
| history_start b self s pol t : constructor b self s pol = Ok t → history t []
| history_step t es b x t' :
    history t es → Forall isByte (signatures x) → transact b x t = Ok t' →
    history t' (es ++ [{| e_block := b; e_before := t; e_tx := x; e_after := t' |}]).

(** ** What a transaction does *)

(** The parts a transaction other than an execution can touch. *)
Definition same_policy t t' : Prop :=
  t' = t <| adminOps := adminOps t' |> <| usedNonces := usedNonces t' |>
         <| paused := paused t' |> <| revokedIntents := revokedIntents t' |>.

(** What the epoch stands for. *)
Definition governance t : list Z * gmap Z Z * Z * Z := (owners t, weights t, thresholdWeight t, adminTimelock t).

Lemma performAdmin_governance c out t t' :
  performAdmin c out t = Ok t' →
  adminOps t' = adminOps t ∧ usedNonces t' = usedNonces t ∧ revokedIntents t' = revokedIntents t ∧
  adminDomainSep t' = adminDomainSep t ∧ this t' = this t ∧ gatewayWallet t' = gatewayWallet t ∧ localDomain t' = localDomain t ∧
  (adminEpoch t' = adminEpoch t ∧ governance t' = governance t ∨ adminEpoch t' = adminEpoch t + 1).
Proof.
  destruct c; cbn [performAdmin]; unfold setOwners, setAllowedRecipient, setAllowedToken, setAdminTimelock, gatewayCall,
    transferToRecipient, add256; intros E; repeat case_match; ok_inv; subst; repeat case_match; ok_inv; subst; try done;
    cbn; split_and!; try done; auto.
Qed.

Lemma executeAdmin_ok b call nonce out t t' :
  executeAdmin b call nonce out t = Ok t' →
  let op := adminOp t nonce in
  callHash op ≠ 0 ∧ executed op = false ∧ cancelled op = false ∧ epoch op = adminEpoch t ∧
  eta op ≤ timestamp b ≤ eta op + ADMIN_OP_GRACE ∧ keccak256 call = callHash op ∧
  ∃ c, decodeAdminCall call = Some c ∧
       performAdmin c out (t <| adminOps ::= <[nonce := op <| executed := true |>]> |>) = Ok t'.
Proof.
  intros E op. unfold executeAdmin in E. fold op in E. cbv zeta in E. ok_inv. unfold add256 in *. repeat case_match; ok_inv. subst.
  zify_bool. naive_solver lia.
Qed.

Lemma queueAdmin_ok b call nonce deadline sigs t t' :
  queueAdmin (chain := chain) b call nonce deadline sigs t = Ok t' →
  nonce ∉ usedNonces t ∧ timestamp b ≤ deadline ∧
  checkWeightedSigs (chain := chain) b t (queueDigest t (keccak256 call) nonce deadline (adminEpoch t)) sigs = true ∧
  t' = t <| usedNonces ::= λ s, {[nonce]} ∪ s |>
         <| adminOps ::= <[nonce := {| callHash := keccak256 call; eta := timestamp b + adminTimelock t; executed := false;
                                       cancelled := false; epoch := adminEpoch t |}]> |>.
Proof.
  unfold queueAdmin, add256. cbv zeta. intros E. ok_inv. repeat case_match; ok_inv. subst. zify_bool. done.
Qed.

Lemma cancelAdmin_ok b nonce sigs t t' :
  cancelAdmin (chain := chain) b nonce sigs t = Ok t' →
  (callHash (adminOp t nonce) = 0 ∧ nonce ∉ usedNonces t ∨
   callHash (adminOp t nonce) ≠ 0 ∧ executed (adminOp t nonce) = false ∧ cancelled (adminOp t nonce) = false) ∧
  checkWeightedSigs (chain := chain) b t (adminDigest t (keccak256 (words [CANCEL_ADMIN_OP_TYPEHASH; nonce]))) sigs = true ∧
  t' = t <| usedNonces ::= λ s, {[nonce]} ∪ s |> <| adminOps ::= <[nonce := adminOp t nonce <| cancelled := true |>]> |>.
Proof.
  unfold cancelAdmin. cbv zeta. intros E. ok_inv. subst. destruct (Z.eqb_spec (callHash (adminOp t nonce)) 0); ok_inv; auto.
Qed.

Lemma revokeIntent_ok b digest sigs t t' :
  revokeIntent (chain := chain) b digest sigs t = Ok t' →
  checkWeightedSigs (chain := chain) b t (adminDigest t (keccak256 (words [REVOKE_INTENT_TYPEHASH; digest]))) sigs = true ∧
  t' = t <| revokedIntents ::= λ s, {[digest]} ∪ s |>.
Proof. unfold revokeIntent. intros E. ok_inv. by subst. Qed.

Lemma pause_ok b nonce sigs t t' :
  pause (chain := chain) b nonce sigs t = Ok t' →
  nonce ∉ usedNonces t ∧
  checkWeightedSigs (chain := chain) b t (adminDigest t (keccak256 (words [PAUSE_TYPEHASH; nonce]))) sigs = true ∧
  t' = t <| usedNonces ::= λ s, {[nonce]} ∪ s |> <| paused := true |>.
Proof. unfold pause. intros E. ok_inv. by subst. Qed.

Lemma sweep_ok b token bal ok dep re t t' : transact b (Sweep token bal ok dep re) t = Ok t' → t' = t.
Proof. cbn [transact]. intros E. ok_inv. by subst. Qed.

(** ** The life of an operation *)

(** The nonce a transaction concerns. *)
Definition queues n (e : entry) : Prop := match e_tx e with QueueAdmin _ n' _ _ => n' = n | _ => False end.
Definition executes n (e : entry) : Prop := match e_tx e with ExecuteAdmin _ n' _ => n' = n | _ => False end.
Definition cancels n (e : entry) : Prop := match e_tx e with CancelAdmin n' _ => n' = n | _ => False end.

(** The operation stored under a nonce was queued by this entry. *)
Definition queued_by n (op : AdminOp) (e : entry) : Prop :=
  ∃ call deadline sigs, e_tx e = QueueAdmin call n deadline sigs ∧ keccak256 call = callHash op ∧
    eta op = timestamp (e_block e) + adminTimelock (e_before e) ∧ epoch op = adminEpoch (e_before e) ∧
    timestamp (e_block e) ≤ deadline ∧
    checkWeightedSigs (chain := chain) (e_block e) (e_before e)
      (queueDigest (e_before e) (keccak256 call) n deadline (adminEpoch (e_before e))) sigs = true.

Record tracked t (es : list entry) n : Prop := {
  tr_executed : executed (adminOp t n) = true ↔ Exists (executes n) es;
  tr_cancelled : cancelled (adminOp t n) = true ↔ Exists (cancels n) es;
  tr_queued : callHash (adminOp t n) ≠ 0 → ∃ e, e ∈ es ∧ queued_by n (adminOp t n) e;
  tr_fresh : n ∉ usedNonces t → adminOps t !! n = None }.

Lemma adminOp_insert t n op m : adminOp (t <| adminOps ::= <[n := op]> |>) m = if decide (n = m) then op else adminOp t m.
Proof.
  unfold adminOp. cbn. destruct (decide (n = m)) as [->|Hn]; [by rewrite lookup_insert_eq|by rewrite lookup_insert_ne].
Qed.

Lemma tracked_same t t' es e n :
  tracked t es n → adminOps t' !! n = adminOps t !! n → usedNonces t ⊆ usedNonces t' → ¬ executes n e → ¬ cancels n e →
  tracked t' (es ++ [e]) n.
Proof.
  intros [T1 T2 T3 T4] Eo Eu He Hc. assert (adminOp t' n = adminOp t n) as E by (unfold adminOp; by rewrite Eo).
  constructor; rewrite ?E.
  - rewrite Exists_app, Exists_cons, Exists_nil. naive_solver.
  - rewrite Exists_app, Exists_cons, Exists_nil. naive_solver.
  - intros Hh. destruct (T3 Hh) as (e0 & He0 & Hq). exists e0. split; [set_solver|done].
  - rewrite Eo. set_solver.
Qed.

Lemma tracked_step t es b x t' n :
  tracked t es n → transact b x t = Ok t' →
  tracked t' (es ++ [{| e_block := b; e_before := t; e_tx := x; e_after := t' |}]) n.
Proof.
  set (e := {| e_block := b; e_before := t; e_tx := x; e_after := t' |}). intros T E.
  destruct x as [call m deadline sigs|call m out|m sigs|digest sigs|m sigs|token bal ok dep re].
  - apply queueAdmin_ok in E as (Hm & Hd & Hs & ->). destruct (decide (m = n)) as [->|Hn].
    + assert (adminOp t n = noOp) as E0 by (unfold adminOp; by rewrite (tr_fresh _ _ _ T)).
      destruct T as [T1 T2 _ _]. rewrite E0 in T1, T2. cbn in T1, T2.
      constructor; rewrite ?adminOp_insert, ?decide_True by done; cbn [executed cancelled callHash].
      * rewrite Exists_app, Exists_cons, Exists_nil. unfold executes at 2. cbn. naive_solver.
      * rewrite Exists_app, Exists_cons, Exists_nil. unfold cancels at 2. cbn. naive_solver.
      * intros _. exists e. split; [set_solver|]. by exists call, deadline, sigs.
      * cbn. set_solver.
    + apply tracked_same with t; cbn; [done|by rewrite lookup_insert_ne|set_solver|by intros []|by intros []].
  - apply executeAdmin_ok in E as (Hh & He & Hc & Hep & Htime & Hk & c & Hdec & Hp). set (op := adminOp t m) in *.
    apply performAdmin_governance in Hp as (Po & Pu & _). cbn in Po, Pu. destruct (decide (m = n)) as [->|Hn].
    + assert (adminOp t' n = op <| executed := true |>) as E0 by (unfold adminOp; by rewrite Po, lookup_insert_eq).
      destruct T as [T1 T2 T3 T4]. fold op in T1, T2, T3. constructor; rewrite ?E0; cbn.
      * rewrite Exists_app, Exists_cons, Exists_nil. split; [|done]. intros _. right. by left.
      * rewrite Exists_app, Exists_cons, Exists_nil. unfold cancels at 2. cbn. naive_solver.
      * intros _. destruct (T3 Hh) as (e0 & Hin & Hq). exists e0. split; [set_solver|done].
      * intros Hu. rewrite Pu in Hu. exfalso. apply Hh. unfold op, adminOp. by rewrite T4.
    + apply tracked_same with t; cbn; [done|by rewrite Po, lookup_insert_ne|by rewrite Pu|done|by intros []].
  - apply cancelAdmin_ok in E as (Hop & Hs & ->). destruct (decide (m = n)) as [->|Hn].
    + destruct T as [T1 T2 T3 T4]. constructor; rewrite ?adminOp_insert, ?decide_True by done; cbn.
      * rewrite Exists_app, Exists_cons, Exists_nil. unfold executes at 2. cbn. naive_solver.
      * rewrite Exists_app, Exists_cons, Exists_nil. split; [|done]. intros _. right. by left.
      * intros Hh. destruct (T3 Hh) as (e0 & Hin & Hq). exists e0. split; [set_solver|done].
      * set_solver.
    + apply tracked_same with t; cbn; [done|by rewrite lookup_insert_ne|set_solver|by intros []|done].
  - apply revokeIntent_ok in E as (Hs & ->). apply tracked_same with t; cbn; [done|done|done|by intros []|by intros []].
  - apply pause_ok in E as (Hm & Hs & ->). apply tracked_same with t; cbn; [done|done|set_solver|by intros []|by intros []].
  - apply sweep_ok in E as ->. apply tracked_same with t; cbn; [done|done|done|by intros []|by intros []].
Qed.

Lemma constructor_ok b self s pol t :
  constructor b self s pol = Ok t → adminOps t = ∅ ∧ usedNonces t = ∅ ∧ this t = self ∧ gatewayWallet t = sp_gatewayWallet s.
Proof. unfold constructor. intros E. ok_inv. destruct (foldl _ _ _) as [rs n]. ok_inv. case_match. ok_inv. by subst. Qed.

Lemma history_tracked t es n : history t es → tracked t es n.
Proof.
  induction 1 as [b self s pol t E|t es b x t' _ IH _ E].
  - apply constructor_ok in E as (E1 & _). assert (adminOp t n = noOp) as E0 by (unfold adminOp; by rewrite E1, lookup_empty).
    constructor; rewrite ?E0; cbn; rewrite ?Exists_nil; try done. intros _. by rewrite E1, lookup_empty.
  - by apply tracked_step.
Qed.

(** ** The epoch pins the governance *)

Definition older t0 t : Prop := adminEpoch t0 ≤ adminEpoch t ∧ (adminEpoch t0 = adminEpoch t → governance t0 = governance t).

Lemma transact_epoch b x t t' :
  transact b x t = Ok t' →
  adminEpoch t' = adminEpoch t ∧ governance t' = governance t ∨ adminEpoch t' = adminEpoch t + 1.
Proof.
  destruct x as [call m deadline sigs|call m out|m sigs|digest sigs|m sigs|token bal ok dep re]; intros E.
  - apply queueAdmin_ok in E as (_ & _ & _ & ->). by left.
  - apply executeAdmin_ok in E as (_ & _ & _ & _ & _ & _ & c & _ & Hp). by apply performAdmin_governance in Hp as (_ & _ & _ & _ & _ & _ & _ & ?).
  - apply cancelAdmin_ok in E as (_ & _ & ->). by left.
  - apply revokeIntent_ok in E as (_ & ->). by left.
  - apply pause_ok in E as (_ & _ & ->). by left.
  - apply sweep_ok in E as ->. by left.
Qed.

Lemma older_step b x t0 t t' : older t0 t → transact b x t = Ok t' → older t0 t'.
Proof. intros [O1 O2] [[E1 E2]|E]%transact_epoch; unfold older; [rewrite E1, E2; by split|]. split; [|intros ?]; lia. Qed.

Lemma history_older t es e : history t es → e ∈ es → older (e_before e) t.
Proof.
  intros Hist. revert e. induction Hist as [b self s pol t E|t es b x t' _ IH _ E]; [set_solver|].
  intros e [He|He%list_elem_of_singleton]%elem_of_app.
  - eapply older_step; [by apply IH|done].
  - subst e. cbn. eapply older_step; [|done]. by split.
Qed.

Lemma history_split t es h1 e h2 :
  history t es → es = h1 ++ e :: h2 →
  history (e_before e) h1 ∧ Forall isByte (signatures (e_tx e)) ∧ transact (e_block e) (e_tx e) (e_before e) = Ok (e_after e).
Proof.
  intros Hist. revert h2. induction Hist as [b self s pol t E|t es b x t' Hist IH Hb E]; intros h2 Es.
  - by destruct h1.
  - destruct h2 as [|e2 h2 _] using rev_ind.
    + apply app_inj_tail in Es as [-> <-]. done.
    + rewrite app_comm_cons, app_assoc in Es. apply app_inj_tail in Es as [-> _]. by eapply IH.
Qed.

(** ** Who authorised what *)

(** A quorum of the owners of [t] signed [digest]. *)
Definition agreed b t (digest : Z) : Prop := ∃ l, quorum (chain := chain) b t digest l.

(** An entry that queued [call] as operation [n] with the owners' consent, in
    the same epoch as [t] and long enough before [now]. *)
Definition authorised now t (call : list Z) n (e0 : entry) : Prop :=
  ∃ call0 deadline sigs, e_tx e0 = QueueAdmin call0 n deadline sigs ∧ keccak256 call0 = keccak256 call ∧
    timestamp (e_block e0) ≤ deadline ∧
    agreed (e_block e0) (e_before e0) (queueDigest (e_before e0) (keccak256 call0) n deadline (adminEpoch t)) ∧
    governance (e_before e0) = governance t ∧
    timestamp (e_block e0) + adminTimelock t ≤ now ≤ timestamp (e_block e0) + adminTimelock t + ADMIN_OP_GRACE.

(** What the contract promises of one entry after the entries [past]. *)
Definition entry_ok (past : list entry) (e : entry) : Prop :=
  let b := e_block e in let t := e_before e in let t' := e_after e in
  match e_tx e with
  | ExecuteAdmin call n out =>
      ¬ Exists (executes n) past ∧ ¬ Exists (cancels n) past ∧ (∃ e0, e0 ∈ past ∧ authorised (timestamp b) t call n e0) ∧
      ∃ c, decodeAdminCall call = Some c ∧
           performAdmin c out (t <| adminOps ::= <[n := adminOp t n <| executed := true |>]> |>) = Ok t'
  | QueueAdmin call n deadline _ =>
      agreed b t (queueDigest t (keccak256 call) n deadline (adminEpoch t)) ∧
      same_policy t t' ∧ paused t' = paused t ∧ revokedIntents t' = revokedIntents t
  | CancelAdmin n _ =>
      agreed b t (adminDigest t (keccak256 (words [CANCEL_ADMIN_OP_TYPEHASH; n]))) ∧
      same_policy t t' ∧ paused t' = paused t ∧ revokedIntents t' = revokedIntents t
  | RevokeIntent digest _ =>
      agreed b t (adminDigest t (keccak256 (words [REVOKE_INTENT_TYPEHASH; digest]))) ∧
      same_policy t t' ∧ paused t' = paused t ∧ revokedIntents t' = {[digest]} ∪ revokedIntents t
  | Pause n _ =>
      agreed b t (adminDigest t (keccak256 (words [PAUSE_TYPEHASH; n]))) ∧
      same_policy t t' ∧ paused t' = true ∧ revokedIntents t' = revokedIntents t
  | Sweep _ _ _ _ _ => t' = t
  end.

Lemma execution_ok t es b call n out t' :
  history t es → executeAdmin b call n out t = Ok t' →
  ¬ Exists (executes n) es ∧ ¬ Exists (cancels n) es ∧ ∃ e0, e0 ∈ es ∧ authorised (timestamp b) t call n e0.
Proof.
  intros Hist E. apply executeAdmin_ok in E as (Hh & He & Hc & Hep & Htime & Hk & _).
  pose proof (history_tracked t es n Hist) as T. rewrite <- (tr_executed _ _ _ T), <- (tr_cancelled _ _ _ T), He, Hc.
  split; [done|]. split; [done|].
  destruct (tr_queued _ _ _ T Hh) as (e0 & Hin & call0 & deadline & sigs & Etx & Hk0 & Heta & Hep0 & Hd & Hs).
  destruct (history_older t es e0 Hist Hin) as [_ Hgov]. rewrite Hep0 in Hep. specialize (Hgov Hep).
  exists e0. split; [done|]. exists call0, deadline, sigs. split; [done|]. split; [congruence|]. split; [done|].
  apply list_elem_of_split in Hin as (h1 & h2 & Es). destruct (history_split t es h1 e0 h2 Hist Es) as (_ & Hb & _).
  rewrite Etx in Hb. split; [eapply checkWeightedSigs_sound; [exact Hb|by rewrite <- Hep]|]. split; [done|].
  assert (adminTimelock (e_before e0) = adminTimelock t) by (unfold governance in Hgov; congruence). lia.
Qed.

Lemma history_entries t es : history t es → ∀ past e rest, es = past ++ e :: rest → entry_ok past e.
Proof.
  intros Hist past e rest Es. destruct (history_split t es past e rest Hist Es) as (Hp & Hb & E). unfold entry_ok. cbv zeta.
  destruct (e_tx e) as [call m deadline sigs|call m out|m sigs|digest sigs|m sigs|token bal ok dep re]; cbn [transact] in E.
  - apply queueAdmin_ok in E as (_ & _ & Hs & ->). split; [by eapply checkWeightedSigs_sound|done].
  - pose proof (execution_ok _ _ _ _ _ _ _ Hp E) as (G1 & G2 & G3). apply executeAdmin_ok in E as (_ & _ & _ & _ & _ & _ & G4).
    done.
  - apply cancelAdmin_ok in E as (_ & Hs & ->). split; [by eapply checkWeightedSigs_sound|done].
  - apply revokeIntent_ok in E as (Hs & ->). split; [by eapply checkWeightedSigs_sound|done].
  - apply pause_ok in E as (_ & Hs & ->). split; [by eapply checkWeightedSigs_sound|done].
  - by apply sweep_ok in E.
Qed.

(** C9: nobody administers the treasury but a quorum of its owners, in time
    and once. Over any history of transactions from deployment on, by any
    senders and on any blocks: an executed operation was queued before with
    the consent of a quorum of the owners - the same owners, weights,
    threshold and timelock as rule at its execution -, submitted within the
    signed deadline; it runs not before the timelock has passed since and not
    later than seven days after that, was neither executed nor cancelled
    before, and does just what its calldata says. Every other transaction
    leaves the policy, the owners and the limits as they are; queuing,
    cancelling, pausing and revoking take a quorum of the owners of that
    moment, and only a pause and a revocation touch the emergency stops. *)
Theorem admin_changes_authorised t es (Hist : history t es) past e rest (Hes : es = past ++ e :: rest) : entry_ok past e.
Proof. by apply history_entries with t es rest. Qed.

(** A run of transactions none of which reverts. *)
Fixpoint replay t (es : list entry) (xs : list (Block * tx)) : option (Treasury * list entry) :=
  match xs with
  | [] => Some (t, es)
  | (b, x) :: xs =>
      match transact b x t with
      | Ok t' => replay t' (es ++ [{| e_block := b; e_before := t; e_tx := x; e_after := t' |}]) xs
      | Throw _ => None
      end
  end.

Lemma replay_history t es xs t' es' :
  history t es → Forall (λ bx, Forall isByte (signatures bx.2)) xs → replay t es xs = Some (t', es') → history t' es'.
Proof.
  intros Hist Hb. revert t es Hist. induction Hb as [|[b x] xs Hx Hb IH]; intros t es Hist E; cbn [replay] in E.
  - by simplify_eq.
  - destruct (transact b x t) as [t1|] eqn:Et; [|done]. eapply IH; [|done]. by apply history_step.
Qed.
End admin.

(** Queue a new cap on intents, let the hour pass, execute it. *)
Definition sampleCall : list Z := be_bytes 4 (selectorOf "setPerIntentCap(uint256)") ++ word 7000000.
Definition sampleTxs : list (Block * tx) :=
  [(blockAt 2000, QueueAdmin sampleCall 1 2500 (encodeApprovals sampleApprovals));
   (blockAt 6000, ExecuteAdmin sampleCall 1 None)].

Lemma sample_replay : ∃ t e1 e2,
  replay (chain := sample_chain) sampleTreasury [] sampleTxs = Some (t, [e1; e2]) ∧
  e_tx e2 = ExecuteAdmin sampleCall 1 None ∧ perIntentCap t = 7000000.
Proof. vm_compute. by do 3 eexists. Qed.

Lemma sample_history : Forall (λ bx, Forall isByte (signatures bx.2)) sampleTxs ∧ history (chain := sample_chain) sampleTreasury [].
Proof.
  split; [|eapply history_start; exact sampleTreasury_ok].
  assert (Forall (λ bx : Block * tx, forallb (λ z, (0 <=? z) && (z <? 256)) (signatures bx.2) = true) sampleTxs) as F
    by (repeat constructor; vm_compute; reflexivity).
  eapply Forall_impl; [exact F|]. intros bx G. apply Forall_forall. intros z Hz. rewrite forallb_forall in G.
  apply list_elem_of_In, G, andb_true_iff in Hz as [Hz1%Z.leb_le Hz2%Z.ltb_lt]. done.
Qed.

Lemma admin_changes_authorised_witness : ∃ t e1 e2,
  history (chain := sample_chain) t [e1; e2] ∧ e_tx e2 = ExecuteAdmin sampleCall 1 None ∧
  perIntentCap t = 7000000 ∧ entry_ok (chain := sample_chain) [e1] e2.
Proof.
  destruct sample_replay as (t & e1 & e2 & E & E2 & E3). destruct sample_history as [Hb H0].
  pose proof (replay_history _ _ _ _ _ H0 Hb E) as Hist. exists t, e1, e2. split; [done|]. split; [done|]. split; [done|].
  by apply (admin_changes_authorised t [e1; e2] Hist [e1] e2 []).
Defined.
