(* ===== verification/GtInvariant.v ===== *)
(** * The storage of the treasury stays well formed

    What the constructor and the setters check together: the owners are
    distinct, exactly they carry weight and together they reach the threshold;
    the allowlist of recipients is never empty and its counter is its size; the
    caps are never zero; an allowed token has a name. *)

From S2P Require Import Prelude.
From S2P Require Import Js.
From S2P Require Import Encoding.
From S2P Require Import Abi.
From S2P Require Import EvmAbi.
From S2P Require Import GtPolicy.
From S2P Require Import GatewayTreasury.
From S2P Require Import GtQuorum.
From S2P Require Import GtAdmin.
From S2P Require Import AbiSample.
From S2P Require Import GtSample.

Record wellformed (t : Treasury) : Prop := {
  wf_count : 1 ≤ Z.of_nat (length (owners t)) ≤ 20;
  wf_distinct : NoDup (owners t);
  wf_owners : ∀ o, o ∈ owners t → o ≠ 0 ∧ o ≠ this t ∧ 1 ≤ weightOf t o;
  wf_others : ∀ a, a ∉ owners t → weights t !! a = None;
  wf_threshold : 1 ≤ thresholdWeight t ≤ sumZ (weightOf t <$> owners t);
  wf_gateway : gatewayWallet t ≠ 0;
  wf_recipients : recipientCount t = Z.of_nat (size (allowedRecipients t)) ∧ 1 ≤ recipientCount t;
  wf_cap : perIntentCap t ≠ 0;
  wf_expiry : maxExpiryBlocks t ≠ 0;
  wf_tokens : map_Forall (λ a i, a ≠ 0 ∧ eip712Name i ≠ []) (allowedTokens t) }.

(** ** Owner sets *)

Lemma checkOwners_ok self os ws : ∀ seen total r,
  length os = length ws → checkOwners self seen os ws total = Ok r →
  NoDup os ∧ (∀ o, o ∈ os → o ∉ seen ∧ o ≠ 0 ∧ o ≠ self) ∧ Forall (Z.le 1) ws ∧ r = total + sumZ ws.
Proof.
  revert ws. induction os as [|o os IH]; intros [|w ws] seen total r Hl E; try done; cbn [checkOwners] in E.
  - ok_inv. subst. cbn. repeat split; [constructor|set_solver..|constructor|lia].
  - ok_inv. injection Hl as Hl. apply IH in E as (Hd & Ho & Hw & ->); [|done]. zify_bool. split_and!.
    + constructor; [|done]. intros Hin. apply Ho in Hin as [Hin _]. set_solver.
    + intros a [->|Hin]%elem_of_cons; [done|]. apply Ho in Hin as (? & ? & ?). set_solver.
    + by constructor.
    + cbn. lia.
Qed.

Lemma setWeights_other os ws m a : a ∉ os → setWeights m os ws !! a = m !! a.
Proof.
  unfold setWeights. revert ws m. induction os as [|o os IH]; intros [|w ws] m Ha; try done. cbn.
  rewrite IH by set_solver. rewrite lookup_insert_ne; [done|set_solver].
Qed.

Lemma setWeights_owners os ws m :
  NoDup os → length os = length ws → (λ o, default 0 (setWeights m os ws !! o)) <$> os = ws.
Proof.
  revert ws m. induction os as [|o os IH]; intros [|w ws] m Hd Hl; try done. apply NoDup_cons in Hd as [Ho Hd].
  injection Hl as Hl. change (setWeights m (o :: os) (w :: ws)) with (setWeights (<[o := w]> m) os ws). rewrite fmap_cons, IH by done.
  by rewrite setWeights_other, lookup_insert_eq by done.
Qed.

Lemma clear_weights os (m : gmap Z Z) :
  (∀ a, a ∉ os → m !! a = None) → foldl (λ m a, delete a m) m os = ∅.
Proof.
  revert m. induction os as [|o os IH]; intros m Hm; cbn.
  - apply map_eq. intros a. rewrite lookup_empty. apply Hm. set_solver.
  - apply IH. intros a Ha. destruct (decide (a = o)) as [->|Hn]; [by rewrite lookup_delete_eq|].
    rewrite lookup_delete_ne by done. apply Hm. set_solver.
Qed.

(** The owner part of the invariant, of a set that passed the checks. *)
Record owners_ok (self : Z) (os : list Z) (ws : gmap Z Z) (threshold : Z) : Prop := {
  oo_count : 1 ≤ Z.of_nat (length os) ≤ 20;
  oo_distinct : NoDup os;
  oo_owners : ∀ o, o ∈ os → o ≠ 0 ∧ o ≠ self ∧ 1 ≤ default 0 (ws !! o);
  oo_others : ∀ a, a ∉ os → ws !! a = None;
  oo_threshold : 1 ≤ threshold ≤ sumZ ((λ o, default 0 (ws !! o)) <$> os) }.

Lemma checkOwnerSet_ok self os ws threshold u :
  checkOwnerSet self os ws threshold = Ok u → owners_ok self os (setWeights ∅ os ws) threshold.
Proof.
  unfold checkOwnerSet. cbv zeta. intros E. ok_inv. zify_bool. apply checkOwners_ok in Hr0 as (Hd & Ho & Hw & ->); [|lia].
  assert (length os = length ws) as Hl by lia. pose proof (setWeights_owners os ws ∅ Hd Hl) as Ew.
  constructor; [lia|done| | |].
  - intros o Hin. destruct (Ho o Hin) as (_ & ? & ?). split; [done|]. split; [done|].
    rewrite Forall_forall in Hw. apply Hw.
    pose proof (list_elem_of_fmap_2 (λ o, default 0 (setWeights ∅ os ws !! o)) os o Hin) as G. by rewrite Ew in G.
  - intros a Ha. rewrite setWeights_other by done. apply lookup_empty.
  - rewrite Ew. lia.
Qed.

Lemma wellformed_owners t : wellformed t → owners_ok (this t) (owners t) (weights t) (thresholdWeight t).
Proof. intros []. by constructor. Qed.

(** ** Recipients, tokens *)

Lemma addRecipients_ok rs (sn : gset Z * Z) :
  sn.2 = Z.of_nat (size sn.1) → (foldl addRecipient sn rs).2 = Z.of_nat (size (foldl addRecipient sn rs).1).
Proof.
  revert sn. induction rs as [|x rs IH]; intros sn E; [done|]. apply IH. unfold addRecipient.
  destruct (bool_decide (x ∈ sn.1)) eqn:Ex; [done|]. apply bool_decide_eq_false in Ex. cbn [fst snd].
  rewrite size_union, size_singleton by set_solver. lia.
Qed.

Definition tokens_ok (m : gmap Z TokenInfo) : Prop := map_Forall (λ a i, a ≠ 0 ∧ eip712Name i ≠ []) m.

Lemma token_insert_ok a n v m :
  tokens_ok m → (a =? 0) || (lenZ n =? 0) = false → tokens_ok (<[a := {| eip712Name := n; eip712Version := v |}]> m).
Proof.
  intros Hm [Ha Hn]%orb_false_iff. apply map_Forall_insert_2; [|done]. zify_bool. split; [done|]. cbn. intros ->. by apply Hn.
Qed.

Lemma initTokens_ok tokens names versions m m' :
  initTokens tokens names versions m = Ok m' → tokens_ok m → tokens_ok m'.
Proof.
  revert names versions m. induction tokens as [|a tokens IH]; intros [|n names] [|v versions] m E Hm; cbn [initTokens] in E;
    try (ok_inv; by subst).
  apply bind_ok in E as (u & Hu%throw_if_ok & E). apply IH in E; [done|]. by apply token_insert_ok.
Qed.

(** ** Every operation keeps it *)

Section invariant.
Context `{Viem} `{chain : Block → EvmChain}.

Lemma constructor_wellformed b self s pol t : constructor b self s pol = Ok t → wellformed t.
Proof.
  unfold constructor. intros E. ok_inv. apply checkOwnerSet_ok in Hr4 as [].
  pose proof (addRecipients_ok (pp_allowedRecipients pol) (∅, 0) eq_refl) as R.
  destruct (foldl _ _ _) as [rs n]. cbn [fst snd] in R. ok_inv. case_match. ok_inv. subst. zify_bool.
  constructor; cbn; try done.
  - lia.
  - match goal with G : initTokens _ _ _ _ = Ok _ |- _ => by apply initTokens_ok in G end.
Qed.

Lemma setOwners_wellformed os ws threshold t t' : wellformed t → setOwners os ws threshold t = Ok t' → wellformed t'.
Proof.
  intros W E. unfold setOwners in E. ok_inv. subst. apply checkOwnerSet_ok in Hr as [].
  rewrite (clear_weights (owners t) (weights t) (wf_others _ W)). destruct W. by constructor.
Qed.

Lemma setAllowedRecipient_wellformed r f t t' : wellformed t → setAllowedRecipient r f t = Ok t' → wellformed t'.
Proof.
  intros W E. unfold setAllowedRecipient, add256 in E. destruct (bool_decide _) eqn:Er; destruct f; ok_inv; try (by subst);
    try (repeat case_match; ok_inv); subst; destruct W; constructor; cbn; try done; destruct wf_recipients0.
  - zify_bool. rewrite size_difference, size_singleton by set_solver. split; [|lia].
    assert (size ({[r]} : gset Z) ≤ size (allowedRecipients t))%nat by (apply subseteq_size; set_solver).
    rewrite size_singleton in *. lia.
  - rewrite size_union, size_singleton by set_solver. lia.
Qed.

Lemma performAdmin_wellformed c out t t' : wellformed t → performAdmin c out t = Ok t' → wellformed t'.
Proof.
  intros W E. destruct c; cbn [performAdmin] in E;
    try (by eapply setOwners_wellformed); try (by eapply setAllowedRecipient_wellformed);
    unfold setAllowedToken, setAdminTimelock, gatewayCall, transferToRecipient, add256 in E; repeat case_match; ok_inv; subst;
    repeat case_match; ok_inv; subst; try done; try (destruct W; constructor; cbn; try done; by zify_bool).
  - destruct W; constructor; cbn; try done. apply token_insert_ok; [done|]. apply orb_false_iff. done.
  - destruct W; constructor; cbn; try done. by apply map_Forall_delete.
Qed.

Lemma transact_wellformed b x t t' : wellformed t → transact (chain := chain) b x t = Ok t' → wellformed t'.
Proof.
  intros W. destruct x as [call m deadline sigs|call m out|m sigs|digest sigs|m sigs|token bal ok dep re]; intros E.
  - apply queueAdmin_ok in E as (_ & _ & _ & ->). destruct W. by constructor.
  - apply executeAdmin_ok in E as (_ & _ & _ & _ & _ & _ & c & _ & Hp). eapply performAdmin_wellformed; [|done].
    destruct W. by constructor.
  - apply cancelAdmin_ok in E as (_ & _ & ->). destruct W. by constructor.
  - apply revokeIntent_ok in E as (_ & ->). destruct W. by constructor.
  - apply pause_ok in E as (_ & _ & ->). destruct W. by constructor.
  - by apply sweep_ok in E as ->.
Qed.

Lemma history_wellformed t es : history (chain := chain) t es → wellformed t.
Proof.
  induction 1 as [b self s pol t E|t es b x t' _ IH _ E]; [by eapply constructor_wellformed|by eapply transact_wellformed].
Qed.

(** C13: whatever is ever executed, the treasury stays usable and its policy
    stays meaningful: from deployment on, over any history of transactions, it
    has one to twenty distinct owners, none of them zero or the treasury
    itself, exactly the owners carry weight and together they reach the
    threshold, which is at least 1; the allowlist of recipients never becomes
    empty and its counter is its size; the caps on intents and on their expiry
    are never zero, and every allowed token has an address and a name. *)
Theorem treasury_wellformed t es (Hist : history (chain := chain) t es) : wellformed t.
Proof. by apply history_wellformed with es. Qed.
End invariant.

Lemma treasury_wellformed_witness : ∃ t e1 e2,
  history (chain := sample_chain) t [e1; e2] ∧ perIntentCap t = 7000000 ∧ wellformed t.
Proof.
  destruct sample_replay as (t & e1 & e2 & E & E2 & E3). destruct sample_history as [Hb H0].
  pose proof (replay_history _ _ _ _ _ H0 Hb E) as Hist. exists t, e1, e2. split; [done|]. split; [done|].
  by apply (treasury_wellformed (chain := sample_chain) t [e1; e2]).
Defined.
