(* ===== verification/Guard.v ===== *)
(** * The Gateway intent guard

    [contracts/src/bufi/gateway-guard]: the policy of the treasury contract as
    an ERC-6900 guard for Circle's accounts. [GatewayIntentGuardCore] keeps one
    configuration per account, its sets keyed by a hash of the account and an
    epoch; [GatewayIntentGuardPlugin] (v0.7) and [GatewayIntentGuardModule]
    (v0.8) put the check in front of the account's [isValidSignature]. A revert
    is an error and leaves the storage alone. Address books and account loupes
    are other contracts: what they answer is the environment. Events are left
    out. *)

From stdpp Require Import gmap.
From S2P Require Import Prelude.
From S2P Require Import Js.
From S2P Require Import Encoding.
From S2P Require Import Abi.
From S2P Require Import EvmAbi.
From S2P Require Import GtPolicy.
From S2P Require Import GatewayTreasury.

(** ** Errors *)

Inductive guard_error : Type :=
| GuardNotInstalled (account : Z)
| GuardAlreadyInstalled (account : Z)
| GuardWallet                                 (* InvalidGatewayWallet *)
| InvalidLimits
| GuardTokenConfig                            (* InvalidTokenConfig *)
| GuardDestinationConfig                      (* InvalidDestinationConfig *)
| GuardEmptyRecipients                        (* EmptyRecipientAllowlist *)
| InvalidAddressBook (book : Z)
| AddressBookNotInstalled (account book : Z)
| MissingIntentEnvelope
| UnknownIntentKind (kind : Z)
| DigestMismatch (expected derived : Z)
| IntentShapeRejected
| SourceTokenNotAllowed (token : Z)
| DestinationTokenNotAllowed (token : Z)
| DestinationDomainNotAllowed (domain : Z)
| GuardRecipientNotAllowed (recipient : Z)    (* RecipientNotAllowed *)
| DestinationCallerNotAllowed (caller : Z)
| DestinationContractNotAllowed (contract : Z)
| AuthorizationRejected
| NotImplemented (functionId : Z)
| GuardReverted.                              (* the ABI decoder, checked arithmetic, a callee *)

Definition decoded {A} (o : option A) : result guard_error A := match o with Some a => Ok a | None => Throw GuardReverted end.

(** ** Storage *)

Record Limits : Type := {
  gl_gatewayWallet : Z; gl_perIntentCap : Z; gl_maxFeeCap : Z; gl_maxExpiryBlocks : Z; gl_addressBook : Z; gl_sourceDomain : Z }.
#[global] Instance eta_limits : Eta Limits := λ l,
  {| gl_gatewayWallet := gl_gatewayWallet l; gl_perIntentCap := gl_perIntentCap l; gl_maxFeeCap := gl_maxFeeCap l;
     gl_maxExpiryBlocks := gl_maxExpiryBlocks l; gl_addressBook := gl_addressBook l; gl_sourceDomain := gl_sourceDomain l |}.
Definition noLimits : Limits :=
  {| gl_gatewayWallet := 0; gl_perIntentCap := 0; gl_maxFeeCap := 0; gl_maxExpiryBlocks := 0; gl_addressBook := 0; gl_sourceDomain := 0 |}.

(** A mapping to flags is the set of its keys that hold; the outer key is a name space. *)
Record Guard : Type := {
  limits : gmap Z Limits; epochs : gmap Z Z; recipients : gset (Z * Z); recipientCounts : gmap Z Z; domains : gset (Z * Z);
  tokens : gmap (Z * Z) TokenInfo; destTokens : gset (Z * Z); minters : gmap (Z * Z) Z; callers : gset (Z * Z) }.
#[global] Instance eta_guard : Eta Guard := λ g,
  {| limits := limits g; epochs := epochs g; recipients := recipients g; recipientCounts := recipientCounts g;
     domains := domains g; tokens := tokens g; destTokens := destTokens g; minters := minters g; callers := callers g |}.

Record GatewayGuardInit : Type := {
  gi_gatewayWallet : Z; gi_perIntentCap : Z; gi_maxFeeCap : Z; gi_maxExpiryBlocks : Z; gi_recipients : list Z;
  gi_destinationDomains : list Z; gi_tokens : list Z; gi_tokenNames : list (list Z); gi_tokenVersions : list (list Z);
  gi_destinationTokens : list Z; gi_sourceDomain : Z; gi_destinationMinters : list Z; gi_destinationCallers : list Z;
  gi_addressBook : Z }.

Definition limitsAt (g : Guard) (account : Z) : Limits := default noLimits (limits g !! account).
Definition epochAt (g : Guard) (account : Z) : Z := default 0 (epochs g !! account).
Definition countAt (g : Guard) (ns : Z) : Z := default 0 (recipientCounts g !! ns).
Definition isInstalled (g : Guard) (account : Z) : bool := negb (gl_gatewayWallet (limitsAt g account) =? 0).
Definition noToken : TokenInfo := {| eip712Name := []; eip712Version := [] |}.
Definition flag (b : bool) (k : Z * Z) (s : gset (Z * Z)) : gset (Z * Z) := if b then {[k]} ∪ s else s ∖ {[k]}.

(** What the guard asks of other contracts. A call reverts, or returns data that
    is a list of addresses or is not. *)
Inductive call_result : Type := Reverted | Malformed | Returned (l : list Z).
Class GuardEnv : Type := {
  codeSize : Z → Z;
  supportsAddressBook : Z → bool;             (* ERC165Checker.supportsInterface *)
  installedPlugins : Z → option (list Z);     (* IAccountLoupe(account).getInstalledPlugins() *)
  allowedRecipientsOf : Z → Z → call_result   (* IAccountAddressBook(book).getAllowedRecipients(account) *) }.

Section guard.
Context `{Viem} `{GuardEnv}.

Definition nsOf (account epoch : Z) : Z := keccak256 (words [account; epoch]).
Definition ns (g : Guard) (account : Z) : Z := nsOf account (epochAt g account).

(** ** Lifecycle *)

(** The count starts at 0 and grows by one per element of [init.recipients]: it does not overflow. *)
Definition installRecipient (n : Z) (g : Guard) (r : Z) : Guard :=
  if bool_decide ((n, r) ∈ recipients g) then g
  else g <| recipients := {[(n, r)]} ∪ recipients g |> <| recipientCounts := <[n := countAt g n + 1]> (recipientCounts g) |>.
Fixpoint installDomains (n : Z) (ds ms : list Z) (g : Guard) : result guard_error Guard :=
  match ds, ms with
  | d :: ds, m :: ms =>
      _ ← throw_if (m =? 0) GuardDestinationConfig;
      installDomains n ds ms (g <| domains := {[(n, d)]} ∪ domains g |> <| minters := <[(n, d) := m]> (minters g) |>)
  | _, _ => Ok g
  end.
Fixpoint installTokens (n : Z) (ts : list Z) (names versions : list (list Z)) (g : Guard) : result guard_error Guard :=
  match ts, names, versions with
  | t :: ts, a :: names, v :: versions =>
      _ ← throw_if ((t =? 0) || (lenZ a =? 0)) GuardTokenConfig;
      installTokens n ts names versions (g <| tokens := <[(n, t) := {| eip712Name := a; eip712Version := v |}]> (tokens g) |>)
  | _, _, _ => Ok g
  end.

(** [_install]; [validateAddressBook] is the packaging's. *)
Definition install (validateAddressBook : Z → Z → result guard_error ()) (account : Z) (i : GatewayGuardInit) (g : Guard) :
    result guard_error Guard :=
  _ ← throw_if (isInstalled g account) (GuardAlreadyInstalled account);
  _ ← throw_if (gi_gatewayWallet i =? 0) GuardWallet;
  _ ← throw_if ((gi_perIntentCap i =? 0) || (gi_maxExpiryBlocks i =? 0)) InvalidLimits;
  _ ← throw_if (negb (length (gi_tokens i) =? length (gi_tokenNames i))%nat || negb (length (gi_tokens i) =? length (gi_tokenVersions i))%nat)
        GuardTokenConfig;
  _ ← throw_if (negb (length (gi_destinationMinters i) =? length (gi_destinationDomains i))%nat) GuardDestinationConfig;
  _ ← (if negb (gi_addressBook i =? 0) then validateAddressBook account (gi_addressBook i) else Ok tt);
  let n := ns g account in
  let l := {| gl_gatewayWallet := gi_gatewayWallet i; gl_perIntentCap := gi_perIntentCap i; gl_maxFeeCap := gi_maxFeeCap i;
              gl_maxExpiryBlocks := gi_maxExpiryBlocks i; gl_addressBook := gi_addressBook i; gl_sourceDomain := gi_sourceDomain i |} in
  let g := g <| limits := <[account := l]> (limits g) |> in
  let g := foldl (installRecipient n) g (gi_recipients i) in
  _ ← throw_if ((countAt g n =? 0) && (gi_addressBook i =? 0)) GuardEmptyRecipients;
  g ← installDomains n (gi_destinationDomains i) (gi_destinationMinters i) g;
  let g := foldl (λ g c, g <| callers := {[(n, c)]} ∪ callers g |>) g (gi_destinationCallers i) in
  g ← installTokens n (gi_tokens i) (gi_tokenNames i) (gi_tokenVersions i) g;
  mret (foldl (λ g t, g <| destTokens := {[(n, t)]} ∪ destTokens g |>) g (gi_destinationTokens i)).

Definition uninstall (account : Z) (g : Guard) : result guard_error Guard :=
  _ ← throw_if (negb (isInstalled g account)) (GuardNotInstalled account);
  _ ← throw_if (2 ^ 256 <=? epochAt g account + 1) GuardReverted;
  mret (g <| limits := delete account (limits g) |> <| epochs := <[account := epochAt g account + 1]> (epochs g) |>).

(** ** Setters: [sender] is the account *)

Definition onlyInstalled (sender : Z) (g : Guard) : result guard_error () :=
  throw_if (negb (isInstalled g sender)) (GuardNotInstalled sender).

Definition setGatewayRecipient (sender recipient : Z) (allowed : bool) (g : Guard) : result guard_error Guard :=
  _ ← onlyInstalled sender g;
  let n := ns g sender in
  if Bool.eqb (bool_decide ((n, recipient) ∈ recipients g)) allowed then mret g
  else
    count ← (if allowed then
               _ ← throw_if (2 ^ 256 <=? countAt g n + 1) GuardReverted; mret (countAt g n + 1)
             else
               _ ← throw_if ((countAt g n <=? 1) && (gl_addressBook (limitsAt g sender) =? 0)) GuardEmptyRecipients;
               _ ← throw_if (countAt g n <? 1) GuardReverted;
               mret (countAt g n - 1));
    mret (g <| recipientCounts := <[n := count]> (recipientCounts g) |> <| recipients := flag allowed (n, recipient) (recipients g) |>).
Definition setGatewayDestinationDomain (sender domain : Z) (allowed : bool) (g : Guard) : result guard_error Guard :=
  _ ← onlyInstalled sender g; mret (g <| domains := flag allowed (ns g sender, domain) (domains g) |>).
Definition setGatewayToken (sender token : Z) (name version : list Z) (allowed : bool) (g : Guard) : result guard_error Guard :=
  _ ← onlyInstalled sender g;
  if allowed then
    _ ← throw_if ((token =? 0) || (lenZ name =? 0)) GuardTokenConfig;
    mret (g <| tokens := <[(ns g sender, token) := {| eip712Name := name; eip712Version := version |}]> (tokens g) |>)
  else mret (g <| tokens := delete (ns g sender, token) (tokens g) |>).
Definition setGatewayDestinationToken (sender token : Z) (allowed : bool) (g : Guard) : result guard_error Guard :=
  _ ← onlyInstalled sender g; mret (g <| destTokens := flag allowed (ns g sender, token) (destTokens g) |>).
Definition setGatewayLimits (sender perIntentCap maxFeeCap maxExpiryBlocks : Z) (g : Guard) : result guard_error Guard :=
  _ ← onlyInstalled sender g;
  _ ← throw_if ((perIntentCap =? 0) || (maxExpiryBlocks =? 0)) InvalidLimits;
  let l := limitsAt g sender <| gl_perIntentCap := perIntentCap |> <| gl_maxFeeCap := maxFeeCap |>
             <| gl_maxExpiryBlocks := maxExpiryBlocks |> in
  mret (g <| limits := <[sender := l]> (limits g) |>).
Definition setGatewayDestinationMinter (sender domain minter : Z) (g : Guard) : result guard_error Guard :=
  _ ← onlyInstalled sender g; mret (g <| minters := <[(ns g sender, domain) := minter]> (minters g) |>).
Definition setGatewayDestinationCaller (sender caller : Z) (allowed : bool) (g : Guard) : result guard_error Guard :=
  _ ← onlyInstalled sender g; mret (g <| callers := flag allowed (ns g sender, caller) (callers g) |>).

(** ** The policy *)

Definition tokenAt (g : Guard) (n token : Z) : TokenInfo := default noToken (tokens g !! (n, token)).

(** [_recipientAllowed]; reading the book may revert. *)
Definition recipientAllowed (g : Guard) (account : Z) (l : Limits) (n domain recipient : Z) : result guard_error bool :=
  if negb (matchesDomainShape domain recipient) then mret false
  else if bool_decide ((n, recipient) ∈ recipients g) then mret true
  else if (gl_addressBook l =? 0) || negb (isEvmDomain domain) then mret false
  else
    let r := recipient mod 2 ^ 160 in
    if r =? 0 then mret false
    else match allowedRecipientsOf (gl_addressBook l) account with
         | Returned book => mret (bool_decide (r ∈ book))
         | Reverted | Malformed => Throw GuardReverted
         end.

(** The part of [_checkBurnIntent] on where the money goes. *)
Definition checkDestination (g : Guard) (account : Z) (l : Limits) (n : Z) (s : TransferSpec) : result guard_error () :=
  let domain := destinationDomain s in
  _ ← throw_if (negb (bool_decide ((n, destinationToken s) ∈ destTokens g)) || negb (matchesDomainShape domain (destinationToken s)))
        (DestinationTokenNotAllowed (destinationToken s));
  _ ← throw_if (negb (bool_decide ((n, domain) ∈ domains g))) (DestinationDomainNotAllowed domain);
  ok ← recipientAllowed g account l n domain (destinationRecipient s);
  _ ← throw_if (negb ok) (GuardRecipientNotAllowed (destinationRecipient s));
  let c := destinationCaller s in
  _ ← throw_if (negb (c =? 0) && (negb (bool_decide ((n, c) ∈ callers g)) || negb (matchesDomainShape domain c)))
        (DestinationCallerNotAllowed c);
  let minter := default 0 (minters g !! (n, domain)) in
  throw_if ((minter =? 0) || negb (destinationContract s =? minter)) (DestinationContractNotAllowed (destinationContract s)).

Definition checkBurnIntent (b : Block) (g : Guard) (account : Z) (l : Limits) (n hash : Z) (payload : list Z) : result guard_error () :=
  i ← decoded (decodeBurnIntent payload);
  _ ← throw_if (negb (burnIntentDigest i =? hash)) (DigestMismatch hash (burnIntentDigest i));
  match checkIntentShape b i {| il_gatewayWallet := gl_gatewayWallet l; il_sourceDomain := gl_sourceDomain l; il_depositor := account;
                                il_maxExpiryBlocks := gl_maxExpiryBlocks l; il_perIntentCap := gl_perIntentCap l;
                                il_maxFeeCap := gl_maxFeeCap l |} with
  | None => Throw IntentShapeRejected
  | Some token =>
      _ ← throw_if (lenZ (eip712Name (tokenAt g n token)) =? 0) (SourceTokenNotAllowed token);
      checkDestination g account l n (spec i)
  end.

Definition checkReceiveWithAuthorization (b : Block) (g : Guard) (account : Z) (l : Limits) (n caller hash : Z) (payload : list Z) :
    result guard_error () :=
  let ti := tokenAt g n caller in
  _ ← throw_if (lenZ (eip712Name ti) =? 0) AuthorizationRejected;
  from ← decoded (readUint 160 payload 0);
  to ← decoded (readUint 160 payload 32);
  value ← decoded (readWord payload 64);
  validAfter ← decoded (readWord payload 96);
  validBefore ← decoded (readWord payload 128);
  nonce ← decoded (readWord payload 160);
  let derived := receiveWithAuthorizationDigest b (eip712Name ti) (eip712Version ti) caller from to value validAfter validBefore nonce in
  _ ← throw_if (negb (derived =? hash)) (DigestMismatch hash derived);
  throw_if (negb (from =? account) || negb (to =? gl_gatewayWallet l)) AuthorizationRejected.

(** [_checkIntent], and the external view of the same name. *)
Definition checkIntent (b : Block) (g : Guard) (account caller hash kind : Z) (payload : list Z) : result guard_error () :=
  let l := limitsAt g account in
  _ ← throw_if (gl_gatewayWallet l =? 0) (GuardNotInstalled account);
  let n := ns g account in
  if kind =? 0 then checkBurnIntent b g account l n hash payload
  else if kind =? 1 then checkReceiveWithAuthorization b g account l n caller hash payload
  else Throw (UnknownIntentKind kind).

(** [_decodeEnvelope] *)
Definition decodeEnvelope (envelope : list Z) : result guard_error (Z * list Z) :=
  _ ← throw_if (lenZ envelope <? 96) MissingIntentEnvelope;
  kind ← decoded (readUint 8 envelope 0);
  payload ← decoded (readBytes envelope 0 32);
  mret (kind, payload).

(** ** GatewayIntentGuardPlugin *)

Definition ENVELOPE_MAGIC : Z := keccakText "BUFI.GatewayIntentGuard.envelope.v1".

Definition trailerEnvelope (sig : list Z) : result guard_error (list Z) :=
  let len := length sig in
  _ ← throw_if (len <? 64)%nat MissingIntentEnvelope;
  let magic := wordAt (len - 32) sig in
  let envLen := wordAt (len - 64) sig in
  _ ← throw_if (negb (magic =? ENVELOPE_MAGIC) || (Z.of_nat len - 64 <? envLen)) MissingIntentEnvelope;
  mret (take (Z.to_nat envLen) (drop (len - 64 - Z.to_nat envLen) sig)).

(** [sender] is the ERC-1271 caller, [account] the account that calls the hook. *)
Definition preRuntimeValidationHook (b : Block) (g : Guard) (account functionId sender : Z) (data : list Z) : result guard_error () :=
  _ ← throw_if (negb (functionId =? 0)) (NotImplemented functionId);
  _ ← throw_if ((lenZ data <? 4) || negb (bool_decide (take 4 data = be_bytes 4 ERC1271_MAGICVALUE))) (NotImplemented functionId);
  let args := drop 4 data in
  hash ← decoded (readWord args 0);
  signature ← decoded (readBytes args 0 32);
  envelope ← trailerEnvelope signature;
  '(kind, payload) ← decodeEnvelope envelope;
  checkIntent b g account sender hash kind payload.

Definition pluginAddressBook (account book : Z) : result guard_error () :=
  _ ← throw_if ((codeSize book =? 0) || negb (supportsAddressBook book)) (InvalidAddressBook book);
  installed ← decoded (installedPlugins account);
  throw_if (negb (bool_decide (book ∈ installed))) (AddressBookNotInstalled account book).
Definition pluginOnInstall := install pluginAddressBook.

(** ** GatewayIntentGuardModule *)

Definition preSignatureValidationHook (b : Block) (g : Guard) (account sender hash : Z) (signature : list Z) : result guard_error () :=
  '(kind, payload) ← decodeEnvelope signature;
  checkIntent b g account sender hash kind payload.

(** Data that does not decode reverts outside the [catch]. *)
Definition moduleAddressBook (account book : Z) : result guard_error () :=
  _ ← throw_if (codeSize book =? 0) (InvalidAddressBook book);
  match allowedRecipientsOf book account with
  | Returned _ => mret tt
  | Reverted => Throw (InvalidAddressBook book)
  | Malformed => Throw GuardReverted
  end.
Definition moduleOnInstall := install moduleAddressBook.

(** ** Views *)

Definition gatewayLimits (g : Guard) (account : Z) : Z * Z * Z * Z * Z :=
  let l := limitsAt g account in
  (gl_gatewayWallet l, gl_perIntentCap l, gl_maxFeeCap l, gl_maxExpiryBlocks l, gl_addressBook l).
Definition isGatewayRecipientAllowed (g : Guard) (account r : Z) : bool := bool_decide ((ns g account, r) ∈ recipients g).
Definition isGatewayDestinationDomainAllowed (g : Guard) (account d : Z) : bool := bool_decide ((ns g account, d) ∈ domains g).
Definition gatewayToken (g : Guard) (account token : Z) : TokenInfo := tokenAt g (ns g account) token.
Definition isGatewayDestinationTokenAllowed (g : Guard) (account t : Z) : bool := bool_decide ((ns g account, t) ∈ destTokens g).
Definition gatewayRecipientCount (g : Guard) (account : Z) : Z := countAt g (ns g account).
Definition gatewaySourceDomain (g : Guard) (account : Z) : Z := gl_sourceDomain (limitsAt g account).
Definition gatewayDestinationMinter (g : Guard) (account d : Z) : Z := default 0 (minters g !! (ns g account, d)).
Definition isGatewayDestinationCallerAllowed (g : Guard) (account c : Z) : bool := bool_decide ((ns g account, c) ∈ callers g).

(** ** Calls *)

Inductive guard_call : Type :=
| Install (i : GatewayGuardInit)
| Uninstall
| SetRecipient (recipient : Z) (allowed : bool)
| SetDomain (domain : Z) (allowed : bool)
| SetToken (token : Z) (name version : list Z) (allowed : bool)
| SetDestinationToken (token : Z) (allowed : bool)
| SetLimits (perIntentCap maxFeeCap maxExpiryBlocks : Z)
| SetMinter (domain minter : Z)
| SetCaller (caller : Z) (allowed : bool).

(** A call [sender] makes to the guard. *)
Definition guardCall (validateAddressBook : Z → Z → result guard_error ()) (sender : Z) (c : guard_call) (g : Guard) : result guard_error Guard :=
  match c with
  | Install i => install validateAddressBook sender i g
  | Uninstall => uninstall sender g
  | SetRecipient r a => setGatewayRecipient sender r a g
  | SetDomain d a => setGatewayDestinationDomain sender d a g
  | SetToken t n v a => setGatewayToken sender t n v a g
  | SetDestinationToken t a => setGatewayDestinationToken sender t a g
  | SetLimits p m e => setGatewayLimits sender p m e g
  | SetMinter d m => setGatewayDestinationMinter sender d m g
  | SetCaller c a => setGatewayDestinationCaller sender c a g
  end.
End guard.

Definition emptyGuard : Guard :=
  {| limits := ∅; epochs := ∅; recipients := ∅; recipientCounts := ∅; domains := ∅; tokens := ∅; destTokens := ∅; minters := ∅;
     callers := ∅ |}.
