(* ===== verification/GuardRefine.v ===== *)
(** * The guard is a map of policies

    The storage of [Guard] - flags under a hash of the account and an epoch -
    against what it promises: for each account no policy or one, installed
    fresh, changed by the account alone, gone when uninstalled. *)

From stdpp Require Import gmap fin_sets.
From S2P Require Import Prelude.
From S2P Require Import Js.
From S2P Require Import Encoding.
From S2P Require Import Abi.
From S2P Require Import EvmAbi.
From S2P Require Import GtPolicy.
From S2P Require Import GatewayTreasury.
From S2P Require Import Guard.

(** ** The specification *)

Record Policy : Type := {
  pl_limits : Limits; pl_recipients : gset Z; pl_domains : gset Z; pl_tokens : gmap Z TokenInfo; pl_destTokens : gset Z;
  pl_minters : gmap Z Z; pl_callers : gset Z }.
#[global] Instance eta_policy : Eta Policy := λ p,
  {| pl_limits := pl_limits p; pl_recipients := pl_recipients p; pl_domains := pl_domains p; pl_tokens := pl_tokens p;
     pl_destTokens := pl_destTokens p; pl_minters := pl_minters p; pl_callers := pl_callers p |}.
Definition noPolicy : Policy :=
  {| pl_limits := noLimits; pl_recipients := ∅; pl_domains := ∅; pl_tokens := ∅; pl_destTokens := ∅; pl_minters := ∅; pl_callers := ∅ |}.

Definition toggle (b : bool) (x : Z) (s : gset Z) : gset Z := if b then {[x]} ∪ s else s ∖ {[x]}.

(** The policy an installation asks for, or why it is refused. *)
Definition initPolicy (i : GatewayGuardInit) : result guard_error Policy :=
  let rs := list_to_set (gi_recipients i) in
  _ ← throw_if (bool_decide (rs = ∅) && (gi_addressBook i =? 0)) GuardEmptyRecipients;
  _ ← throw_if (existsb (λ m, m =? 0) (gi_destinationMinters i)) GuardDestinationConfig;
  _ ← throw_if (existsb (λ tn, (tn.1 =? 0) || (lenZ tn.2 =? 0)) (zip (gi_tokens i) (gi_tokenNames i))) GuardTokenConfig;
  mret {| pl_limits := {| gl_gatewayWallet := gi_gatewayWallet i; gl_perIntentCap := gi_perIntentCap i; gl_maxFeeCap := gi_maxFeeCap i;
                          gl_maxExpiryBlocks := gi_maxExpiryBlocks i; gl_addressBook := gi_addressBook i; gl_sourceDomain := gi_sourceDomain i |};
          pl_recipients := rs;
          pl_domains := list_to_set (gi_destinationDomains i);
          pl_tokens := foldl (λ m tnv, <[tnv.1.1 := {| eip712Name := tnv.1.2; eip712Version := tnv.2 |}]> m) ∅
                         (zip (zip (gi_tokens i) (gi_tokenNames i)) (gi_tokenVersions i));
          pl_destTokens := list_to_set (gi_destinationTokens i);
          pl_minters := foldl (λ m dm, <[dm.1 := dm.2]> m) ∅ (zip (gi_destinationDomains i) (gi_destinationMinters i));
          pl_callers := list_to_set (gi_destinationCallers i) |}.

(** What a setter does to a policy. *)
Definition setPolicy (c : guard_call) (p : Policy) : result guard_error Policy :=
  match c with
  | SetRecipient r true =>
      _ ← throw_if (negb (bool_decide (r ∈ pl_recipients p)) && (2 ^ 256 <=? Z.of_nat (size (pl_recipients p)) + 1)) GuardReverted;
      mret (p <| pl_recipients := {[r]} ∪ pl_recipients p |>)
  | SetRecipient r false =>
      _ ← throw_if (bool_decide (pl_recipients p = {[r]}) && (gl_addressBook (pl_limits p) =? 0)) GuardEmptyRecipients;
      mret (p <| pl_recipients := pl_recipients p ∖ {[r]} |>)
  | SetDomain d a => mret (p <| pl_domains := toggle a d (pl_domains p) |>)
  | SetToken t n v true =>
      _ ← throw_if ((t =? 0) || (lenZ n =? 0)) GuardTokenConfig;
      mret (p <| pl_tokens := <[t := {| eip712Name := n; eip712Version := v |}]> (pl_tokens p) |>)
  | SetToken t n v false => mret (p <| pl_tokens := delete t (pl_tokens p) |>)
  | SetDestinationToken t a => mret (p <| pl_destTokens := toggle a t (pl_destTokens p) |>)
  | SetLimits c f e =>
      _ ← throw_if ((c =? 0) || (e =? 0)) InvalidLimits;
      mret (p <| pl_limits := pl_limits p <| gl_perIntentCap := c |> <| gl_maxFeeCap := f |> <| gl_maxExpiryBlocks := e |> |>)
  | SetMinter d m => mret (p <| pl_minters := <[d := m]> (pl_minters p) |>)
  | SetCaller c a => mret (p <| pl_callers := toggle a c (pl_callers p) |>)
  | Install _ | Uninstall => mret p
  end.

Definition policyCall (validate : Z → Z → result guard_error ()) (sender : Z) (c : guard_call) (m : gmap Z Policy) :
    result guard_error (gmap Z Policy) :=
  match c, m !! sender with
  | Install _, Some _ => Throw (GuardAlreadyInstalled sender)
  | Install i, None =>
      _ ← throw_if (gi_gatewayWallet i =? 0) GuardWallet;
      _ ← throw_if ((gi_perIntentCap i =? 0) || (gi_maxExpiryBlocks i =? 0)) InvalidLimits;
      _ ← throw_if (negb (length (gi_tokens i) =? length (gi_tokenNames i))%nat || negb (length (gi_tokens i) =? length (gi_tokenVersions i))%nat)
            GuardTokenConfig;
      _ ← throw_if (negb (length (gi_destinationMinters i) =? length (gi_destinationDomains i))%nat) GuardDestinationConfig;
      _ ← (if negb (gi_addressBook i =? 0) then validate sender (gi_addressBook i) else Ok tt);
      p ← initPolicy i;
      mret (<[sender := p]> m)
  | _, None => Throw (GuardNotInstalled sender)
  | Uninstall, Some _ => mret (delete sender m)
  | _, Some p => p ← setPolicy c p; mret (<[sender := p]> m)
  end.

(** ** What a name space holds *)

Record holds (g : Guard) (n : Z) (p : Policy) : Prop := {
  ho_recipients r : (n, r) ∈ recipients g ↔ r ∈ pl_recipients p;
  ho_count : countAt g n = Z.of_nat (size (pl_recipients p));
  ho_domains d : (n, d) ∈ domains g ↔ d ∈ pl_domains p;
  ho_tokens t : tokens g !! (n, t) = pl_tokens p !! t;
  ho_destTokens t : (n, t) ∈ destTokens g ↔ t ∈ pl_destTokens p;
  ho_minters d : minters g !! (n, d) = pl_minters p !! d;
  ho_callers c : (n, c) ∈ callers g ↔ c ∈ pl_callers p }.

(** Only the name space [n] was written. *)
Record wrote (n : Z) (g g' : Guard) : Prop := {
  wr_epochs : epochs g' = epochs g;
  wr_recipients n' r : n' ≠ n → (n', r) ∈ recipients g' ↔ (n', r) ∈ recipients g;
  wr_count n' : n' ≠ n → countAt g' n' = countAt g n';
  wr_domains n' d : n' ≠ n → (n', d) ∈ domains g' ↔ (n', d) ∈ domains g;
  wr_tokens n' t : n' ≠ n → tokens g' !! (n', t) = tokens g !! (n', t);
  wr_destTokens n' t : n' ≠ n → (n', t) ∈ destTokens g' ↔ (n', t) ∈ destTokens g;
  wr_minters n' d : n' ≠ n → minters g' !! (n', d) = minters g !! (n', d);
  wr_callers n' c : n' ≠ n → (n', c) ∈ callers g' ↔ (n', c) ∈ callers g }.

Lemma wrote_refl n g : wrote n g g.
Proof. by split. Qed.
Lemma wrote_trans n g1 g2 g3 : wrote n g1 g2 → wrote n g2 g3 → wrote n g1 g3.
Proof.
  intros [A1 A2 A3 A4 A5 A6 A7 A8] [B1 B2 B3 B4 B5 B6 B7 B8].
  split; [congruence|..]; intros; rewrite ?B2, ?B3, ?B4, ?B5, ?B6, ?B7, ?B8 by done; auto.
Qed.
Lemma wrote_holds n n' g g' p : wrote n g g' → n' ≠ n → holds g n' p → holds g' n' p.
Proof.
  intros [A1 A2 A3 A4 A5 A6 A7 A8] Hn [B1 B2 B3 B4 B5 B6 B7].
  split; intros; rewrite ?A2, ?A3, ?A4, ?A5, ?A6, ?A7, ?A8 by done; auto.
Qed.

Lemma flag_toggle (n : Z) (b : bool) (x : Z) (s : gset (Z * Z)) (p : gset Z) :
  (∀ y, (n, y) ∈ s ↔ y ∈ p) → ∀ y, (n, y) ∈ flag b (n, x) s ↔ y ∈ toggle b x p.
Proof. intros Hs y. unfold flag, toggle. specialize (Hs y). destruct b; set_solver. Qed.
Lemma flag_other (n n' : Z) (b : bool) (x y : Z) (s : gset (Z * Z)) : n' ≠ n → (n', y) ∈ flag b (n, x) s ↔ (n', y) ∈ s.
Proof. intros Hn. unfold flag. destruct b; set_solver. Qed.
Lemma insert_at {A} (n k : Z) (v : A) (m : gmap (Z * Z) A) (p : gmap Z A) :
  (∀ j, m !! (n, j) = p !! j) → ∀ j, <[(n, k) := v]> m !! (n, j) = <[k := v]> p !! j.
Proof. intros Hm j. destruct (decide (k = j)) as [->|]; [by rewrite !lookup_insert_eq|]. by rewrite !lookup_insert_ne by congruence. Qed.
Lemma insert_other {A} (n n' k j : Z) (v : A) (m : gmap (Z * Z) A) : n' ≠ n → <[(n, k) := v]> m !! (n', j) = m !! (n', j).
Proof. intros Hn. by rewrite lookup_insert_ne by congruence. Qed.
Lemma delete_at {A} (n k : Z) (m : gmap (Z * Z) A) (p : gmap Z A) :
  (∀ j, m !! (n, j) = p !! j) → ∀ j, delete (n, k) m !! (n, j) = delete k p !! j.
Proof. intros Hm j. destruct (decide (k = j)) as [->|]; [by rewrite !lookup_delete_eq|]. by rewrite !lookup_delete_ne by congruence. Qed.
Lemma delete_other {A} (n n' k j : Z) (m : gmap (Z * Z) A) : n' ≠ n → delete (n, k) m !! (n', j) = m !! (n', j).
Proof. intros Hn. by rewrite lookup_delete_ne by congruence. Qed.

Create HintDb guard.
#[local] Hint Resolve flag_toggle flag_other insert_at insert_other delete_at delete_other : guard.

(** One write in the name space [n]. *)
Ltac one_write := intros [H1 H2 H3 H4 H5 H6 H7]; split; [split|split]; cbn; eauto with guard; done.

Lemma put_domain n d a g p : holds g n p →
  wrote n g (g <| domains := flag a (n, d) (domains g) |>) ∧
  holds (g <| domains := flag a (n, d) (domains g) |>) n (p <| pl_domains := toggle a d (pl_domains p) |>).
Proof. one_write. Qed.
Lemma put_caller n c a g p : holds g n p →
  wrote n g (g <| callers := flag a (n, c) (callers g) |>) ∧
  holds (g <| callers := flag a (n, c) (callers g) |>) n (p <| pl_callers := toggle a c (pl_callers p) |>).
Proof. one_write. Qed.
Lemma put_destToken n t a g p : holds g n p →
  wrote n g (g <| destTokens := flag a (n, t) (destTokens g) |>) ∧
  holds (g <| destTokens := flag a (n, t) (destTokens g) |>) n (p <| pl_destTokens := toggle a t (pl_destTokens p) |>).
Proof. one_write. Qed.
Lemma put_minter n d m g p : holds g n p →
  wrote n g (g <| minters := <[(n, d) := m]> (minters g) |>) ∧
  holds (g <| minters := <[(n, d) := m]> (minters g) |>) n (p <| pl_minters := <[d := m]> (pl_minters p) |>).
Proof. one_write. Qed.
Lemma put_token n t i g p : holds g n p →
  wrote n g (g <| tokens := <[(n, t) := i]> (tokens g) |>) ∧
  holds (g <| tokens := <[(n, t) := i]> (tokens g) |>) n (p <| pl_tokens := <[t := i]> (pl_tokens p) |>).
Proof. one_write. Qed.
Lemma drop_token n t g p : holds g n p →
  wrote n g (g <| tokens := delete (n, t) (tokens g) |>) ∧
  holds (g <| tokens := delete (n, t) (tokens g) |>) n (p <| pl_tokens := delete t (pl_tokens p) |>).
Proof. one_write. Qed.
Lemma put_limits n l a g p : holds g n p →
  wrote n g (g <| limits := <[a := l]> (limits g) |>) ∧ holds (g <| limits := <[a := l]> (limits g) |>) n (p <| pl_limits := l |>).
Proof. one_write. Qed.
Lemma put_recipient n r a count g p : holds g n p → count = Z.of_nat (size (toggle a r (pl_recipients p))) →
  let g' := g <| recipientCounts := <[n := count]> (recipientCounts g) |> <| recipients := flag a (n, r) (recipients g) |> in
  wrote n g g' ∧ holds g' n (p <| pl_recipients := toggle a r (pl_recipients p) |>).
Proof.
  intros [H1 H2 H3 H4 H5 H6 H7] ->. cbv zeta. split; [split|split]; cbn; eauto with guard; try done.
  - intros n' Hn. unfold countAt. cbn. by rewrite lookup_insert_ne.
  - unfold countAt. cbn. by rewrite lookup_insert_eq.
Qed.

(** ** Installing *)

Section refine.
Context `{Viem} `{GuardEnv}.

(** The writes of a loop of the installation, up to the policy [p']. *)
Definition filled (n : Z) (g g' : Guard) (p' : Policy) : Prop := wrote n g g' ∧ holds g' n p' ∧ limits g' = limits g.

Lemma filled_step n g g1 g2 p1 p2 : wrote n g g1 → limits g1 = limits g → filled n g1 g2 p2 → holds g1 n p1 → filled n g g2 p2.
Proof. intros W L (W' & H' & L') _. split_and!; [by eapply wrote_trans|done|congruence]. Qed.

Lemma install_recipients n l g p : holds g n p →
  filled n g (foldl (installRecipient n) g l) (p <| pl_recipients := list_to_set l ∪ pl_recipients p |>).
Proof.
  revert g p. induction l as [|r l IH]; cbn [foldl]; intros g p Hp.
  { replace (p <| pl_recipients := list_to_set [] ∪ pl_recipients p |>) with p; [by split_and!; [apply wrote_refl|..]|].
    destruct p. cbn. f_equal. by rewrite (left_id_L ∅ (∪)). }
  assert (wrote n g (installRecipient n g r) ∧ limits (installRecipient n g r) = limits g ∧
          holds (installRecipient n g r) n (p <| pl_recipients := {[r]} ∪ pl_recipients p |>)) as (W & L & Hp').
  { unfold installRecipient. pose proof (ho_recipients _ _ _ Hp r) as Hr. case_bool_decide as E.
    - split_and!; [apply wrote_refl|done|]. replace ({[r]} ∪ pl_recipients p) with (pl_recipients p) by set_solver. by destruct p.
    - destruct (put_recipient n r true (countAt g n + 1) g p Hp) as [W Hh].
      { rewrite (ho_count _ _ _ Hp). unfold toggle. rewrite size_union by set_solver. rewrite size_singleton. lia. }
      split_and!; [exact W|done|exact Hh]. }
  eapply filled_step; [exact W|exact L| |exact Hp'].
  replace (p <| pl_recipients := list_to_set (r :: l) ∪ pl_recipients p |>)
    with (p <| pl_recipients := {[r]} ∪ pl_recipients p |> <| pl_recipients := list_to_set l ∪ ({[r]} ∪ pl_recipients p) |>); [by apply IH|].
  unfold set. cbn. f_equal. set_solver.
Qed.

Lemma install_callers n l g p : holds g n p →
  filled n g (foldl (λ g c, g <| callers := {[(n, c)]} ∪ callers g |>) g l) (p <| pl_callers := list_to_set l ∪ pl_callers p |>).
Proof.
  revert g p. induction l as [|c l IH]; cbn [foldl]; intros g p Hp.
  { replace (p <| pl_callers := list_to_set [] ∪ pl_callers p |>) with p; [by split_and!; [apply wrote_refl|..]|].
    destruct p. cbn. f_equal. by rewrite (left_id_L ∅ (∪)). }
  destruct (put_caller n c true g p Hp) as [W Hp']. eapply filled_step; [exact W|done| |exact Hp'].
  replace (p <| pl_callers := list_to_set (c :: l) ∪ pl_callers p |>)
    with (p <| pl_callers := toggle true c (pl_callers p) |> <| pl_callers := list_to_set l ∪ toggle true c (pl_callers p) |>); [by apply IH|].
  unfold set, toggle. cbn. f_equal. set_solver.
Qed.
Lemma install_destTokens n l g p : holds g n p →
  filled n g (foldl (λ g t, g <| destTokens := {[(n, t)]} ∪ destTokens g |>) g l) (p <| pl_destTokens := list_to_set l ∪ pl_destTokens p |>).
Proof.
  revert g p. induction l as [|c l IH]; cbn [foldl]; intros g p Hp.
  { replace (p <| pl_destTokens := list_to_set [] ∪ pl_destTokens p |>) with p; [by split_and!; [apply wrote_refl|..]|].
    destruct p. cbn. f_equal. by rewrite (left_id_L ∅ (∪)). }
  destruct (put_destToken n c true g p Hp) as [W Hp']. eapply filled_step; [exact W|done| |exact Hp'].
  replace (p <| pl_destTokens := list_to_set (c :: l) ∪ pl_destTokens p |>)
    with (p <| pl_destTokens := toggle true c (pl_destTokens p) |> <| pl_destTokens := list_to_set l ∪ toggle true c (pl_destTokens p) |>); [by apply IH|].
  unfold set, toggle. cbn. f_equal. set_solver.
Qed.

Definition addMinters (ds ms : list Z) (m : gmap Z Z) : gmap Z Z := foldl (λ m dm, <[dm.1 := dm.2]> m) m (zip ds ms).
Definition addTokens (ts : list Z) (names versions : list (list Z)) (m : gmap Z TokenInfo) : gmap Z TokenInfo :=
  foldl (λ m tnv, <[tnv.1.1 := {| eip712Name := tnv.1.2; eip712Version := tnv.2 |}]> m) m (zip (zip ts names) versions).

Lemma install_domains n ds ms g p : length ms = length ds → holds g n p →
  match installDomains n ds ms g with
  | Ok g' => existsb (λ m, m =? 0) ms = false ∧
             filled n g g' (p <| pl_domains := list_to_set ds ∪ pl_domains p |> <| pl_minters := addMinters ds ms (pl_minters p) |>)
  | Throw e => e = GuardDestinationConfig ∧ existsb (λ m, m =? 0) ms = true
  end.
Proof.
  revert ms g p. induction ds as [|d ds IH]; intros [|m ms] g p Hl Hp; try done.
  { cbn. split; [done|]. split_and!; [apply wrote_refl| |done]. destruct Hp. split; try done. intros x. cbn. set_solver. }
  cbn [installDomains existsb]. rewrite throw_if_bind. destruct (m =? 0); [done|]. cbn [orb].
  destruct (put_domain n d true g p Hp) as [W1 Hp1].
  destruct (put_minter n d m _ _ Hp1) as [W2 Hp2]. specialize (IH ms _ _ ltac:(by injection Hl) Hp2).
  change (domains g) with (domains g) in IH. destruct (installDomains n ds ms _) as [g'|e]; [|done]. destruct IH as [IH1 IH2].
  split; [done|]. eapply filled_step; [eapply wrote_trans; [exact W1|exact W2]|done| |exact Hp2].
  destruct IH2 as (F1 & F2 & F3). split_and!; [exact F1| |exact F3]. destruct F2. split; try done.
  intros x. rewrite ho_domains0. cbn. unfold toggle. set_solver.
Qed.

Lemma install_tokens n ts names versions g p : length ts = length names → length ts = length versions → holds g n p →
  match installTokens n ts names versions g with
  | Ok g' => existsb (λ tn, (tn.1 =? 0) || (lenZ tn.2 =? 0)) (zip ts names) = false ∧
             filled n g g' (p <| pl_tokens := addTokens ts names versions (pl_tokens p) |>)
  | Throw e => e = GuardTokenConfig ∧ existsb (λ tn, (tn.1 =? 0) || (lenZ tn.2 =? 0)) (zip ts names) = true
  end.
Proof.
  revert names versions g p. induction ts as [|t ts IH]; intros [|a names] [|v versions] g p Hl Hl' Hp; try done.
  { cbn. split; [done|]. split_and!; [apply wrote_refl|by destruct Hp|done]. }
  cbn [installTokens zip zip_with existsb fst snd]. rewrite throw_if_bind. destruct (_ || _); [done|]. cbn [orb].
  destruct (put_token n t {| eip712Name := a; eip712Version := v |} g p Hp) as [W Hp'].
  specialize (IH names versions _ _ ltac:(by injection Hl) ltac:(by injection Hl') Hp').
  destruct (installTokens n ts names versions _) as [g'|e]; [|done]. destruct IH as [IH1 IH2]. split; [done|].
  by eapply filled_step; [exact W|done|exact IH2|exact Hp'].
Qed.

(** ** The simulation *)

Definition isAccount (a : Z) : Prop := 0 ≤ a < 2 ^ 160.

(** keccak256 has no collision among the name spaces. *)
Definition namespaces_differ : Prop :=
  ∀ a e a' e', isAccount a → isAccount a' → 0 ≤ e < 2 ^ 256 → 0 ≤ e' < 2 ^ 256 → nsOf a e = nsOf a' e' → a = a' ∧ e = e'.
Context (differ : namespaces_differ).

Definition policyAt (m : gmap Z Policy) (a : Z) : Policy := default noPolicy (m !! a).

Record sim (k : Z) (g : Guard) (m : gmap Z Policy) : Prop := {
  si_epoch a : 0 ≤ epochAt g a ≤ k;
  si_limits a : limitsAt g a = pl_limits (policyAt m a);
  si_installed a p : m !! a = Some p → gl_gatewayWallet (pl_limits p) ≠ 0;
  si_holds a : isAccount a → holds g (ns g a) (policyAt m a);
  si_fresh a e : isAccount a → epochAt g a < e < 2 ^ 256 → holds g (nsOf a e) noPolicy }.

Lemma sim_installed k g m a : sim k g m → isInstalled g a = bool_decide (is_Some (m !! a)).
Proof.
  intros Hs. unfold isInstalled. rewrite (si_limits _ _ _ Hs). unfold policyAt. destruct (m !! a) as [p|] eqn:E; cbn.
  - by rewrite (proj2 (Z.eqb_neq _ _) (si_installed _ _ _ Hs a p E)).
  - done.
Qed.

(** A write of an account in its own name space. *)
Lemma sim_write k g g' m a p' :
  k < 2 ^ 256 - 1 → sim k g m → isAccount a → wrote (ns g a) g g' → holds g' (ns g a) p' → gl_gatewayWallet (pl_limits p') ≠ 0 →
  (∀ a', limitsAt g' a' = if decide (a' = a) then pl_limits p' else limitsAt g a') → sim k g' (<[a := p']> m).
Proof.
  intros Hk [S1 S2 S3 S4 S5] Ha W Hh Hw Hl. assert (∀ a', epochAt g' a' = epochAt g a') as He by (intros a'; unfold epochAt; by rewrite (wr_epochs _ _ _ W)).
  assert (∀ a', ns g' a' = ns g a') as Hn by (intros a'; unfold ns; by rewrite He). pose proof (S1 a) as Ea. split.
  - intros a'. by rewrite He.
  - intros a'. rewrite Hl. unfold policyAt. case_decide as E; [subst; by rewrite lookup_insert_eq|]. rewrite lookup_insert_ne by congruence. apply S2.
  - intros a' p [[-> <-]|[_ Hp]]%lookup_insert_Some; [done|]. by apply (S3 a').
  - intros a' Ha'. rewrite Hn. unfold policyAt. destruct (decide (a' = a)) as [->|E]; [by rewrite lookup_insert_eq|].
    rewrite lookup_insert_ne by congruence. apply (wrote_holds _ _ _ _ _ W); [|by apply S4].
    pose proof (S1 a'). intros [? ?]%differ; try done; lia.
  - intros a' e Ha'. rewrite He. intros Hr. pose proof (S1 a'). apply (wrote_holds _ _ _ _ _ W); [|by apply S5]. intros [E1 E2]%differ; try done; subst; lia.
Qed.

(** What a call came to: nothing, or the error. *)
Definition outcome {A} (r : result guard_error A) : option guard_error := match r with Ok _ => None | Throw e => Some e end.

(** The call on the guard and on the map: the same error, or related states. *)
Definition agree (k : Z) (r : result guard_error Guard) (r' : result guard_error (gmap Z Policy)) : Prop :=
  match r, r' with Ok g, Ok m => sim k g m | Throw e, Throw e' => e = e' | _, _ => False end.

Lemma sim_mono k k' g m : k ≤ k' → sim k g m → sim k' g m.
Proof. intros Hk [S1 S2 S3 S4 S5]. split; try done. intros a. specialize (S1 a). lia. Qed.

Lemma uninstall_agrees k g m v a : k < 2 ^ 256 - 2 → sim k g m → isAccount a →
  agree (k + 1) (uninstall a g) (policyCall v a Uninstall m).
Proof.
  intros Hk Hs Ha. unfold uninstall. cbn [policyCall]. rewrite (sim_installed k g m a Hs), !throw_if_bind.
  destruct (m !! a) as [p|] eqn:Em; cbn [bool_decide]; [|done]. rewrite bool_decide_true by eauto. cbn [negb].
  destruct Hs as [S1 S2 S3 S4 S5]. pose proof (S1 a) as Ea. rewrite (proj2 (Z.leb_gt _ _)) by lia. cbn.
  set (g' := g <| limits := delete a (limits g) |> <| epochs := <[a := epochAt g a + 1]> (epochs g) |>).
  assert (∀ a', epochAt g' a' = if decide (a' = a) then epochAt g a + 1 else epochAt g a') as He.
  { intros a'. unfold g', epochAt. cbn. case_decide as E; [subst; by rewrite lookup_insert_eq|by rewrite lookup_insert_ne by congruence]. }
  assert (∀ n p, holds g n p → holds g' n p) as Hh by (intros n q []; by split).
  split.
  - intros a'. rewrite He. specialize (S1 a'). case_decide; lia.
  - intros a'. unfold policyAt, limitsAt, g'. cbn. destruct (decide (a = a')) as [->|E]; [by rewrite !lookup_delete_eq|].
    rewrite !lookup_delete_ne by done. apply S2.
  - intros a' q [_ Hq]%lookup_delete_Some. by apply (S3 a').
  - intros a' Ha'. apply Hh. unfold ns, policyAt. rewrite He. case_decide as E.
    + subst. rewrite lookup_delete_eq. apply S5; [done|lia].
    + rewrite lookup_delete_ne by congruence. by apply S4.
  - intros a' e Ha'. rewrite He. intros Hr. apply Hh, S5; [done|]. case_decide as E; [subst|]; lia.
Qed.

Lemma size_zero (l : list Z) : (Z.of_nat (size (list_to_set l ∪ (∅ : gset Z))) =? 0) = bool_decide ((list_to_set l : gset Z) = ∅).
Proof.
  rewrite (right_id_L ∅ (∪)). case_bool_decide as E; [by rewrite E, size_empty|]. apply Z.eqb_neq. intros Hz. apply E.
  apply leibniz_equiv, size_empty_inv. lia.
Qed.

Lemma agree_guard k c e (f : () → result guard_error Guard) (f' : () → result guard_error (gmap Z Policy)) :
  (c = false → agree k (f tt) (f' tt)) → agree k (throw_if c e ≫= f) (throw_if c e ≫= f').
Proof. rewrite !throw_if_bind. destruct c; [done|]. auto. Qed.

Lemma install_agrees k g m v a i : k < 2 ^ 256 - 1 → sim k g m → isAccount a →
  agree k (install v a i g) (policyCall v a (Install i) m).
Proof.
  intros Hk Hs Ha. unfold install. cbn [policyCall]. rewrite (sim_installed k g m a Hs).
  destruct (m !! a) as [p|] eqn:Em; [by rewrite bool_decide_true by eauto|]. rewrite bool_decide_false by (by intros []).
  rewrite throw_if_bind. apply agree_guard. intros Hw. apply agree_guard. intros _. apply agree_guard. intros Ht. apply agree_guard. intros Hd.
  destruct (if negb (gi_addressBook i =? 0) then v a (gi_addressBook i) else Ok tt) as [[]|e]; [|done]. cbn [mbind result_bind].
  unfold initPolicy. pose proof (si_holds _ _ _ Hs a Ha) as Hp. unfold policyAt in Hp. rewrite Em in Hp. cbn [default] in Hp.
  set (l := {| gl_gatewayWallet := gi_gatewayWallet i; gl_perIntentCap := gi_perIntentCap i; gl_maxFeeCap := gi_maxFeeCap i;
               gl_maxExpiryBlocks := gi_maxExpiryBlocks i; gl_addressBook := gi_addressBook i; gl_sourceDomain := gi_sourceDomain i |}).
  destruct (put_limits (ns g a) l a g noPolicy Hp) as [W1 H1]. destruct (install_recipients _ (gi_recipients i) _ _ H1) as (W2 & H2 & L2).
  set (g2 := foldl (installRecipient _) _ _) in *. 
  assert (countAt g2 (ns g a) = Z.of_nat (size (list_to_set (gi_recipients i) ∪ (∅ : gset Z)))) as -> by exact (ho_count _ _ _ H2).
  rewrite size_zero, !throw_if_bind. destruct (_ && _); [done|].
  apply negb_false_iff, Nat.eqb_eq in Hd. apply orb_false_iff in Ht as [Ht1%negb_false_iff%Nat.eqb_eq Ht2%negb_false_iff%Nat.eqb_eq].
  pose proof (install_domains _ _ _ _ _ Hd H2) as H3. destruct (installDomains _ _ _ g2) as [g3|e]; [|by destruct H3 as [-> ->]].
  destruct H3 as [E3 (W3 & H3 & L3)]. rewrite ?throw_if_bind, E3. cbn [mbind result_bind].
  destruct (install_callers _ (gi_destinationCallers i) _ _ H3) as (W4 & H4 & L4). set (g4 := foldl _ g3 _) in *.
  pose proof (install_tokens _ _ _ _ _ _ Ht1 Ht2 H4) as H5. destruct (installTokens _ _ _ _ g4) as [g5|e]; [|by destruct H5 as [-> ->]].
  destruct H5 as [E5 (W5 & H5 & L5)]. rewrite ?throw_if_bind, E5. cbn [mbind result_bind].
  destruct (install_destTokens _ (gi_destinationTokens i) _ _ H5) as (W6 & H6 & L6). set (g6 := foldl _ g5 _) in *.
  cbn. eapply (sim_write k g g6); [done|done|done|by repeat (eapply wrote_trans; [eassumption|])| |by apply Z.eqb_neq|].
  - revert H6. unfold set. cbn. rewrite !(right_id_L ∅ (∪)). done.
  - intros a'. unfold limitsAt. rewrite L6, L5, L4, L3, L2. cbn. case_decide as E; [rewrite E; by rewrite lookup_insert_eq|by rewrite lookup_insert_ne by congruence].
Qed.

(** The setters: what they write, and that it is theirs to write. *)
Lemma set_agrees k g m a p g' p' :
  k < 2 ^ 256 - 1 → sim k g m → isAccount a → m !! a = Some p → wrote (ns g a) g g' ∧ holds g' (ns g a) p' →
  (limits g' = limits g ∧ pl_limits p' = pl_limits p) ∨ (limits g' = <[a := pl_limits p']> (limits g) ∧ gl_gatewayWallet (pl_limits p') = gl_gatewayWallet (pl_limits p)) →
  sim k g' (<[a := p']> m).
Proof.
  intros Hk Hs Ha Em [W Hh] Hl. pose proof (si_installed _ _ _ Hs a p Em) as Hw. pose proof (si_limits _ _ _ Hs a) as Hla.
  unfold policyAt in Hla. rewrite Em in Hla. cbn in Hla.
  eapply (sim_write k g g'); try done.
  - destruct Hl as [[_ ->]|[_ ->]]; done.
  - intros a'. unfold limitsAt in *. destruct Hl as [[-> ->]|[-> _]].
    + case_decide as E; [by rewrite E|done].
    + case_decide as E; [by rewrite E, lookup_insert_eq|by rewrite lookup_insert_ne by congruence].
Qed.

Lemma singleton_size (r : Z) (s : gset Z) : r ∈ s → (Z.of_nat (size s) <=? 1) = bool_decide (s = {[r]}).
Proof.
  intros Hr. case_bool_decide as E; [by rewrite E, size_singleton|]. apply Z.leb_gt.
  assert (size ({[r]} : gset Z) ≤ size s)%nat by (apply subseteq_size; set_solver). rewrite size_singleton in *.
  enough (size s ≠ 1%nat) by lia. intros [x Hx]%size_1_elem_of. apply E, leibniz_equiv. set_solver.
Qed.

Lemma policy_same a (m : gmap Z Policy) p : m !! a = Some p → <[a := p]> m = m.
Proof. apply insert_id. Qed.

Lemma recipient_agrees k g m v a r b : k < 2 ^ 256 - 1 → sim k g m → isAccount a →
  agree k (setGatewayRecipient a r b g) (policyCall v a (SetRecipient r b) m).
Proof.
  intros Hk Hs Ha. unfold setGatewayRecipient, onlyInstalled. cbn [policyCall]. rewrite (sim_installed k g m a Hs), throw_if_bind.
  destruct (m !! a) as [p|] eqn:Em; [|by rewrite bool_decide_false by (by intros [])]. rewrite bool_decide_true by eauto. cbn [negb].
  pose proof (si_holds _ _ _ Hs a Ha) as Hp. pose proof (si_limits _ _ _ Hs a) as Hl. unfold policyAt in Hp, Hl. rewrite Em in Hp, Hl. cbn in Hp, Hl.
  rewrite (bool_decide_ext _ _ (ho_recipients _ _ _ Hp r)), (ho_count _ _ _ Hp), Hl.
  destruct b; cbn [setPolicy]; rewrite !throw_if_bind; case_bool_decide as Hr; cbn [Bool.eqb negb andb].
  - cbn. replace (p <| pl_recipients := {[r]} ∪ pl_recipients p |>) with p by (destruct p; unfold set; cbn in *; f_equal; set_solver).
    by rewrite policy_same.
  - destruct (_ <=? _); [done|]. cbn. eapply set_agrees; [done..|apply (put_recipient _ r true); [done|]|by left].
    unfold toggle. rewrite size_union by set_solver. rewrite size_singleton. lia.
  - rewrite (singleton_size r) by done. destruct (_ && _); [done|]. cbn [mbind result_bind].
    assert (size (pl_recipients p) ≠ 0%nat) by (intros E%size_empty_inv; set_solver).
    rewrite ?throw_if_bind, (proj2 (Z.ltb_ge _ _)) by lia. cbn.
    eapply set_agrees; [done..|apply (put_recipient _ r false); [done|]|by left].
    unfold toggle. rewrite size_difference by set_solver. rewrite size_singleton. lia.
  - rewrite bool_decide_false by set_solver. cbn.
    replace (p <| pl_recipients := pl_recipients p ∖ {[r]} |>) with p by (destruct p; unfold set; cbn in *; f_equal; set_solver).
    by rewrite policy_same.
Qed.

(** A setter that writes one field: [w] of the guard, [setPolicy] of the policy. *)
Lemma setter_agrees k g m v a c (w : Guard → result guard_error Guard) :
  k < 2 ^ 256 - 1 → sim k g m → isAccount a → (∀ i, c ≠ Install i) → c ≠ Uninstall →
  (∀ p, m !! a = Some p → holds g (ns g a) p → limitsAt g a = pl_limits p →
     match w g, setPolicy c p with
     | Ok g', Ok p' => (wrote (ns g a) g g' ∧ holds g' (ns g a) p') ∧
         ((limits g' = limits g ∧ pl_limits p' = pl_limits p) ∨
          (limits g' = <[a := pl_limits p']> (limits g) ∧ gl_gatewayWallet (pl_limits p') = gl_gatewayWallet (pl_limits p)))
     | Throw e, Throw e' => e = e'
     | _, _ => False
     end) →
  agree k (_ ← onlyInstalled a g; w g) (policyCall v a c m).
Proof.
  intros Hk Hs Ha Hi Hu Hw. unfold onlyInstalled. rewrite (sim_installed k g m a Hs), throw_if_bind.
  assert (policyCall v a c m = match m !! a with Some p => p ← setPolicy c p; mret (<[a := p]> m) | None => Throw (GuardNotInstalled a) end) as ->
    by (destruct c; try done; by destruct (Hi i)).
  destruct (m !! a) as [p|] eqn:Em; [|by rewrite bool_decide_false by (by intros [])]. rewrite bool_decide_true by eauto. cbn [negb].
  pose proof (si_holds _ _ _ Hs a Ha) as Hp. pose proof (si_limits _ _ _ Hs a) as Hl. unfold policyAt in Hp, Hl. rewrite Em in Hp, Hl.
  specialize (Hw p eq_refl Hp Hl). destruct (w g) as [g'|e], (setPolicy c p) as [p'|e']; try done.
  destruct Hw as [Hwr Hlim]. cbn. by eapply set_agrees.
Qed.

Lemma call_agrees k g m v a c : k < 2 ^ 256 - 2 → sim k g m → isAccount a →
  agree (k + 1) (guardCall v a c g) (policyCall v a c m).
Proof.
  intros Hk Hs Ha. assert (Hk' : k < 2 ^ 256 - 1) by lia. assert (c = Uninstall ∨ c ≠ Uninstall) as [->|Hu] by (destruct c; auto); [by apply uninstall_agrees|].
  enough (agree k (guardCall v a c g) (policyCall v a c m)) as Hc.
  { destruct (guardCall v a c g), (policyCall v a c m); try done. apply (sim_mono k); [lia|exact Hc]. }
  destruct c as [i| |r b|d b|t n w b|t b|x y z|d x|c b]; cbn [guardCall]; try done.
  - by apply install_agrees.
  - by apply recipient_agrees.
  - apply (setter_agrees k g m v a (SetDomain d b) (λ g : Guard, mret (g <| domains := flag b (ns g a, d) (domains g) |>))); [done..|].
    intros p _ Hp _. cbn. split; [by apply put_domain|by left].
  - apply (setter_agrees k g m v a (SetToken t n w b) (λ g : Guard, if b then _ ← throw_if ((t =? 0) || (lenZ n =? 0)) GuardTokenConfig;
      mret (g <| tokens := <[(ns g a, t) := {| eip712Name := n; eip712Version := w |}]> (tokens g) |>)
      else mret (g <| tokens := delete (ns g a, t) (tokens g) |>))); [done..|].
    intros p _ Hp _. destruct b; cbn [setPolicy]; [rewrite !throw_if_bind; destruct (_ || _); [done|]|];
      (split; [by first [apply put_token|apply drop_token]|by left]).
  - apply (setter_agrees k g m v a (SetDestinationToken t b) (λ g : Guard, mret (g <| destTokens := flag b (ns g a, t) (destTokens g) |>))); [done..|].
    intros p _ Hp _. cbn. split; [by apply put_destToken|by left].
  - apply (setter_agrees k g m v a (SetLimits x y z) (λ g : Guard, _ ← throw_if ((x =? 0) || (z =? 0)) InvalidLimits;
      let l := limitsAt g a <| gl_perIntentCap := x |> <| gl_maxFeeCap := y |> <| gl_maxExpiryBlocks := z |> in
      mret (g <| limits := <[a := l]> (limits g) |>))); [done..|].
    intros p _ Hp Hl. cbn [setPolicy]. rewrite !throw_if_bind. destruct (_ || _); [done|]. cbv zeta. rewrite Hl. cbn.
    split; [by apply put_limits|by right].
  - apply (setter_agrees k g m v a (SetMinter d x) (λ g : Guard, mret (g <| minters := <[(ns g a, d) := x]> (minters g) |>))); [done..|].
    intros p _ Hp _. cbn. split; [by apply put_minter|by left].
  - apply (setter_agrees k g m v a (SetCaller c b) (λ g : Guard, mret (g <| callers := flag b (ns g a, c) (callers g) |>))); [done..|].
    intros p _ Hp _. cbn. split; [by apply put_caller|by left].
Qed.

(** ** Histories *)

(** Calls in order; one that reverts changes nothing. *)
Definition guardRun (v : Z → Z → result guard_error ()) (cs : list (Z * guard_call)) : Guard :=
  foldl (λ g sc, match guardCall v sc.1 sc.2 g with Ok g' => g' | Throw _ => g end) emptyGuard cs.
Definition policyRun (v : Z → Z → result guard_error ()) (cs : list (Z * guard_call)) : gmap Z Policy :=
  foldl (λ m sc, match policyCall v sc.1 sc.2 m with Ok m' => m' | Throw _ => m end) ∅ cs.

Lemma sim_empty : sim 0 emptyGuard ∅.
Proof. by split. Qed.

Lemma sim_run v cs : Forall (λ sc, isAccount sc.1) cs → Z.of_nat (length cs) < 2 ^ 256 - 2 →
  sim (Z.of_nat (length cs)) (guardRun v cs) (policyRun v cs).
Proof.
  induction cs as [|[a c] cs IH] using rev_ind; intros Hcs Hl; [apply sim_empty|].
  rewrite length_app in Hl |- *. cbn [length] in *. apply Forall_app in Hcs as [Hcs Ha]. rewrite Forall_singleton in Ha. cbn in Ha.
  specialize (IH Hcs ltac:(lia)). unfold guardRun, policyRun. rewrite !foldl_snoc. fold (guardRun v cs) (policyRun v cs). cbn [fst snd].
  replace (Z.of_nat (length cs + 1)) with (Z.of_nat (length cs) + 1) by lia.
  pose proof (call_agrees (Z.of_nat (length cs)) _ _ v a c ltac:(lia) IH Ha) as Hc. revert Hc.
  destruct (guardCall v a c (guardRun v cs)), (policyCall v a c (policyRun v cs)); cbn; try done.
  intros _. apply (sim_mono (Z.of_nat (length cs))); [lia|exact IH].
Qed.

(** C14: the guard is a map of policies. After any history of calls of any
    accounts, every view of every account reads the policy the map holds for
    it, and the next call of any account does to the guard what it does to the
    map, or fails with the same error. In the map an account is installed with
    exactly the policy it asks for - nothing of an earlier installation is
    left -, only its own calls change it, and without an address book its
    recipients are never emptied. *)
Theorem guard_refines_policies v cs a :
  Forall (λ sc, isAccount sc.1) cs → Z.of_nat (length cs) < 2 ^ 256 - 2 → isAccount a →
  let g := guardRun v cs in
  let p := policyAt (policyRun v cs) a in
  (gatewayLimits g a = (gl_gatewayWallet (pl_limits p), gl_perIntentCap (pl_limits p), gl_maxFeeCap (pl_limits p),
                        gl_maxExpiryBlocks (pl_limits p), gl_addressBook (pl_limits p)) ∧
   gatewaySourceDomain g a = gl_sourceDomain (pl_limits p) ∧ gatewayRecipientCount g a = Z.of_nat (size (pl_recipients p)) ∧
   (∀ x, isGatewayRecipientAllowed g a x = bool_decide (x ∈ pl_recipients p)) ∧
   (∀ x, isGatewayDestinationDomainAllowed g a x = bool_decide (x ∈ pl_domains p)) ∧
   (∀ x, gatewayToken g a x = default noToken (pl_tokens p !! x)) ∧
   (∀ x, isGatewayDestinationTokenAllowed g a x = bool_decide (x ∈ pl_destTokens p)) ∧
   (∀ x, gatewayDestinationMinter g a x = default 0 (pl_minters p !! x)) ∧
   (∀ x, isGatewayDestinationCallerAllowed g a x = bool_decide (x ∈ pl_callers p))) ∧
  (∀ c, outcome (guardCall v a c g) = outcome (policyCall v a c (policyRun v cs))).
Proof.
  intros Hcs Hl Ha. cbv zeta. pose proof (sim_run v cs Hcs Hl) as Hs. pose proof (si_limits _ _ _ Hs a) as Hla.
  destruct (si_holds _ _ _ Hs a Ha) as [B1 B2 B3 B4 B5 B6 B7]. split.
  - unfold gatewayLimits, gatewaySourceDomain. rewrite Hla.
    split_and!; try done; intros x; first [by apply bool_decide_ext|by unfold gatewayToken, tokenAt; rewrite B4|by unfold gatewayDestinationMinter; rewrite B6].
  - intros c. pose proof (call_agrees _ _ _ v a c Hl Hs Ha) as Hc. revert Hc.
    destruct (guardCall v a c _), (policyCall v a c _); cbn; try done. by intros ->.
Qed.
End refine.

(** ** A concrete guard *)

(** A hash without collisions on words: the number the bytes write. *)
Definition guard_viem : Viem :=
  {| isAddress := isHexBytes 20; selectorOf _ := 0; toFunctionSelector s := s; encodeFunctionData _ _ _ := Ok [];
     encodeAbiParameters _ _ := Ok []; keccak256 := be_value; erc20Abi := []; erc4626Abi := [] |}.

Lemma be_value_concat xs ys : be_value (xs ++ ys) = be_value xs * 256 ^ Z.of_nat (length ys) + be_value ys.
Proof.
  induction ys as [|y ys IH] using rev_ind; [by rewrite app_nil_r; cbn; lia|].
  rewrite app_assoc. unfold be_value in *. rewrite (be_value_app 0 (xs ++ ys)), IH, (be_value_app 0 ys), length_app. cbn [foldl length].
  rewrite Nat2Z.inj_add, Z.pow_add_r by lia. lia.
Qed.

Lemma guard_viem_differ : @namespaces_differ guard_viem.
Proof.
  intros a e a' e' Ha Ha' He He'. unfold nsOf, words. cbn [keccak256 guard_viem fmap list_fmap concat]. unfold isAccount in *.
  rewrite !app_nil_r, !be_value_concat, !word_length, !word_value by lia. lia.
Qed.

(** Address [0xb00c] is an address book that lists [0xaa] for everybody. *)
Definition guard_env : GuardEnv :=
  {| codeSize a := if a =? 0xb00c then 1 else 0; supportsAddressBook a := a =? 0xb00c;
     installedPlugins _ := Some [0xb00c]; allowedRecipientsOf a _ := if a =? 0xb00c then Returned [0xaa] else Reverted |}.

Definition sampleInit (recipients : list Z) (book : Z) : GatewayGuardInit :=
  {| gi_gatewayWallet := 0x77; gi_perIntentCap := 5000000; gi_maxFeeCap := 3000000; gi_maxExpiryBlocks := 1250000;
     gi_recipients := recipients; gi_destinationDomains := [6]; gi_tokens := [0x36]; gi_tokenNames := [textBytes "USDC"];
     gi_tokenVersions := [textBytes "2"]; gi_destinationTokens := [0x03]; gi_sourceDomain := 26; gi_destinationMinters := [0x22];
     gi_destinationCallers := []; gi_addressBook := book |}.

(** An account allows a second recipient, uninstalls, and installs the guard
    anew with its address book; another account is refused. *)
Definition sampleCalls : list (Z * guard_call) :=
  [(0x7ea5, Install (sampleInit [0xbb; 0xbb] 0)); (0x7ea5, SetRecipient 0xcc true); (0x99, Install (sampleInit [] 0));
   (0x7ea5, Uninstall); (0x7ea5, Install (sampleInit [] 0xb00c)); (0x99, SetCaller 5 true)].

Lemma sampleCalls_accounts : Forall (λ sc, isAccount sc.1) sampleCalls.
Proof. by repeat constructor. Qed.

Lemma guard_refines_policies_witness :
  let g := @guardRun guard_viem (@pluginAddressBook guard_env) sampleCalls in
  @isGatewayRecipientAllowed guard_viem g 0x7ea5 0xbb = false ∧ @gatewayRecipientCount guard_viem g 0x7ea5 = 0 ∧
  outcome (@guardCall guard_viem (@pluginAddressBook guard_env) 0x7ea5 (Install (sampleInit [] 0)) g) = Some (GuardAlreadyInstalled 0x7ea5).
Proof.
  intros g.
  destruct (@guard_refines_policies guard_viem guard_viem_differ (@pluginAddressBook guard_env) sampleCalls 0x7ea5) as [(_ & _ & Hc & Hr & _) Ho];
    [exact sampleCalls_accounts|reflexivity|by split|].
  split_and!.
  - etransitivity; [exact (Hr 0xbb)|]. vm_compute. reflexivity.
  - etransitivity; [exact Hc|]. vm_compute. reflexivity.
  - etransitivity; [exact (Ho (Install (sampleInit [] 0)))|]. vm_compute. reflexivity.
Defined.
