(* ===== verification/GuardPolicy.v ===== *)
(** * The guard enforces the treasury's policy

    [Guard] against [GatewayTreasury]: what passes the guard of an account is
    what a treasury contract with the same configuration would put to its
    quorum, the address book read as part of its recipients; and the two
    packagings hand the check the same envelope. *)

From stdpp Require Import gmap fin_sets.
From S2P Require Import Prelude.
From S2P Require Import Js.
From S2P Require Import Encoding.
From S2P Require Import Abi.
From S2P Require Import AbiSample.
From S2P Require Import EvmAbi.
From S2P Require Import GtPolicy.
From S2P Require Import GatewayTreasury.
From S2P Require Import GtSample.
From S2P Require Import GtQuorum.
From S2P Require Import GtSignature.
From S2P Require Import Guard.
From S2P Require Import GuardRefine.

Section policy.
Context `{Viem} `{GuardEnv} `{chain : Block → EvmChain}.

(** What the address book of a policy lists, when there is one that answers. *)
Definition bookOf (account : Z) (p : Policy) : list Z :=
  let book := gl_addressBook (pl_limits p) in
  if book =? 0 then [] else match allowedRecipientsOf book account with Returned l => l | Reverted | Malformed => [] end.

(** A treasury contract at the account's address with the account's policy. *)
Record mirrors (t : Treasury) (account : Z) (p : Policy) : Prop := {
  mi_this : this t = account;
  mi_wallet : gatewayWallet t = gl_gatewayWallet (pl_limits p);
  mi_domain : localDomain t = gl_sourceDomain (pl_limits p);
  mi_caps : perIntentCap t = gl_perIntentCap (pl_limits p) ∧ maxFeeCap t = gl_maxFeeCap (pl_limits p);
  mi_expiry : maxExpiryBlocks t = gl_maxExpiryBlocks (pl_limits p);
  mi_tokens : allowedTokens t = pl_tokens p;
  mi_destTokens : allowedDestinationTokens t = pl_destTokens p;
  mi_domains : allowedDestinationDomains t = pl_domains p;
  mi_minters : destinationMinters t = pl_minters p;
  mi_callers : allowedDestinationCallers t = pl_callers p;
  mi_recipients : allowedRecipients t = pl_recipients p ∪ list_to_set (bookOf account p);
  mi_running : paused t = false }.

(** The guard of the account stores the policy. *)
Record enforces (g : Guard) (account : Z) (p : Policy) : Prop := {
  en_holds : holds g (ns g account) p;
  en_limits : limitsAt g account = pl_limits p;
  en_wallet : gl_gatewayWallet (pl_limits p) ≠ 0 }.

Lemma tokenAt_allowed g a p t token : enforces g a p → mirrors t a p → tokenAt g (ns g a) token = tokenInfo t token.
Proof. intros [Hh _ _] Hm. unfold tokenAt, tokenInfo. by rewrite (ho_tokens _ _ _ Hh), (mi_tokens _ _ _ Hm). Qed.

Lemma recipient_allowed g a p t domain r :
  enforces g a p → mirrors t a p → 0 ≤ r → Forall isAccount (bookOf a p) →
  recipientAllowed g a (pl_limits p) (ns g a) domain r = Ok true ↔
  r ∈ allowedRecipients t ∧ matchesDomainShape domain r = true.
Proof.
  intros [Hh _ _] Hm Hr Hb. rewrite (mi_recipients _ _ _ Hm), elem_of_union, elem_of_list_to_set. unfold recipientAllowed, bookOf in *.
  destruct (matchesDomainShape domain r) eqn:Hs; cbn [negb]; [|split; [done|by intros []]].
  rewrite (bool_decide_ext _ _ (ho_recipients _ _ _ Hh r)). case_bool_decide as Hin; [split; auto|].
  unfold matchesDomainShape in Hs. destruct (Z.eqb_spec r 0) as [|Hr0]; [done|].
  destruct (gl_addressBook (pl_limits p) =? 0); cbn [orb]; [split; [done|intros [[?|?%not_elem_of_nil] _]; done]|].
  destruct (isEvmDomain domain); cbn [negb].
  - apply isCanonicalAddress_lt in Hs; [|done]. rewrite Z.mod_small by lia. rewrite (proj2 (Z.eqb_neq _ _)) by done.
    destruct (allowedRecipientsOf _ a) as [| |l]; [split; [done|intros [[?|?%not_elem_of_nil] _]; done]..|].
    case_bool_decide as E; [split; auto|split; [done|intros [[?|?] _]; done]].
  - split; [done|]. intros [[?|Hl] _]; [done|]. destruct (allowedRecipientsOf _ a) as [| |l]; [by apply not_elem_of_nil in Hl..|].
    rewrite Forall_forall in Hb. specialize (Hb r Hl). apply negb_true_iff in Hs.
    pose proof (proj2 (isCanonicalAddress_lt r Hr) (proj2 Hb)) as E. congruence.
Qed.

Lemma decoded_ok {A} (o : option A) a : decoded o = Ok a ↔ o = Some a.
Proof. destruct o; cbn; split; congruence. Qed.

(** The checks on the destination, in the guard's order and the treasury's. *)
Lemma destination_agrees g a p t s :
  enforces g a p → mirrors t a p → Forall isAccount (bookOf a p) → 0 ≤ destinationRecipient s →
  checkDestination g a (pl_limits p) (ns g a) s = Ok tt ↔ destinationAllowed t s = true.
Proof.
  intros Hg Hm Hb Hr. pose proof (recipient_allowed g a p t (destinationDomain s) _ Hg Hm Hr Hb) as Hrec.
  destruct Hg as [Hh _ _]. unfold checkDestination, destinationAllowed. cbv zeta.
  rewrite !throw_if_bind_ok, !guard_true, !orb_false_iff, !negb_false_iff, !bool_decide_eq_true.
  rewrite (ho_destTokens _ _ _ Hh), (ho_domains _ _ _ Hh), (ho_minters _ _ _ Hh).
  rewrite (mi_destTokens _ _ _ Hm), (mi_domains _ _ _ Hm), (mi_minters _ _ _ Hm), (mi_callers _ _ _ Hm).
  set (R := recipientAllowed _ _ _ _ _ _) in *.
  assert (∀ (f : bool → result guard_error ()), (R ≫= λ ok, _ ← throw_if (negb ok) (GuardRecipientNotAllowed (destinationRecipient s)); f ok) = Ok tt
            ↔ R = Ok true ∧ f true = Ok tt) as HR.
  { intros f. destruct R as [[]|]; cbn; [naive_solver|split; [done|by intros []]|split; [done|by intros []]]. }
  rewrite (HR (λ _, _ ← _; _)), Hrec, throw_if_bind_ok, throw_if_ok, orb_false_iff, negb_false_iff, andb_false_iff, negb_false_iff, orb_false_iff, !negb_false_iff.
  rewrite bool_decide_eq_true, (ho_callers _ _ _ Hh).
  destruct (destinationCaller s =? 0); cbn [negb]; [|rewrite andb_true_iff, bool_decide_eq_true]; intuition congruence.
Qed.

Lemma burn_accepted b g a p t hash payload ownerSigs :
  enforces g a p → mirrors t a p → Forall isAccount (bookOf a p) → Forall isByte payload → hash ∉ revokedIntents t →
  validateBurnIntent (chain := chain) b t hash payload ownerSigs = Some true ↔
  checkBurnIntent b g a (pl_limits p) (ns g a) hash payload = Ok tt ∧ checkWeightedSigs (chain := chain) b t hash ownerSigs = true.
Proof.
  intros Hg Hm Hb Hp Hr. unfold validateBurnIntent, checkBurnIntent. rewrite (mi_running _ _ _ Hm), bool_decide_false by done. cbn [orb].
  destruct (decodeBurnIntent payload) as [i|] eqn:Ei; cbn [decoded mbind option_bind result_bind]; [|split; [done|by intros []]].
  pose proof (iok_words _ (decodeBurnIntent_ok _ _ Hp Ei)) as Hw. rewrite !Forall_cons in Hw.
  destruct Hw as (_ & _ & _ & _ & _ & _ & _ & Hrec & _).
  rewrite throw_if_bind. destruct (_ =? hash); cbn [negb]; [|split; [done|by intros []]].
  assert (limitsOf t = {| il_gatewayWallet := gl_gatewayWallet (pl_limits p); il_sourceDomain := gl_sourceDomain (pl_limits p);
                          il_depositor := a; il_maxExpiryBlocks := gl_maxExpiryBlocks (pl_limits p);
                          il_perIntentCap := gl_perIntentCap (pl_limits p); il_maxFeeCap := gl_maxFeeCap (pl_limits p) |}) as ->.
  { unfold limitsOf. destruct Hm as [-> -> -> [-> ->] -> _ _ _ _ _ _ _]. done. }
  destruct (checkIntentShape b i _) as [tok|]; [|split; [done|by intros []]]. cbv zeta.
  rewrite (tokenAt_allowed g a p t tok Hg Hm). unfold tokenAllowed. rewrite negb_involutive.
  rewrite throw_if_bind. destruct (_ =? 0); [split; [done|by intros []]|].
  rewrite (destination_agrees g a p t) by (done || lia). destruct (destinationAllowed t (spec i)); cbn [negb]; [|split; [done|by intros []]].
  split; [by intros [= ->]|by intros [_ ->]].
Qed.

Lemma authorization_accepted b g a p t caller hash payload ownerSigs :
  enforces g a p → mirrors t a p →
  validateReceiveWithAuth (chain := chain) b t hash payload ownerSigs caller = Some true ↔
  checkReceiveWithAuthorization b g a (pl_limits p) (ns g a) caller hash payload = Ok tt ∧
  checkWeightedSigs (chain := chain) b t hash ownerSigs = true.
Proof.
  intros Hg Hm. unfold validateReceiveWithAuth, checkReceiveWithAuthorization. cbv zeta.
  rewrite (tokenAt_allowed g a p t caller Hg Hm). unfold tokenAllowed. rewrite negb_involutive, throw_if_bind.
  destruct (_ =? 0); [split; [done|by intros []]|].
  do 6 (match goal with |- context [decoded ?o] => destruct o as [?|]; cbn [decoded mbind option_bind result_bind]; [|split; [done|by intros []]] end).
  rewrite throw_if_bind, (mi_this _ _ _ Hm), (mi_wallet _ _ _ Hm). destruct (_ =? hash); cbn [negb]; [|split; [done|by intros []]].
  destruct (_ =? a); cbn [negb orb]; [|split; [done|by intros []]]. destruct (_ =? _); cbn [negb]; [|split; [done|by intros []]].
  split; [by intros [= ->]|by intros [_ ->]].
Qed.

(** What the treasury decides on a payload of a kind under its owners' signatures. *)
Definition treasuryVerdict (b : Block) (t : Treasury) (caller hash kind : Z) (payload ownerSigs : list Z) : bool :=
  match (if kind =? 0 then validateBurnIntent (chain := chain) b t hash payload ownerSigs
         else if kind =? 1 then validateReceiveWithAuth (chain := chain) b t hash payload ownerSigs caller else Some false) with
  | Some ok => ok
  | None => false
  end.

Lemma verdict_true o : match o with Some ok => ok | None => false end = true ↔ o = Some true.
Proof. destruct o as [[]|]; split; congruence. Qed.

(** C15: the guard is the treasury's policy. After any history of calls, what
    passes the guard of an installed account under a quorum is exactly what the
    treasury contract of the same configuration signs: its recipients are those
    of the account and, where an address book is bound, those of the book - on
    domains with EVM addresses only. Burn intents and authorizations alike; a
    book that does not answer counts as empty. *)
Theorem guard_is_treasury_policy (differ : namespaces_differ) v cs a p t b caller hash kind payload ownerSigs :
  Forall (λ sc, isAccount sc.1) cs → Z.of_nat (length cs) < 2 ^ 256 - 2 → isAccount a → policyRun v cs !! a = Some p →
  mirrors t a p → hash ∉ revokedIntents t → Forall isAccount (bookOf a p) → Forall isByte payload →
  treasuryVerdict b t caller hash kind payload ownerSigs = true ↔
  checkIntent b (guardRun v cs) a caller hash kind payload = Ok tt ∧ checkWeightedSigs (chain := chain) b t hash ownerSigs = true.
Proof.
  intros Hcs Hl Ha Ep Hm Hr Hb Hp. pose proof (sim_run differ v cs Hcs Hl) as Hs.
  assert (enforces (guardRun v cs) a p) as Hg.
  { pose proof (si_holds _ _ _ Hs a Ha) as Hh. pose proof (si_limits _ _ _ Hs a) as Hla. unfold policyAt in Hh, Hla. rewrite Ep in Hh, Hla.
    split; [exact Hh|exact Hla|by eapply si_installed]. }
  unfold treasuryVerdict, checkIntent. rewrite verdict_true, (en_limits _ _ _ Hg), throw_if_bind, (proj2 (Z.eqb_neq _ _) (en_wallet _ _ _ Hg)).
  destruct (kind =? 0); [by apply burn_accepted|]. destruct (kind =? 1); [by apply authorization_accepted|]. split; [done|by intros []].
Qed.

(** ** The envelope *)

Definition encodeEnvelope (kind : Z) (payload : list Z) : list Z := word kind ++ word 64 ++ bytesTail payload.
(** The signature of the v0.7 packaging: the owners' and the trailer. *)
Definition guardedSignature (multisigSig : list Z) (kind : Z) (payload : list Z) : list Z :=
  let envelope := encodeEnvelope kind payload in
  (multisigSig ++ envelope) ++ word (lenZ envelope) ++ word ENVELOPE_MAGIC.
Definition isValidSignatureData (hash : Z) (signature : list Z) : list Z :=
  be_bytes 4 ERC1271_MAGICVALUE ++ word hash ++ word 64 ++ bytesTail signature.

Lemma decode_envelope kind payload : 0 ≤ kind < 2 ^ 8 → lenZ payload < 2 ^ 64 → decodeEnvelope (encodeEnvelope kind payload) = Ok (kind, payload).
Proof.
  intros Hk Hl. unfold decodeEnvelope. rewrite throw_if_bind.
  assert (96 ≤ lenZ (encodeEnvelope kind payload)) as Hlen.
  { unfold encodeEnvelope. rewrite !lenZ_app, !lenZ_word. pose proof (lenZ_bytesTail payload). pose proof (lenZ_nonneg payload). lia. }
  rewrite (proj2 (Z.ltb_ge _ _)) by done.
  assert (readUint 8 (encodeEnvelope kind payload) 0 = Some kind) as ->
    by (apply (readUint_at 8 [] kind (word 64 ++ bytesTail payload)); done).
  assert (readBytes (encodeEnvelope kind payload) 0 32 = Some payload) as ->; [|done].
  apply (readBytes_at _ 0 32 64 payload (word kind) (bytesTail payload) (word kind ++ word 64) []); try done.
  - unfold encodeEnvelope. by rewrite app_nil_r, <- app_assoc.
Qed.

Lemma trailer_read X E : lenZ E < 2 ^ 256 → 0 ≤ ENVELOPE_MAGIC < 2 ^ 256 →
  trailerEnvelope ((X ++ E) ++ word (lenZ E) ++ word ENVELOPE_MAGIC) = Ok E.
Proof.
  intros HE HM. unfold trailerEnvelope. cbv zeta.
  assert (length ((X ++ E) ++ word (lenZ E) ++ word ENVELOPE_MAGIC) = length (X ++ E) + 64)%nat as -> by (rewrite !length_app, !word_length; lia).
  rewrite throw_if_bind. destruct (Nat.ltb_spec (length (X ++ E) + 64) 64) as [|_]; [lia|].
  pose proof (lenZ_nonneg E).
  assert (wordAt (length (X ++ E) + 64 - 32) ((X ++ E) ++ word (lenZ E) ++ word ENVELOPE_MAGIC) = ENVELOPE_MAGIC) as ->.
  { rewrite app_assoc, (wordAt_app ((X ++ E) ++ word (lenZ E))) by (rewrite !length_app, word_length; lia).
    rewrite take_ge by (by rewrite word_length). by apply word_value. }
  assert (wordAt (length (X ++ E) + 64 - 64) ((X ++ E) ++ word (lenZ E) ++ word ENVELOPE_MAGIC) = lenZ E) as ->.
  { rewrite (wordAt_app (X ++ E)) by lia. rewrite take_app_length' by (by rewrite word_length). apply word_value. lia. }
  rewrite throw_if_bind, Z.eqb_refl. cbn [negb orb].
  assert ((Z.of_nat (length (X ++ E) + 64) - 64 <? lenZ E) = false) as ->.
  { apply Z.ltb_ge. unfold lenZ. rewrite length_app. lia. }
  f_equal. unfold lenZ. rewrite Nat2Z.id. replace (length (X ++ E) + 64 - 64 - length E)%nat with (length X) by (rewrite length_app; lia).
  rewrite <- app_assoc, drop_app_length. by rewrite take_app_length.
Qed.

(** C16: both packagings check what the envelope says. The v0.7 hook reads the
    envelope back from behind any owners' signature, the v0.8 hook from its own
    segment, and either answers as [checkIntent] does on the kind and payload in
    it; and nothing passes the v0.7 hook without the trailer's last word. *)
Theorem hooks_read_envelope b g a sender hash kind payload multisigSig :
  0 ≤ hash < 2 ^ 256 → 0 ≤ kind < 2 ^ 8 → lenZ payload < 2 ^ 62 → lenZ multisigSig < 2 ^ 62 → 0 ≤ ENVELOPE_MAGIC < 2 ^ 256 →
  preRuntimeValidationHook b g a 0 sender (isValidSignatureData hash (guardedSignature multisigSig kind payload))
    = checkIntent b g a sender hash kind payload ∧
  preSignatureValidationHook b g a sender hash (encodeEnvelope kind payload) = checkIntent b g a sender hash kind payload ∧
  (∀ sig, lenZ sig < 2 ^ 64 → wordAt (length sig - 32) sig ≠ ENVELOPE_MAGIC →
     preRuntimeValidationHook b g a 0 sender (isValidSignatureData hash sig) = Throw MissingIntentEnvelope).
Proof.
  intros Hh Hk Hp Hx HM.
  assert (∀ sig, lenZ sig < 2 ^ 64 → preRuntimeValidationHook b g a 0 sender (isValidSignatureData hash sig)
            = (envelope ← trailerEnvelope sig; '(kind, payload) ← decodeEnvelope envelope; checkIntent b g a sender hash kind payload)) as Hook.
  { intros sig Hs. unfold preRuntimeValidationHook, isValidSignatureData. rewrite !throw_if_bind. cbn [Z.eqb negb].
    rewrite (take_app_length' (be_bytes 4 _)), (drop_app_length' (be_bytes 4 _)) by (by rewrite be_bytes_length).
    rewrite lenZ_app. unfold lenZ at 1. rewrite be_bytes_length. pose proof (lenZ_nonneg (word hash ++ word 64 ++ bytesTail sig)).
    rewrite (proj2 (Z.ltb_ge _ _)), bool_decide_true by (done || lia). cbn [orb negb].
    assert (readWord (word hash ++ word 64 ++ bytesTail sig) 0 = Some hash) as -> by (by apply (readWord_at [])).
    assert (readBytes (word hash ++ word 64 ++ bytesTail sig) 0 32 = Some sig) as ->; [|done].
    apply (readBytes_at _ 0 32 64 sig (word hash) (bytesTail sig) (word hash ++ word 64) []); try done.
    by rewrite app_nil_r, <- app_assoc. }
  pose proof (lenZ_bytesTail payload) as Ht. pose proof (lenZ_nonneg payload). pose proof (lenZ_nonneg multisigSig).
  assert (lenZ (encodeEnvelope kind payload) < 2 ^ 62 + 128) as He by (unfold encodeEnvelope; rewrite !lenZ_app, !lenZ_word; lia).
  split_and!.
  - rewrite Hook.
    + unfold guardedSignature. cbv zeta. rewrite trailer_read by (done || lia). cbn [mbind result_bind]. by rewrite decode_envelope by (done || lia).
    + unfold guardedSignature. cbv zeta. rewrite !lenZ_app, !lenZ_word. lia.
  - unfold preSignatureValidationHook. by rewrite decode_envelope by (done || lia).
  - intros sig Hs Hne. rewrite Hook by done. unfold trailerEnvelope. rewrite !throw_if_bind. destruct (_ <? 64)%nat; [done|].
    by rewrite (proj2 (Z.eqb_neq _ _)) by done.
Qed.
End policy.

(** ** A guarded account beside the sample treasury *)

Definition guardedPolicy : Policy := policyAt (@policyRun (@pluginAddressBook guard_env) sampleCalls) sampleSelf.

Lemma guardedPolicy_installed : @policyRun (@pluginAddressBook guard_env) sampleCalls !! sampleSelf = Some guardedPolicy.
Proof. vm_compute. reflexivity. Qed.

(** The treasury lists the payee itself, the account has it from its address book. *)
Lemma guardedPolicy_mirrors : @mirrors guard_env sampleTreasury sampleSelf guardedPolicy.
Proof. split; [..|vm_compute; reflexivity|vm_compute; reflexivity]; vm_compute; repeat split; reflexivity. Qed.

Lemma guard_is_treasury_policy_witness :
  let hash := @burnIntentDigest guard_viem sampleIntent in
  @checkIntent guard_viem guard_env (blockAt 2000) (@guardRun guard_viem (@pluginAddressBook guard_env) sampleCalls) sampleSelf 1 hash 0
    (encodeBurnIntent sampleIntent) = Ok tt.
Proof.
  intros hash.
  refine (proj1 (proj1 (@guard_is_treasury_policy guard_viem guard_env sample_chain guard_viem_differ (@pluginAddressBook guard_env) sampleCalls
    sampleSelf guardedPolicy sampleTreasury (blockAt 2000) 1 hash 0 (encodeBurnIntent sampleIntent) (encodeApprovals sampleApprovals)
    sampleCalls_accounts _ _ guardedPolicy_installed guardedPolicy_mirrors _ _ _) _)).
  - reflexivity.
  - by split.
  - apply (bool_decide_unpack _). vm_compute. exact I.
  - apply (bool_decide_unpack _). vm_compute. exact I.
  - apply (bool_decide_unpack _). vm_compute. exact I.
  - vm_compute. reflexivity.
Defined.

Lemma hooks_read_envelope_witness :
  @preSignatureValidationHook sample_viem guard_env (blockAt 2000) emptyGuard sampleSelf 1 77 (encodeEnvelope 0 [1; 2; 3])
    = Throw (GuardNotInstalled sampleSelf) ∧
  @preRuntimeValidationHook sample_viem guard_env (blockAt 2000) emptyGuard sampleSelf 0 1
    (isValidSignatureData 77 (@guardedSignature sample_viem [9; 9] 0 [1; 2; 3])) = Throw (GuardNotInstalled sampleSelf).
Proof.
  assert (E : 0 ≤ @ENVELOPE_MAGIC sample_viem < 2 ^ 256) by (vm_compute; split; [discriminate|reflexivity]).
  destruct (@hooks_read_envelope sample_viem guard_env (blockAt 2000) emptyGuard sampleSelf 1 77 0 [1; 2; 3] [9; 9]) as (P & S & _);
    [by split|by split|reflexivity|reflexivity|exact E|].
  split; [exact S|exact P].
Defined.
