(* ===== verification/Float64.v ===== *)
(** * JavaScript numbers: binary64

    A finite number is the rational it denotes (the sign of a zero is never
    observed by the code); every operation rounds to nearest, ties to even, as
    IEEE 754 does. Comparisons with NaN are false. *)

From Stdlib Require Import QArith Qabs Qround Qpower Lqa.
From S2P Require Import Prelude.
From S2P Require Import Js.
From S2P Require Import Decimal.
From S2P Require Import CreParse.

Inductive num : Type :=
| Fin (x : Q)
| PosInf
| NegInf
| NaN.

(** ** Rounding *)

Definition pow2 (e : Z) : Q := Qpower 2 e.

(** The exponent [k] with [2^k <= x < 2^(k+1)], for [x > 0]. *)
Definition qlog2 (x : Q) : Z :=
  let n := Z.log2 (Qnum x) - Z.log2 (QDen x) in
  if Qle_bool (pow2 n) x then n else n - 1.

Definition round_even (x : Q) : Z :=
  let f := Qfloor x in
  match Qcompare (x - inject_Z f) (1 # 2) with
  | Lt => f
  | Gt => f + 1
  | Eq => if Z.even f then f else f + 1
  end.

(** The exponent of the last place: 53 bits, down to the subnormals. *)
Definition ulp (x : Q) : Z := Z.max (qlog2 (Qabs x) - 52) (-1074).

Definition rnd (x : Q) : num :=
  if Qeq_bool x 0 then Fin 0 else
  let e := ulp x in
  let y := Qred (inject_Z (round_even (x * pow2 (- e))) * pow2 e) in
  if Qle_bool (pow2 1024) y then PosInf
  else if Qle_bool y (- pow2 1024) then NegInf
  else Fin y.

(** ** Operations *)

(** [Number(bigint)], and an integer literal. *)
Definition num_of_Z (z : Z) : num := rnd (inject_Z z).

Definition num_opp (a : num) : num :=
  match a with Fin x => Fin (- x) | PosInf => NegInf | NegInf => PosInf | NaN => NaN end.

Definition num_add (a b : num) : num :=
  match a, b with
  | Fin x, Fin y => rnd (x + y)
  | NaN, _ | _, NaN => NaN
  | PosInf, NegInf | NegInf, PosInf => NaN
  | PosInf, _ | _, PosInf => PosInf
  | NegInf, _ | _, NegInf => NegInf
  end.

Definition num_sub (a b : num) : num := num_add a (num_opp b).

(** [a / y] for a finite non-zero constant [y]. *)
Definition num_div_const (a : num) (y : Z) : num :=
  match a with
  | Fin x => rnd (x / inject_Z y)
  | PosInf => if 0 <? y then PosInf else NegInf
  | NegInf => if 0 <? y then NegInf else PosInf
  | NaN => NaN
  end.

(** [a * y] for a finite non-zero constant [y]. *)
Definition num_mul_const (a : num) (y : Z) : num :=
  match a with
  | Fin x => rnd (x * inject_Z y)
  | PosInf => if 0 <? y then PosInf else NegInf
  | NegInf => if 0 <? y then NegInf else PosInf
  | NaN => NaN
  end.

(** The sign a comparator's result is used by: NaN counts as zero. *)
Definition num_sign (a : num) : Z :=
  match a with
  | Fin x => match (x ?= 0)%Q with Lt => -1 | Eq => 0 | Gt => 1 end
  | PosInf => 1 | NegInf => -1 | NaN => 0
  end.

(** [a < b], [a <= b] *)
Definition num_ltb (a b : num) : bool :=
  match a, b with
  | NaN, _ | _, NaN => false
  | Fin x, Fin y => negb (Qle_bool y x)
  | PosInf, _ | _, NegInf => false
  | _, _ => true
  end.
Definition num_leb (a b : num) : bool :=
  match a, b with
  | NaN, _ | _, NaN => false
  | Fin x, Fin y => Qle_bool x y
  | NegInf, _ | _, PosInf => true
  | _, _ => false
  end.

(** ** [Number(text)] *)

Definition isSpace (c : ascii) : bool := between 9 13 c || (code c =? 32).

Fixpoint trimStart (s : string) : string :=
  match s with
  | String c r => if isSpace c then trimStart r else s
  | EmptyString => ""
  end.
Fixpoint trimEnd (s : string) : string :=
  match s with
  | EmptyString => ""
  | String c r => match trimEnd r with EmptyString => if isSpace c then "" else String c "" | r => String c r end
  end.
(** [s.trim()] on ASCII *)
Definition trim (s : string) : string := trimEnd (trimStart s).

(** The digits of a literal in a base given by [value]. *)
Definition radixNumber (ok : ascii → bool) (base : Z) (value : ascii → Z) (s : string) : num :=
  match s with
  | EmptyString => NaN
  | _ => if str_all ok s
         then num_of_Z ((fix go acc s := match s with EmptyString => acc | String c r => go (acc * base + value c) r end) 0 s)
         else NaN
  end.

(** The exponent part [[eE][+-]?[0-9]+] at the end of a literal, zero when
    there is none. *)
Definition exponentPart (s : string) : option Z :=
  match s with
  | EmptyString => Some 0
  | String c r =>
      if Ascii.eqb c "e" || Ascii.eqb c "E" then
        match r with
        | String d r' =>
            let neg := Ascii.eqb d "-" in
            let ds := if neg || Ascii.eqb d "+" then r' else r in
            match ds with
            | EmptyString => None
            | _ => if str_all is_digit ds then Some (if neg then - dec_value ds else dec_value ds) else None
            end
        | EmptyString => None
        end
      else None
  end.

(** The rational an unsigned decimal literal denotes. *)
Definition decimalLiteral (s : string) : option Q :=
  let '(i, r) := spanChars is_digit s in
  let '(f, r) := match r with
                 | String "." r => spanChars is_digit r
                 | _ => (EmptyString, r)
                 end in
  match i, f with
  | EmptyString, EmptyString => None
  | _, _ =>
      e ← exponentPart r;
      Some (inject_Z (dec_value (i +:+ f)) * Qpower 10 (e - strlen f))%Q
  end.

Definition signedNumber (s : string) : num :=
  let read t := if bool_decide (t = "Infinity") then PosInf
                else match decimalLiteral t with Some x => rnd x | None => NaN end in
  match s with
  | String "-" r => num_opp (read r)
  | String "+" r => read r
  | _ => read s
  end.

Definition toNumber (text : string) : num :=
  match trim text with
  | EmptyString => Fin 0
  | String "0" (String b r) as s =>
      if Ascii.eqb b "x" || Ascii.eqb b "X" then
        radixNumber is_hex 16 (λ c, if is_digit c then code c - 48 else if between 97 102 c then code c - 87 else code c - 55) r
      else if Ascii.eqb b "o" || Ascii.eqb b "O" then radixNumber (between 48 55) 8 (λ c, code c - 48) r
      else if Ascii.eqb b "b" || Ascii.eqb b "B" then radixNumber (between 48 49) 2 (λ c, code c - 48) r
      else signedNumber s
  | s => signedNumber s
  end.

(** ** The rounding error *)

Open Scope Q_scope.

Lemma pow2_pos e : 0 < pow2 e.
Proof. apply Qpower_0_lt. done. Qed.

Lemma pow2_plus a b : pow2 (a + b) == pow2 a * pow2 b.
Proof. unfold pow2. apply Qpower_plus. done. Qed.

Lemma pow2_mono a b : (a ≤ b)%Z → pow2 a <= pow2 b.
Proof. intros H. apply Qpower_le_compat_l; [lia|done]. Qed.

Lemma pow2_Z n : (0 ≤ n)%Z → pow2 n == inject_Z (2 ^ n).
Proof. intros H. unfold pow2. rewrite <- (Zpower_Qpower 2 n H). done. Qed.

Lemma qlog2_le x : 0 < x → pow2 (qlog2 x) <= x.
Proof.
  intros Hx. unfold qlog2. set (n := (Z.log2 (Qnum x) - Z.log2 (QDen x))%Z).
  destruct (Qle_bool (pow2 n) x) eqn:E; [by apply Qle_bool_iff|].
  destruct x as [p d]. cbn [Qnum Qden] in *. unfold Qlt in Hx. cbn in Hx.
  destruct (Z.log2_spec p ltac:(lia)) as [Hp _]. destruct (Z.log2_spec (Z.pos d) ltac:(lia)) as [_ Hd].
  pose proof (Z.log2_nonneg p). pose proof (Z.log2_nonneg (Z.pos d)).
  rewrite (Qmake_Qdiv p d). apply Qle_shift_div_l; [done|].
  eapply Qle_trans with (pow2 (n - 1) * pow2 (Z.succ (Z.log2 (Z.pos d)))).
  - apply Qmult_le_l; [apply pow2_pos|]. rewrite pow2_Z by lia. rewrite <- Zle_Qle. lia.
  - rewrite <- pow2_plus. replace (n - 1 + Z.succ (Z.log2 (Z.pos d)))%Z with (Z.log2 p) by lia.
    rewrite pow2_Z by lia. by rewrite <- Zle_Qle.
Qed.

Lemma round_even_error x : Qabs (inject_Z (round_even x) - x) <= 1 # 2.
Proof.
  unfold round_even. pose proof (Qfloor_le x) as H1. pose proof (Qlt_floor x) as H2.
  rewrite inject_Z_plus in H2. apply Qabs_Qle_condition.
  destruct (Qcompare_spec (x - inject_Z (Qfloor x)) (1 # 2)) as [E|E|E];
    [destruct (Z.even _)|..]; rewrite ?inject_Z_plus; change (inject_Z 1) with 1 in *; split; lra.
Qed.

(** The value [rnd x] has before overflow. *)
Definition nearest (x : Q) : Q :=
  inject_Z (round_even (x * pow2 (- ulp x))) * pow2 (ulp x).

Lemma nearest_error x : Qabs (nearest x - x) <= pow2 (ulp x) * (1 # 2).
Proof.
  unfold nearest. pose proof (round_even_error (x * pow2 (- ulp x))) as H.
  pose proof (pow2_pos (ulp x)) as Hp. set (m := inject_Z _) in *.
  assert (pow2 (- ulp x) * pow2 (ulp x) == 1) as E by (rewrite <- pow2_plus, Z.add_opp_diag_l; done).
  assert (m * pow2 (ulp x) - x == (m - x * pow2 (- ulp x)) * pow2 (ulp x)) as ->.
  { transitivity (m * pow2 (ulp x) - x * (pow2 (- ulp x) * pow2 (ulp x))); [rewrite E|]; ring. }
  rewrite Qabs_Qmult, (Qabs_pos (pow2 _)) by lra.
  rewrite (Qmult_comm (pow2 _) (1 # 2)). apply Qmult_le_compat_r; lra.
Qed.

(** The relative error of one operation: [2^-53]. *)
Definition eps : Q := 1 # 9007199254740992.

Lemma Qabs_id x : 0 <= x → Qabs x = x.
Proof. by destruct x as [[|p|p] d]. Qed.

Lemma nearest_relative x : pow2 (-1022) <= x → Qabs (nearest x - x) <= eps * x.
Proof.
  intros Hx. assert (0 < x) as Hx0 by (eapply Qlt_le_trans; [apply (pow2_pos (-1022))|done]).
  pose proof (nearest_error x) as He. pose proof (qlog2_le x Hx0) as Hl.
  assert (pow2 (ulp x) * (1 # 2) <= eps * x); [|lra].
  unfold ulp. rewrite Qabs_id by lra.
  assert (∀ k, pow2 k <= x → pow2 (k - 52) * (1 # 2) <= eps * x) as Hk.
  { intros k Hk. unfold Z.sub. rewrite pow2_plus.
    assert (pow2 (- (52)) == 1 # 4503599627370496) as -> by done. unfold eps. lra. }
  destruct (Z.max_spec (qlog2 x - 52) (-1074)) as [[_ ->]|[_ ->]]; [by apply (Hk (-1022)%Z)|by apply Hk].
Qed.

(** A number in the normal range, far from overflow. *)
Definition near (a : num) (x k : Q) : Prop :=
  ∃ y, a = Fin y ∧ Qabs (y - x) <= k.

Arguments near a (x k)%_Q_scope.

Lemma rnd_near x B : 0 <= x → (x == 0 ∨ pow2 (-1022) <= x) → x <= B → B <= pow2 1000 → near (rnd x) x (eps * B).
Proof.
  intros Hx Hn HB HB2. unfold near, rnd. destruct (Qeq_bool x 0) eqn:E0.
  { apply Qeq_bool_iff in E0. exists 0. split; [done|].
    assert (0 - x == 0) as -> by lra. change (Qabs 0) with 0. unfold eps. lra. }
  apply Qeq_bool_neq in E0. destruct Hn as [?|Hn]; [done|].
  pose proof (nearest_relative x Hn) as He. unfold nearest in He.
  set (y := inject_Z _ * _) in *. apply Qabs_Qle_condition in He.
  assert (eps * x <= eps * B) by (unfold eps; lra). assert (eps * x <= x) by (unfold eps; lra).
  assert (pow2 1000 * (2#1) < pow2 1024) by (by vm_compute).
  assert (0 < pow2 1024) by apply pow2_pos.
  destruct (Qle_bool (pow2 1024) (Qred y)) eqn:E1.
  { apply Qle_bool_iff in E1. rewrite Qred_correct in E1. lra. }
  destruct (Qle_bool (Qred y) (- pow2 1024)) eqn:E2.
  { apply Qle_bool_iff in E2. rewrite Qred_correct in E2. lra. }
  exists (Qred y). split; [done|]. rewrite Qred_correct. apply Qabs_Qle_condition. lra.
Qed.
Close Scope Q_scope.

(** ** Comparing rounded numbers *)

Open Scope Q_scope.

Lemma near_leb a b x y k l :
  near a x k → near b y l → num_leb a b = true → x - k <= y + l.
Proof.
  intros (x' & -> & Hx) (y' & -> & Hy). cbn. intros H%Qle_bool_iff.
  apply Qabs_Qle_condition in Hx, Hy. lra.
Qed.

Lemma near_ltb a b x y k l :
  near a x k → near b y l → num_ltb a b = false → y - l <= x + k.
Proof.
  intros (x' & -> & Hx) (y' & -> & Hy). cbn. intros H%negb_false_iff%Qle_bool_iff.
  apply Qabs_Qle_condition in Hx, Hy. lra.
Qed.

Lemma near_weaken a x k l : near a x k → k <= l → near a x l.
Proof. intros (y & -> & H) Hl. exists y. split; [done|]. lra. Qed.

(** The rounded sum of two rounded numbers. *)
Lemma near_add a b x y k l :
  near a x k → near b y l → (1 # 1000000000) <= x - k → 0 <= y - l → x + y + k + l <= 1000000000 →
  near (num_add a b) (x + y) (k + l + eps * 1000000000).
Proof.
  intros (x' & -> & Hx) (y' & -> & Hy) Hlow Hy0 Hhigh. cbn [num_add].
  apply Qabs_Qle_condition in Hx, Hy.
  destruct (rnd_near (x' + y') 1000000000) as (z & -> & Hz).
  - lra.
  - right. apply Qle_trans with (1 # 1000000000); [by vm_compute|]. lra.
  - lra.
  - by vm_compute.
  - exists z. split; [done|]. apply Qabs_Qle_condition in Hz. apply Qabs_Qle_condition. lra.
Qed.

(** A number above one stays above one. *)
Lemma rnd_above_one x : (1000001 # 1000000) <= x → num_ltb (Fin 1) (rnd x) = true.
Proof.
  intros Hx. assert (pow2 (-1022) <= x) as Hn by (apply Qle_trans with 1; [by vm_compute|lra]).
  pose proof (nearest_relative x Hn) as He. unfold nearest in He. apply Qabs_Qle_condition in He.
  unfold rnd. destruct (Qeq_bool x 0) eqn:E0. { apply Qeq_bool_iff in E0. lra. }
  set (y := inject_Z _ * _) in *. assert (0 < pow2 1024) by apply pow2_pos.
  assert (1 < y) by (unfold eps in He; lra).
  destruct (Qle_bool (pow2 1024) (Qred y)); [done|].
  destruct (Qle_bool (Qred y) (- pow2 1024)) eqn:E2.
  { apply Qle_bool_iff in E2. rewrite Qred_correct in E2. lra. }
  cbn [num_ltb]. apply negb_true_iff. destruct (Qle_bool (Qred y) 1) eqn:E; [|done].
  apply Qle_bool_iff in E. rewrite Qred_correct in E. lra.
Qed.

(** An integer number of millionths, rounded. *)
Lemma rnd_millionths x u B :
  (0 < u)%Z → x == (u # 1000000) → (u # 1000000) <= B → B <= pow2 1000 → near (rnd x) (u # 1000000) (eps * B).
Proof.
  intros Hu Hx HB HB2. destruct (rnd_near x B) as (y & E & Hy).
  - rewrite Hx. unfold Qle. cbn. lia.
  - right. rewrite Hx. apply Qle_trans with (1 # 1000000); [by vm_compute|]. unfold Qle. cbn. lia.
  - by rewrite Hx.
  - done.
  - exists y. split; [done|]. by rewrite <- Hx.
Qed.

(** [Number(cap) / 1e6] for a cap in millionths below one million. *)
Lemma cap_near C : (0 < C < 1000000)%Z → near (num_div_const (num_of_Z C) 1000000) (C # 1000000) (1 # 1000000000).
Proof.
  intros HC. unfold num_of_Z. destruct (rnd_near (inject_Z C) 1000000) as (y & -> & Hy).
  - unfold Qle. cbn. lia.
  - right. apply Qle_trans with 1; [by vm_compute|]. unfold Qle. cbn. lia.
  - unfold Qle. cbn. lia.
  - by vm_compute.
  - apply Qabs_Qle_condition in Hy. cbn [num_div_const].
    assert (Hc : inject_Z C == (C # 1000000) * 1000000) by (unfold Qeq; cbn; lia). rewrite Hc in Hy.
    assert (H1 : 1 # 1000000 <= C # 1000000) by (unfold Qle; cbn; lia).
    assert (H2 : C # 1000000 <= 1) by (unfold Qle; cbn; lia).
    set (c := C # 1000000) in *. clearbody c. unfold eps in Hy.
    assert (Hq : y / inject_Z 1000000 == y * (1 # 1000000)) by done.
    destruct (rnd_near (y / inject_Z 1000000) 2) as (z & -> & Hz).
    + rewrite Hq. lra.
    + right. rewrite Hq. apply Qle_trans with (1 # 10000000); [by vm_compute|]. lra.
    + rewrite Hq. lra.
    + by vm_compute.
    + exists z. split; [done|]. rewrite Hq in Hz. apply Qabs_Qle_condition in Hz. unfold eps in Hz.
      apply Qabs_Qle_condition. lra.
Qed.
Close Scope Q_scope.
