(* ===== verification/JsMap.v ===== *)
(** * JavaScript's [Map] with string keys

    Entries in insertion order; [set] on a present key keeps its place. *)

From S2P Require Import Prelude.

Section jsmap.
Context {V : Type}.
Implicit Types (m : list (string * V)) (k : string) (v : V).

Fixpoint map_get k m : option V :=
  match m with
  | [] => None
  | (k', v) :: m => if decide (k' = k) then Some v else map_get k m
  end.

Definition map_has k m : bool := bool_decide (is_Some (map_get k m)).

Fixpoint map_set k v m : list (string * V) :=
  match m with
  | [] => [(k, v)]
  | (k', w) :: m => if decide (k' = k) then (k, v) :: m else (k', w) :: map_set k v m
  end.

Fixpoint map_delete k m : list (string * V) :=
  match m with
  | [] => []
  | (k', w) :: m => if decide (k' = k) then map_delete k m else (k', w) :: map_delete k m
  end.

Lemma map_get_set_eq k v m : map_get k (map_set k v m) = Some v.
Proof.
  induction m as [|[k' w] m IH]; simpl; [by rewrite decide_True|].
  case_decide as E; simpl; [by rewrite decide_True|]. by rewrite decide_False.
Qed.

Lemma map_get_set_ne k k' v m : k ≠ k' → map_get k' (map_set k v m) = map_get k' m.
Proof.
  intros Hne. induction m as [|[k'' w] m IH]; simpl; [by rewrite decide_False|].
  case_decide as E; simpl.
  - subst. by rewrite !decide_False.
  - by rewrite IH.
Qed.

Lemma map_get_set k k' v m :
  map_get k' (map_set k v m) = if decide (k = k') then Some v else map_get k' m.
Proof. case_decide as E; [subst; apply map_get_set_eq | by apply map_get_set_ne]. Qed.

Lemma map_get_delete k k' m :
  map_get k' (map_delete k m) = if decide (k = k') then None else map_get k' m.
Proof.
  induction m as [|[k'' w] m IH]; simpl; [by case_decide|].
  destruct (decide (k'' = k)) as [->|E]; [rewrite IH|simpl; rewrite IH]; repeat case_decide; congruence.
Qed.

Lemma map_get_elem k v m : map_get k m = Some v → (k, v) ∈ m.
Proof.
  induction m as [|[k' w] m IH]; simpl; [done|]. case_decide as E.
  - intros [= ->]. subst. left.
  - right. auto.
Qed.

Lemma map_set_elem k v m kv : kv ∈ map_set k v m → kv = (k, v) ∨ kv ∈ m.
Proof.
  induction m as [|[k' w] m IH]; simpl; [set_solver|].
  case_decide; rewrite !elem_of_cons; naive_solver.
Qed.

Lemma map_delete_elem k m kv : kv ∈ map_delete k m ↔ kv ∈ m ∧ kv.1 ≠ k.
Proof.
  induction m as [|[k' w] m IH]; simpl; [set_solver|].
  case_decide as E; [subst|]; rewrite ?elem_of_cons, IH; [|]; set_solver.
Qed.
End jsmap.
