(* ===== verification/UtConfig.v ===== *)
(** * The ultimate treasury: shared data

    [apps/ultimate-treasury/shared/config.ts] and [types.ts]: the two
    positions of the treasury, what a send request and a job are, and the
    choice of the position a payment is taken from. Amounts the code holds as
    JavaScript numbers are [num]; weights, domains and thresholds are small
    integers. *)

From Stdlib Require Import QArith.
From S2P Require Import Prelude.
From S2P Require Import Js.
From S2P Require Import JsMap.
From S2P Require Import CreParse.
From S2P Require Import Float64.

(** ** [config.ts] *)

Definition DOMAIN_solana : Z := 5.
Definition DOMAIN_baseSepolia : Z := 6.
Definition DOMAIN_arc : Z := 26.

Inductive PositionId : Type := evm | solana.

#[global] Instance position_eq_dec : EqDecision PositionId.
Proof. solve_decision. Defined.

Record PositionInfo : Type := {
  po_label : string; po_chain : string; po_domain : Z; po_depositor : string;
  po_destination_chain : string; po_destination_domain : Z; po_feeEstimate : num }.

Definition EVM_TREASURY : string := "0xC3f4De2372167F7FFA0a1B3FbF221a8a7289e7d5".
Definition SOLANA_VAULT : string := "AtBgen532MGQmGjhmKcXRHxaBpSDz1ML6WXuUYw1yy9B".

Definition POSITIONS (id : PositionId) : PositionInfo :=
  match id with
  | evm => {| po_label := "Treasury contract"; po_chain := "Arc testnet"; po_domain := DOMAIN_arc;
              po_depositor := EVM_TREASURY; po_destination_chain := "Base Sepolia";
              po_destination_domain := DOMAIN_baseSepolia; po_feeEstimate := toNumber "0.01" |}
  | solana => {| po_label := "Squads vault"; po_chain := "Solana devnet"; po_domain := DOMAIN_solana;
                 po_depositor := SOLANA_VAULT; po_destination_chain := "Arc testnet";
                 po_destination_domain := DOMAIN_arc; po_feeEstimate := toNumber "0.2" |}
  end.

Definition EXPLORER (chain : string) : string :=
  if bool_decide (chain = "Base Sepolia") then "https://sepolia.basescan.org/tx/"
  else if bool_decide (chain = "Arc testnet") then "https://testnet.arcscan.app/tx/"
  else "undefined".

(** A row of Gateway's answer to [/v1/balances]. *)
Record GatewayBalanceRow : Type := { gb_domain : Z; gb_depositor : string; gb_balance : string }.

(** The amount each position holds. *)
Record Balances : Type := { bal_evm : num; bal_solana : num }.
Definition balanceOf (b : Balances) (id : PositionId) : num :=
  match id with evm => bal_evm b | solana => bal_solana b end.

(** The body of [fetchGatewayBalances] once Gateway has answered; [None] is
    an answer without [balances]. *)
Definition findBalance (rows : option (list GatewayBalanceRow)) (p : PositionInfo) : num :=
  match rows ≫= List.find (λ b, (gb_domain b =? po_domain p) &&
                    bool_decide (toLowerCase (gb_depositor b) = toLowerCase (po_depositor p))) with
  | Some b => toNumber (gb_balance b)
  | None => num_of_Z 0
  end.
Definition fetchGatewayBalances (rows : option (list GatewayBalanceRow)) : Balances :=
  {| bal_evm := findBalance rows (POSITIONS evm); bal_solana := findBalance rows (POSITIONS solana) |}.

(** Whether a position can cover the amount and its typical fee. *)
Definition canCover (balances : Balances) (amount perIntentCap : num) (id : PositionId) : bool :=
  if bool_decide (id = evm) && num_ltb perIntentCap amount then false
  else num_leb (num_add amount (po_feeEstimate (POSITIONS id))) (balanceOf balances id).

Definition pickSource (balances : Balances) (amount perIntentCap : num) : option PositionId :=
  head (js_sort (λ a b, num_sign (num_sub (balanceOf balances b) (balanceOf balances a)))
          (List.filter (canCover balances amount perIntentCap) [evm; solana])).

(** ** [types.ts] *)

Record Owner : Type := { ow_id : string; ow_address : string; ow_weight : Z }.

Record TreasuryPolicy : Type := {
  tp_live : bool; tp_thresholdWeight : Z; tp_owners : list Owner;
  tp_allowlist : list (string * string); tp_outsider : string * string;
  tp_destinationDomains : list Z; tp_perIntentCap : num; tp_maxFeeCap : num; tp_maxExpiryBlocks : Z }.

(** A request body; a field the caller left out is [None]. *)
Record SendRequest : Type := {
  sr_asset : option string; sr_amount : option string; sr_recipient : option string;
  sr_signers : option (list string); sr_source : option string; sr_expectRefusal : bool }.

Inductive StepState : Type := pending | running | done | failed | skipped.
Inductive step_key : Type := approvals | attestation | mint.
Inductive JobStatus : Type := Running | Minted | Refused | Error.

#[global] Instance step_state_eq_dec : EqDecision StepState.
Proof. solve_decision. Defined.
#[global] Instance step_key_eq_dec : EqDecision step_key.
Proof. solve_decision. Defined.
#[global] Instance job_status_eq_dec : EqDecision JobStatus.
Proof. solve_decision. Defined.

Record Step : Type := {
  st_key : step_key; st_label : string; st_state : StepState;
  st_detail : option string; st_txHash : option string; st_link : option string }.

Record Job : Type := {
  job_id : string; job_request : SendRequest; job_source : PositionId; job_destinationChain : string;
  job_status : JobStatus; job_steps : list Step; job_refusal : option string;
  job_error : option string; job_resumable : bool; job_recipientBalance : option (string * string) }.

#[global] Instance eta_request : Eta SendRequest :=
  λ r, {| sr_asset := sr_asset r; sr_amount := sr_amount r; sr_recipient := sr_recipient r;
          sr_signers := sr_signers r; sr_source := sr_source r; sr_expectRefusal := sr_expectRefusal r |}.
#[global] Instance eta_step : Eta Step :=
  λ r, {| st_key := st_key r; st_label := st_label r; st_state := st_state r;
          st_detail := st_detail r; st_txHash := st_txHash r; st_link := st_link r |}.
#[global] Instance eta_job : Eta Job :=
  λ r, {| job_id := job_id r; job_request := job_request r; job_source := job_source r;
          job_destinationChain := job_destinationChain r; job_status := job_status r;
          job_steps := job_steps r; job_refusal := job_refusal r; job_error := job_error r;
          job_resumable := job_resumable r; job_recipientBalance := job_recipientBalance r |}.
