(* ===== verification/UtIntent.v ===== *)
(** * The ultimate treasury: burn intents and their wire format

    [server/solana.ts] (base58, the Solana burn intent and Circle's binary
    layout of it), the intent of [server/evm.ts], and what is read back from
    Gateway and from a mint's receipt ([gateway.ts], [mint-log.ts]). A Buffer
    is the list of its bytes. viem is an interface. *)

From S2P Require Import Prelude.
From S2P Require Import Js.
From S2P Require Import Decimal.
From S2P Require Import CreJson.
From S2P Require Import CreParse.
From S2P Require Import Encoding.
From S2P Require Import Abi.
From S2P Require Import UtConfig.

(** What the server's code throws: an [Error] with its message, and the hash
    a mint failure carries. *)
Inductive ut_error : Type :=
| UtError (message : string)
| UtMintReverted (txHash : string).

(** ** Hexadecimal text and Buffers *)

(** [Buffer.toString('hex')] *)
Fixpoint bytesHex (bs : list Z) : string :=
  match bs with
  | [] => ""
  | b :: bs => String (hexDigit (b / 16)) (String (hexDigit (b mod 16)) (bytesHex bs))
  end.

(** [Buffer.from(hex, 'hex')]: stops at the first pair that is not
    hexadecimal. *)
Fixpoint bytesFromHex (s : string) : list Z :=
  match s with
  | String a (String b r) =>
      if is_hex a && is_hex b then (hexDigitVal a * 16 + hexDigitVal b) :: bytesFromHex r else []
  | _ => []
  end.

(** [s.replace(/^0x/, '')] *)
Definition strip0x (s : string) : string := if startsWith "0x" s then str_drop 2 s else s.

(** [h] *)
Definition h (hex : string) : list Z := bytesFromHex (strip0x hex).

(** ** Base58 *)

Definition B58 : string := "123456789ABCDEFGHJKLMNPQRSTUVWXYZabcdefghijkmnopqrstuvwxyz".

Fixpoint indexOf_from (i : Z) (c : ascii) (s : string) : Z :=
  match s with
  | EmptyString => -1
  | String d s => if Ascii.eqb c d then i else indexOf_from (i + 1) c s
  end.
(** [s.indexOf(c)] *)
Definition indexOf (s : string) (c : ascii) : Z := indexOf_from 0 c s.

(** The loop of [base58ToBytes32]; [text] is the whole string, for the
    message. *)
Fixpoint base58Value (text : string) (n : Z) (s : string) : result ut_error Z :=
  match s with
  | EmptyString => mret n
  | String c s =>
      let i := indexOf B58 c in
      _ ← throw_if (i <? 0) (UtError ("bad base58: " +:+ text));
      base58Value text (n * 58 + i) s
  end.

(** [n.toString(16).padStart(64, '0')] has 64 digits exactly when [n] fits 32
    bytes; they are then the digits of its 32 bytes. *)
Definition base58ToBytes32 (s : string) : result ut_error (list Z) :=
  n ← base58Value s 0 s;
  _ ← throw_if (16 ^ 64 <=? n) (UtError ("not a 32-byte key: " +:+ s));
  mret (be_bytes 32 n).

(** The digits of [bytesToBase58]'s loop; 256 fuel suffice for 32 bytes. *)
Fixpoint base58Digits (fuel : nat) (n : Z) (out : string) : string :=
  match fuel with
  | O => out
  | S fuel =>
      if n <=? 0 then out
      else base58Digits fuel (n / 58)
             (match String.get (Z.to_nat (n mod 58)) B58 with Some c => String c out | None => out end)
  end.

Fixpoint leadingOnes (b : list Z) (out : string) : string :=
  match b with
  | 0 :: b => leadingOnes b (String "1" out)
  | _ => out
  end.

Definition bytesToBase58 (b : list Z) : string :=
  leadingOnes b (base58Digits (8 * length b) (be_value b) "").

Definition keyHex32 (b58 : string) : result ut_error string :=
  bs ← base58ToBytes32 b58; mret ("0x" +:+ bytesHex bs).
Definition evmHex32 (a : string) : string := "0x" +:+ padStart0 64 (strip0x (toLowerCase a)).

(** ** The Solana burn intent *)

Definition GATEWAY_MINTER : string := "0x0022222ABE238Cc2C7Bb1f21003F0a260052475B".
Definition ARC_USDC : string := "0x3600000000000000000000000000000000000000".
Definition MAX_FEE : Z := 2010000.
Definition GW_WALLET : string := "GATEwdfmYNELfp5wDmmR6noSr2vHnAfBPMm2PvCzX5vu".
Definition SOL_USDC : string := "4zMMC9srt5Ri5X14GAgXhaHii3GnPAEERYPJgZJDncDU".
Definition TRANSFER_SPEC_MAGIC : Z := 3397770999.
Definition BURN_INTENT_MAGIC : Z := 118160322.
Definition SOLANA_EXPIRY_SLOTS : Z := 3024000 + 10000.
Definition SIGNING_DOMAIN : list Z := 255 :: repeat 0 15.

Record TransferSpec : Type := {
  ts_version : Z; ts_sourceDomain : Z; ts_destinationDomain : Z;
  ts_sourceContract : string; ts_destinationContract : string;
  ts_sourceToken : string; ts_destinationToken : string;
  ts_sourceDepositor : string; ts_destinationRecipient : string;
  ts_sourceSigner : string; ts_destinationCaller : string;
  ts_value : Z; ts_salt : string; ts_hookData : string }.
Record BurnIntent : Type := { bi_maxBlockHeight : Z; bi_maxFee : Z; bi_spec : TransferSpec }.

Fixpoint repeatText (n : nat) (s : string) : string :=
  match n with O => "" | S n => s +:+ repeatText n s end.

(** [groupKeyHex] is what [readFrostGroupKeyHex] read, [salt] the hexadecimal
    text of the random salt. *)
Definition makeSolanaIntent (recipient : string) (value maxBlockHeight : Z) (groupKeyHex salt : string) :
    result ut_error BurnIntent :=
  sourceContract ← keyHex32 GW_WALLET;
  sourceToken ← keyHex32 SOL_USDC;
  sourceDepositor ← keyHex32 SOLANA_VAULT;
  mret {| bi_maxBlockHeight := maxBlockHeight;
          bi_maxFee := MAX_FEE;
          bi_spec := {| ts_version := 1;
                        ts_sourceDomain := DOMAIN_solana;
                        ts_destinationDomain := DOMAIN_arc;
                        ts_sourceContract := sourceContract;
                        ts_destinationContract := evmHex32 GATEWAY_MINTER;
                        ts_sourceToken := sourceToken;
                        ts_destinationToken := evmHex32 ARC_USDC;
                        ts_sourceDepositor := sourceDepositor;
                        ts_destinationRecipient := evmHex32 recipient;
                        ts_sourceSigner := "0x" +:+ strip0x groupKeyHex;
                        ts_destinationCaller := "0x" +:+ repeatText 32 "00";
                        ts_value := value;
                        ts_salt := "0x" +:+ salt;
                        ts_hookData := "0x" |} |}.

(** [u32be]: [writeUInt32BE] throws out of range. *)
Definition u32be (v : Z) : result ut_error (list Z) :=
  _ ← throw_if (negb ((0 <=? v) && (v <? 2 ^ 32))) (UtError "ERR_OUT_OF_RANGE");
  mret (be_bytes 4 v).

(** [encodeSolanaIntent]; its [u256be] masks its argument to 256 bits, which
    is [u256_bytes]. *)
Definition encodeSolanaIntent (bi : BurnIntent) : result ut_error (list Z) :=
  let s := bi_spec bi in
  let hook := h (ts_hookData s) in
  magic ← u32be TRANSFER_SPEC_MAGIC;
  version ← u32be (ts_version s);
  sourceDomain ← u32be (ts_sourceDomain s);
  destinationDomain ← u32be (ts_destinationDomain s);
  hookLength ← u32be (Z.of_nat (length hook));
  let spec := magic ++ version ++ sourceDomain ++ destinationDomain ++
    h (ts_sourceContract s) ++ h (ts_destinationContract s) ++ h (ts_sourceToken s) ++ h (ts_destinationToken s) ++
    h (ts_sourceDepositor s) ++ h (ts_destinationRecipient s) ++ h (ts_sourceSigner s) ++ h (ts_destinationCaller s) ++
    u256_bytes (ts_value s) ++ h (ts_salt s) ++ hookLength ++ hook in
  _ ← throw_if (negb (length spec =? 340 + length hook)%nat)
        (UtError ("transfer spec is " +:+ pretty (Z.of_nat (length spec)) +:+ " bytes, expected "
                  +:+ pretty (Z.of_nat (340 + length hook))));
  intentMagic ← u32be BURN_INTENT_MAGIC;
  specLength ← u32be (Z.of_nat (length spec));
  mret (intentMagic ++ u256_bytes (bi_maxBlockHeight bi) ++ u256_bytes (bi_maxFee bi) ++ specLength ++ spec).

(** The message [frostSign] hands to the coordinator. *)
Definition frostMessage (bi : BurnIntent) : result ut_error (list Z) :=
  bs ← encodeSolanaIntent bi; mret (SIGNING_DOMAIN ++ bs).

(** ** The EVM burn intent *)

Definition GATEWAY_WALLET : string := "0x0077777d7EBA4688BDeF3E311b846F25870A19B9".
Definition BASE_USDC : string := "0x036CbD53842c5426634e7929541eC2318f3dCF7e".
Definition EVM_EXPIRY_BLOCKS : Z := 1209599 + 2000.

(** viem's [pad], [parseUnits] and [hashTypedData] (of the burn intent). *)
Class UtViem : Type := {
  padHex : string → Z → string;
  parseUnits : string → Z → Z;
  hashBurnIntent : BurnIntent → string;
  encodeErc1271 : BurnIntent → list string → string }.

Section evm.
Context `{UtViem}.

Definition b32 (a : string) : string := toLowerCase (padHex a 32).

(** [buildEvmIntent]: [head] is the block number it read, [salt] the random
    salt. *)
Definition evmIntent (head : Z) (salt recipient : string) (value : Z) : BurnIntent :=
  {| bi_maxBlockHeight := head + EVM_EXPIRY_BLOCKS;
     bi_maxFee := MAX_FEE;
     bi_spec := {| ts_version := 1;
                   ts_sourceDomain := DOMAIN_arc;
                   ts_destinationDomain := DOMAIN_baseSepolia;
                   ts_sourceContract := b32 GATEWAY_WALLET;
                   ts_destinationContract := b32 GATEWAY_MINTER;
                   ts_sourceToken := b32 ARC_USDC;
                   ts_destinationToken := b32 BASE_USDC;
                   ts_sourceDepositor := b32 EVM_TREASURY;
                   ts_destinationRecipient := b32 recipient;
                   ts_sourceSigner := b32 EVM_TREASURY;
                   ts_destinationCaller := padHex "0x00" 32;
                   ts_value := value;
                   ts_salt := "0x" +:+ salt;
                   ts_hookData := "0x" |} |}.
End evm.

(** ** [gateway.ts] and [mint-log.ts] *)

Record TransferResponse : Type := { tr_ok : bool; tr_status : Z; tr_text : string }.

(** How [JSON.parse] renders a number that is no safe integer. *)
Class NumberText : Type := numberOf : string → jsnum.

(** [j.message ?? j.error ?? text], or the raw text when it is not JSON (or is
    JSON's null, which has no properties). *)
Definition gatewayMessage `{NumberText} (text : string) : string :=
  match JSON_parse numberOf text with
  | None | Some VNull => text
  | Some j =>
      match prop "message" j with
      | VUndefined | VNull => match prop "error" j with VUndefined | VNull => text | v => toText v end
      | v => toText v
      end
  end.

Definition TRANSFER_TOPIC : string := "0xddf252ad1be2c89b69c2b068fc378daa952ba7f163c4a11628f55a4df523b3ef".

Record ReceiptLog : Type := { lg_address : string; lg_topics : list string; lg_data : string }.

(** [BigInt(data)] of the hexadecimal text of a log; [None] is its
    SyntaxError. *)
Definition bigIntOfHex (data : string) : option Z :=
  match data with
  | String "0" (String "x" (String _ _ as t)) => if str_all is_hex t then Some (hexval_from 0 t) else None
  | _ => None
  end.

Definition isTransferTo (token to : string) (l : ReceiptLog) : bool :=
  bool_decide (toLowerCase (lg_address l) = toLowerCase token) &&
  bool_decide (toLowerCase <$> lg_topics l !! 0%nat = Some TRANSFER_TOPIC) &&
  bool_decide (toLowerCase <$> lg_topics l !! 2%nat = Some to).

Fixpoint mintedFrom (logs : list ReceiptLog) (token to : string) (total : Z) : result ut_error Z :=
  match logs with
  | [] => mret total
  | l :: logs =>
      if isTransferTo token to l then
        match (if bool_decide (lg_data l = "0x") then Some 0 else bigIntOfHex (lg_data l)) with
        | Some v => mintedFrom logs token to (total + v)
        | None => Throw (UtError "Cannot convert to a BigInt")
        end
      else mintedFrom logs token to total
  end.

Definition mintedAmountFromLogs (logs : list ReceiptLog) (token recipient : string) : result ut_error Z :=
  mintedFrom logs token ("0x" +:+ padStart0 64 (strip0x (toLowerCase recipient))) 0.
