(* ===== verification/Coordinator.v ===== *)
(** * The FROST coordinator

    [tools/frost-delegate/src/main.rs]: what [sign] checks before any share
    signs - the message is one burn intent, the policy file allows it, the
    listed owners hold a threshold of shares. Bytes are integers below 256, a
    32-byte word its bytes; the threshold signature itself is not modelled. *)

From S2P Require Import Prelude.
From S2P Require Import Js.
From S2P Require Import Decimal.
From S2P Require Import Encoding.
From S2P Require Import Abi.
From S2P Require Import UtConfig.
From S2P Require Import UtIntent.

(** A Rust [Result<_, String>]. *)
Notation checked := (result string).

Definition SOLANA_DOMAIN : Z := 5.

Record Owners : Type := { os_threshold : Z; os_shares : gmap string (list Z) }.

Record Destination : Type := {
  ds_domain : Z; ds_minter : string; ds_token : string; ds_recipients : list string; ds_callers : list string }.

Record Policy : Type := {
  cp_depositor : string; cp_source_domain : Z; cp_source_contract : string; cp_source_token : string;
  cp_per_intent_cap : string; cp_max_fee_cap : string; cp_max_expiry_slots : Z; cp_destinations : list Destination }.

Record Intent : Type := {
  it_max_block_height : list Z; it_max_fee : list Z; it_version : Z; it_source_domain : Z;
  it_destination_domain : Z; it_source_contract : list Z; it_destination_contract : list Z;
  it_source_token : list Z; it_destination_token : list Z; it_source_depositor : list Z;
  it_destination_recipient : list Z; it_source_signer : list Z; it_destination_caller : list Z;
  it_value : list Z }.

(** ** Words *)

Definition hex32 (w : list Z) : string := "0x" +:+ bytesHex w.

(** [s.trim_start_matches("0x")] drops the prefix as often as it occurs. *)
Fixpoint trim0x (s : string) : string :=
  match s with
  | String "0" (String "x" r) => trim0x r
  | _ => s
  end.

(** [hex::decode] *)
Definition hexDecode (s : string) : option (list Z) :=
  if str_all is_hex s && (strlen s mod 2 =? 0) then Some (bytesFromHex s) else None.

Definition parse_hex32 (s : string) : checked (list Z) :=
  match hexDecode (trim0x s) with
  | None => Throw ("bad hex " +:+ s)
  | Some b => if (length b =? 32)%nat then mret b else Throw ("not 32 bytes: " +:+ s)
  end.

Definition allZero (w : list Z) : bool := forallb (λ b : Z, b =? 0) w.

Definition word_u128 (w : list Z) : option Z :=
  if allZero (take 16 w) then Some (be_value (drop 16 w)) else None.

Definition is_canonical_evm (w : list Z) : bool := allZero (take 12 w) && negb (allZero w).

Definition matches_domain_shape (domain : Z) (w : list Z) : bool :=
  if domain =? SOLANA_DOMAIN then negb (allZero (take 12 w)) else is_canonical_evm w.

(** ** [parse_message] *)

Definition slice (o n : nat) (msg : list Z) : list Z := take n (drop o msg).
Definition u32_at (msg : list Z) (o : nat) : Z := be_value (slice o 4 msg).
Definition w_at (msg : list Z) (o : nat) : list Z := slice o 32 msg.

Definition SPEC_LEN : nat := 340.
Definition TOTAL : nat := 16 + 4 + 32 + 32 + 4 + SPEC_LEN.

Definition parse_message (msg : list Z) : checked Intent :=
  _ ← throw_if (negb (length msg =? TOTAL)%nat)
        ("message is " +:+ pretty (Z.of_nat (length msg)) +:+ " bytes; one hook-free burn intent is "
         +:+ pretty (Z.of_nat TOTAL));
  _ ← throw_if (negb (bool_decide (slice 0 16 msg = SIGNING_DOMAIN)))
        "missing the burn-intent signing-domain prefix";
  let o := 16%nat in
  _ ← throw_if (negb (u32_at msg o =? BURN_INTENT_MAGIC)) "not a burn intent (magic)";
  let o := (o + 4)%nat in
  let max_block_height := w_at msg o in
  let o := (o + 32)%nat in
  let max_fee := w_at msg o in
  let o := (o + 32)%nat in
  _ ← throw_if (negb (u32_at msg o =? Z.of_nat SPEC_LEN)) "transfer spec length";
  let o := (o + 4)%nat in
  _ ← throw_if (negb (u32_at msg o =? TRANSFER_SPEC_MAGIC)) "not a transfer spec (magic)";
  let version := u32_at msg (o + 4) in
  let source_domain := u32_at msg (o + 8) in
  let destination_domain := u32_at msg (o + 12) in
  let o := (o + 16)%nat in
  let words i := w_at msg (o + 32 * i) in
  let o := (o + 320)%nat in
  _ ← throw_if (negb (u32_at msg o =? 0)) "hook data must be empty";
  mret {| it_max_block_height := max_block_height; it_max_fee := max_fee; it_version := version;
          it_source_domain := source_domain; it_destination_domain := destination_domain;
          it_source_contract := words 0%nat; it_destination_contract := words 1%nat;
          it_source_token := words 2%nat; it_destination_token := words 3%nat;
          it_source_depositor := words 4%nat; it_destination_recipient := words 5%nat;
          it_source_signer := words 6%nat; it_destination_caller := words 7%nat;
          it_value := words 8%nat |}.

(** ** [check_policy] *)

(** [s.parse::<u128>()] *)
Definition parse_u128 (s : string) : option Z :=
  let d := match s with String "+" r => r | _ => s end in
  match d with
  | EmptyString => None
  | _ => if str_all is_digit d && (dec_value d <? 2 ^ 128) then Some (dec_value d) else None
  end.

Definition ok_or {A} (o : option A) (e : string) : checked A :=
  match o with Some a => mret a | None => Throw e end.

(** The closure [eq] *)
Definition eq_word (got : list Z) (want what : string) : checked () :=
  w ← parse_hex32 want;
  throw_if (negb (bool_decide (got = w))) (what +:+ " " +:+ hex32 got +:+ " is not " +:+ want).

(** The closure [in_set] *)
Fixpoint in_set (w : list Z) (set : list string) : checked bool :=
  match set with
  | [] => mret false
  | s :: set => v ← parse_hex32 s; if bool_decide (v = w) then mret true else in_set w set
  end.

(** [shape || set] with the set only read when the shape matches. *)
Definition listed (domain : Z) (w : list Z) (set : list string) : checked bool :=
  if matches_domain_shape domain w then in_set w set else mret false.

Definition check_policy (i : Intent) (p : Policy) (group_key : list Z) (current_slot : Z) : checked () :=
  _ ← throw_if (negb (it_version i =? 1)) "transfer spec version";
  _ ← throw_if (negb (it_source_domain i =? cp_source_domain p))
        ("source domain " +:+ pretty (it_source_domain i) +:+ " is not " +:+ pretty (cp_source_domain p));
  _ ← eq_word (it_source_contract i) (cp_source_contract p) "source contract";
  _ ← eq_word (it_source_token i) (cp_source_token p) "source token";
  _ ← eq_word (it_source_depositor i) (cp_depositor p) "depositor";
  _ ← throw_if (negb (bool_decide (it_source_signer i = group_key))) "source signer is not this delegate key";
  cap ← ok_or (parse_u128 (cp_per_intent_cap p)) "policy perIntentCap";
  fee_cap ← ok_or (parse_u128 (cp_max_fee_cap p)) "policy maxFeeCap";
  value ← ok_or (word_u128 (it_value i)) "value too large";
  _ ← throw_if ((value =? 0) || (cap <? value))
        ("value " +:+ pretty value +:+ " outside (0, " +:+ pretty cap +:+ "]");
  fee ← ok_or (word_u128 (it_max_fee i)) "maxFee too large";
  _ ← throw_if (fee_cap <? fee) ("maxFee " +:+ pretty fee +:+ " above " +:+ pretty fee_cap);
  mbh ← ok_or (word_u128 (it_max_block_height i)) "maxBlockHeight too large";
  _ ← throw_if ((mbh <=? current_slot) || (cp_max_expiry_slots p <? mbh - current_slot))
        ("maxBlockHeight " +:+ pretty mbh +:+ " not within " +:+ pretty (cp_max_expiry_slots p)
         +:+ " slots above " +:+ pretty current_slot);
  d ← ok_or (List.find (λ d, ds_domain d =? it_destination_domain i) (cp_destinations p))
        ("destination domain " +:+ pretty (it_destination_domain i) +:+ " not allowed");
  _ ← eq_word (it_destination_contract i) (ds_minter d) "destination contract";
  _ ← eq_word (it_destination_token i) (ds_token d) "destination token";
  recipient ← listed (ds_domain d) (it_destination_recipient i) (ds_recipients d);
  _ ← throw_if (negb recipient)
        ("recipient " +:+ hex32 (it_destination_recipient i) +:+ " not allowed on domain " +:+ pretty (ds_domain d));
  if bool_decide (it_destination_caller i = repeat 0 32) then mret tt else
  caller ← listed (ds_domain d) (it_destination_caller i) (ds_callers d);
  throw_if (negb caller) ("destination caller " +:+ hex32 (it_destination_caller i) +:+ " not allowed").

(** ** [resolve_shares] and [sign] *)

(** [signers.split(',')] *)
Fixpoint splitComma (s : string) : list string :=
  match s with
  | EmptyString => [""]
  | String c s =>
      if Ascii.eqb c "," then "" :: splitComma s
      else match splitComma s with
           | [] => [String c ""]
           | x :: l => String c x :: l
           end
  end.

Fixpoint resolve_loop (owners : Owners) (labels : list string) (seen : gset string) (ids : gset Z) :
    checked (gset Z) :=
  match labels with
  | [] => mret ids
  | label :: labels =>
      _ ← throw_if (bool_decide (label ∈ seen)) ("duplicate signer " +:+ label);
      shares ← ok_or (os_shares owners !! label) ("unknown owner " +:+ label);
      resolve_loop owners labels ({[label]} ∪ seen) (ids ∪ list_to_set shares)
  end.
Definition resolve_shares (owners : Owners) (signers : string) : checked (gset Z) :=
  resolve_loop owners (splitComma signers) ∅ ∅.

(** How [sign] ends: the shares that signed, or the exit code and the reason
    printed on stderr. *)
Inductive sign_outcome : Type :=
| Signed (shares : gset Z)
| Exit (code : Z) (reason : string).

(** [policy] is [None] when there is no policy file. *)
Definition sign (owners : Owners) (policy : option Policy) (group_key : list Z) (signers : string)
    (message : list Z) (current_slot : Z) : sign_outcome :=
  match policy with
  | None => Exit 3 "no policy.json: refusing to sign"
  | Some p =>
      match (i ← parse_message message; check_policy i p group_key current_slot) with
      | Throw e => Exit 3 e
      | Ok _ =>
          match resolve_shares owners signers with
          | Throw e => Exit 64 e
          | Ok ids => if Z.of_nat (size ids) <? os_threshold owners then Exit 2 "below threshold" else Signed ids
          end
      end
  end.
