(* ===== verification/UtValidate.v ===== *)
(** * The ultimate treasury: which requests may be sent

    [validateSend] and [frostDrift] of [apps/ultimate-treasury/server/send.ts].
    Amounts are compared as JavaScript numbers, the value to send is an exact
    integer of micro-USDC. *)

From Stdlib Require Import QArith Qabs Qpower Lqa.
From S2P Require Import Prelude.
From S2P Require Import Js.
From S2P Require Import Decimal.
From S2P Require Import CreJson.
From S2P Require Import CreParse.
From S2P Require Import Encoding.
From S2P Require Import Abi.
From S2P Require Import AbiSample.
From S2P Require Import Float64.
From S2P Require Import JsMap.
From S2P Require Import UtConfig.
From S2P Require Import UtIntent.

(** ** Errors of a request *)

(** What the caller got wrong, one constructor per [throw new RequestError]. *)
Inductive request_error : Type :=
| NotOnGateway (asset : string)
| AmountFormat
| AmountNotPositive
| RecipientFormat
| NoSigners
| NotAnOwner (unknown : list string)
| AboveSandboxCap
| AboveIntentCap (cap : num)
| RefusalWouldSpend
| NoPositionCovers (amount : string) (balances : Balances)
| PositionTooSmall (label : string) (held needed : num)
| BadSource
| FrostDisagrees (drift : string)
| PendingMintExists (job : string)
| AlreadyRunning (job : string)
| NothingToResume.

Definition requestStatus (e : request_error) : Z :=
  match e with
  | FrostDisagrees _ | PendingMintExists _ | AlreadyRunning _ => 409
  | NothingToResume => 404
  | _ => 400
  end.

(** ** [frostDrift] *)

(** The share map the key generation wrote: owner label to share ids. *)
Record FrostOwners : Type := { fr_threshold : Z; fr_shares : list (string * list Z) }.

Definition shareCount (frost : FrostOwners) (id : string) : Z :=
  match map_get id (fr_shares frost) with Some l => Z.of_nat (length l) | None => 0 end.

Definition findOwner (pol : TreasuryPolicy) (id : string) : option Owner :=
  List.find (λ o, bool_decide (ow_id o = id)) (tp_owners pol).

(** The first owner whose shares are not its weight. *)
Fixpoint ownerDrift (frost : FrostOwners) (owners : list Owner) : option string :=
  match owners with
  | [] => None
  | o :: owners =>
      let n := shareCount frost (ow_id o) in
      if negb (n =? ow_weight o) then
        Some ("owner " +:+ ow_id o +:+ ": " +:+ pretty n +:+ " shares vs on-chain weight " +:+ pretty (ow_weight o))
      else ownerDrift frost owners
  end.

Definition frostDrift (pol : TreasuryPolicy) (frost : option FrostOwners) : option string :=
  match frost with
  | None => Some "no owners.json"
  | Some frost =>
      if negb (fr_threshold frost =? tp_thresholdWeight pol) then
        Some ("share threshold " +:+ pretty (fr_threshold frost) +:+ " vs on-chain threshold "
              +:+ pretty (tp_thresholdWeight pol))
      else
        match ownerDrift frost (tp_owners pol) with
        | Some d => Some d
        | None =>
            match List.filter (λ id, negb (bool_decide (is_Some (findOwner pol id)))) (fr_shares frost).*1 with
            | [] => None
            | extra => Some ("share holders not on-chain owners: " +:+ joinWith ", " extra)
            end
        end
  end.

(** ** [validateSend] *)

Definition SANDBOX_CAP_USDC : num := num_of_Z 1.

(** [/^\d+(\.\d{1,6})?$/] *)
Definition amountText (s : string) : bool :=
  let '(i, r) := spanChars is_digit s in
  negb (bool_decide (i = "")) &&
  match r with
  | EmptyString => true
  | String c f => Ascii.eqb c "." && str_all is_digit f && (1 <=? strlen f) && (strlen f <=? 6)
  end.

Record ValidateInput : Type := {
  vi_req : SendRequest; vi_pol : TreasuryPolicy; vi_allowlisted : bool;
  vi_balances : Balances; vi_frostOwners : option FrostOwners }.

Record Validated : Type := {
  va_source : PositionId; va_value : Z; va_signers : list string; va_weight : Z; va_amount : num }.

Section validate.
Context `{Viem} `{UtViem}.

Definition signersWeight (pol : TreasuryPolicy) (signers : list string) : Z :=
  foldl (λ sum id, sum + match findOwner pol id with Some o => ow_weight o | None => 0 end) 0 signers.

(** The choice of the source, with its errors. *)
Definition chooseSource (req : SendRequest) (pol : TreasuryPolicy) (balances : Balances) (amountString : string)
    (amount : num) : result request_error PositionId :=
  let explicit source :=
    let need := num_add amount (po_feeEstimate (POSITIONS source)) in
    _ ← throw_if (num_ltb (balanceOf balances source) need)
          (PositionTooSmall (po_label (POSITIONS source)) (balanceOf balances source) need);
    mret source in
  match truthy (sr_source req) with
  | None =>
      match pickSource balances amount (tp_perIntentCap pol) with
      | Some s => mret s
      | None => Throw (NoPositionCovers amountString balances)
      end
  | Some s =>
      if bool_decide (s = "auto") then
        match pickSource balances amount (tp_perIntentCap pol) with
        | Some s => mret s
        | None => Throw (NoPositionCovers amountString balances)
        end
      else if bool_decide (s = "evm") then explicit evm
      else if bool_decide (s = "solana") then explicit solana
      else Throw BadSource
  end.

Definition validateSend (i : ValidateInput) : result request_error Validated :=
  let req := vi_req i in let pol := vi_pol i in
  _ ← throw_if (negb (bool_decide (sr_asset req = Some "USDC"))) (NotOnGateway (default "undefined" (sr_asset req)));
  let amountString := default "" (sr_amount req) in
  _ ← throw_if (negb (amountText amountString)) AmountFormat;
  let value := parseUnits amountString 6 in
  _ ← throw_if (value <=? 0) AmountNotPositive;
  _ ← throw_if (negb (isAddress (default "" (sr_recipient req)))) RecipientFormat;
  let signers := js_set (default [] (sr_signers req)) in
  _ ← throw_if (length signers =? 0)%nat NoSigners;
  let unknown := List.filter (λ s, negb (bool_decide (is_Some (findOwner pol s)))) signers in
  _ ← throw_if (negb (length unknown =? 0)%nat) (NotAnOwner unknown);
  let weight := signersWeight pol signers in
  let amount := toNumber amountString in
  _ ← throw_if (num_ltb SANDBOX_CAP_USDC amount) AboveSandboxCap;
  _ ← throw_if (num_ltb (tp_perIntentCap pol) amount) (AboveIntentCap (tp_perIntentCap pol));
  _ ← throw_if (sr_expectRefusal req && vi_allowlisted i && (tp_thresholdWeight pol <=? weight)) RefusalWouldSpend;
  source ← chooseSource req pol (vi_balances i) amountString amount;
  _ ← (match source with
       | solana => match frostDrift pol (vi_frostOwners i) with
                   | Some drift => Throw (FrostDisagrees drift)
                   | None => mret tt
                   end
       | evm => mret tt
       end);
  mret {| va_source := source; va_value := value; va_signers := signers; va_weight := weight; va_amount := amount |}.
End validate.

(** ** Amounts *)

(** The micro-USDC an amount text denotes. *)
Definition amountUnits (s : string) : Z :=
  let '(i, r) := spanChars is_digit s in
  let f := match r with String _ f => f | EmptyString => "" end in
  dec_value (i +:+ f) * 10 ^ (6 - strlen f).

(** The documented behaviour of viem's [parseUnits] and [pad] on what the
    code gives them. *)
Class UtViemLaws `{UtViem} : Prop := {
  parseUnits_amount s : amountText s = true → parseUnits s 6 = amountUnits s;
  padHex_digits t n : strlen t ≤ 2 * n → padHex ("0x" +:+ t) n = "0x" +:+ padStart0 (2 * n) t }.

Lemma spanChars_spec P s i r :
  spanChars P s = (i, r) → s = i +:+ r ∧ str_all P i = true ∧
  match r with String c _ => P c = false | EmptyString => True end.
Proof.
  revert i r. induction s as [|c s IH]; intros i r; cbn [spanChars]; [by intros [= <- <-]|].
  destruct (P c) eqn:Hc.
  - destruct (spanChars P s) as [a b]. intros [= <- <-]. destruct (IH a b eq_refl) as (-> & H1 & H2).
    split; [done|]. split; [|done]. simpl. by rewrite Hc, H1.
  - intros [= <- <-]. done.
Qed.

(** The parts of an amount text. *)
Lemma amountText_parts s :
  amountText s = true →
  ∃ i f, i ≠ "" ∧ str_all is_digit i = true ∧ str_all is_digit f = true ∧ strlen f ≤ 6 ∧
    amountUnits s = dec_value (i +:+ f) * 10 ^ (6 - strlen f) ∧
    (s = i ∧ f = "" ∨ s = i +:+ String "." f).
Proof.
  unfold amountText, amountUnits. destruct (spanChars is_digit s) as [i r] eqn:E.
  apply spanChars_spec in E as (-> & Hi & _). intros [Hne H]%andb_true_iff.
  apply negb_true_iff, bool_decide_eq_false in Hne. destruct r as [|c f].
  - exists i, "". rewrite string_app_nil_r. split_and!; try done. by left.
  - rewrite !andb_true_iff in H. destruct H as [[[Hc Hf] Hl1] Hl2]. apply Ascii.eqb_eq in Hc as ->.
    exists i, f. zify_bool. split_and!; try done. by right.
Qed.

Lemma digit_not_space c : is_digit c = true → isSpace c = false.
Proof. by destruct c as [[] [] [] [] [] [] [] []]. Qed.

Lemma trim_id s : str_all (λ c, negb (isSpace c)) s = true → trim s = s.
Proof.
  intros Hs. unfold trim. assert (trimStart s = s) as ->.
  { destruct s as [|c s]; [done|]. cbn [str_all] in Hs. apply andb_true_iff in Hs as [Hc _].
    cbn [trimStart]. by apply negb_true_iff in Hc as ->. }
  induction s as [|c s IH]; [done|]. cbn [str_all] in Hs. apply andb_true_iff in Hs as [Hc Hs].
  cbn [trimEnd]. rewrite IH by done. destruct s; [|done]. by apply negb_true_iff in Hc as ->.
Qed.

Lemma decimalLiteral_amount s :
  amountText s = true → ∃ x, decimalLiteral s = Some x ∧ (x == amountUnits s # 1000000)%Q.
Proof.
  intros (i & f & Hne & Hi & Hf & Hl & -> & Hs)%amountText_parts.
  assert (E : ∃ r, spanChars is_digit s = (i, r) ∧
    (match r with String "." r => spanChars is_digit r | _ => (EmptyString, r) end) = (f, "")).
  { destruct Hs as [[-> ->] | ->].
    - exists "". split; [|done]. rewrite <- (string_app_nil_r i) at 1. by apply spanChars_all.
    - exists (String "." f). split; [by apply spanChars_all|]. 
      change (spanChars is_digit f = (f, "")). rewrite <- (string_app_nil_r f) at 1. by apply spanChars_all. }
  destruct E as (r & E1 & E2). unfold decimalLiteral. rewrite E1, E2.
  pose proof (strlen_nonneg f).
  destruct i as [|c i]; [done|]. eexists. split; [reflexivity|]. cbv zeta. rewrite Z.sub_0_l.
  set (v := dec_value _). clearbody v.
  assert (Hp : (0 < 10 ^ strlen f)%Z) by (apply Z.pow_pos_nonneg; lia).
  rewrite Qpower_opp, <- (Zpower_Qpower 10 (strlen f)) by lia.
  unfold Qeq, Qmult, Qinv, inject_Z. cbn [Qnum Qden].
  destruct (10 ^ strlen f)%Z as [|pz|pz] eqn:Ep; [lia| |lia]. cbn [Qnum Qden].
  assert (Hten : 10 ^ (6 - strlen f) * Z.pos pz = 1000000).
  { rewrite <- Ep, <- Z.pow_add_r by lia. by replace (6 - strlen f + strlen f) with 6 by lia. }
  rewrite <- Hten. lia.
Qed.

Lemma toNumber_amount s :
  amountText s = true → ∃ x, toNumber s = rnd x ∧ (x == amountUnits s # 1000000)%Q.
Proof.
  intros Hs. destruct (decimalLiteral_amount s Hs) as (x & Hx & Ex). exists x. split; [|done].
  apply amountText_parts in Hs as (i & f & Hne & Hi & Hf & _ & _ & Hs).
  assert (Hns : str_all (λ c, negb (isSpace c)) s = true).
  { assert (Hd : ∀ t, str_all is_digit t = true → str_all (λ c, negb (isSpace c)) t = true).
    { induction t as [|c t IH]; [done|]. cbn [str_all]. intros [Hc Ht]%andb_true_iff.
      by rewrite (digit_not_space c Hc), IH. }
    destruct Hs as [[-> _] | ->]; [auto|]. rewrite str_all_app. cbn [str_all]. rewrite !Hd by done. done. }
  unfold toNumber. rewrite trim_id by done.
  assert (Hsig : signedNumber s = rnd x ∧ ∀ b r, s = String "0" (String b r) → is_digit b = true ∨ b = "."%char).
  { destruct i as [|c i]; [done|]. cbn [str_all] in Hi. apply andb_true_iff in Hi as [Hc Hi].
    assert (Hs' : ∃ t, s = String c t) by (destruct Hs as [[-> _] | ->]; eexists; [reflexivity|apply string_app_cons]).
    split.
    - destruct Hs' as [t ->]. unfold signedNumber. rewrite Hx.
      rewrite bool_decide_false by (by intros [= -> ->]).
      revert Hc. clear. by destruct c as [[] [] [] [] [] [] [] []].
    - intros b r E. destruct Hs as [[E' _] | E']; rewrite E in E'.
      + injection E' as <- <-. cbn [str_all] in Hi. left. by apply andb_true_iff in Hi as [? _].
      + rewrite string_app_cons in E'. injection E' as <- E'. destruct i as [|d i].
        * injection E' as -> _. by right.
        * rewrite string_app_cons in E'. injection E' as -> _. cbn [str_all] in Hi. left.
          by apply andb_true_iff in Hi as [? _]. }
  destruct Hsig as [Hsig Hb]. destruct s as [|c t]; [by destruct i; destruct Hs as [[? _] | ?]|].
  destruct t as [|b r]; [rewrite <- Hsig; by destruct c as [[] [] [] [] [] [] [] []]|].
  destruct (ascii_dec c "0") as [->|Hc].
  - specialize (Hb b r eq_refl). rewrite <- Hsig. revert Hb. clear. intros [Hb| ->]; [|done].
    revert Hb. by destruct b as [[] [] [] [] [] [] [] []].
  - rewrite <- Hsig. revert Hc. clear. destruct c as [[] [] [] [] [] [] [] []]; intros Hc; (done || by destruct Hc).
Qed.

(** ** What an accepted request guarantees *)

Definition feeUnits (source : PositionId) : Z := match source with evm => 10000 | solana => 200000 end.

Lemma sandbox_cap : SANDBOX_CAP_USDC = Fin 1.
Proof. reflexivity. Qed.

Lemma fee_near source :
  near (po_feeEstimate (POSITIONS source)) (feeUnits source # 1000000) (1 # 1000000000).
Proof. destruct source; eexists; (split; [vm_compute; reflexivity|]); by vm_compute. Qed.

Lemma amount_within_cap s :
  amountText s = true → num_ltb SANDBOX_CAP_USDC (toNumber s) = false → amountUnits s ≤ 1000000.
Proof.
  intros Hs. destruct (toNumber_amount s Hs) as (x & -> & Hx). rewrite sandbox_cap. intros H.
  destruct (Z.le_gt_cases (amountUnits s) 1000000) as [|Hu]; [done|].
  rewrite rnd_above_one in H; [done|]. rewrite Hx. unfold Qle. cbn. lia.
Qed.

Lemma amount_near s :
  amountText s = true → 0 < amountUnits s ≤ 1000000 →
  near (toNumber s) (amountUnits s # 1000000) (1 # 1000000000).
Proof.
  intros Hs Hu. destruct (toNumber_amount s Hs) as (x & -> & Hx).
  eapply near_weaken; [apply (rnd_millionths x _ 1); [lia|done| |by vm_compute]|by vm_compute].
  unfold Qle. cbn. lia.
Qed.

Lemma amount_within_intent_cap s C :
  amountText s = true → 0 < amountUnits s ≤ 1000000 → 0 ≤ C →
  num_ltb (num_div_const (num_of_Z C) 1000000) (toNumber s) = false → amountUnits s ≤ C.
Proof.
  intros Hs Hu HC H. destruct (Z.le_gt_cases 1000000 C) as [|HC1]; [lia|].
  pose proof (amount_near s Hs Hu) as Hn.
  assert (Hcap : near (num_div_const (num_of_Z C) 1000000) (C # 1000000) (1 # 1000000000)).
  { destruct (decide (C = 0)) as [->|]; [|apply cap_near; lia]. exists 0%Q. by vm_compute. }
  pose proof (near_ltb _ _ _ _ _ _ Hcap Hn H) as Hle.
  assert (Hz : ((amountUnits s # 1000000) - (1 # 1000000) < (C # 1000000))%Q) by lra.
  unfold Qlt, Qminus, Qplus, Qopp in Hz. cbn in Hz. lia.
Qed.

(** What a position must hold, in millionths. *)
Lemma need_near s source :
  amountText s = true → 0 < amountUnits s ≤ 1000000 →
  near (num_add (toNumber s) (po_feeEstimate (POSITIONS source)))
    (amountUnits s + feeUnits source # 1000000) (3 # 10000000).
Proof.
  intros Hs Hu. pose proof (amount_near s Hs Hu) as Ha. pose proof (fee_near source) as Hf.
  assert (H1 : ((1 # 1000000) <= (amountUnits s # 1000000))%Q) by (unfold Qle; cbn; lia).
  assert (H2 : ((amountUnits s # 1000000) <= 1)%Q) by (unfold Qle; cbn; lia).
  assert (H3 : ((1 # 100) <= (feeUnits source # 1000000))%Q) by (by destruct source).
  assert (H4 : ((feeUnits source # 1000000) <= 1)%Q) by (by destruct source).
  assert (E : ((amountUnits s + feeUnits source # 1000000) == (amountUnits s # 1000000) + (feeUnits source # 1000000))%Q)
    by (unfold Qeq, Qplus; cbn; lia).
  destruct (near_add _ _ _ _ _ _ Ha Hf) as (y & Hy & Hd); [lra|lra|lra|].
  exists y. split; [done|]. rewrite E. eapply Qle_trans; [exact Hd|by vm_compute].
Qed.

Lemma position_covers s source text :
  amountText s = true → 0 < amountUnits s ≤ 1000000 →
  amountText text = true → amountUnits text ≤ 10 ^ 15 →
  num_ltb (toNumber text) (num_add (toNumber s) (po_feeEstimate (POSITIONS source))) = false ∨
  num_leb (num_add (toNumber s) (po_feeEstimate (POSITIONS source))) (toNumber text) = true →
  amountUnits s + feeUnits source ≤ amountUnits text.
Proof.
  intros Hs Hu Ht Hb Hcmp. pose proof (need_near s source Hs Hu) as Hn.
  destruct (toNumber_amount text Ht) as (x & Ex & Hx). rewrite Ex in Hcmp.
  destruct (Z.le_gt_cases (amountUnits text) 0) as [Hle|Hgt].
  - exfalso. assert (Hu0 : amountUnits text = 0).
    { apply amountText_parts in Ht as (i & f & _ & Hi & Hf & Hl & E & _). rewrite E in *.
      pose proof (dec_value_bound (i +:+ f)) as Hd. rewrite str_all_app, Hi, Hf in Hd. specialize (Hd eq_refl).
      assert (0 < 10 ^ (6 - strlen f)) by (apply Z.pow_pos_nonneg; lia). nia. }
    assert (Hz : near (rnd x) 0 0).
    { unfold near, rnd. rewrite (proj2 (Qeq_bool_iff x 0)); [by exists 0%Q|]. rewrite Hx, Hu0. done. }
    assert (H1 : ((10001 # 1000000) <= (amountUnits s + feeUnits source # 1000000))%Q)
      by (unfold Qle, feeUnits; cbn; destruct source; lia).
    destruct Hcmp as [Hc|Hc]; [apply (near_ltb _ _ _ _ _ _ Hz Hn) in Hc|apply (near_leb _ _ _ _ _ _ Hn Hz) in Hc]; lra.
  - assert (Hb' : near (rnd x) (amountUnits text # 1000000) (eps * 1000000000)).
    { apply rnd_millionths; [lia|done| |by vm_compute]. unfold Qle. cbn. lia. }
    assert (Heps : (eps * 1000000000 <= (2 # 10000000))%Q) by (by vm_compute).
    assert (Hz : ((amountUnits s + feeUnits source # 1000000) - (1 # 1000000) < (amountUnits text # 1000000))%Q).
    { destruct Hcmp as [Hc|Hc]; [apply (near_ltb _ _ _ _ _ _ Hb' Hn) in Hc|apply (near_leb _ _ _ _ _ _ Hn Hb') in Hc]; lra. }
    unfold Qlt, Qminus, Qplus, Qopp in Hz. cbn in Hz. lia.
Qed.

(** The comparison the choice of a source made. *)
Lemma chooseSource_covers `{Viem} `{UtViem} req pol balances amountString amount source :
  chooseSource req pol balances amountString amount = Ok source →
  num_ltb (balanceOf balances source) (num_add amount (po_feeEstimate (POSITIONS source))) = false ∨
  num_leb (num_add amount (po_feeEstimate (POSITIONS source))) (balanceOf balances source) = true.
Proof.
  assert (Hpick : pickSource balances amount (tp_perIntentCap pol) = Some source →
    num_leb (num_add amount (po_feeEstimate (POSITIONS source))) (balanceOf balances source) = true).
  { unfold pickSource. set (l := js_sort _ _). intros Hh.
    assert (Hin : source ∈ l) by (destruct l; [done|]; injection Hh as ->; left).
    apply js_sort_elem in Hin.
    apply list_elem_of_In, filter_In in Hin as [_ Hc]. unfold canCover in Hc. by destruct (_ && _). }
  assert (Hauto : (match pickSource balances amount (tp_perIntentCap pol) with
    | Some s => mret s | None => Throw (NoPositionCovers amountString balances) end) = Ok source →
    num_leb (num_add amount (po_feeEstimate (POSITIONS source))) (balanceOf balances source) = true).
  { destruct (pickSource _ _ _) as [s|]; [|done]. intros [= ->]. auto. }
  unfold chooseSource. destruct (truthy (sr_source req)) as [s|]; [|auto].
  destruct (bool_decide (s = "auto")); [auto|].
  destruct (bool_decide (s = "evm")); [rewrite throw_if_bind_ok; intros [? [= <-]]; by left|].
  destruct (bool_decide (s = "solana")); [rewrite throw_if_bind_ok; intros [? [= <-]]; by left|]. done.
Qed.

(** ** The FROST share map *)

Lemma frostDrift_none pol frost :
  frostDrift pol frost = None →
  ∃ fr, frost = Some fr ∧ fr_threshold fr = tp_thresholdWeight pol ∧
    (∀ o, o ∈ tp_owners pol → shareCount fr (ow_id o) = ow_weight o) ∧
    (∀ id, id ∈ (fr_shares fr).*1 → is_Some (findOwner pol id)).
Proof.
  destruct frost as [fr|]; [|done]. cbn [frostDrift]. intros Hd. exists fr. split; [done|].
  destruct (Z.eqb_spec (fr_threshold fr) (tp_thresholdWeight pol)) as [Ht|]; [|done]. cbn [negb] in Hd.
  destruct (ownerDrift fr (tp_owners pol)) eqn:Ho; [done|]. split; [done|]. split.
  - clear Hd. induction (tp_owners pol) as [|o owners IH]; [set_solver|]. cbn [ownerDrift] in Ho.
    destruct (Z.eqb_spec (shareCount fr (ow_id o)) (ow_weight o)); [|done]. cbn [negb] in Ho.
    intros o' [->|]%elem_of_cons; auto.
  - destruct (List.filter _ _) eqn:Hf; [|done]. intros id Hid.
    destruct (decide (is_Some (findOwner pol id))) as [|Hn]; [done|].
    assert (Hin : In id (List.filter (λ id, negb (bool_decide (is_Some (findOwner pol id)))) (fr_shares fr).*1)).
    { apply filter_In. split; [by apply list_elem_of_In|]. by rewrite bool_decide_false. }
    rewrite Hf in Hin. done.
Qed.

Lemma findOwner_some pol id o : findOwner pol id = Some o → o ∈ tp_owners pol ∧ ow_id o = id.
Proof.
  intros [Hin Hid]%List.find_some. apply bool_decide_eq_true in Hid. split; [by apply list_elem_of_In|done].
Qed.

Lemma signersWeight_sum pol signers :
  signersWeight pol signers
  = sumZ ((λ id, match findOwner pol id with Some o => ow_weight o | None => 0 end) <$> signers).
Proof.
  unfold signersWeight. set (g := λ id, match findOwner pol id with Some o => ow_weight o | None => 0 end).
  enough (∀ acc, foldl (λ sum id, sum + g id) acc signers = acc + sumZ (g <$> signers)) as -> by lia.
  induction signers as [|id signers IH]; intros acc; cbn [foldl]; [cbn; lia|].
  rewrite IH, sumZ_fmap_cons. lia.
Qed.

(** ** Property *)

(** What [validateSend] promises about the request it lets through. *)
Record validated `{Viem} (i : ValidateInput) (v : Validated) : Prop := {
  vd_asset : sr_asset (vi_req i) = Some "USDC";
  vd_recipient : isAddress (default "" (sr_recipient (vi_req i))) = true;
  (** the exact value, within one USDC and the on-chain cap *)
  vd_value : va_value v = amountUnits (default "" (sr_amount (vi_req i))) ∧ 0 < va_value v ≤ 1000000;
  vd_cap C : tp_perIntentCap (vi_pol i) = num_div_const (num_of_Z C) 1000000 → 0 ≤ C → va_value v ≤ C;
  (** the chosen position holds the value and its fee *)
  vd_covered text : balanceOf (vi_balances i) (va_source v) = toNumber text →
    amountText text = true → amountUnits text ≤ 10 ^ 15 →
    va_value v + feeUnits (va_source v) ≤ amountUnits text;
  (** the signers are distinct owners, with their summed weight *)
  vd_signers : va_signers v ≠ [] ∧ NoDup (va_signers v) ∧
    ∀ s, s ∈ va_signers v ↔ s ∈ default [] (sr_signers (vi_req i));
  vd_owners s : s ∈ va_signers v → is_Some (findOwner (vi_pol i) s);
  vd_weight : va_weight v
    = sumZ ((λ id, match findOwner (vi_pol i) id with Some o => ow_weight o | None => 0 end) <$> va_signers v);
  (** a refusal demo is a request the policy refuses *)
  vd_refusal : sr_expectRefusal (vi_req i) = true →
    vi_allowlisted i = false ∨ va_weight v < tp_thresholdWeight (vi_pol i);
  (** on Solana the shares are the weights *)
  vd_frost : va_source v = solana → ∃ fr, vi_frostOwners i = Some fr ∧
    fr_threshold fr = tp_thresholdWeight (vi_pol i) ∧
    va_weight v = sumZ (shareCount fr <$> va_signers v) }.

Lemma validateSend_validated `{Viem} `{UtViemLaws} i v :
  validateSend i = Ok v → validated i v.
Proof.
  unfold validateSend. rewrite !throw_if_bind_ok.
  intros (E1 & E2 & E3 & E4 & E5 & E6 & E7 & E8 & E9 & E).
  apply bind_ok in E as (source & Es & E). apply bind_ok in E as ([] & Ef & E). apply ok_inj in E as <-.
  apply negb_false_iff in E1, E2, E4, E6. apply bool_decide_eq_true in E1. apply Z.leb_gt in E3.
  rewrite (parseUnits_amount _ E2) in E3.
  pose proof (amount_within_cap _ E2 E7) as Hcap.
  assert (Hu : 0 < amountUnits (default "" (sr_amount (vi_req i))) ≤ 1000000) by lia.
  assert (Hown : ∀ s, s ∈ js_set (default [] (sr_signers (vi_req i))) → is_Some (findOwner (vi_pol i) s)).
  { intros s Hs. destruct (decide (is_Some (findOwner (vi_pol i) s))) as [|Hn]; [done|].
    apply Nat.eqb_eq, length_zero_iff_nil in E6.
    assert (Hin : In s (List.filter (λ s, negb (bool_decide (is_Some (findOwner (vi_pol i) s))))
      (js_set (default [] (sr_signers (vi_req i)))))).
    { apply filter_In. split; [by apply list_elem_of_In|]. by rewrite bool_decide_false. }
    rewrite E6 in Hin. done. }
  split; cbn [va_source va_value va_signers va_weight]; try done.
  - by rewrite (parseUnits_amount _ E2).
  - intros C HC HC0. rewrite (parseUnits_amount _ E2). rewrite HC in E8. by apply amount_within_intent_cap.
  - intros text Ht Htt Hb. rewrite (parseUnits_amount _ E2). apply chooseSource_covers in Es. rewrite Ht in Es.
    by eapply position_covers.
  - split_and!; [|apply js_set_nodup|apply js_set_elem]. intros Hn. by rewrite Hn in E5.
  - apply signersWeight_sum.
  - intros Hr. rewrite Hr in E9. cbn [andb] in E9. apply andb_false_iff in E9 as [E9|E9]; [by left|right].
    by apply Z.leb_gt in E9.
  - intros ->. destruct (frostDrift (vi_pol i) (vi_frostOwners i)) eqn:Ed; [done|].
    apply frostDrift_none in Ed as (fr & Hfr & Ht & Hw & _). exists fr. split_and!; [done|done|].
    rewrite signersWeight_sum. f_equal. apply list_fmap_ext. intros k s Hk.
    apply list_elem_of_lookup_2 in Hk. destruct (Hown s Hk) as [o Ho]. rewrite Ho.
    apply findOwner_some in Ho as [Hin <-]. by rewrite Hw.
Qed.

(** C7: a request [validateSend] accepts is within every limit exactly, although
    the limits are compared as binary64 numbers: the value is the decimal
    amount in micro-USDC, positive, at most one USDC and at most the on-chain
    cap; the chosen position holds it with the fee; the signers are distinct
    owners; a refusal demo cannot be a request that would move funds; and on
    Solana the signers' FROST shares are worth exactly the weight the server
    computed. *)
Theorem validateSend_exact `{Viem} `{UtViemLaws} i v :
  validateSend i = Ok v → validated i v.
Proof. apply validateSend_validated. Qed.

(** ** An instance *)

#[global] Instance sample_ut_viem : UtViem :=
  {| padHex hex n := "0x" +:+ padStart0 (2 * n) (str_drop 2 hex);
     parseUnits s _ := amountUnits s;
     hashBurnIntent bi := "0x" +:+ bytesHex (u256_bytes (bi_maxBlockHeight bi));
     encodeErc1271 _ sigs := String.concat "" sigs |}.

#[global] Instance sample_ut_viem_laws : UtViemLaws.
Proof. split; [done|]. intros t n _. reflexivity. Qed.

Definition sample_treasury_policy : TreasuryPolicy :=
  {| tp_live := true; tp_thresholdWeight := 3;
     tp_owners := [{| ow_id := "A"; ow_address := "0xa"; ow_weight := 2 |};
                   {| ow_id := "B"; ow_address := "0xb"; ow_weight := 1 |};
                   {| ow_id := "C"; ow_address := "0xc"; ow_weight := 1 |}];
     tp_allowlist := []; tp_outsider := ("S", "0xs"); tp_destinationDomains := [6];
     tp_perIntentCap := num_div_const (num_of_Z 2000000) 1000000; tp_maxFeeCap := toNumber "2.01";
     tp_maxExpiryBlocks := 1250000 |}.
Definition sample_request : SendRequest :=
  {| sr_asset := Some "USDC"; sr_amount := Some "0.25";
     sr_recipient := Some "0x0000000000000000000000000000000000000001";
     sr_signers := Some ["A"; "B"; "A"]; sr_source := Some "auto"; sr_expectRefusal := false |}.
Definition sample_input : ValidateInput :=
  {| vi_req := sample_request; vi_pol := sample_treasury_policy; vi_allowlisted := true;
     vi_balances := {| bal_evm := toNumber "0.259999"; bal_solana := toNumber "0.45" |};
     vi_frostOwners := Some {| fr_threshold := 3; fr_shares := [("A", [1; 2]); ("B", [3]); ("C", [4])] |} |}.

Lemma validateSend_exact_witness :
  ∃ v, validateSend sample_input = Ok v ∧ va_source v = solana ∧ validated sample_input v.
Proof.
  assert (E : ∃ v, validateSend sample_input = Ok v ∧ va_source v = solana)
    by (eexists; split; vm_compute; reflexivity).
  destruct E as (v & E & Hs). exists v. split; [exact E|]. split; [exact Hs|]. exact (validateSend_exact sample_input v E).
Defined.
