(* ===== verification/UtWire.v ===== *)
(** * What the coordinator reads of the server's intent

    The TypeScript encoder ([UtIntent]) against the Rust decoder
    ([Coordinator]): the bytes the server sends are read back field by field,
    and what the policy then decides. *)

From S2P Require Import Prelude.
From S2P Require Import Js.
From S2P Require Import Decimal.
From S2P Require Import CreJson.
From S2P Require Import Encoding.
From S2P Require Import Abi.
From S2P Require Import UtConfig.
From S2P Require Import UtIntent.
From S2P Require Import Coordinator.

Definition byte (b : Z) : Prop := 0 ≤ b < 256.

(** ** Bytes and their hexadecimal text *)

Lemma hexDigit_val n : 0 ≤ n < 16 → is_hex (hexDigit n) = true ∧ hexDigitVal (hexDigit n) = n.
Proof.
  intros Hn. assert (n ∈ seqZ 0 16) as H by (apply elem_of_seqZ; lia). clear Hn. revert n H.
  apply Forall_forall. vm_compute. repeat constructor.
Qed.

Lemma bytesFromHex_bytesHex bs : Forall byte bs → bytesFromHex (bytesHex bs) = bs.
Proof.
  induction 1 as [|b bs Hb _ IH]; [done|]. unfold byte in Hb. cbn [bytesHex bytesFromHex].
  destruct (hexDigit_val (b / 16)) as [-> ->]; [div_lia|].
  destruct (hexDigit_val (b mod 16)) as [-> ->]; [div_lia|].
  cbn [andb]. rewrite IH. f_equal. div_lia.
Qed.

Lemma strip0x_prefix s : strip0x ("0x" +:+ s) = s.
Proof. reflexivity. Qed.

Lemma h_bytesHex bs : Forall byte bs → h ("0x" +:+ bytesHex bs) = bs.
Proof. intros. unfold h. rewrite strip0x_prefix. by apply bytesFromHex_bytesHex. Qed.

Lemma be_bytes_range n z : Forall byte (be_bytes n z).
Proof.
  revert z. induction n as [|n IH]; intros z; simpl; [constructor|].
  apply Forall_app. split; [done|]. constructor; [|constructor]. unfold byte. div_lia.
Qed.

Lemma be_bytes_be_value bs : Forall byte bs → be_bytes (length bs) (be_value bs) = bs.
Proof.
  induction bs as [|b bs IH] using rev_ind; [done|]. rewrite Forall_app, Forall_singleton.
  intros [Hbs Hb]. unfold byte in Hb. rewrite length_app, Nat.add_comm. cbn [length be_bytes Nat.add].
  rewrite be_value_snoc. replace ((be_value bs * 256 + b) / 256) with (be_value bs) by div_lia.
  rewrite IH by done. do 2 f_equal. div_lia.
Qed.

Lemma be_value_inj bs bs' :
  Forall byte bs → Forall byte bs' → length bs = length bs' → be_value bs = be_value bs' → bs = bs'.
Proof.
  intros H H' Hl E. rewrite <- (be_bytes_be_value bs), <- (be_bytes_be_value bs') by done. by rewrite E, Hl.
Qed.

Lemma bytesFromHex_spec n t :
  str_all is_hex t = true → strlen t = 2 * Z.of_nat n →
  bytesFromHex t = be_bytes n (hexval_from 0 t).
Proof.
  intros Ht Hl.
  enough (∀ acc, length (bytesFromHex t) = n ∧ Forall byte (bytesFromHex t) ∧
    foldl (λ acc b, acc * 256 + b) acc (bytesFromHex t) = hexval_from acc t) as H.
  { destruct (H 0) as (H1 & H2 & H3). rewrite <- H3, <- H1. symmetry. by apply be_bytes_be_value. }
  revert t Ht Hl. induction n as [|n IH]; intros t Ht Hl acc.
  { destruct t; [split_and!; [done|constructor|done]|]. unfold strlen in Hl. cbn in Hl. lia. }
  unfold strlen in Hl. destruct t as [|a t]; [cbn in Hl; lia|]. destruct t as [|b t]; [cbn in Hl; lia|].
  cbn [str_all String.length] in *. rewrite !andb_true_iff in Ht. destruct Ht as (Ha & Hb & Ht).
  cbn [bytesFromHex]. rewrite Ha, Hb. cbn [andb length foldl hexval_from].
  destruct (IH t Ht ltac:(unfold strlen; lia) (acc * 256 + (hexDigitVal a * 16 + hexDigitVal b))) as (H1 & H2 & H3).
  apply hexDigitVal_range in Ha, Hb. split_and!; [lia|constructor; [unfold byte; lia|done]|].
  rewrite H3. f_equal. lia.
Qed.

Lemma h_hexBytes n s : isHexBytes n s = true → h s = be_bytes n (hexNumber s).
Proof.
  intros (t & -> & Hl & Ht)%isHexBytes_split. unfold h. change (strip0x (String _ _)) with t.
  change (hexNumber _) with (hexval_from 0 t). by apply bytesFromHex_spec.
Qed.

Lemma hexval_zeros k s : hexval_from 0 (zeros k +:+ s) = hexval_from 0 s.
Proof. induction k as [|k IH]; [done|]. cbn [zeros]. rewrite string_app_cons. cbn [hexval_from]. exact IH. Qed.

Lemma hex_zeros k : str_all is_hex (zeros k) = true.
Proof. induction k as [|k IH]; [done|]. cbn [zeros str_all]. by rewrite IH. Qed.

Lemma str_all_hex_lower s : str_all is_hex s = true → str_all is_hex (toLowerCase s) = true.
Proof.
  induction s as [|c s IH]; [done|]. cbn [str_all toLowerCase]. intros [Hc Hs]%andb_true_iff.
  rewrite IH by done. rewrite andb_true_r. revert Hc. by destruct c as [[] [] [] [] [] [] [] []].
Qed.

Lemma strlen_lower s : strlen (toLowerCase s) = strlen s.
Proof.
  unfold strlen. induction s as [|c s IH]; [done|]. cbn [toLowerCase String.length]. lia.
Qed.

Lemma h_evmHex32 a : isHexBytes 20 a = true → h (evmHex32 a) = word (hexNumber a).
Proof.
  intros (t & -> & Hl & Ht)%isHexBytes_split. unfold h, evmHex32. rewrite strip0x_prefix.
  change (strip0x (toLowerCase (String "0" (String "x" t)))) with (toLowerCase t).
  change (hexNumber _) with (hexval_from 0 t). unfold padStart0. rewrite strlen_lower, Hl.
  change (Z.to_nat (64 - 2 * Z.of_nat 20)) with 24%nat.
  rewrite (bytesFromHex_spec 32).
  - rewrite hexval_zeros, hexval_from_lower by done. done.
  - rewrite str_all_app, hex_zeros. by apply str_all_hex_lower.
  - rewrite strlen_app, strlen_zeros, strlen_lower, Hl. lia.
Qed.

Lemma u256_bytes_word v : 0 ≤ v < 2 ^ 256 → u256_bytes v = word v.
Proof.
  intros Hv. apply be_value_inj.
  - apply u256_bytes_range.
  - apply be_bytes_range.
  - rewrite word_length. apply u256_bytes_range.
  - by rewrite u256_bytes_value, word_value.
Qed.

(** ** Reading a concatenation back *)

Lemma slice_concat (segs : list (list Z)) (ls : list nat) i s n :
  Forall2 (λ s n, length s = n) segs ls → segs !! i = Some s → ls !! i = Some n →
  slice (sum_list (take i ls)) n (concat segs) = s.
Proof.
  intros Hls. revert i. unfold slice. induction Hls as [|s' n' segs ls Hl Hls IH]; intros i Hs Hn; [done|].
  destruct i as [|i]; cbn in Hs, Hn.
  - injection Hs as ->. injection Hn as ->. cbn. rewrite drop_0, <- Hl. by rewrite take_app_length.
  - change (sum_list (take (S i) (n' :: ls))) with (n' + sum_list (take i ls))%nat. cbn [concat].
    rewrite <- drop_drop, <- Hl, drop_app_length. by apply IH.
Qed.

Lemma u32be_ok v : 0 ≤ v < 2 ^ 32 → u32be v = Ok (be_bytes 4 v).
Proof.
  intros Hv. unfold u32be. rewrite throw_if_bind.
  destruct (Z.leb_spec 0 v), (Z.ltb_spec v (2 ^ 32)); try lia. done.
Qed.

Lemma u32be_const v : (0 <=? v) && (v <? 2 ^ 32) = true → u32be v = Ok (be_bytes 4 v).
Proof. intros E. unfold u32be. by rewrite E. Qed.

Lemma u32_value v : 0 ≤ v < 2 ^ 32 → be_value (be_bytes 4 v) = v.
Proof. intros. by apply be_bytes_value. Qed.

(** ** The server's intent *)

(** The inputs of [makeSolanaIntent] the server has: an address, a value and a
    height that fit a word, a 32-byte key and salt. *)
Record intent_inputs (recipient : string) (value height : Z) (groupKey salt : string) : Prop := {
  ii_recipient : isHexBytes 20 recipient = true;
  ii_value : 0 ≤ value < 2 ^ 256;
  ii_height : 0 ≤ height < 2 ^ 256;
  ii_key : isHexBytes 32 groupKey = true;
  ii_salt : isHexBytes 32 ("0x" +:+ salt) = true }.

Definition wordOf (hex : string) : list Z := be_bytes 32 (hexNumber hex).
Definition keyWord (b58 : string) : list Z :=
  match base58ToBytes32 b58 with Ok bs => bs | Throw _ => [] end.

(** The fields the coordinator reads of it. *)
Definition expectedIntent (recipient : string) (value height : Z) (groupKey : string) : Intent :=
  {| it_max_block_height := word height;
     it_max_fee := word MAX_FEE;
     it_version := 1;
     it_source_domain := 5;
     it_destination_domain := 26;
     it_source_contract := keyWord GW_WALLET;
     it_destination_contract := wordOf GATEWAY_MINTER;
     it_source_token := keyWord SOL_USDC;
     it_destination_token := wordOf ARC_USDC;
     it_source_depositor := keyWord SOLANA_VAULT;
     it_destination_recipient := wordOf recipient;
     it_source_signer := wordOf groupKey;
     it_destination_caller := repeat 0 32;
     it_value := word value |}.

(** The message, segment by segment, and the lengths of the segments. *)
Definition segments (recipient : string) (value height : Z) (groupKey salt : string) : list (list Z) :=
  [SIGNING_DOMAIN; be_bytes 4 BURN_INTENT_MAGIC; word height; word MAX_FEE; be_bytes 4 340;
   be_bytes 4 TRANSFER_SPEC_MAGIC; be_bytes 4 1; be_bytes 4 5; be_bytes 4 26;
   keyWord GW_WALLET; wordOf GATEWAY_MINTER; keyWord SOL_USDC; wordOf ARC_USDC;
   keyWord SOLANA_VAULT; wordOf recipient; wordOf groupKey; repeat 0 32;
   word value; wordOf ("0x" +:+ salt); be_bytes 4 0].
Definition segmentLengths : list nat := [16; 4; 32; 32; 4; 4; 4; 4; 4; 32; 32; 32; 32; 32; 32; 32; 32; 32; 32; 4]%nat.

Lemma segments_lengths recipient value height groupKey salt :
  Forall2 (λ s n, length s = n) (segments recipient value height groupKey salt) segmentLengths.
Proof. repeat constructor; apply be_bytes_length. Qed.

Lemma keyWord_range b58 : Forall byte (keyWord b58).
Proof.
  unfold keyWord, base58ToBytes32. destruct (base58Value b58 0 b58) as [n|e]; [|constructor].
  cbn [mbind result_bind]. rewrite throw_if_bind. destruct (_ <=? _); [constructor|apply be_bytes_range].
Qed.

Section message.
Context (recipient : string) (value height : Z) (groupKey salt : string).
Hypothesis inputs : intent_inputs recipient value height groupKey salt.

Lemma makeSolanaIntent_ok : ∃ bi,
  makeSolanaIntent recipient value height groupKey salt = Ok bi ∧
  frostMessage bi = Ok (concat (segments recipient value height groupKey salt)).
Proof.
  destruct inputs as [Hr Hv Hh Hk Hs].
  assert (Hg : keyHex32 GW_WALLET = Ok ("0x" +:+ bytesHex (keyWord GW_WALLET))) by (vm_compute; reflexivity).
  assert (Ht : keyHex32 SOL_USDC = Ok ("0x" +:+ bytesHex (keyWord SOL_USDC))) by (vm_compute; reflexivity).
  assert (Hd : keyHex32 SOLANA_VAULT = Ok ("0x" +:+ bytesHex (keyWord SOLANA_VAULT))) by (vm_compute; reflexivity).
  unfold makeSolanaIntent. rewrite Hg, Ht, Hd. cbn [mbind result_bind].
  eexists. split; [reflexivity|]. unfold frostMessage, encodeSolanaIntent.
  cbn [bi_spec bi_maxBlockHeight bi_maxFee ts_version ts_sourceDomain ts_destinationDomain ts_sourceContract
    ts_destinationContract ts_sourceToken ts_destinationToken ts_sourceDepositor ts_destinationRecipient
    ts_sourceSigner ts_destinationCaller ts_value ts_salt ts_hookData].
  assert (Hkey : h ("0x" +:+ strip0x groupKey) = wordOf groupKey).
  { unfold h. rewrite strip0x_prefix. exact (h_hexBytes 32 groupKey Hk). }
  assert (Hfee : 0 ≤ MAX_FEE < 2 ^ 256) by (vm_compute; intuition congruence).
  rewrite Hkey, (h_evmHex32 recipient Hr), (h_hexBytes 32 _ Hs).
  rewrite (u256_bytes_word value Hv), (u256_bytes_word height Hh), (u256_bytes_word MAX_FEE Hfee).
  rewrite (h_bytesHex (keyWord GW_WALLET)), (h_bytesHex (keyWord SOL_USDC)), (h_bytesHex (keyWord SOLANA_VAULT))
    by apply keyWord_range.
  rewrite (h_evmHex32 GATEWAY_MINTER), (h_evmHex32 ARC_USDC) by (vm_compute; reflexivity).
  change (h "0x") with (@nil Z). change (h ("0x" +:+ repeatText 32 "00")) with (repeat 0 32).
  change (Z.of_nat (length (@nil Z))) with 0. cbn [DOMAIN_solana DOMAIN_arc].
  rewrite !(u32be_const TRANSFER_SPEC_MAGIC), !(u32be_const 1), !(u32be_const DOMAIN_solana), !(u32be_const DOMAIN_arc),
    !(u32be_const 0), !(u32be_const BURN_INTENT_MAGIC) by reflexivity.
  cbn [mbind result_bind].
  set (spec := be_bytes 4 TRANSFER_SPEC_MAGIC ++ _).
  assert (Hlen : length spec = 340%nat).
  { subst spec. rewrite !length_app. unfold word, wordOf. by rewrite !be_bytes_length. }
  rewrite Hlen, throw_if_bind. cbn [length Nat.add Nat.eqb negb]. 
  change (Z.of_nat 340) with 340. rewrite (u32be_const 340) by reflexivity. reflexivity.
Qed.
End message.

(** ** Reading it back *)

Section read_back.
Context (recipient : string) (value height : Z) (groupKey salt : string).
Let msg := concat (segments recipient value height groupKey salt).

Lemma segment_at i o n s :
  segments recipient value height groupKey salt !! i = Some s → segmentLengths !! i = Some n →
  sum_list (take i segmentLengths) = o → slice o n msg = s.
Proof. intros Hs Hn <-. by apply (slice_concat _ segmentLengths _ _ _ (segments_lengths _ _ _ _ _)). Qed.

Lemma message_length : length msg = TOTAL.
Proof.
  unfold msg, segments. cbn [concat]. rewrite !length_app. unfold word, wordOf. by rewrite !be_bytes_length.
Qed.

Ltac segment i := erewrite (segment_at i) by reflexivity.

Lemma parse_segments : parse_message msg = Ok (expectedIntent recipient value height groupKey).
Proof.
  unfold parse_message. rewrite message_length, !throw_if_bind. unfold u32_at, w_at. cbn [Nat.add Nat.mul].
  rewrite Nat.eqb_refl. cbn [negb].
  segment 0%nat. rewrite bool_decide_true by done. cbn [negb].
  segment 1%nat. segment 4%nat. segment 5%nat. segment 19%nat.
  rewrite !u32_value by (vm_compute; intuition congruence).
  rewrite !Z.eqb_refl. cbn [negb Z.eqb SPEC_LEN Z.of_nat Pos.eqb Pos.of_succ_nat Pos.succ].
  segment 2%nat. segment 3%nat. segment 6%nat. segment 7%nat. segment 8%nat. segment 9%nat. segment 10%nat.
  segment 11%nat. segment 12%nat. segment 13%nat. segment 14%nat. segment 15%nat. segment 16%nat. segment 17%nat.
  by rewrite !u32_value by (vm_compute; intuition congruence).
Qed.
End read_back.

(** ** What the policy decides about it *)

Lemma be_bytes_app m n z :
  be_bytes (m + n) z = be_bytes m (z / 256 ^ Z.of_nat n) ++ be_bytes n z.
Proof.
  revert z. induction n as [|n IH]; intros z; rewrite Nat2Z.inj_succ || idtac.
  - rewrite Nat.add_0_r. change (256 ^ Z.of_nat 0) with 1. rewrite Z.div_1_r. by rewrite app_nil_r.
  - rewrite Nat.add_succ_r. cbn [be_bytes]. rewrite IH, Z.pow_succ_r, Z.div_div by lia.
    by rewrite <- app_assoc.
Qed.

Lemma be_value_nonneg bs : Forall byte bs → 0 ≤ be_value bs.
Proof.
  induction bs as [|b bs IH] using rev_ind; [done|]. rewrite Forall_app, Forall_singleton.
  intros [Hbs Hb]. unfold byte in Hb. rewrite be_value_snoc. specialize (IH Hbs). lia.
Qed.

Lemma allZero_value bs : Forall byte bs → allZero bs = bool_decide (be_value bs = 0).
Proof.
  intros Hbs. apply Bool.eq_iff_eq_true. rewrite bool_decide_eq_true. unfold allZero. rewrite forallb_forall. split.
  - induction bs as [|b bs IH] using rev_ind; intros H; [done|]. apply Forall_app in Hbs as [Hbs _].
    rewrite be_value_snoc, IH by (done || intros; apply H, in_app_iff; by left).
    specialize (H b). rewrite in_app_iff in H. specialize (H ltac:(right; by left)). apply Z.eqb_eq in H. lia.
  - induction bs as [|b bs IH] using rev_ind; intros H x Hx; [done|]. apply Forall_app in Hbs as [Hbs Hb].
    rewrite Forall_singleton in Hb. unfold byte in Hb. rewrite be_value_snoc in H.
    pose proof (be_value_nonneg bs Hbs).
    apply in_app_iff in Hx as [Hx|[<-|[]]]; [apply IH; [done|lia|done]|apply Z.eqb_eq; lia].
Qed.

Lemma allZero_bytes n z : 0 ≤ z < 256 ^ Z.of_nat n → allZero (be_bytes n z) = bool_decide (z = 0).
Proof. intros Hz. by rewrite allZero_value, be_bytes_value by (done || apply be_bytes_range). Qed.

Lemma word_u128_word v : 0 ≤ v < 2 ^ 256 → word_u128 (word v) = if v <? 2 ^ 128 then Some v else None.
Proof.
  intros Hv. unfold word_u128, word. rewrite (be_bytes_app 16 16).
  rewrite (take_app_length' _ _ 16), (drop_app_length' _ _ 16) by (by rewrite be_bytes_length).
  change (256 ^ Z.of_nat 16) with (2 ^ 128).
  rewrite allZero_bytes.
  2:{ change (256 ^ Z.of_nat 16) with (2 ^ 128). split; [div_lia|]. apply Z.div_lt_upper_bound; lia. }
  destruct (Z.ltb_spec v (2 ^ 128)).
  - rewrite bool_decide_true by (apply Z.div_small; lia). f_equal. apply be_bytes_value. 
    change (256 ^ Z.of_nat 16) with (2 ^ 128). lia.
  - rewrite bool_decide_false; [done|]. intros E. apply Z.div_small_iff in E; lia.
Qed.

Lemma word_shape r : 0 ≤ r < 2 ^ 160 → matches_domain_shape 26 (word r) = negb (bool_decide (r = 0)).
Proof.
  intros Hr. unfold matches_domain_shape, is_canonical_evm. cbn [Z.eqb SOLANA_DOMAIN].
  assert (Hw : 0 ≤ r < 256 ^ Z.of_nat 32) by (change (256 ^ Z.of_nat 32) with (2 ^ 256); lia).
  rewrite (allZero_bytes 32 r Hw : allZero (word r) = _). unfold word. rewrite (be_bytes_app 12 20).
  rewrite (take_app_length' _ _ 12) by (by rewrite be_bytes_length).
  rewrite Z.div_small by (change (256 ^ Z.of_nat 20) with (2 ^ 160); lia). done.
Qed.

(** A policy file that describes this treasury: its constants, a cap, a fee
    cap that covers the server's, an expiry window, and the recipients allowed
    on Arc. *)
Record treasury_policy (p : Policy) (cap slots : Z) (allowed : list Z) : Prop := {
  py_domain : cp_source_domain p = 5;
  py_contract : parse_hex32 (cp_source_contract p) = Ok (keyWord GW_WALLET);
  py_token : parse_hex32 (cp_source_token p) = Ok (keyWord SOL_USDC);
  py_depositor : parse_hex32 (cp_depositor p) = Ok (keyWord SOLANA_VAULT);
  py_cap : parse_u128 (cp_per_intent_cap p) = Some cap;
  py_fee : ∃ f, parse_u128 (cp_max_fee_cap p) = Some f ∧ MAX_FEE ≤ f;
  py_slots : cp_max_expiry_slots p = slots ∧ 0 ≤ slots < 2 ^ 64;
  py_destination : ∃ d,
    List.find (λ d, ds_domain d =? 26) (cp_destinations p) = Some d ∧
    parse_hex32 (ds_minter d) = Ok (wordOf GATEWAY_MINTER) ∧
    parse_hex32 (ds_token d) = Ok (wordOf ARC_USDC) ∧
    Forall2 (λ s n, parse_hex32 s = Ok (word n) ∧ 0 ≤ n < 2 ^ 160) (ds_recipients d) allowed }.

Lemma parse_u128_range s n : parse_u128 s = Some n → 0 ≤ n < 2 ^ 128.
Proof.
  unfold parse_u128. set (d := match s with String "+" r => r | _ => s end). clearbody d.
  destruct d as [|c d']; [done|]. destruct (str_all is_digit (String c d')) eqn:E; [|done]. cbn [andb].
  destruct (Z.ltb_spec (dec_value (String c d')) (2 ^ 128)); [|done]. intros [= <-].
  apply dec_value_bound in E. lia.
Qed.

Lemma eq_word_bind {A} got want what w (k : () → checked A) r :
  parse_hex32 want = Ok w → eq_word got want what ≫= k = Ok r ↔ got = w ∧ k tt = Ok r.
Proof.
  intros Hw. unfold eq_word. rewrite Hw. cbn [mbind result_bind].
  fold (mbind (M:=checked) k). rewrite throw_if_bind_ok, negb_false_iff, bool_decide_eq_true. done.
Qed.

Lemma ok_or_bind {A B} (o : option A) e (k : A → checked B) r :
  ok_or o e ≫= k = Ok r ↔ ∃ a, o = Some a ∧ k a = Ok r.
Proof. destruct o; cbn; [naive_solver|]. split; [done|]. by intros (? & ? & _). Qed.

Lemma in_set_words r set allowed :
  0 ≤ r < 2 ^ 160 →
  Forall2 (λ s n, parse_hex32 s = Ok (word n) ∧ 0 ≤ n < 2 ^ 160) set allowed →
  in_set (word r) set = Ok (bool_decide (r ∈ allowed)).
Proof.
  intros Hr. induction 1 as [|s n set allowed [Hs Hn] _ IH]; [done|].
  cbn [in_set]. rewrite Hs. cbn [mbind result_bind].
  assert (Hw : word n = word r ↔ n = r).
  { split; [|by intros ->]. intros E. apply (f_equal be_value) in E. rewrite !word_value in E by lia. done. }
  destruct (decide (n = r)) as [->|Hne].
  - by rewrite !bool_decide_true by (done || left).
  - rewrite (bool_decide_false (word n = word r)) by (by rewrite Hw). rewrite IH.
    f_equal. apply bool_decide_ext. set_solver.
Qed.

Section decision.
Context (p : Policy) (cap slots slot : Z) (allowed : list Z).
Context (recipient : string) (value height : Z) (groupKey salt : string).
Hypothesis policy : treasury_policy p cap slots allowed.
Hypothesis inputs : intent_inputs recipient value height groupKey salt.

(** What the policy asks of the server's intent. *)
Definition allowed_intent : Prop :=
  0 < value ≤ cap ∧ slot < height ≤ slot + slots ∧
  hexNumber recipient ∈ allowed ∧ hexNumber recipient ≠ 0.

Lemma recipient_listed d :
  ds_domain d = 26 →
  Forall2 (λ s n, parse_hex32 s = Ok (word n) ∧ 0 ≤ n < 2 ^ 160) (ds_recipients d) allowed →
  listed (ds_domain d) (wordOf recipient) (ds_recipients d)
  = Ok (bool_decide (hexNumber recipient ∈ allowed ∧ hexNumber recipient ≠ 0)).
Proof.
  intros -> Hrec. destruct inputs as [Hr _ _ _ _].
  assert (Hrr : 0 ≤ hexNumber recipient < 2 ^ 160) by (by apply (hexNumber_range 20)).
  unfold listed, wordOf. fold (word (hexNumber recipient)). rewrite word_shape by done.
  destruct (decide (hexNumber recipient = 0)) as [E0|E0].
  - rewrite !bool_decide_true by done. cbn [negb]. by rewrite bool_decide_false by (by intros []).
  - rewrite (bool_decide_false (hexNumber recipient = 0)) by done. cbn [negb].
    rewrite (in_set_words _ _ allowed Hrr Hrec). f_equal. apply bool_decide_ext. naive_solver.
Qed.

Lemma check_policy_decides :
  0 ≤ slot < 2 ^ 64 →
  check_policy (expectedIntent recipient value height groupKey) p (wordOf groupKey) slot = Ok tt ↔ allowed_intent.
Proof.
  intros Hslot. destruct policy as [Hd Hc Ht Hdep Hcap (f & Hf & Hfee) [Hs Hsr] (d & Hfind & Hmin & Htok & Hrec)].
  destruct inputs as [_ Hv Hh _ _]. apply parse_u128_range in Hcap as Hcapr.
  apply List.find_some in Hfind as Hd26. destruct Hd26 as [_ Hd26%Z.eqb_eq].
  assert (Hfee' : word_u128 (word MAX_FEE) = Some MAX_FEE) by (vm_compute; reflexivity).
  unfold check_policy, allowed_intent.
  cbn [expectedIntent it_version it_source_domain it_source_contract it_source_token it_source_depositor
    it_source_signer it_value it_max_fee it_max_block_height it_destination_domain it_destination_contract
    it_destination_token it_destination_recipient it_destination_caller].
  split.
  - intros H. do 2 apply throw_if_bind_ok in H as [_ H].
    apply (eq_word_bind _ _ _ _ _ _ Hc) in H as [_ H]. apply (eq_word_bind _ _ _ _ _ _ Ht) in H as [_ H].
    apply (eq_word_bind _ _ _ _ _ _ Hdep) in H as [_ H]. apply throw_if_bind_ok in H as [_ H].
    apply ok_or_bind in H as (cap' & E1 & H). apply ok_or_bind in H as (f' & _ & H).
    apply ok_or_bind in H as (v & E2 & H). apply throw_if_bind_ok in H as [E3 H].
    apply ok_or_bind in H as (f'' & _ & H). apply throw_if_bind_ok in H as [_ H].
    apply ok_or_bind in H as (mbh & E4 & H). apply throw_if_bind_ok in H as [E5 H].
    apply ok_or_bind in H as (d' & E6 & H). rewrite Hfind in E6. injection E6 as <-.
    apply (eq_word_bind _ _ _ _ _ _ Hmin) in H as [_ H]. apply (eq_word_bind _ _ _ _ _ _ Htok) in H as [_ H].
    apply bind_ok in H as (b & E7 & H). rewrite (recipient_listed d Hd26 Hrec) in E7. apply ok_inj in E7 as <-.
    apply throw_if_bind_ok in H as [E8 _]. apply negb_false_iff, bool_decide_eq_true in E8.
    rewrite (word_u128_word value Hv) in E2. rewrite (word_u128_word height Hh) in E4.
    destruct (value <? 2 ^ 128); [|done]. destruct (height <? 2 ^ 128); [|done].
    apply (inj Some) in E2, E4. subst v mbh. rewrite Hcap in E1. apply (inj Some) in E1. subst cap'. rewrite Hs in E5.
    apply orb_false_iff in E3 as [??], E5 as [??]. zify_bool. destruct E8. split_and!; try done; lia.
  - intros (Hval & Hhei & Hrec').
    do 2 (apply throw_if_bind_ok; split; [by rewrite ?Hd|]).
    apply (eq_word_bind _ _ _ _ _ _ Hc); split; [done|]. apply (eq_word_bind _ _ _ _ _ _ Ht); split; [done|].
    apply (eq_word_bind _ _ _ _ _ _ Hdep); split; [done|].
    apply throw_if_bind_ok; split; [by rewrite bool_decide_true|].
    apply ok_or_bind; exists cap; split; [done|]. apply ok_or_bind; exists f; split; [done|].
    apply ok_or_bind; exists value; split.
    { rewrite (word_u128_word value Hv). by rewrite (proj2 (Z.ltb_lt _ _)) by lia. }
    apply throw_if_bind_ok; split; [apply orb_false_iff; zify_bool; lia|].
    apply ok_or_bind; exists MAX_FEE; split; [exact Hfee'|]. apply throw_if_bind_ok; split; [zify_bool; lia|].
    apply ok_or_bind; exists height; split.
    { rewrite (word_u128_word height Hh). by rewrite (proj2 (Z.ltb_lt _ _)) by lia. }
    apply throw_if_bind_ok; split; [rewrite Hs; apply orb_false_iff; zify_bool; lia|].
    apply ok_or_bind; exists d; split; [done|].
    apply (eq_word_bind _ _ _ _ _ _ Hmin); split; [done|]. apply (eq_word_bind _ _ _ _ _ _ Htok); split; [done|].
    apply bind_ok. eexists; split; [by apply recipient_listed|].
    apply throw_if_bind_ok; split; [by rewrite bool_decide_true|]. by rewrite bool_decide_true.
Qed.
End decision.

(** ** Property *)

(** C6: the FROST coordinator reads back exactly the intent the server built -
    every field of Circle's binary layout, for any recipient, amount, height,
    key and salt - and, under a policy file that describes this treasury, lets
    the listed owners' shares sign it exactly when the amount is positive and
    within the cap, the expiry is within its window, the recipient is allowed
    on Arc, and the owners hold at least the threshold of shares. *)
Theorem coordinator_signs_exactly recipient value height groupKey salt p cap slots slot allowed owners signers :
  intent_inputs recipient value height groupKey salt →
  treasury_policy p cap slots allowed → 0 ≤ slot < 2 ^ 64 →
  ∃ bi message,
    makeSolanaIntent recipient value height groupKey salt = Ok bi ∧
    frostMessage bi = Ok message ∧
    parse_message message = Ok (expectedIntent recipient value height groupKey) ∧
    ∀ ids, sign owners (Some p) (h groupKey) signers message slot = Signed ids ↔
      allowed_intent cap slots slot allowed recipient value height ∧
      resolve_shares owners signers = Ok ids ∧ os_threshold owners ≤ Z.of_nat (size ids).
Proof.
  intros Hi Hp Hs. destruct (makeSolanaIntent_ok _ _ _ _ _ Hi) as (bi & Hm & Hf).
  pose proof (parse_segments recipient value height groupKey salt) as Hparse.
  pose proof (check_policy_decides p cap slots slot allowed _ _ _ _ _ Hp Hi Hs) as Hc.
  exists bi, (concat (segments recipient value height groupKey salt)).
  split; [exact Hm|]. split; [exact Hf|]. split; [exact Hparse|]. intros ids.
  assert (Hk : h groupKey = wordOf groupKey) by apply (h_hexBytes 32), Hi.
  unfold sign. rewrite Hparse, Hk.
  change (Ok ?i ≫= ?k) with (k i). cbv beta. clear bi Hm Hf Hparse Hk.
  destruct (check_policy _ _ _ _) as [[]|e]; rewrite <- Hc.
  - destruct (resolve_shares owners signers) as [ids'|e].
    + destruct (Z.ltb_spec (Z.of_nat (size ids')) (os_threshold owners)).
      * split; [done|]. intros (_ & [= ->] & ?). lia.
      * split; [intros [= ->]; done|]. by intros (_ & [= ->] & _).
    + split; [done|]. by intros (_ & ? & _).
  - split; [done|]. by intros [? _].
Qed.

(** ** An instance: the deployed treasury's policy *)

Definition sample_recipient : string := "0xF7D0520C36717e25c5b77F977A89741d2974589C".
Definition sample_group_key : string := "0x" +:+ repeatText 32 "9e".
Definition sample_salt : string := repeatText 32 "5a".
Definition sample_policy : Policy :=
  {| cp_depositor := hex32 (keyWord SOLANA_VAULT);
     cp_source_domain := 5;
     cp_source_contract := hex32 (keyWord GW_WALLET);
     cp_source_token := hex32 (keyWord SOL_USDC);
     cp_per_intent_cap := "2000000";
     cp_max_fee_cap := "2010000";
     cp_max_expiry_slots := 3034000;
     cp_destinations :=
       [{| ds_domain := 26; ds_minter := evmHex32 GATEWAY_MINTER; ds_token := evmHex32 ARC_USDC;
           ds_recipients := [evmHex32 sample_recipient]; ds_callers := [] |}] |}.
Definition sample_owners : Owners :=
  {| os_threshold := 3; os_shares := {["A" := [1; 2]; "B" := [3]; "C" := [4]]} |}.

Lemma sample_policy_ok : treasury_policy sample_policy 2000000 3034000 [hexNumber sample_recipient].
Proof.
  split.
  1-5: vm_compute; reflexivity.
  - exists 2010000. split; [vm_compute; reflexivity|]. vm_compute. congruence.
  - split; [reflexivity|lia].
  - exists {| ds_domain := 26; ds_minter := evmHex32 GATEWAY_MINTER; ds_token := evmHex32 ARC_USDC;
              ds_recipients := [evmHex32 sample_recipient]; ds_callers := [] |}.
    split; [reflexivity|]. split; [vm_compute; reflexivity|]. split; [vm_compute; reflexivity|].
    apply Forall2_cons. split; [|constructor]. split; [vm_compute; reflexivity|]. by apply (hexNumber_range 20).
Qed.

Lemma sample_inputs : intent_inputs sample_recipient 250000 3034500 sample_group_key sample_salt.
Proof. split; [vm_compute; reflexivity|lia|lia|vm_compute; reflexivity|vm_compute; reflexivity]. Qed.

Lemma coordinator_signs_exactly_witness :
  ∃ bi message,
    makeSolanaIntent sample_recipient 250000 3034500 sample_group_key sample_salt = Ok bi ∧
    frostMessage bi = Ok message ∧
    parse_message message = Ok (expectedIntent sample_recipient 250000 3034500 sample_group_key) ∧
    sign sample_owners (Some sample_policy) (h sample_group_key) "B,A" message 1000 = Signed {[1; 2; 3]} ∧
    ∀ ids, sign sample_owners (Some sample_policy) (h sample_group_key) "B,C" message 1000 ≠ Signed ids.
Proof.
  assert (Hslot : 0 ≤ 1000 < 2 ^ 64) by lia.
  destruct (coordinator_signs_exactly _ _ _ _ _ _ _ _ 1000 _ sample_owners "B,A" sample_inputs sample_policy_ok Hslot)
    as (bi & message & H1 & H2 & H3 & H4).
  destruct (coordinator_signs_exactly _ _ _ _ _ _ _ _ 1000 _ sample_owners "B,C" sample_inputs sample_policy_ok Hslot)
    as (bi' & message' & H1' & H2' & _ & H4').
  assert (bi' = bi) as -> by congruence. assert (message' = message) as -> by congruence.
  exists bi, message. split; [exact H1|]. split; [exact H2|]. split; [exact H3|]. clear H1 H2 H3 H1' H2'. split.
  - apply H4. split; [|split; [vm_compute; reflexivity|vm_compute; congruence]].
    unfold allowed_intent. split; [lia|]. split; [lia|]. split; [left|]. by vm_compute.
  - intros ids E. apply H4' in E as (_ & E & Ht). assert (resolve_shares sample_owners "B,C" = Ok {[3; 4]}) as Hr
      by (vm_compute; reflexivity). rewrite Hr in E. injection E as <-. by apply Ht.
Defined.
