(* ===== verification/Async.v ===== *)
(** * Asynchronous code: programs that suspend

    A JavaScript [async] function as a program over a shared state [S] and
    external calls [C]: [Await] suspends (other code may run before the reply
    arrives), [Ask] reads something external without suspending (the clock, a
    file, random bytes), [Upd] and [Read] are the synchronous effects on the
    state. A rejected promise and a thrown error are both [Fail]. *)

From S2P Require Import Prelude.

(** What an external call comes back with. *)
Inductive reply (E R : Type) : Type :=
| Value (r : R)
| Rejects (e : E).
Arguments Value {E R} r.
Arguments Rejects {E R} e.

Section prog.
Context {S E : Type} {C : Type → Type}.

Inductive prog (A : Type) : Type :=
| Ret (a : A)
| Fail (e : E)
| Upd (f : S → S) (p : prog A)
| Read (k : S → prog A)
| Ask {R} (c : C R) (k : reply E R → prog A)
| Await {R} (c : C R) (k : reply E R → prog A).
Arguments Ret {A} a.
Arguments Fail {A} e.
Arguments Upd {A} f p.
Arguments Read {A} k.
Arguments Ask {A R} c k.
Arguments Await {A R} c k.

Fixpoint bind {A B} (p : prog A) (k : A → prog B) : prog B :=
  match p with
  | Ret a => k a
  | Fail e => Fail e
  | Upd f p => Upd f (bind p k)
  | Read q => Read (λ s, bind (q s) k)
  | Ask c q => Ask c (λ r, bind (q r) k)
  | Await c q => Await c (λ r, bind (q r) k)
  end.

#[global] Instance prog_ret : MRet prog := λ A, Ret.
#[global] Instance prog_bind : MBind prog := λ A B k p, bind p k.

(** [await c], [c] read synchronously, an assignment, a thrown error. *)
Definition await {R} (c : C R) : prog R :=
  Await c (λ r, match r with Value v => Ret v | Rejects e => Fail e end).
Definition ask {R} (c : C R) : prog R :=
  Ask c (λ r, match r with Value v => Ret v | Rejects e => Fail e end).
(** [try { … = c } catch { … = undefined }] *)
Definition tryAsk {R} (c : C R) : prog (option R) :=
  Ask c (λ r, match r with Value v => Ret (Some v) | Rejects _ => Ret None end).
Definition assign (f : S → S) : prog () := Upd f (Ret tt).
Definition get : prog S := Read (λ s, Ret s).
Definition lift {A} (r : result E A) : prog A :=
  match r with Ok a => Ret a | Throw e => Fail e end.

(** [try { p } catch (e) { h(e) }] and [try { p } finally { q }]. *)
Fixpoint catch {A} (p : prog A) (h : E → prog A) : prog A :=
  match p with
  | Ret a => Ret a
  | Fail e => h e
  | Upd f p => Upd f (catch p h)
  | Read k => Read (λ s, catch (k s) h)
  | Ask c k => Ask c (λ r, catch (k r) h)
  | Await c k => Await c (λ r, catch (k r) h)
  end.
Fixpoint finally {A} (p : prog A) (q : prog ()) : prog A :=
  match p with
  | Ret a => bind q (λ _, Ret a)
  | Fail e => bind q (λ _, Fail e)
  | Upd f p => Upd f (finally p q)
  | Read k => Read (λ s, finally (k s) q)
  | Ask c k => Ask c (λ r, finally (k r) q)
  | Await c k => Await c (λ r, finally (k r) q)
  end.

(** ** Running up to the next suspension *)

(** One answered external call. *)
Inductive event : Type :=
| Event {R} (c : C R) (r : reply E R).

Inductive outcome (A : Type) : Type :=
| Returned (a : A)
| Failed (e : E)
| Suspended {R} (c : C R) (k : reply E R → prog A).
Arguments Returned {A} a.
Arguments Failed {A} e.
Arguments Suspended {A R} c k.

(** The state, and the external calls answered so far. *)
Definition world : Type := S * list event.

(** [runs p w o w']: from [w], [p] runs without suspending until [o]. *)
Inductive runs {A} : prog A → world → outcome A → world → Prop :=
| runs_ret a w : runs (Ret a) w (Returned a) w
| runs_fail e w : runs (Fail e) w (Failed e) w
| runs_upd f p s h o w : runs p (f s, h) o w → runs (Upd f p) (s, h) o w
| runs_read k s h o w : runs (k s) (s, h) o w → runs (Read k) (s, h) o w
| runs_ask {R} (c : C R) k r s h o w :
    runs (k r) (s, h ++ [Event c r]) o w → runs (Ask c k) (s, h) o w
| runs_await {R} (c : C R) k w : runs (Await c k) w (Suspended c k) w.

(** The history only grows. *)
Lemma runs_history {A} (p : prog A) w o w' : runs p w o w' → ∃ hs, w'.2 = w.2 ++ hs.
Proof.
  induction 1 as [| | | |R c k r s h o w _ [hs ->]|]; try (by exists []; rewrite app_nil_r); auto.
  exists (Event c r :: hs). cbn. by rewrite <- app_assoc.
Qed.

(** A run taken apart by the form of its program. *)
Lemma runs_form {A} (p : prog A) w o w' : runs p w o w' →
  match p with
  | Ret a => o = Returned a ∧ w' = w
  | Fail e => o = Failed e ∧ w' = w
  | Upd f p => runs p (f w.1, w.2) o w'
  | Read k => runs (k w.1) w o w'
  | Ask c k => ∃ r, runs (k r) (w.1, w.2 ++ [Event c r]) o w'
  | Await c k => o = Suspended c k ∧ w' = w
  end.
Proof. destruct 1; cbn; eauto. Qed.

(** A run of [p], then [k]: [p] returned and [k] ran on, or [p] stopped. *)
Lemma runs_bind {A B} (p : prog A) (k : A → prog B) w o w' : runs (bind p k) w o w' →
  ∃ o1 w1, runs p w o1 w1 ∧
    match o1 with
    | Returned a => runs (k a) w1 o w'
    | Failed e => o = Failed e ∧ w' = w1
    | Suspended c q => o = Suspended c (λ r, bind (q r) k) ∧ w' = w1
    end.
Proof.
  revert w. induction p as [a|e|f p IH|q IH|R c q IH|R c q IH]; intros [s hs] Hr; cbn [bind] in Hr.
  - exists (Returned a), (s, hs). split; [constructor|done].
  - exists (Failed e), (s, hs). split; [constructor|]. by apply runs_form in Hr.
  - apply runs_form in Hr. destruct (IH _ Hr) as (o1 & w1 & H1 & H2). exists o1, w1. split; [by constructor|done].
  - apply runs_form in Hr. destruct (IH _ _ Hr) as (o1 & w1 & H1 & H2). exists o1, w1. split; [by constructor|done].
  - apply runs_form in Hr as [r Hr]. destruct (IH _ _ Hr) as (o1 & w1 & H1 & H2). exists o1, w1.
    split; [by econstructor|done].
  - exists (Suspended c q), (s, hs). split; [constructor|]. by apply runs_form in Hr.
Qed.

Lemma runs_lift {A B} (r : result E A) (k : A → prog B) w o w' : runs (bind (lift r) k) w o w' →
  (∃ a, r = Ok a ∧ runs (k a) w o w') ∨ (∃ e, r = Throw e ∧ o = Failed e ∧ w' = w).
Proof.
  destruct r as [a|e]; [left; by exists a|]. intros [-> ->]%runs_form. right. by exists e.
Qed.

(** ** Running among others *)

(** [execs p w segs o]: [p] runs from [w] in the segments [segs], each from a
    world to a world, until [o]. While it is suspended the rest of the system
    leaves whatever state it likes; the history is that of [p]'s own calls. *)
Inductive execs {A} : prog A → world → list (world * world) → outcome A → Prop :=
| execs_stop p w o w' : runs p w o w' → execs p w [(w, w')] o
| execs_resume p w {R} (c : C R) k w' r s segs o :
    runs p w (Suspended c k) w' → execs (k r) (s, w'.2 ++ [Event c r]) segs o → execs p w ((w, w') :: segs) o.

(** What follows a segment that ended with [o1]. *)
Definition continues {A} (o1 : outcome A) (w' : world) (segs : list (world * world)) (o : outcome A) : Prop :=
  segs = [] ∧ o = o1 ∨
  match o1 with
  | Suspended c k => ∃ r s, execs (k r) (s, w'.2 ++ [Event c r]) segs o
  | _ => False
  end.

Lemma execs_form {A} (p : prog A) w segs o :
  execs p w segs o → ∃ o1 w' segs', runs p w o1 w' ∧ segs = (w, w') :: segs' ∧ continues o1 w' segs' o.
Proof.
  intros [p' w1 o' w' Hr|p' w1 R c k w' r s segs' o' Hr He].
  - exists o', w', []. split_and!; [done|done|by left].
  - exists (Suspended c k), w', segs'. split_and!; [done|done|right]. by exists r, s.
Qed.

(** ** Running with given answers *)

Section segment.
Context (answers : nat → ∀ R, C R → reply E R).

(** The answer to the next call may depend on how many came before. *)
Definition answer {R} (c : C R) (w : world) : reply E R := answers (length w.2) R c.

(** A program up to its next suspension. *)
Fixpoint segment {A} (p : prog A) (w : world) : outcome A * world :=
  match p with
  | Ret a => (Returned a, w)
  | Fail e => (Failed e, w)
  | Upd f p => segment p (f w.1, w.2)
  | Read k => segment (k w.1) w
  | Ask c k => segment (k (answer c w)) (w.1, w.2 ++ [Event c (answer c w)])
  | Await c k => (Suspended c k, w)
  end.

Lemma segment_runs {A} (p : prog A) w : runs p w (segment p w).1 (segment p w).2.
Proof.
  revert w. induction p as [a|e|f p IH|q IH|R c q IH|R c q IH]; intros [s hs]; cbn;
    [apply runs_ret|apply runs_fail|apply runs_upd|apply runs_read|eapply runs_ask|apply runs_await]; apply IH.
Qed.

(** Segment after segment, nobody else at work, [n] suspensions at most. *)
Fixpoint drive {A} (n : nat) (p : prog A) (w : world) : list (world * world) * outcome A :=
  let '(o, w') := segment p w in
  match o, n with
  | Suspended c k, Datatypes.S n =>
      let '(segs, o) := drive n (k (answer c w')) (w'.1, w'.2 ++ [Event c (answer c w')]) in ((w, w') :: segs, o)
  | _, _ => ([(w, w')], o)
  end.

Lemma drive_execs {A} n (p : prog A) w : execs p w (drive n p w).1 (drive n p w).2.
Proof.
  revert p w. induction n as [|n IH]; intros p w; cbn [drive]; pose proof (segment_runs p w) as Hr;
    destruct (segment p w) as [[a|e|R c k] w']; cbn [fst snd] in *; try by constructor.
  specialize (IH (k (answer c w')) (w'.1, w'.2 ++ [Event c (answer c w')])).
  destruct (drive n _ _) as [segs o]. by eapply execs_resume.
Qed.
End segment.

(** ** What a program guarantees *)

(** [wp p ok ko w0 w]: [p], whose current synchronous segment started in [w0]
    and is now in [w], suspends only where [hold c] relates the two, and ends
    with [ok] or [ko] relating them - provided that while it is suspended the
    rest of the system changes the world as [rely] allows. *)
Section wp.
Context (hold : ∀ R, C R → world → world → Prop) (rely : world → world → Prop).

Fixpoint wp {A} (p : prog A) (ok : A → world → world → Prop) (ko : E → world → world → Prop) (w0 w : world) : Prop :=
  match p with
  | Ret a => ok a w0 w
  | Fail e => ko e w0 w
  | Upd f p => wp p ok ko w0 (f w.1, w.2)
  | Read k => wp (k w.1) ok ko w0 w
  | Ask c k => ∀ r, wp (k r) ok ko w0 (w.1, w.2 ++ [Event c r])
  | Await c k => hold _ c w0 w ∧ ∀ w' r, rely w w' → wp (k r) ok ko w' (w'.1, w'.2 ++ [Event c r])
  end.

(** The same of what [p] has become when it stopped. *)
Definition wp_outcome {A} (o : outcome A) (ok : A → world → world → Prop) (ko : E → world → world → Prop)
    (w0 w : world) : Prop :=
  match o with
  | Returned a => ok a w0 w
  | Failed e => ko e w0 w
  | Suspended c k => wp (Await c k) ok ko w0 w
  end.

Lemma wp_runs {A} (p : prog A) ok ko w0 w o w' :
  runs p w o w' → wp p ok ko w0 w → wp_outcome o ok ko w0 w'.
Proof. induction 1; cbn [wp wp_outcome]; auto. Qed.

Lemma wp_bind {A B} (p : prog A) (k : A → prog B) ok ko w0 w :
  wp p (λ a, wp (k a) ok ko) ko w0 w → wp (bind p k) ok ko w0 w.
Proof.
  revert w0 w. induction p as [a|e|f p IH|q IH|R c q IH|R c q IH]; intros w0 w; cbn [wp bind]; auto.
  intros [Hh Hk]. split; [done|]. intros w' r Hr. auto.
Qed.

Lemma wp_catch {A} (p : prog A) (h : E → prog A) ok ko w0 w :
  wp p ok (λ e, wp (h e) ok ko) w0 w → wp (catch p h) ok ko w0 w.
Proof.
  revert w0 w. induction p as [a|e|f p IH|q IH|R c q IH|R c q IH]; intros w0 w; cbn [wp catch]; auto.
  intros [Hh Hk]. split; [done|]. intros w' r Hr. auto.
Qed.

Lemma wp_finally {A} (p : prog A) (q : prog ()) ok ko w0 w :
  wp p (λ a, wp q (λ _, ok a) ko) (λ e, wp q (λ _, ko e) ko) w0 w → wp (finally p q) ok ko w0 w.
Proof.
  revert w0 w. induction p as [a|e|f p IH|k IH|R c k IH|R c k IH]; intros w0 w; cbn [wp finally]; auto using wp_bind.
  intros [Hh Hk]. split; [done|]. intros w' r Hr. auto.
Qed.

Section forms.
Context {A B : Type} (ok : B → world → world → Prop) (ko : E → world → world → Prop) (w0 w : world).

Lemma wp_get (k : S → prog B) : wp (k w.1) ok ko w0 w → wp (bind get k) ok ko w0 w.
Proof. done. Qed.
Lemma wp_assign f (k : () → prog B) : wp (k tt) ok ko w0 (f w.1, w.2) → wp (bind (assign f) k) ok ko w0 w.
Proof. done. Qed.
Lemma wp_lift (r : result E A) (k : A → prog B) :
  (∀ a, r = Ok a → wp (k a) ok ko w0 w) → (∀ e, r = Throw e → ko e w0 w) → wp (bind (lift r) k) ok ko w0 w.
Proof. intros Hk Hf. destruct r; [by apply Hk|by apply Hf]. Qed.
End forms.

Lemma wp_mono {A} (p : prog A) (ok ok' : A → world → world → Prop) (ko ko' : E → world → world → Prop) w0 w :
  (∀ a w0 w, ok a w0 w → ok' a w0 w) → (∀ e w0 w, ko e w0 w → ko' e w0 w) →
  wp p ok ko w0 w → wp p ok' ko' w0 w.
Proof.
  intros Ho Hk. revert w0 w. induction p as [a|e|f p IH|q IH|R c q IH|R c q IH]; intros w0 w; cbn [wp]; auto.
  intros [Hh Hq]. split; [done|]. intros w' r Hr. auto.
Qed.
End wp.
End prog.

Arguments prog S E C A : clear implicits.
Arguments event E C : clear implicits.
Arguments world S E C : clear implicits.
Arguments outcome S E C A : clear implicits.
Arguments Ret {S E C A} a.
Arguments Fail {S E C A} e.
Arguments Upd {S E C A} f p.
Arguments Read {S E C A} k.
Arguments Ask {S E C A R} c k.
Arguments Await {S E C A R} c k.
Arguments Event {E C R} c r.
Arguments Returned {S E C A} a.
Arguments Failed {S E C A} e.
Arguments Suspended {S E C A R} c k.
