(* ===== verification/UtFiles.v ===== *)
(** * The ultimate treasury: attestation files

    The file [recordPendingMint] of [apps/ultimate-treasury/server/send.ts]
    writes for an attestation that is not minted yet, and what
    [loadPendingMints] reads back from it: the JSON text is printed and parsed,
    and the two fit. *)

From S2P Require Import Prelude.
From S2P Require Import Js.
From S2P Require Import Decimal.
From S2P Require Import CreJson.
From S2P Require Import CreParse.
From S2P Require Import Float64.
From S2P Require Import UtIntent.

(** Where a mint happens: Base Sepolia or Arc. *)
Inductive mint_chain : Type := base | arc.

#[global] Instance mint_chain_eq_dec : EqDecision mint_chain.
Proof. solve_decision. Defined.

Record PendingMint : Type := {
  pm_recipient : string; pm_value : Z; pm_dest : option mint_chain;
  pm_attestation : option string; pm_signature : option string }.

(** ** Writing *)

(** [JSON.stringify] of an object whose fields are texts; an undefined one is
    left out. *)
Definition textMember (kv : string * option string) : option string :=
  (λ t, fieldText kv.1 (quoteText t)) <$> kv.2.
Definition stringifyTexts (l : list (string * option string)) : string :=
  "{" +:+ joinWith "," (omap textMember l) +:+ "}".

Definition destText (d : mint_chain) : string := match d with base => "base" | arc => "arc" end.

(** [{ ...p, value: p.value.toString(), savedAt }]: the entries keep the order
    they were given in. *)
Definition attestationMembers (p : PendingMint) (savedAt : string) : list (string * option string) :=
  [("recipient", Some (pm_recipient p)); ("value", Some (pretty (pm_value p)));
   ("dest", destText <$> pm_dest p); ("attestation", pm_attestation p); ("signature", pm_signature p);
   ("savedAt", Some savedAt)].
Definition attestationText (p : PendingMint) (savedAt : string) : string :=
  stringifyTexts (attestationMembers p savedAt).

(** ** Reading *)

Fixpoint radixFrom (b acc : Z) (s : string) : option Z :=
  match s with
  | EmptyString => Some acc
  | String c s =>
      match hexVal c with
      | Some d => if d <? b then radixFrom b (acc * b + d) s else None
      | None => None
      end
  end.
Definition radixText (b : Z) (s : string) : option Z :=
  match s with EmptyString => None | _ => radixFrom b 0 s end.

(** [BigInt(text)]; [None] is its SyntaxError. *)
Definition bigIntOfText (text : string) : option Z :=
  match trim text with
  | EmptyString => Some 0
  | String "0" (String "x" t) | String "0" (String "X" t) => radixText 16 t
  | String "0" (String "o" t) | String "0" (String "O" t) => radixText 8 t
  | String "0" (String "b" t) | String "0" (String "B" t) => radixText 2 t
  | String "-" t => Z.opp <$> radixText 10 t
  | String "+" t => radixText 10 t
  | t => radixText 10 t
  end.

(** [BigInt(v)]; [None] is an exception. *)
Definition bigIntOf (v : jsval) : option Z :=
  match v with
  | VStr s => bigIntOfText s
  | VNum (JInt z) => Some z
  | VBool b => Some (if b then 1 else 0)
  | VArr _ | VObj _ => bigIntOfText (toText v)
  | VNum (JNonInt _) | VNull | VUndefined | VOther _ => None
  end.

(** A text field of a JSON value, absent when it is not text. *)
Definition textField (key : string) (j : jsval) : option string :=
  match prop key j with VStr s => Some s | _ => None end.

Definition destField (j : jsval) : option mint_chain :=
  match textField "dest" j with
  | Some d => if decide (d = "base") then Some base else if decide (d = "arc") then Some arc else None
  | None => None
  end.

(** The [try] of [loadPendingMints]; [None] is its [catch]. The cast to
    [PendingMint] is unchecked: a field of another type than the one declared is
    read as absent, the recipient as the text [undefined]. *)
Definition parseAttestationFile `{NumberText} (text : string) : option PendingMint :=
  j ← JSON_parse numberOf text;
  value ← bigIntOf (prop "value" j);
  Some {| pm_recipient := default "undefined" (textField "recipient" j); pm_value := value;
          pm_dest := destField j; pm_attestation := textField "attestation" j;
          pm_signature := textField "signature" j |}.

(** ** Reading back what was written *)

Lemma stringifyTexts_reads numberOf l :
  NoDup l.*1 →
  JSON_parse numberOf (stringifyTexts l) = Some (VObj (omap (λ kv, (λ t, (kv.1, VStr t)) <$> kv.2) l)).
Proof.
  intros Hnd. apply parse_reads, reads_object.
  - revert Hnd. induction l as [|[k [t|]] l IH]; cbn; rewrite ?NoDup_cons; [constructor| |tauto].
    intros [Hk Hl]. split; [|auto]. intros Hin. apply Hk. revert Hin. clear.
    induction l as [|[k' [t|]] l IH]; cbn; rewrite ?elem_of_cons; tauto.
  - clear Hnd. induction l as [|[k [t|]] l IH]; cbn; [constructor| |done]. constructor; [|done].
    exists (quoteText t). split; [done|apply reads_text].
Qed.

Lemma hexVal_digit c : is_digit c = true → hexVal c = Some (code c - 48).
Proof. unfold hexVal. by intros ->. Qed.

Lemma radix_decimal acc s : str_all is_digit s = true → radixFrom 10 acc s = Some (dec_value_from acc s).
Proof.
  revert acc. induction s as [|c s IH]; intros acc; [done|]. cbn [str_all].
  intros [Hc Hs]%andb_true_iff. cbn [radixFrom dec_value_from]. rewrite hexVal_digit by done.
  pose proof (digit_range c Hc). destruct (Z.ltb_spec (code c - 48) 10); [|lia]. by apply IH.
Qed.

Lemma radix_pretty z : 0 ≤ z → radixText 10 (pretty z) = Some z.
Proof.
  intros Hz. pose proof (pretty_nonempty z). unfold radixText. destruct (pretty z) eqn:E; [done|].
  rewrite <- E, radix_decimal by by apply pretty_digits. by rewrite <- (dec_value_pretty z Hz) at 2.
Qed.

Definition visible (c : ascii) : bool := negb (isSpace c).

Lemma trim_visible s : str_all visible s = true → trim s = s.
Proof.
  intros Hs. unfold trim. assert (trimStart s = s) as ->.
  { destruct s as [|c s]; [done|]. cbn in *. apply andb_true_iff in Hs as [Hc%negb_true_iff _].
    by rewrite Hc. }
  induction s as [|c s IH]; [done|]. cbn [str_all trimEnd] in *.
  apply andb_true_iff in Hs as [Hc%negb_true_iff Hs]. rewrite IH by done. rewrite Hc. by destruct s.
Qed.

Lemma digit_visible c : is_digit c = true → visible c = true.
Proof. intros H%digit_range. unfold visible, isSpace, between. apply negb_true_iff. zify_bool. lia. Qed.

(** The text of an integer is read back whatever follows the first digit. *)
Lemma bigIntOfText_digits s :
  str_all is_digit s = true → s ≠ "" → leading_zero s = false → bigIntOfText s = radixText 10 s.
Proof.
  intros Hd Hne Hz. unfold bigIntOfText.
  rewrite trim_visible by (eapply str_all_impl; [exact digit_visible|done]).
  destruct s as [|c s]; [done|]. cbn [str_all] in Hd. apply andb_true_iff in Hd as [Hc _].
  destruct (Ascii.eqb_spec c "0") as [->|Hc0].
  - by destruct s.
  - clear Hz. destruct c as [[] [] [] [] [] [] [] []]; try discriminate Hc; done.
Qed.

Lemma bigIntOfText_pretty z : bigIntOfText (pretty z) = Some z.
Proof.
  destruct (Z.lt_ge_cases z 0) as [Hz|Hz].
  - rewrite pretty_neg by done. change ("-" +:+ pretty (- z)) with (String "-" (pretty (- z))).
    unfold bigIntOfText. rewrite trim_visible.
    + rewrite radix_pretty by lia. cbn. f_equal. lia.
    + cbn [str_all]. apply andb_true_iff. split; [done|].
      eapply str_all_impl; [exact digit_visible|]. apply pretty_digits. lia.
  - destruct (pretty_Z_decimal z Hz) as [Hd _ Hne Hl]. rewrite bigIntOfText_digits by done.
    by apply radix_pretty.
Qed.

(** The file of an attestation gives back its record, whatever its texts are
    and whenever it was saved. *)
Lemma attestation_roundtrip `{NumberText} p savedAt :
  parseAttestationFile (attestationText p savedAt) = Some p.
Proof.
  unfold parseAttestationFile, attestationText.
  rewrite stringifyTexts_reads by (apply (bool_decide_unpack _); vm_compute; exact I).
  destruct p as [to value dest a sg]. unfold attestationMembers. cbn [pm_recipient pm_value pm_dest
    pm_attestation pm_signature mbind option_bind].
  assert (prop "value" (VObj (omap (λ kv : string * option string, (λ t, (kv.1, VStr t)) <$> kv.2)
    [("recipient", Some to); ("value", Some (pretty value)); ("dest", destText <$> dest);
     ("attestation", a); ("signature", sg); ("savedAt", Some savedAt)])) = VStr (pretty value)) as -> by done.
  cbn [bigIntOf]. rewrite bigIntOfText_pretty. cbn [mbind option_bind].
  by destruct dest as [[]|], a, sg.
Qed.

Example attestation_text_ex :
  attestationText {| pm_recipient := "0x01"; pm_value := 250000; pm_dest := Some base;
                     pm_attestation := Some "0xaa"; pm_signature := None |} "2026-10-04T00:00:00.000Z"
  = "{" +:+ q +:+ "recipient" +:+ q +:+ ":" +:+ q +:+ "0x01" +:+ q +:+ "," +:+ q +:+ "value" +:+ q +:+ ":"
    +:+ q +:+ "250000" +:+ q +:+ "," +:+ q +:+ "dest" +:+ q +:+ ":" +:+ q +:+ "base" +:+ q +:+ ","
    +:+ q +:+ "attestation" +:+ q +:+ ":" +:+ q +:+ "0xaa" +:+ q +:+ "," +:+ q +:+ "savedAt" +:+ q +:+ ":"
    +:+ q +:+ "2026-10-04T00:00:00.000Z" +:+ q +:+ "}".
Proof. reflexivity. Qed.
