(* ===== verification/UtSend.v ===== *)
(** * The ultimate treasury: the send pipeline

    [apps/ultimate-treasury/server/send.ts] and the asynchronous parts of
    [evm.ts] and [solana.ts] it drives, as suspendable programs over the
    module's state. A network request, a signer process and a timer are
    [Await]s; the clock, random bytes and the file system are [Ask]s. A job is
    shared by reference between the table the browser polls and the pipeline
    that runs it: both go through the entry of the table. *)

From S2P Require Import Prelude.
From S2P Require Import Js.
From S2P Require Import Decimal.
From S2P Require Import CreJson.
From S2P Require Import CreParse.
From S2P Require Import Encoding.
From S2P Require Import Abi.
From S2P Require Import Float64.
From S2P Require Import JsMap.
From S2P Require Import UtConfig.
From S2P Require Import UtIntent.
From S2P Require Import UtValidate.
From S2P Require Import Async.
From S2P Require Import UtFiles.

(** ** State *)

(** The module's variables, and the texts of the files [<job id>.json] of the
    attestation directory. *)
Record Server : Type := {
  jobs : list (string * Job);
  running_job : option string;
  policyCache : option (Z * TreasuryPolicy);
  pendingMints : list (string * PendingMint);
  attestationFiles : list (string * string) }.

#[global] Instance eta_server : Eta Server :=
  λ r, {| jobs := jobs r; running_job := running_job r; policyCache := policyCache r;
          pendingMints := pendingMints r; attestationFiles := attestationFiles r |}.

Definition emptyServer : Server :=
  {| jobs := []; running_job := None; policyCache := None; pendingMints := []; attestationFiles := [] |}.

(** ** External calls *)

(** How the signer process ended. *)
Inductive exec_result : Type :=
| ExecOk (stdout : string)
| ExecFailed (code : option Z) (stderr message : string).

Record Receipt : Type := { rc_success : bool; rc_logs : list ReceiptLog }.

Inductive ext : Type → Type :=
| Now : ext Z
| Tick : ext ()                        (* a microtask: resuming an async function *)
| Sleep (ms : Z) : ext ()
| LivePolicy : ext TreasuryPolicy      (* readPolicy(readEvmAddresses()) *)
| IsAllowlisted (recipient : string) : ext bool
| GatewayBalances : ext (option (list GatewayBalanceRow))
| FrostOwnersFile : ext FrostOwners
| RandomId : ext string
| RandomSalt : ext string
| BlockNumber : ext Z
| OwnerSigs (signers : list string) (hash : string) : ext (list string)
| IsValidSignature (hash signature : string) : ext string
| SolanaSlot : ext Z
| FrostGroupKey : ext string
| FrostExec (signers : list string) (message : list Z) (slot : Z) : ext exec_result
| Never : ext Empty_set
| PostTransfer (intent : BurnIntent) (signature : string) (contractSigner : bool) : ext TransferResponse
| Timestamp : ext string               (* new Date().toISOString() *)
| SaveAttestation (job text : string) : ext ()
| RemoveAttestation (job : string) : ext ()
| FeePayerKey : ext string
| BalanceOf (chain : mint_chain) (recipient : string) : ext Z
| WriteMint (chain : mint_chain) (attestation signature : string) : ext string
| WaitReceipt (chain : mint_chain) (hash : string) : ext Receipt.

(** A thrown error: the caller's mistake, or anything else. *)
Inductive send_error : Type :=
| RequestError (e : request_error)
| OtherError (e : ut_error).

Notation send_prog := (prog Server send_error ext).

(** [err.message] and [err.txHash]; the text of a [RequestError] is the
    caller's, never a job's. *)
Definition errorMessage (e : send_error) : string :=
  match e with
  | OtherError (UtError m) => m
  | OtherError (UtMintReverted hash) => "gatewayMint reverted: " +:+ hash
  | RequestError _ => ""
  end.
Definition errorTxHash (e : send_error) : option string :=
  match e with OtherError (UtMintReverted hash) => Some hash | _ => None end.

Definition liftUt {A} (r : result ut_error A) : send_prog A :=
  match r with Ok a => Ret a | Throw e => Fail (OtherError e) end.
Definition liftRequest {A} (r : result request_error A) : send_prog A :=
  match r with Ok a => Ret a | Throw e => Fail (RequestError e) end.

(** [String(number)]: JavaScript's number formatting, for texts shown only. *)
Class ShowNumber : Type := showNumber : num → string.

(** ** Helpers of the pipeline *)

Definition short (s : string) : string :=
  if 600 <? strlen s then String.substring 0 600 s +:+ "…" else s.

(** Assignments to the job object [id]. *)
Definition map_update {V} (id : string) (f : V → V) (m : list (string * V)) : list (string * V) :=
  match map_get id m with Some v => map_set id (f v) m | None => m end.
Definition onJob (id : string) (f : Job → Job) : Server → Server := λ s, s <| jobs ::= map_update id f |>.
Definition updateJob (id : string) (f : Job → Job) : send_prog () := assign (onJob id f).

(** [step(job, key)] is the first step with the key; assignments to it. *)
Fixpoint updateFirst (P : Step → bool) (f : Step → Step) (l : list Step) : list Step :=
  match l with
  | [] => []
  | s :: l => if P s then f s :: l else s :: updateFirst P f l
  end.
Definition onStep (key : step_key) (f : Step → Step) (j : Job) : Job :=
  j <| job_steps ::= updateFirst (λ s, bool_decide (st_key s = key)) f |>.
Definition setState (st : StepState) : Step → Step := λ s, s <| st_state := st |>.
Definition setDetail (d : string) : Step → Step := λ s, s <| st_detail := Some d |>.

Definition refuse (id : string) (at_ : step_key) (text detail : string) : send_prog () :=
  updateJob id (λ j, onStep at_ (λ s, setDetail detail (setState failed s)) j
                       <| job_status := Refused |> <| job_refusal := Some text |>).

Record Ctx : Type := {
  cx_job : string; cx_value : Z; cx_weight : Z; cx_allowlisted : bool;
  cx_thresholdWeight : Z; cx_signers : list string; cx_recipient : string }.

(** ** Attestations that are not minted yet *)

Definition recordPendingMint (jobId : string) (p : PendingMint) : send_prog () :=
  _ ← assign (λ s, s <| pendingMints ::= map_set jobId p |>);
  match truthy (pm_attestation p) with
  | Some _ =>
      savedAt ← ask Timestamp;
      let text := attestationText p savedAt in
      _ ← ask (SaveAttestation jobId text);
      assign (λ s, s <| attestationFiles ::= map_set jobId text |>)
  | None => Ret tt
  end.

Definition clearPendingMint (jobId : string) : send_prog () :=
  _ ← assign (λ s, s <| pendingMints ::= map_delete jobId |>);
  _ ← ask (RemoveAttestation jobId);
  assign (λ s, s <| attestationFiles ::= map_delete jobId |>).

Definition samePayment (recipient : string) (value : Z) (p : PendingMint) : bool :=
  bool_decide (toLowerCase (pm_recipient p) = toLowerCase recipient) && (pm_value p =? value).

Definition assertNoPendingMint (s : Server) (recipient : string) (value : Z) : result request_error () :=
  match List.find (λ ip, samePayment recipient value ip.2) (pendingMints s) with
  | Some (id, _) => Throw (PendingMintExists id)
  | None => mret tt
  end.

(** The module's start: the attestations saved by an earlier run; a file that
    cannot be read is skipped. *)
Definition loadPendingMints `{NumberText} (files : list (string * string)) : Server :=
  emptyServer <| pendingMints := omap (λ '(id, text), (λ p, (id, p)) <$> parseAttestationFile text) files |>
    <| attestationFiles := files |>.

(** ** Mint *)

Section pipeline.
Context `{Viem} `{UtViem} `{NumberText} `{ShowNumber}.

Definition micro (z : Z) : num := num_div_const (num_of_Z z) 1000000.
Definition tokenOf (chain : mint_chain) : string := match chain with base => BASE_USDC | arc => ARC_USDC end.

(** The display poll at the end of [gatewayMint]: at most ten times. *)
Fixpoint pollBalance (fuel : nat) (chain : mint_chain) (recipient : string) (before after : Z) : send_prog Z :=
  match fuel with
  | O => Ret after
  | S fuel =>
      if after =? before then
        _ ← await (Sleep 2000);
        after ← await (BalanceOf chain recipient);
        pollBalance fuel chain recipient before after
      else Ret after
  end.

Definition gatewayMint (chain : mint_chain) (attestation signature : option string) (recipient : string) :
    send_prog (string * Z * Z * Z) :=
  _ ← ask FeePayerKey;
  before ← await (BalanceOf chain recipient);
  '(a, sg) ← liftUt (match attestation, signature with
                     | Some a, Some sg => Ok (a, sg)
                     | _, _ => Throw (UtError "InvalidArgument")
                     end);
  hash ← await (WriteMint chain a sg);
  receipt ← await (WaitReceipt chain hash);
  _ ← liftUt (throw_if (negb (rc_success receipt)) (UtMintReverted hash));
  minted ← liftUt (mintedAmountFromLogs (rc_logs receipt) (tokenOf chain) recipient);
  after ← pollBalance 10 chain recipient before before;
  Ret (hash, before, after, minted).

Definition destinationOf (s : Server) (id : string) : string :=
  match map_get id (jobs s) with Some j => job_destinationChain j | None => "undefined" end.

Definition mintDetail (chain : string) (minted before after expected : Z) : string :=
  let n z := showNumber (micro z) in
  if minted =? expected then
    chain +:+ ": receipt Transfer " +:+ n minted +:+ " USDC to the recipient · balance "
      +:+ n before +:+ " → " +:+ n after
  else
    chain +:+ ": mint receipt succeeded; receipt shows " +:+ n minted +:+ " USDC to the recipient (expected "
      +:+ n expected +:+ "), balance " +:+ n before +:+ " → " +:+ n after +:+ " (public RPCs lag; check the explorer)".

Definition mintStep (ctx : Ctx) (chain : mint_chain) (attestation signature : option string) : send_prog () :=
  let id := cx_job ctx in
  _ ← updateJob id (onStep mint (setState running));
  '(hash, before, after, minted) ← gatewayMint chain attestation signature (cx_recipient ctx);
  _ ← clearPendingMint id;
  s ← get;
  let destination := destinationOf s id in
  updateJob id (λ j,
    onStep mint (λ st, setDetail (mintDetail destination minted before after (cx_value ctx))
                         (setState done st <| st_txHash := Some hash |>
                            <| st_link := Some (EXPLORER destination +:+ hash) |>)) j
      <| job_recipientBalance := Some (showNumber (micro before), showNumber (micro after)) |>
      <| job_status := Minted |>).

(** What [JSON.parse(text) as { attestation, signature }] destructures; a field
    that is not text is read as absent. *)
Definition parseAttestation (text : string) : result ut_error (option string * option string) :=
  match JSON_parse numberOf text with
  | None => Throw (UtError "SyntaxError")
  | Some (VNull | VUndefined) => Throw (UtError "TypeError")
  | Some j => Ok (textField "attestation" j, textField "signature" j)
  end.

Definition accepted (ctx : Ctx) (chain : mint_chain) (text : string) : send_prog (option string * option string) :=
  '(a, sg) ← liftUt (parseAttestation text);
  _ ← recordPendingMint (cx_job ctx)
        {| pm_recipient := cx_recipient ctx; pm_value := cx_value ctx; pm_dest := Some chain;
           pm_attestation := a; pm_signature := sg |};
  Ret (a, sg).

(** ** The two legs *)

Definition ERC1271_MAGIC : string := "0x1626ba7e".
Definition weightText (weight threshold : Z) : string := "weight " +:+ pretty weight +:+ " of " +:+ pretty threshold.
Definition gatewayDetail (r : TransferResponse) : string :=
  "Gateway " +:+ pretty (tr_status r) +:+ ": " +:+ gatewayMessage (tr_text r).
Definition issuedDetail (r : TransferResponse) : string :=
  "Gateway " +:+ pretty (tr_status r) +:+ ": attestation issued".

(** The end both legs share: refuse, or keep the attestation and mint. *)
Definition finishTransfer (ctx : Ctx) (chain : mint_chain) (r : TransferResponse) : send_prog () :=
  let id := cx_job ctx in
  if negb (tr_ok r) then refuse id attestation (tr_text r) (gatewayDetail r)
  else
    att ← accepted ctx chain (tr_text r);
    _ ← updateJob id (onStep attestation (λ s, setDetail (issuedDetail r) (setState done s)));
    mintStep ctx chain att.1 att.2.

Definition approvalDetail (ctx : Ctx) (local : string) : string :=
  joinWith "+" (cx_signers ctx) +:+ " · " +:+ weightText (cx_weight ctx) (cx_thresholdWeight ctx)
    +:+ " · treasury isValidSignature: " +:+ local +:+ " ("
    +:+ (if bool_decide (local = ERC1271_MAGIC) then "valid" else "invalid (policy refuses)") +:+ ")"
    +:+ (if cx_allowlisted ctx then "" else " · recipient not on allowlist").

Definition runEvm (ctx : Ctx) : send_prog () :=
  let id := cx_job ctx in
  _ ← updateJob id (onStep approvals (setState running));
  head ← await BlockNumber;
  salt ← ask RandomSalt;
  let message := evmIntent head salt (cx_recipient ctx) (cx_value ctx) in
  let hash := hashBurnIntent message in
  sigs ← await (OwnerSigs (cx_signers ctx) hash);
  let sig := encodeErc1271 message sigs in
  local ← await (IsValidSignature hash sig);
  _ ← updateJob id (onStep approvals (λ s,
        setDetail (approvalDetail ctx local)
          (setState (if cx_thresholdWeight ctx <=? cx_weight ctx then done else failed) s)));
  _ ← updateJob id (onStep attestation (setState running));
  r ← await (PostTransfer message sig true);
  finishTransfer ctx base r.

(** [text.includes(part)] *)
Fixpoint includes (part text : string) : bool :=
  startsWith part text || match text with EmptyString => false | String _ t => includes part t end.

Inductive FrostResult : Type :=
| FrostSigned (signature : string)
| FrostBelowThreshold (text : string)
| FrostPolicy (text : string).

(** The part of [text] before its first line break. *)
Fixpoint firstLine (text : string) : string :=
  match text with
  | EmptyString => ""
  | String c t => if code c =? 10 then "" else String c (firstLine t)
  end.

(** [JSON.parse(line).reason ?? text], or [text] when that throws. *)
Definition policyDetail (text : string) : string :=
  match JSON_parse numberOf (firstLine text) with
  | None | Some VNull => text
  | Some j => match prop "reason" j with VUndefined | VNull => text | v => toText v end
  end.

(** The callback of [frostSign]; [None] when it throws and the promise is left
    pending. *)
Definition frostReply (r : exec_result) : option (result ut_error FrostResult) :=
  match r with
  | ExecOk stdout =>
      match JSON_parse numberOf stdout with
      | None | Some VNull => None
      | Some j => Some (Ok (FrostSigned (default "" (textField "signature" j))))
      end
  | ExecFailed code stderr message =>
      let text := trim stderr in
      if bool_decide (code = Some 2) || includes "below threshold" text then Some (Ok (FrostBelowThreshold text))
      else if bool_decide (code = Some 3) then Some (Ok (FrostPolicy (policyDetail text)))
      else Some (Throw (UtError ("frost-delegate failed: " +:+ default message (truthy (Some text)))))
  end.

Definition frostSign (signers : list string) (intent : BurnIntent) (slot : Z) : send_prog FrostResult :=
  message ← liftUt (frostMessage intent);
  r ← await (FrostExec signers message slot);
  match frostReply r with
  | Some res => liftUt res
  | None => Await Never (λ _, Fail (OtherError (UtError "pending")))
  end.

(** Gateway's answer while the delegate is not indexed yet: at most 36
    retries of the same intent. *)
Definition notAuthorized (r : TransferResponse) : bool :=
  negb (tr_ok r) && includes "not authorized" (toLowerCase (tr_text r)).
Fixpoint retryTransfer (fuel : nat) (i : Z) (id : string) (intent : BurnIntent) (sig : string)
    (r : TransferResponse) : send_prog TransferResponse :=
  match fuel with
  | O => Ret r
  | S fuel =>
      if notAuthorized r then
        _ ← updateJob id (onStep attestation (setDetail
              ("delegate not indexed by Gateway yet, retrying (" +:+ pretty ((i + 1) * 5) +:+ "s)")));
        _ ← await (Sleep 5000);
        r ← await (PostTransfer intent sig false);
        retryTransfer fuel (i + 1) id intent sig r
      else Ret r
  end.

Definition notAllowlistedText (recipient : string) : string :=
  "Server refused: " +:+ recipient +:+ " is not on the treasury's on-chain allowlist. The Solana vault has no on-chain allowlist; this leg's policy is OFF-CHAIN (this check, then frost-delegate's policy.json) and cannot stop a share majority signing outside it.".

Definition runSolana (ctx : Ctx) : send_prog () :=
  let id := cx_job ctx in
  let weightOf := weightText (cx_weight ctx) (cx_thresholdWeight ctx) in
  let names := joinWith "+" (cx_signers ctx) in
  _ ← updateJob id (onStep approvals (setState running));
  if negb (cx_allowlisted ctx) then
    refuse id approvals (notAllowlistedText (cx_recipient ctx)) "refused before signing (allowlist)"
  else
  slot ← await SolanaSlot;
  groupKey ← ask FrostGroupKey;
  salt ← ask RandomSalt;
  intent ← liftUt (makeSolanaIntent (cx_recipient ctx) (cx_value ctx) (slot + SOLANA_EXPIRY_SLOTS) groupKey salt);
  signed ← frostSign (cx_signers ctx) intent slot;
  match signed with
  | FrostPolicy text =>
      refuse id approvals ("FROST coordinator policy refused the intent: " +:+ text)
        "refused before signing (coordinator policy)"
  | FrostBelowThreshold _ =>
      refuse id approvals
        ("FROST: " +:+ names +:+ " hold fewer than the threshold of shares (" +:+ weightOf
           +:+ "); no Ed25519 signature for the delegate key can exist.")
        (weightOf +:+ ": cannot sign")
  | FrostSigned sig =>
      _ ← updateJob id (onStep approvals (λ s,
            setDetail (names +:+ " · " +:+ weightOf +:+ " · one FROST Ed25519 signature from the delegate key")
              (setState done s)));
      _ ← updateJob id (onStep attestation (setState running));
      r ← await (PostTransfer intent sig false);
      r ← retryTransfer 36 0 id intent sig r;
      finishTransfer ctx arc r
  end.

(** ** Requests *)

Definition policy : send_prog TreasuryPolicy :=
  s ← get;
  let live :=
    p ← await LivePolicy;
    at_ ← ask Now;
    _ ← assign (λ s, s <| policyCache := Some (at_, p) |>);
    Ret p in
  match policyCache s with
  | Some (at_, p) => now ← ask Now; if now - at_ <? 60000 then Ret p else live
  | None => live
  end.

Definition newSteps (first second : StepState) : list Step :=
  let step k l st := {| st_key := k; st_label := l; st_state := st; st_detail := None;
                        st_txHash := None; st_link := None |} in
  [step approvals "Approvals collected" first; step attestation "Gateway attestation" second;
   step mint "Minted" pending].

Definition newJob (id : string) (req : SendRequest) (v : Validated) : Job :=
  {| job_id := id; job_request := req <| sr_signers := Some (va_signers v) |>;
     job_source := va_source v; job_destinationChain := po_destination_chain (POSITIONS (va_source v));
     job_status := Running; job_steps := newSteps pending pending; job_refusal := None;
     job_error := None; job_resumable := false; job_recipientBalance := None |}.

(** [jobs.set(id, job); if (jobs.size > 25) jobs.delete(oldest)] *)
Definition addJob (id : string) (j : Job) (s : Server) : Server :=
  let m := map_set id j (jobs s) in
  s <| jobs := if (25 <? length m)%nat
               then match m with (oldest, _) :: _ => map_delete oldest m | [] => m end
               else m |>.

(** The synchronous end of [startSend]: the job and the work to track. *)
Definition beginSend (req : SendRequest) (pol : TreasuryPolicy) (allowlisted : bool) (balances : Balances)
    (frost : option FrostOwners) : send_prog (string * send_prog ()) :=
  v ← liftRequest (validateSend
        {| vi_req := req; vi_pol := pol; vi_allowlisted := allowlisted; vi_balances := balances;
           vi_frostOwners := frost |});
  let recipient := default "" (sr_recipient req) in
  s ← get;
  _ ← liftRequest (assertNoPendingMint s recipient (va_value v));
  _ ← liftRequest (match running_job s with Some r => Throw (AlreadyRunning r) | None => mret tt end);
  id ← ask RandomId;
  _ ← assign (addJob id (newJob id req v));
  let ctx := {| cx_job := id; cx_value := va_value v; cx_weight := va_weight v; cx_allowlisted := allowlisted;
                cx_thresholdWeight := tp_thresholdWeight pol; cx_signers := va_signers v;
                cx_recipient := recipient |} in
  Ret (id, match va_source v with evm => runEvm ctx | solana => runSolana ctx end).

Definition startSend (req : SendRequest) : send_prog (string * send_prog ()) :=
  pol ← policy;
  _ ← await Tick;
  allowlisted ← (if isAddress (default "" (sr_recipient req))
                 then await (IsAllowlisted (default "" (sr_recipient req))) else Ret false);
  rows ← await GatewayBalances;
  frost ← tryAsk FrostOwnersFile;
  beginSend req pol allowlisted (fetchGatewayBalances rows) frost.

Definition resumedJob (jobId : string) (p : PendingMint) (chain : mint_chain) : Job :=
  let source := match chain with base => evm | arc => solana end in
  {| job_id := jobId;
     job_request := {| sr_asset := Some "USDC"; sr_amount := Some (showNumber (micro (pm_value p)));
                       sr_recipient := Some (pm_recipient p); sr_signers := Some [];
                       sr_source := Some (match chain with base => "evm" | arc => "solana" end);
                       sr_expectRefusal := false |};
     job_source := source;
     job_destinationChain := match chain with base => "Base Sepolia" | arc => "Arc testnet" end;
     job_status := Running; job_steps := newSteps done done; job_refusal := None; job_error := None;
     job_resumable := false; job_recipientBalance := None |}.

Definition resumeMint (jobId : string) : send_prog (string * send_prog ()) :=
  s ← get;
  match map_get jobId (pendingMints s) with
  | Some p =>
      match truthy (pm_attestation p), truthy (pm_signature p), pm_dest p with
      | Some a, Some sg, Some chain =>
          _ ← liftRequest (match running_job s with Some r => Throw (AlreadyRunning r) | None => mret tt end);
          let j := default (resumedJob jobId p chain) (map_get jobId (jobs s)) in
          _ ← assign (λ s, s <| jobs ::= map_set jobId
                (j <| job_status := Running |> <| job_error := None |> <| job_resumable := false |>) |>);
          let ctx := {| cx_job := jobId; cx_value := pm_value p; cx_weight := 0; cx_allowlisted := true;
                        cx_thresholdWeight := 0; cx_signers := []; cx_recipient := pm_recipient p |} in
          Ret (jobId, mintStep ctx chain (Some a) (Some sg))
      | _, _, _ => Fail (RequestError NothingToResume)
      end
  | None => Fail (RequestError NothingToResume)
  end.
End pipeline.

(** ** [track] *)

(** The handler of a failed job. *)
Definition onError (id : string) (e : send_error) (s : Server) : Server :=
  let message := short (errorMessage e) in
  let resumable := match map_get id (pendingMints s) with
                   | Some p => bool_decide (is_Some (truthy (pm_attestation p)))
                   | None => false
                   end in
  onJob id (λ j,
    j <| job_status := Error |>
      <| job_error := Some (if resumable
           then message +:+ " · the attestation is saved: resume the mint (do not send again)" else message) |>
      <| job_steps ::= updateFirst (λ s, bool_decide (st_state s = running))
           (λ s, let s := setDetail message (setState failed s) in
                 match errorTxHash e with Some h => s <| st_txHash := Some h |> | None => s end) |>
      <| job_resumable ::= λ r, resumable || r |>) s.

(** The [finally] of a tracked job. *)
Definition onFinally (id : string) (s : Server) : Server :=
  onJob id (λ j, j <| job_steps ::= map (λ s, if bool_decide (st_state s = pending) then setState skipped s else s) |>) s
    <| running_job := None |>.
