(* ===== verification/UtLegs.v ===== *)
(** * The ultimate treasury: what a running send guarantees

    What the history of external calls says about payments (accepted by
    Gateway, minted), when a job has settled, and the invariant of the table of
    unminted attestations, with what each assignment of the pipeline does to
    them. Then the two legs and the mint ([runEvm], [runSolana], [mint] of
    [server/send.ts]) proved against it, suspension by suspension: whatever the
    network, the signers and the file system answer, and whatever the request
    handlers do meanwhile. *)

From S2P Require Import Prelude.
From S2P Require Import Js.
From S2P Require Import Decimal.
From S2P Require Import CreJson.
From S2P Require Import CreParse.
From S2P Require Import Encoding.
From S2P Require Import Abi.
From S2P Require Import Float64.
From S2P Require Import JsMap.
From S2P Require Import UtConfig.
From S2P Require Import UtIntent.
From S2P Require Import UtWire.
From S2P Require Import UtValidate.
From S2P Require Import Async.
From S2P Require Import UtFiles.
From S2P Require Import UtSend.

Notation send_event := (event send_error ext).
Notation send_world := (world Server send_error ext).

(** ** The history *)

Section history.
Context `{NumberText}.
Implicit Types (e : send_event) (hs : list send_event).

(** A payment: the 32-byte recipient, the amount, Gateway's attestation. *)
Record Payment : Type := { py_to : string; py_value : Z; py_attestation : string }.

Definition intentTo (i : BurnIntent) : string := toLowerCase (ts_destinationRecipient (bi_spec i)).
Definition intentValue (i : BurnIntent) : Z := ts_value (bi_spec i).

(** The attestation the text of an answer carries: JSON with a text that is not
    empty. *)
Definition attestationOf (r : TransferResponse) : option string :=
  match parseAttestation (tr_text r) with Ok (a, _) => truthy a | Throw _ => None end.

(** The payment whose attestation the server has received. It can only keep
    that one: a request Gateway accepted whose answer never arrives, or arrives
    without an attestation that can be read, leaves it nothing to record (see
    [lost_answer_sent_again] of [UtSafety]). *)
Definition attestedPayment (i : BurnIntent) (r : TransferResponse) : option Payment :=
  if tr_ok r then
    (λ a, {| py_to := intentTo i; py_value := intentValue i; py_attestation := a |}) <$> attestationOf r
  else None.

Definition eventPayment e : option Payment :=
  match e with
  | Event c r =>
      match c in ext R return reply send_error R → option Payment with
      | PostTransfer i _ _ => λ r, match r with Value r => attestedPayment i r | Rejects _ => None end
      | _ => λ _, None
      end r
  end.

Definition payments hs : list Payment := omap eventPayment hs.

(** The attestation was submitted and the receipt of the transaction
    succeeded. *)
Definition minted hs (a : string) : Prop :=
  ∃ chain sg hash rc, rc_success rc = true ∧
    Event (WriteMint chain a sg) (Value hash) ∈ hs ∧ Event (WaitReceipt chain hash) (Value rc) ∈ hs.

(** The ids [randomBytes] drew. *)
Definition eventId e : option string :=
  match e with
  | Event c r =>
      match c in ext R return reply send_error R → option string with
      | RandomId => λ r, match r with Value id => Some id | Rejects _ => None end
      | _ => λ _, None
      end r
  end.
Definition drawnIds hs : list string := omap eventId hs.

(** Every attestation file was written, dated. *)
Definition diskFailure e : bool :=
  match e with Event (SaveAttestation _ _) (Rejects _) | Event Timestamp (Rejects _) => true | _ => false end.
Definition disk_ok hs : Prop := Forall (λ e, diskFailure e = false) hs.

Lemma payments_app hs hs' : payments (hs ++ hs') = payments hs ++ payments hs'.
Proof. apply omap_app. Qed.
Lemma drawnIds_app hs hs' : drawnIds (hs ++ hs') = drawnIds hs ++ drawnIds hs'.
Proof. apply omap_app. Qed.
Lemma minted_app hs hs' a : minted hs a → minted (hs ++ hs') a.
Proof.
  intros (chain & sg & hash & rc & Hrc & H1 & H2). exists chain, sg, hash, rc.
  rewrite !elem_of_app. auto.
Qed.
Lemma disk_ok_app hs hs' : disk_ok (hs ++ hs') → disk_ok hs.
Proof. unfold disk_ok. rewrite Forall_app. tauto. Qed.
Lemma minted_now hs chain a sg hash rc :
  rc_success rc = true → Event (WriteMint chain a sg) (Value hash) ∈ hs →
  Event (WaitReceipt chain hash) (Value rc) ∈ hs → minted hs a.
Proof. intros. by exists chain, sg, hash, rc. Qed.

(** ** The table of unminted attestations *)

Definition attestedBy (p : PendingMint) : option string := truthy (pm_attestation p).

(** [p] is the record of payment [y]. *)
Definition records (p : PendingMint) (y : Payment) : Prop :=
  evmHex32 (pm_recipient p) = py_to y ∧ pm_value p = py_value y ∧ attestedBy p = Some (py_attestation y).

(** The invariant of the table, [owed] being the payments just accepted that
    are not in it yet. *)
Record ledger (owed : list Payment) (s : Server) hs : Prop := {
  lo_ids id p : map_get id (pendingMints s) = Some p →
    id ∈ drawnIds hs ∧ isHexBytes 20 (pm_recipient p) = true;
  lo_texts id text : (id, text) ∈ attestationFiles s →
    ∃ p, parseAttestationFile text = Some p ∧ id ∈ drawnIds hs ∧ isHexBytes 20 (pm_recipient p) = true;
  lo_files id p a : disk_ok hs → map_get id (pendingMints s) = Some p → attestedBy p = Some a →
    ∃ text, map_get id (attestationFiles s) = Some text ∧ parseAttestationFile text = Some p;
  lo_paid y : disk_ok hs → y ∈ payments hs →
    y ∈ owed ∨ minted hs (py_attestation y) ∨ ∃ id p, map_get id (pendingMints s) = Some p ∧ records p y }.

Lemma ledger_event owed s hs e :
  ledger owed s hs → ledger (owed ++ option_list (eventPayment e)) s (hs ++ [e]).
Proof.
  intros [H1 H1' H2 H3]. split.
  - intros id p Hp. apply H1 in Hp as [? ?]. rewrite drawnIds_app, elem_of_app. auto.
  - intros id text Hp. apply H1' in Hp as (p & ? & ? & ?). exists p. rewrite drawnIds_app, elem_of_app. auto.
  - intros id p a Hd. apply disk_ok_app in Hd. eauto.
  - intros y Hd. apply disk_ok_app in Hd. rewrite payments_app, !elem_of_app.
    assert (Hy : y ∈ payments [e] → y ∈ option_list (eventPayment e)) by (cbn; by destruct (eventPayment e)).
    intros [[?|[Hm|Hp]]%H3|?]; auto. right. left. by apply minted_app.
Qed.

Lemma ledger_quiet owed s hs e :
  eventPayment e = None → ledger owed s hs → ledger owed s (hs ++ [e]).
Proof. intros He Hl%(ledger_event _ _ _ e). rewrite He in Hl. cbn in Hl. by rewrite app_nil_r in Hl. Qed.

Lemma ledger_quiets owed s hs hs' :
  Forall (λ e, eventPayment e = None) hs' → ledger owed s hs → ledger owed s (hs ++ hs').
Proof.
  intros Hf. revert hs. induction Hf as [|e hs' He Hf IH]; intros hs Hl; [by rewrite app_nil_r|].
  rewrite cons_middle, app_assoc. apply IH. by apply ledger_quiet.
Qed.

(** Only the tables matter. *)
Lemma ledger_same owed s s' hs :
  pendingMints s' = pendingMints s → attestationFiles s' = attestationFiles s → ledger owed s hs → ledger owed s' hs.
Proof. intros E1 E2 [H1 H1' H2 H3]. split; rewrite ?E1, ?E2; auto. Qed.

(** What is read back from files that can all be read. *)
Lemma map_get_loaded id (files : list (string * string)) :
  (∀ i t, (i, t) ∈ files → parseAttestationFile t ≠ None) →
  map_get id (omap (λ '(id, text), (λ p, (id, p)) <$> parseAttestationFile text) files)
  = map_get id files ≫= parseAttestationFile.
Proof.
  induction files as [|[i t] files IH]; intros Hf; [done|].
  pose proof (Hf i t ltac:(left)) as Ht. assert (IH' := IH (λ i t H, Hf i t ltac:(by right))). cbn.
  destruct (parseAttestationFile t) as [p|] eqn:E; [|done]. cbn. case_decide; [by rewrite <- E|done].
Qed.

Lemma ledger_restart s hs : ledger [] s hs → ledger [] (loadPendingMints (attestationFiles s)) hs.
Proof.
  intros [H1 H1' H2 H3]. pose proof (λ id, map_get_loaded id (attestationFiles s)) as Hg.
  assert (Hf : ∀ i t, (i, t) ∈ attestationFiles s → parseAttestationFile t ≠ None).
  { intros i t (p & -> & _)%H1'. done. }
  split; cbn [loadPendingMints set pendingMints attestationFiles].
  - intros id p. rewrite Hg by done. intros (t & Ht%map_get_elem & Hp)%bind_Some.
    apply H1' in Ht as (p' & Hp' & ?). by rewrite Hp in Hp'; injection Hp' as <-.
  - done.
  - intros id p a _. rewrite Hg by done. intros (t & Ht & Hp)%bind_Some _. eauto.
  - intros y Hd Hy. destruct (H3 y Hd Hy) as [?|[?|(id & p & Hp & Hr)]]; [by left|by right; left|].
    right. right. exists id, p. split; [|done]. rewrite Hg by done.
    destruct (H2 id p _ Hd Hp (proj2 (proj2 Hr))) as (t & -> & Ht). exact Ht.
Qed.

(** Recording what was just accepted, under an id not in the table; the file
    is there too unless there is nothing to save or saving it failed. *)
Lemma ledger_record owed s hs id p files' :
  ledger owed s hs → map_get id (pendingMints s) = None → id ∈ drawnIds hs → isHexBytes 20 (pm_recipient p) = true →
  Forall (records p) owed →
  (attestedBy p = None ∨ ¬ disk_ok hs) ∧ files' = attestationFiles s ∨
    (∃ savedAt, files' = map_set id (attestationText p savedAt) (attestationFiles s)) →
  ledger [] (s <| pendingMints := map_set id p (pendingMints s) |> <| attestationFiles := files' |>) hs.
Proof.
  intros [H1 H1' H2 H3] Hnone Hid Hp Howed Hfiles. split; cbn [set pendingMints attestationFiles].
  - intros i r. rewrite map_get_set. case_decide as E; [subst i; by intros [= <-]|eauto].
  - intros i t. destruct Hfiles as [[_ ->]|[savedAt ->]]; [eauto|].
    intros [[= -> ->]|Hin]%map_set_elem; [|eauto]. exists p. by rewrite attestation_roundtrip.
  - intros i r a Hd. rewrite map_get_set. case_decide as E.
    + subst i. intros [= <-] Ha. destruct Hfiles as [[[Hn|Hn] _]|[savedAt ->]]; [congruence|done|].
      exists (attestationText p savedAt). by rewrite map_get_set_eq, attestation_roundtrip.
    + intros Hr Ha. destruct (H2 _ _ _ Hd Hr Ha) as (t & Hf & Ht). exists t. split; [|done].
      destruct Hfiles as [[_ ->]|[savedAt ->]]; [done|]. by rewrite map_get_set_ne.
  - intros y Hd Hy. right. destruct (H3 y Hd Hy) as [Ho|[?|(i & r & Hr & Hy')]]; [|by left|].
    + right. exists id, p. rewrite map_get_set_eq. split; [done|]. by eapply Forall_forall in Howed.
    + right. exists i, r. split; [|done]. rewrite map_get_set_ne; [done|]. congruence.
Qed.

(** Dropping an entry whose attestation was minted. *)
Lemma ledger_clear s hs id p files' :
  ledger [] s hs → map_get id (pendingMints s) = Some p → (∀ a, attestedBy p = Some a → minted hs a) →
  files' = attestationFiles s ∨ files' = map_delete id (attestationFiles s) →
  ledger [] (s <| pendingMints := map_delete id (pendingMints s) |> <| attestationFiles := files' |>) hs.
Proof.
  intros [H1 H1' H2 H3] Hp Hm Hfiles. split; cbn [set pendingMints attestationFiles].
  - intros i r. rewrite map_get_delete. case_decide; eauto; done.
  - intros i t Hin. apply (H1' i t). destruct Hfiles as [->| ->]; [done|]. by apply map_delete_elem in Hin as [? _].
  - intros i r a Hd. rewrite map_get_delete. case_decide; [done|]. intros Hr Ha.
    destruct (H2 _ _ _ Hd Hr Ha) as (t & Hf & Ht). exists t. split; [|done].
    destruct Hfiles as [->| ->]; [done|]. by rewrite map_get_delete, decide_False.
  - intros y Hd Hy. right. destruct (H3 y Hd Hy) as [Ho|[?|(i & r & Hr & Hy')]]; [by apply elem_of_nil in Ho|by left|].
    destruct (decide (id = i)) as [<-|Hne].
    + left. apply Hm. rewrite Hp in Hr. injection Hr as <-. apply Hy'.
    + right. exists i, r. rewrite map_get_delete, decide_False by done. done.
Qed.
End history.

(** ** Jobs *)

Definition wellkeyed (j : Job) : Prop := st_key <$> job_steps j = [approvals; attestation; mint].
(** No step is running, or only [k]. *)
Definition idle (j : Job) : Prop := wellkeyed j ∧ Forall (λ st, st_state st ≠ running) (job_steps j).
Definition busy (k : step_key) (j : Job) : Prop :=
  wellkeyed j ∧ Forall (λ st, st_state st = running → st_key st = k) (job_steps j).

(** A job nobody works on: it has its verdict, no step is left open, and while
    its attestation is not minted it says that the mint can be resumed. *)
Record settled (s : Server) (id : string) (j : Job) : Prop := {
  se_keys : wellkeyed j;
  se_status : job_status j ≠ Running;
  se_steps : Forall (λ st, st_state st ≠ running ∧ st_state st ≠ pending) (job_steps j);
  se_resumable p : map_get id (pendingMints s) = Some p → attestedBy p ≠ None →
    job_status j = Error ∧ job_resumable j = true }.

Definition job_at (id : string) (P : Job → Prop) (s : Server) : Prop :=
  ∀ j, map_get id (jobs s) = Some j → P j.

Lemma map_get_update {V} i id (f : V → V) m :
  map_get i (map_update id f m) = if decide (id = i) then f <$> map_get id m else map_get i m.
Proof.
  unfold map_update. destruct (map_get id m) as [v|] eqn:E.
  - rewrite map_get_set. by case_decide.
  - case_decide; [subst; by rewrite E|done].
Qed.

Lemma wellkeyed_steps j :
  wellkeyed j → ∃ a t m, job_steps j = [a; t; m] ∧ st_key a = approvals ∧ st_key t = attestation ∧ st_key m = mint.
Proof.
  unfold wellkeyed. destruct (job_steps j) as [|a [|t [|m [|? ?]]]]; intros E; try discriminate E.
  cbn in E. injection E as Ea Et Em. eauto 10.
Qed.

(** Assigning to step [k]: [f] keeps the key. *)
Lemma onStep_steps k f j a t m :
  job_steps j = [a; t; m] → st_key a = approvals → st_key t = attestation → st_key m = mint →
  job_steps (onStep k f j) =
    match k with approvals => [f a; t; m] | attestation => [a; f t; m] | mint => [a; t; f m] end.
Proof.
  intros Hj Ha Ht Hm. unfold onStep. cbn [set job_steps]. rewrite Hj. cbn [updateFirst].
  rewrite Ha, Ht, Hm. by destruct k.
Qed.

Lemma onStep_busy k f j :
  (∀ st, st_key (f st) = st_key st) → idle j ∨ busy k j → busy k (onStep k f j).
Proof.
  intros Hf Hj. assert (Hb : busy k j).
  { destruct Hj as [[Hk Hj]|?]; [|done]. split; [done|]. eapply Forall_impl; [exact Hj|]. by intros st ? ?. }
  destruct Hb as [Hk Hb]. destruct (wellkeyed_steps j Hk) as (a & t & m & Hs & Ha & Ht & Hm).
  unfold busy, wellkeyed. rewrite (onStep_steps k f j a t m) by done. rewrite Hs, !Forall_cons in Hb.
  destruct Hb as (Hba & Hbt & Hbm & _).
  destruct k; cbn; rewrite !Forall_cons, ?Hf, Ha, Ht, Hm in *; split_and!; auto; congruence.
Qed.

Lemma onStep_idle k f j :
  (∀ st, st_key (f st) = st_key st) → (∀ st, st_state (f st) ≠ running) → idle j ∨ busy k j → idle (onStep k f j).
Proof.
  intros Hf Hr Hj. assert (Hb : busy k j).
  { destruct Hj as [[Hk Hj]|?]; [|done]. split; [done|]. eapply Forall_impl; [exact Hj|]. by intros st ? ?. }
  destruct Hb as [Hk Hb]. destruct (wellkeyed_steps j Hk) as (a & t & m & Hs & Ha & Ht & Hm).
  unfold idle, wellkeyed. rewrite (onStep_steps k f j a t m) by done. rewrite Hs, !Forall_cons in Hb.
  destruct Hb as (Hba & Hbt & Hbm & _).
  destruct k; cbn; rewrite !Forall_cons, ?Hf, Ha, Ht, Hm in *; split_and!; auto;
    intros E; try specialize (Hba E); try specialize (Hbt E); try specialize (Hbm E); discriminate.
Qed.

(** ** How a tracked job ends *)

(** What the pipeline leaves behind when it ended with a verdict. *)
Record verdict (s : Server) (id : string) (j : Job) : Prop := {
  vt_idle : idle j;
  vt_status : job_status j ≠ Running;
  vt_resumable p : map_get id (pendingMints s) = Some p → attestedBy p ≠ None →
    job_status j = Error ∧ job_resumable j = true }.

Lemma job_at_onJob id f P s : job_at id (λ j, P (f j)) s → job_at id P (onJob id f s).
Proof.
  intros Hj j. unfold onJob. cbn [set jobs]. rewrite map_get_update, decide_True by done.
  destruct (map_get id (jobs s)) as [j'|] eqn:E; [|done]. cbn. intros [= <-]. by apply Hj.
Qed.

Lemma onError_verdict k id e s : job_at id (busy k) s → job_at id (verdict (onError id e s) id) (onError id e s).
Proof.
  intros Hj. apply job_at_onJob. intros j Hget. apply Hj in Hget as [Hk Hb].
  destruct (wellkeyed_steps j Hk) as (a & t & m & Hs & Ha & Ht & Hm).
  rewrite Hs, !Forall_cons in Hb. destruct Hb as (Hba & Hbt & Hbm & _).
  split; cbn; [|done|].
  - unfold idle, wellkeyed. cbn. rewrite Hs. cbn [updateFirst].
    repeat case_bool_decide; destruct (errorTxHash e); cbn; rewrite ?Forall_cons; cbn;
      (split; [congruence|]); split_and!; try done; intros ?; naive_solver congruence.
  - intros p -> Hp. split; [done|]. unfold attestedBy in Hp. rewrite bool_decide_true; [done|].
    by apply not_eq_None_Some.
Qed.

Lemma onFinally_settled id s :
  job_at id (verdict s id) s → job_at id (settled (onFinally id s) id) (onFinally id s).
Proof.
  intros Hj. unfold onFinally. intros j Hget. revert j Hget. apply job_at_onJob. intros j Hget.
  apply Hj in Hget as [[Hk Hi] Hstat Hr]. split; cbn; [|done| |done].
  - unfold wellkeyed. cbn. rewrite <- Hk, <- list_fmap_compose. apply list_fmap_ext. intros _ st _. cbn.
    by case_bool_decide.
  - apply Forall_map. eapply Forall_impl; [exact Hi|]. intros st Hst. cbn.
    case_bool_decide as E; cbn; [done|]. by split.
Qed.

(** Other jobs are not touched. *)
Lemma jobs_onError i id e s : i ≠ id → map_get i (jobs (onError id e s)) = map_get i (jobs s).
Proof. intros. cbn. by rewrite map_get_update, decide_False. Qed.
Lemma jobs_onFinally i id s : i ≠ id → map_get i (jobs (onFinally id s)) = map_get i (jobs s).
Proof. intros. cbn. by rewrite map_get_update, decide_False. Qed.

(** ** Recipients *)

Lemma lower_app s t : toLowerCase (s +:+ t) = toLowerCase s +:+ toLowerCase t.
Proof. induction s as [|c s IH]; [done|]. rewrite string_app_cons. cbn [toLowerCase]. by rewrite IH. Qed.

Lemma lower_zeros n : toLowerCase (zeros n) = zeros n.
Proof. induction n as [|n IH]; [done|]. cbn [zeros toLowerCase]. by rewrite IH. Qed.

(** The 32-byte recipient of an address tells its lower-case text. *)
Lemma evmHex32_lower a b :
  isHexBytes 20 a = true → isHexBytes 20 b = true → toLowerCase a = toLowerCase b ↔ evmHex32 a = evmHex32 b.
Proof.
  unfold evmHex32. intros Ha Hb. split; [by intros ->|].
  apply isHexBytes_split in Ha as (ta & -> & Hla & _). apply isHexBytes_split in Hb as (tb & -> & Hlb & _).
  change (strip0x (toLowerCase (String "0" (String "x" ta)))) with (toLowerCase ta).
  change (strip0x (toLowerCase (String "0" (String "x" tb)))) with (toLowerCase tb).
  unfold padStart0. rewrite !strlen_lower, Hla, Hlb.
  intros E%(inj _)%(inj _). cbn [toLowerCase]. by rewrite E.
Qed.

Lemma evmHex32_is_lower a : isHexBytes 20 a = true → toLowerCase (evmHex32 a) = evmHex32 a.
Proof.
  intros (t & -> & Hl & _)%isHexBytes_split. unfold evmHex32.
  change (strip0x (toLowerCase (String "0" (String "x" t)))) with (toLowerCase t).
  unfold padStart0. by rewrite !lower_app, lower_zeros, toLowerCase_idem.
Qed.

Lemma b32_address `{UtViemLaws} a : isHexBytes 20 a = true → b32 a = evmHex32 a.
Proof.
  intros (t & -> & Hl & _)%isHexBytes_split. unfold b32, evmHex32.
  change (strip0x (toLowerCase (String "0" (String "x" t)))) with (toLowerCase t).
  change (String "0" (String "x" t)) with ("0x" +:+ t). rewrite padHex_digits by lia.
  unfold padStart0. by rewrite !lower_app, lower_zeros, strlen_lower.
Qed.

(** ** The legs and the mint *)

Section legs.
Context `{Viem} `{UtViemLaws} `{NumberText} `{ShowNumber}.
Implicit Types (w : send_world).

(** ** What the rest of the server does while a call is pending *)

(** Nothing but refreshing the policy, and calls that commit no payment. *)
Record rely (w w' : send_world) : Prop := {
  re_jobs : jobs w'.1 = jobs w.1;
  re_pending : pendingMints w'.1 = pendingMints w.1;
  re_files : attestationFiles w'.1 = attestationFiles w.1;
  re_history : ∃ hs, w'.2 = w.2 ++ hs ∧ Forall (λ e, eventPayment e = None) hs }.

#[global] Instance rely_preorder : PreOrder rely.
Proof.
  split.
  - intros w. split; [done..|]. exists []. by rewrite app_nil_r.
  - intros w1 w2 w3 [J1 P1 F1 (h1 & E1 & G1)] [J2 P2 F2 (h2 & E2 & G2)].
    split; [congruence..|]. exists (h1 ++ h2). rewrite E2, E1, app_assoc. split; [done|]. by apply Forall_app.
Qed.

(** A request to Gateway only goes out when every payment accepted so far to
    the same recipient and of the same amount is minted. *)
Definition posting_ok {R} (c : ext R) w : Prop :=
  match c with
  | PostTransfer i _ _ =>
      disk_ok w.2 → ∀ y, y ∈ payments w.2 → py_to y = intentTo i → py_value y = intentValue i →
      minted w.2 (py_attestation y)
  | _ => True
  end.

(** ** The stages of a job *)

Section job.
Context (id : string).

Definition others (s : Server) : Prop := ∀ i j, i ≠ id → map_get i (jobs s) = Some j → settled s i j.

(** Job [id] has the id it drew, its record in the table is as [T] says, its
    steps as [K] says; [owed] was just accepted, [evs] happened. *)
Record stage (owed : list Payment) (T : list (string * PendingMint) → Prop) (evs : list send_event)
    (K : Job → Prop) (w0 w : send_world) : Prop := {
  sg_running : running_job w.1 = running_job w0.1;
  sg_ledger : ledger owed w.1 w.2;
  sg_id : id ∈ drawnIds w.2;
  sg_table : T (pendingMints w.1);
  sg_events : Forall (λ e, e ∈ w.2) evs;
  sg_job : job_at id K w.1;
  sg_others : others w.1 }.

Definition any {A} (a : A) : Prop := True.
Definition hold {R} (c : ext R) (w0 w : send_world) : Prop := stage [] any [] any w0 w ∧ posting_ok c w.

Definition unrecorded (m : list (string * PendingMint)) : Prop :=
  ∀ p, map_get id m = Some p → attestedBy p = None.
Definition ended (w0 w : send_world) : Prop := stage [] unrecorded [] (λ j, idle j ∧ job_status j ≠ Running) w0 w.
Definition broke (w0 w : send_world) : Prop := ∃ k, stage [] any [] (busy k) w0 w.

Definition W {A} (p : send_prog A) (Q : A → send_world → send_world → Prop) : send_world → send_world → Prop :=
  wp (@hold) rely p Q (λ _, broke).

Lemma stage_weaken owed T T' evs evs' (K K' : Job → Prop) w0 w :
  (∀ m, T m → T' m) → evs' ⊆ evs → (∀ j, K j → K' j) → stage owed T evs K w0 w → stage owed T' evs' K' w0 w.
Proof.
  intros HT He HK [G1 G2 G3 G4 G5 G6 G7]. split; auto.
  - apply Forall_forall. intros e Hin. rewrite Forall_forall in G5. auto.
  - intros j Hj. auto.
Qed.

Lemma idle_busy k j : idle j → busy k j.
Proof. intros [Hk Hj]. split; [done|]. eapply Forall_impl; [exact Hj|]. by intros st ? ?. Qed.

Lemma stage_broke T evs k w0 w : stage [] T evs (busy k) w0 w → broke w0 w.
Proof. intros Hs. exists k. eapply stage_weaken; [done|apply list_subseteq_nil|done|exact Hs]. Qed.
Lemma stage_idle_broke T evs w0 w : stage [] T evs idle w0 w → broke w0 w.
Proof. intros Hs. eapply (stage_broke T evs mint), stage_weaken; [done|done|apply idle_busy|exact Hs]. Qed.

Lemma stage_hold T evs K w0 w : stage [] T evs K w0 w → stage [] any [] any w0 w.
Proof. apply stage_weaken; [done|apply list_subseteq_nil|done]. Qed.

Lemma stage_reply owed T evs K w0 w e :
  stage owed T evs K w0 w → stage (owed ++ option_list (eventPayment e)) T (e :: evs) K w0 (w.1, w.2 ++ [e]).
Proof.
  intros [G1 G2 G3 G4 G5 G6 G7]. split; cbn; auto.
  - by apply ledger_event.
  - rewrite drawnIds_app, elem_of_app. auto.
  - constructor; [set_solver|]. eapply Forall_impl; [exact G5|]. set_solver.
Qed.

Lemma stage_quiet owed T evs K w0 w e :
  stage owed T evs K w0 w → eventPayment e = None → stage owed T evs K w0 (w.1, w.2 ++ [e]).
Proof.
  intros Hs He. apply (stage_reply _ _ _ _ _ _ e) in Hs. rewrite He in Hs. cbn in Hs. rewrite app_nil_r in Hs.
  eapply stage_weaken, Hs; set_solver.
Qed.

Lemma stage_quiets owed T evs K w0 w hs :
  stage owed T evs K w0 w → Forall (λ e, eventPayment e = None) hs → stage owed T evs K w0 (w.1, w.2 ++ hs).
Proof.
  intros [G1 G2 G3 G4 G5 G6 G7] Hhs. split; cbn; auto.
  - by apply ledger_quiets.
  - rewrite drawnIds_app, elem_of_app. auto.
  - eapply Forall_impl; [exact G5|]. set_solver.
Qed.

Lemma stage_rely owed T evs K w0 w w' : stage owed T evs K w0 w → rely w w' → stage owed T evs K w' w'.
Proof.
  intros [G1 G2 G3 G4 G5 G6 G7] [R1 R2 R3 (hs & R4 & Hq)]. split; rewrite ?R4; auto.
  - eapply ledger_same; [exact R2|exact R3|]. by apply ledger_quiets.
  - rewrite drawnIds_app, elem_of_app. auto.
  - by rewrite R2.
  - eapply Forall_impl; [exact G5|]. set_solver.
  - intros j. rewrite R1. apply G6.
  - intros i j Hi. rewrite R1. intros Hj. destruct (G7 i j Hi Hj). split; auto. by rewrite R2.
Qed.

Lemma stage_job owed T evs (K K' : Job → Prop) f w0 w :
  (∀ j, K j → K' (f j)) → stage owed T evs K w0 w → stage owed T evs K' w0 (onJob id f w.1, w.2).
Proof.
  intros Hf [G1 G2 G3 G4 G5 G6 G7]. split; try done.
  - by eapply ledger_same, G2.
  - apply job_at_onJob. intros j Hj. auto.
  - intros i j Hi Hj. unfold onJob in Hj. cbn in Hj. rewrite map_get_update, decide_False in Hj by done.
    destruct (G7 i j Hi Hj). by split.
Qed.

(** A change of the tables under the job's own id. *)
Lemma stage_tables owed owed' T (T' : list (string * PendingMint) → Prop) evs K w0 w pending' files' :
  stage owed T evs K w0 w → ledger owed' (w.1 <| pendingMints := pending' |> <| attestationFiles := files' |>) w.2 →
  T' pending' → (∀ i, i ≠ id → map_get i pending' = map_get i (pendingMints w.1)) →
  stage owed' T' evs K w0 (w.1 <| pendingMints := pending' |> <| attestationFiles := files' |>, w.2).
Proof.
  intros [G1 G2 G3 G4 G5 G6 G7] Hl HT Hne. split; try done.
  intros i j Hi Hj. destruct (G7 i j Hi Hj) as [S1 S2 S3 S4]. split; auto. cbn. rewrite Hne by done. exact S4.
Qed.

(** ** Rules *)

Lemma W_update {A} owed T evs K K' f (k : () → send_prog A) Q w0 w :
  stage owed T evs K w0 w → (∀ j, K j → K' (f j)) →
  (∀ w', stage owed T evs K' w0 w' → W (k tt) Q w0 w') → W (updateJob id f ≫= k) Q w0 w.
Proof. intros Hs Hf Hk. apply Hk. by eapply stage_job. Qed.

Lemma W_lift {A B} (r : result ut_error A) (k : A → send_prog B) T evs key Q w0 w :
  stage [] T evs (busy key) w0 w → (∀ a, r = Ok a → W (k a) Q w0 w) → W (liftUt r ≫= k) Q w0 w.
Proof. intros Hs Hk. destruct r as [a|e]; [by apply Hk|]. by eapply stage_broke. Qed.

Definition quiet {R} (c : ext R) : Prop := ∀ r, eventPayment (Event c r) = None.

Lemma W_ask {A R} (c : ext R) (k : R → send_prog A) T evs key Q w0 w :
  stage [] T evs (busy key) w0 w → quiet c →
  (∀ v w', stage [] T evs (busy key) w0 w' → W (k v) Q w0 w') → W (ask c ≫= k) Q w0 w.
Proof.
  intros Hs Hc Hk r. assert (Hs' : stage [] T evs (busy key) w0 (w.1, w.2 ++ [Event c r])).
  { apply (stage_reply _ _ _ _ _ _ (Event c r)) in Hs. rewrite Hc in Hs. eapply stage_weaken, Hs; set_solver. }
  destruct r as [v|e]; [by apply Hk|]. by eapply stage_broke.
Qed.

Lemma W_await_event {A R} (c : ext R) (k : R → send_prog A) T evs key Q w0 w :
  stage [] T evs (busy key) w0 w → posting_ok c w →
  (∀ v w1 w', stage (option_list (eventPayment (Event c (Value v)))) T (Event c (Value v) :: evs) (busy key) w1 w' →
     W (k v) Q w1 w') →
  (∀ e, eventPayment (Event c (Rejects e)) = None) →
  W (await c ≫= k) Q w0 w.
Proof.
  intros Hs Hp Hk He. split; [split; [by eapply stage_hold|done]|]. intros w' r Hr.
  pose proof (stage_reply _ _ _ _ _ _ (Event c r) (stage_rely _ _ _ _ _ _ _ Hs Hr)) as Hs'.
  destruct r as [v|e]; [by apply Hk|]. rewrite He in Hs'. by eapply stage_broke.
Qed.
Lemma W_await {A R} (c : ext R) (k : R → send_prog A) T evs key Q w0 w :
  stage [] T evs (busy key) w0 w → quiet c → (∀ w, posting_ok c w) →
  (∀ v w1 w', stage [] T evs (busy key) w1 w' → W (k v) Q w1 w') → W (await c ≫= k) Q w0 w.
Proof.
  intros Hs Hc Hp Hk. eapply W_await_event; [done..| |auto]. intros v w1 w' Hs'. apply Hk. rewrite Hc in Hs'.
  eapply stage_weaken, Hs'; set_solver.
Qed.

Lemma W_bind {A B} (p : send_prog A) (k : A → send_prog B) Q w0 w :
  W p (λ a, W (k a) Q) w0 w → W (p ≫= k) Q w0 w.
Proof. apply wp_bind. Qed.

(** ** The mint *)

(** The record of the job holds attestation [a]. *)
Definition kept (a : option string) (m : list (string * PendingMint)) : Prop :=
  ∃ p, map_get id m = Some p ∧ pm_attestation p = a.

Lemma W_pollBalance fuel chain recipient before after T evs key Q w0 w :
  stage [] T evs (busy key) w0 w →
  (∀ v w1 w', stage [] T evs (busy key) w1 w' → Q v w1 w') →
  W (pollBalance fuel chain recipient before after) Q w0 w.
Proof.
  intros Hs HQ. revert after w0 w Hs. induction fuel as [|fuel IH]; intros after w0 w Hs; [by apply HQ|].
  cbn [pollBalance]. destruct (after =? before); [|by apply HQ].
  eapply W_await; [done..|]. intros _ w1 w2 Hs2. eapply W_await; [done..|]. intros v w3 w4 Hs4. by apply IH.
Qed.

Lemma W_gatewayMint chain a sg recipient T key Q w0 w :
  stage [] T [] (busy key) w0 w →
  (∀ v at_ w1 w', a = Some at_ → minted w'.2 at_ → stage [] T [] (busy key) w1 w' → Q v w1 w') →
  W (gatewayMint chain a sg recipient) Q w0 w.
Proof.
  intros Hs HQ. unfold gatewayMint. eapply W_ask; [done..|]. clear dependent w. intros _ w Hs.
  eapply W_await; [done..|]. clear dependent w0 w. intros before w0 w Hs.
  eapply W_lift; [done|]. intros [at_ sg'] Ha. assert (a = Some at_) as -> by (destruct a, sg; by simplify_eq).
  eapply W_await_event; [done..| |done]. clear dependent w0 w. intros hash w0 w Hs.
  eapply W_await_event; [done..| |done]. clear dependent w0 w. intros receipt w0 w Hs.
  eapply W_lift; [done|]. intros _ Hrc%throw_if_ok%negb_false_iff.
  eapply W_lift; [done|]. intros amount _. apply W_bind. eapply W_pollBalance; [done|].
  clear dependent w0 w. intros after w0 w Hs. eapply HQ; [done| |].
  - pose proof (sg_events _ _ _ _ _ _ Hs) as He. rewrite !Forall_cons in He. destruct He as (He1 & He2 & _).
    by eapply minted_now.
  - eapply stage_weaken, Hs; set_solver.
Qed.

Lemma W_clear a key (k : () → send_prog ()) Q w0 w :
  stage [] (kept (Some a)) [] (busy key) w0 w → minted w.2 a →
  (∀ w', stage [] unrecorded [] (busy key) w0 w' → W (k tt) Q w0 w') → W (clearPendingMint id ≫= k) Q w0 w.
Proof.
  intros Hs Hm Hk. destruct (sg_table _ _ _ _ _ _ Hs) as (p & Hp & Ha).
  set (pending' := map_delete id (pendingMints w.1)).
  assert (Hs1 : ∀ files' r, files' = attestationFiles w.1 ∨ files' = map_delete id (attestationFiles w.1) →
    stage [] unrecorded [] (busy key) w0 (w.1 <| pendingMints := pending' |> <| attestationFiles := files' |>,
      w.2 ++ [Event (RemoveAttestation id) r])).
  { intros files' r Hf. apply (stage_quiet _ _ _ _ _ (_, w.2)); [|done]. eapply stage_tables; [exact Hs| | |].
    - eapply ledger_clear; [apply Hs|exact Hp| |exact Hf]. intros a' Ha'. unfold attestedBy in Ha'. rewrite Ha in Ha'.
      cbn in Ha'. destruct a; [done|]. injection Ha' as <-. done.
    - intros q. unfold pending'. rewrite map_get_delete. by case_decide.
    - intros i Hi. unfold pending'. rewrite map_get_delete. by case_decide. }
  intros [[]|e].
  - apply Hk, Hs1. by right.
  - eapply stage_broke, (Hs1 (attestationFiles w.1)). by left.
Qed.

Lemma W_mintStep ctx chain a sg w0 w :
  cx_job ctx = id → stage [] (kept a) [] idle w0 w → W (mintStep ctx chain a sg) (λ _, ended) w0 w.
Proof.
  intros Hid Hs. unfold mintStep. rewrite Hid. eapply W_update; [done| |].
  { intros j Hj. apply (onStep_busy mint); [done|by left]. }
  clear dependent w. intros w Hs. apply W_bind. eapply W_gatewayMint; [done|].
  clear dependent w0 w. intros [[[hash before] after] amount] at_ w0 w -> Hm Hs.
  eapply W_clear; [done..|]. clear dependent w. intros w Hs.
  cbn [mbind prog_bind get bind]. unfold W. cbn [wp]. eapply stage_job; [|exact Hs].
  intros j Hj. cbn. split; [|done]. apply (onStep_idle mint); [done..|by right].
Qed.

(** ** Gateway's answer *)

Section transfer.
Context (recipient : string) (value : Z) (Hrecipient : isHexBytes 20 recipient = true).

(** Nothing recorded under the job's id, nor for the same payment. *)
Definition fresh_payment (m : list (string * PendingMint)) : Prop :=
  map_get id m = None ∧ ∀ i p, map_get i m = Some p → samePayment recipient value p = false.

Definition same_payment (i : BurnIntent) : Prop := intentTo i = evmHex32 recipient ∧ intentValue i = value.

Lemma posting_fresh i sg cs evs K w0 w :
  same_payment i → stage [] fresh_payment evs K w0 w → posting_ok (PostTransfer i sg cs) w.
Proof.
  intros [Hto Hval] Hs Hd y Hy Eto Eval.
  destruct (lo_paid _ _ _ (sg_ledger _ _ _ _ _ _ Hs) y Hd Hy) as [Ho|[?|(j & p & Hp & Hr1 & Hr2 & _)]];
    [by apply elem_of_nil in Ho|done|].
  pose proof (proj2 (sg_table _ _ _ _ _ _ Hs) j p Hp) as Hne. unfold samePayment in Hne.
  rewrite Hr2, Eval, Hval, Z.eqb_refl, andb_true_r in Hne. apply bool_decide_eq_false in Hne. destruct Hne.
  apply evmHex32_lower; [|done|congruence].
  by apply (lo_ids _ _ _ (sg_ledger _ _ _ _ _ _ Hs) j).
Qed.

Lemma W_post {A} i sg cs (k : TransferResponse → send_prog A) key Q w0 w :
  same_payment i → stage [] fresh_payment [] (busy key) w0 w →
  (∀ r w1 w', stage (option_list (attestedPayment i r)) fresh_payment [] (busy key) w1 w' → W (k r) Q w1 w') →
  W (await (PostTransfer i sg cs) ≫= k) Q w0 w.
Proof.
  intros Hi Hs Hk. eapply W_await_event; [done|by eapply posting_fresh| |done]. intros r w1 w' Hs'.
  apply Hk. eapply stage_weaken, Hs'; set_solver.
Qed.
Lemma W_refuse key text detail T evs w0 w :
  (∀ m, T m → map_get id m = None) → stage [] T evs (busy key) w0 w →
  W (refuse id key text detail) (λ _, ended) w0 w.
Proof.
  intros HT Hs. unfold refuse. cbn [updateJob]. unfold W. cbn [updateJob assign wp].
  eapply stage_job; [|eapply stage_weaken, Hs]; [|intros m Hm p; by rewrite (HT m Hm)|set_solver|exact (λ _ Hj, Hj)].
  intros j Hj. cbn. split; [|done]. apply (onStep_idle key); [done..|by right].
Qed.

(** The record of a payment just accepted, memory first, then disk. *)
Lemma W_record {A} ctx p owed key (k : () → send_prog A) Q w0 w :
  cx_job ctx = id → pm_recipient p = recipient → Forall (records p) owed → (attestedBy p = None → owed = []) →
  stage owed fresh_payment [] (busy key) w0 w →
  (∀ w', stage [] (kept (pm_attestation p)) [] (busy key) w0 w' → W (k tt) Q w0 w') →
  W (recordPendingMint (cx_job ctx) p ≫= k) Q w0 w.
Proof.
  intros -> Hto Howed Hnone Hs Hk. set (pending' := map_set id p (pendingMints w.1)).
  assert (Hs1 : ∀ hs files', Forall (λ e, eventPayment e = None) hs →
    (attestedBy p = None ∨ ¬ disk_ok (w.2 ++ hs)) ∧ files' = attestationFiles w.1 ∨
      (∃ savedAt, files' = map_set id (attestationText p savedAt) (attestationFiles w.1)) →
    stage [] (kept (pm_attestation p)) [] (busy key) w0
      (w.1 <| pendingMints := pending' |> <| attestationFiles := files' |>, w.2 ++ hs)).
  { intros hs files' Hhs Hf.
    assert (Hs' : stage owed fresh_payment [] (busy key) w0 (w.1, w.2 ++ hs)) by by apply stage_quiets.
    apply (stage_tables _ _ _ _ _ _ _ (_, _) _ _ Hs').
    - eapply ledger_record; [apply Hs'|apply Hs|apply Hs'|by rewrite Hto|done|done].
    - exists p. unfold pending'. by rewrite map_get_set_eq.
    - intros i Hi. unfold pending'. by rewrite map_get_set_ne. }
  assert (Hfail : ∀ hs e, diskFailure e = true → ¬ disk_ok ((w.2 ++ hs) ++ [e])).
  { intros hs e He [_ Hd]%Forall_app. rewrite Forall_singleton, He in Hd. done. }
  unfold recordPendingMint. destruct (truthy (pm_attestation p)) as [a|] eqn:Ea.
  - intros [savedAt|e].
    + intros [[]|e]; cbn [fst snd].
      * apply Hk. unfold disk_ok in *. cbn. rewrite <- app_assoc. apply Hs1; [by repeat constructor|by right; exists savedAt].
      * cbn. rewrite <- app_assoc. eapply stage_broke, (Hs1 _ (attestationFiles w.1)); [by repeat constructor|].
        left. split; [right|done]. rewrite app_assoc. by apply Hfail.
    + eapply stage_broke, (Hs1 _ (attestationFiles w.1)); [by repeat constructor|].
      left. split; [right|done]. rewrite <- (app_nil_r w.2). by apply Hfail.
  - apply Hk. pose proof (Hs1 [] (attestationFiles w.1) (Forall_nil_2 _)) as Hs2. rewrite app_nil_r in Hs2.
    apply Hs2. auto.
Qed.

Lemma W_finishTransfer ctx chain i r w0 w :
  cx_job ctx = id → cx_recipient ctx = recipient → cx_value ctx = value → same_payment i →
  stage (option_list (attestedPayment i r)) fresh_payment [] (busy attestation) w0 w →
  W (finishTransfer ctx chain r) (λ _, ended) w0 w.
Proof.
  intros Hid Hto Hval [Ei1 Ei2] Hs. unfold finishTransfer, attestedPayment, attestationOf in *. rewrite Hid.
  destruct (tr_ok r); cbn [negb].
  2: { eapply W_refuse; [|exact Hs]. by intros m [? _]. }
  apply W_bind. unfold accepted. destruct (parseAttestation (tr_text r)) as [[a sg]|e] eqn:Ep.
  2: { by eapply stage_broke. }
  change (W (recordPendingMint (cx_job ctx) {| pm_recipient := cx_recipient ctx; pm_value := cx_value ctx;
    pm_dest := Some chain; pm_attestation := a; pm_signature := sg |} ≫= λ _, Ret (a, sg))
    (λ att, W (updateJob id (onStep attestation (λ s, setDetail (issuedDetail r) (setState done s))) ≫=
      λ _, mintStep ctx chain att.1 att.2) (λ _, ended)) w0 w).
  eapply W_record; [done..| | |exact Hs|].
  - destruct (truthy a) as [a'|] eqn:Ea; [|constructor]. cbn. rewrite Forall_singleton. split; cbn; [congruence|].
    split; [congruence|done].
  - unfold attestedBy. cbn. by intros ->.
  - clear dependent w. intros w Hs. unfold W. cbn [wp]. change (wp (@hold) rely ?p ?Q ?ko w0 w) with (W p Q w0 w).
    eapply W_update; [done| |].
    { intros j Hj. apply (onStep_idle attestation); [done..|by right]. }
    clear dependent w. intros w Hs. by apply W_mintStep.
Qed.
(** ** The legs *)

Lemma evmIntent_same head salt : same_payment (evmIntent head salt recipient value).
Proof.
  split; [|done]. unfold intentTo. cbn. rewrite b32_address by done. by apply evmHex32_is_lower.
Qed.

Lemma solanaIntent_same height key salt i :
  makeSolanaIntent recipient value height key salt = Ok i → same_payment i.
Proof.
  intros Hi. unfold makeSolanaIntent in Hi. ok_inv. subst i. split; [|done]. unfold intentTo. cbn [bi_spec ts_destinationRecipient].
  by apply evmHex32_is_lower.
Qed.

Lemma W_runEvm ctx w0 w :
  cx_job ctx = id → cx_recipient ctx = recipient → cx_value ctx = value →
  stage [] fresh_payment [] idle w0 w → W (runEvm ctx) (λ _, ended) w0 w.
Proof.
  intros Hid Hto Hval Hs. unfold runEvm. rewrite Hid, Hto, Hval.
  eapply W_update; [done| |].
  { intros j Hj. apply (onStep_busy approvals); [done|by left]. }
  clear dependent w. intros w Hs. eapply W_await; [done..|]. clear dependent w0 w. intros head w0 w Hs.
  eapply W_ask; [done..|]. clear dependent w. intros salt w Hs. cbv zeta.
  eapply W_await; [done..|]. clear dependent w0 w. intros sigs w0 w Hs.
  eapply W_await; [done..|]. clear dependent w0 w. intros local w0 w Hs.
  eapply (W_update _ _ _ _ idle); [done| |].
  { intros j Hj. apply (onStep_idle approvals); [done| |by right]. intros st. cbn. by case_match. }
  clear dependent w. intros w Hs. eapply W_update; [done| |].
  { intros j Hj. apply (onStep_busy attestation); [done|by left]. }
  clear dependent w. intros w Hs. pose proof (evmIntent_same head salt) as Hi.
  eapply W_post; [done..|]. clear dependent w0 w. intros r w0 w Hs. by eapply W_finishTransfer.
Qed.

Lemma W_frostSign signers i slot T key Q w0 w :
  stage [] T [] (busy key) w0 w → (∀ r w1 w', stage [] T [] (busy key) w1 w' → Q r w1 w') →
  W (frostSign signers i slot) Q w0 w.
Proof.
  intros Hs HQ. unfold frostSign. eapply W_lift; [done|]. intros message _.
  eapply W_await; [done..|]. clear dependent w0 w. intros r w0 w Hs.
  destruct (frostReply r) as [[res|e]|].
  - by apply HQ.
  - by eapply stage_broke.
  - split; [split; [by eapply stage_hold|done]|]. intros w' e Hr.
    pose proof (stage_rely _ _ _ _ _ _ _ Hs Hr) as Hs'. eapply stage_broke, (stage_quiet _ _ _ _ _ _ _ Hs').
    done.
Qed.

Lemma W_retryTransfer {A} fuel n i sig r (k : TransferResponse → send_prog A) Q w0 w :
  same_payment i →
  stage (option_list (attestedPayment i r)) fresh_payment [] (busy attestation) w0 w →
  (∀ r w1 w', stage (option_list (attestedPayment i r)) fresh_payment [] (busy attestation) w1 w' → W (k r) Q w1 w') →
  W (retryTransfer fuel n id i sig r ≫= k) Q w0 w.
Proof.
  intros Hi Hs Hk. apply W_bind. revert n r w0 w Hs. induction fuel as [|fuel IH]; intros n r w0 w Hs; [by apply Hk|].
  cbn [retryTransfer]. destruct (notAuthorized r) eqn:Er; [|by apply Hk].
  unfold notAuthorized in Er. apply andb_true_iff in Er as [Er%negb_true_iff _].
  unfold attestedPayment in Hs. rewrite Er in Hs.
  eapply W_update; [done| |].
  { intros j Hj. apply (onStep_busy attestation); [done|by right]. }
  clear dependent w. intros w Hs. eapply W_await; [done..|]. clear dependent w0 w. intros _ w0 w Hs.
  eapply W_post; [done..|]. clear dependent w0 w r. intros r w0 w Hs. by apply IH.
Qed.

Lemma W_runSolana ctx w0 w :
  cx_job ctx = id → cx_recipient ctx = recipient → cx_value ctx = value →
  stage [] fresh_payment [] idle w0 w → W (runSolana ctx) (λ _, ended) w0 w.
Proof.
  intros Hid Hto Hval Hs. unfold runSolana. rewrite Hid, Hto, Hval. cbv zeta.
  assert (Hnone : ∀ m, fresh_payment m → map_get id m = None) by (by intros m [? _]).
  eapply W_update; [done| |].
  { intros j Hj. apply (onStep_busy approvals); [done|by left]. }
  clear dependent w. intros w Hs. destruct (cx_allowlisted ctx); cbn [negb]; [|by eapply W_refuse].
  eapply W_await; [done..|]. clear dependent w0 w. intros slot w0 w Hs.
  eapply W_ask; [done..|]. clear dependent w. intros groupKey w Hs.
  eapply W_ask; [done..|]. clear dependent w. intros salt w Hs.
  eapply W_lift; [done|]. intros i Hi%solanaIntent_same.
  apply W_bind. eapply W_frostSign; [done|]. clear dependent w0 w. intros [sig|text|text] w0 w Hs;
    [|by eapply W_refuse..].
  eapply (W_update _ _ _ _ idle); [done| |].
  { intros j Hj. apply (onStep_idle approvals); [done..|by right]. }
  clear dependent w. intros w Hs. eapply W_update; [done| |].
  { intros j Hj. apply (onStep_busy attestation); [done|by left]. }
  clear dependent w. intros w Hs. eapply W_post; [done..|]. clear dependent w0 w. intros r w0 w Hs.
  eapply W_retryTransfer; [done..|]. clear dependent w0 w r. intros r w0 w Hs. by eapply W_finishTransfer.
Qed.
End transfer.
End job.
End legs.
