(* ===== verification/UtMachine.v ===== *)
(** * The ultimate treasury: the server as a machine

    Request handlers and the tracked send, interleaved at every suspension,
    with restarts: what holds of every reachable state. *)

From S2P Require Import Prelude.
From S2P Require Import Js.
From S2P Require Import Decimal.
From S2P Require Import CreJson.
From S2P Require Import CreParse.
From S2P Require Import Encoding.
From S2P Require Import Abi.
From S2P Require Import Float64.
From S2P Require Import JsMap.
From S2P Require Import UtConfig.
From S2P Require Import UtIntent.
From S2P Require Import UtWire.
From S2P Require Import UtValidate.
From S2P Require Import Async.
From S2P Require Import UtFiles.
From S2P Require Import UtSend.
From S2P Require Import UtLegs.

Section machine.
Context `{ViemLaws} `{UtViemLaws} `{NumberText} `{ShowNumber}.
Implicit Types (w : send_world).

Notation handler := (outcome Server send_error ext (string * send_prog ())).

(** ** Steps *)

(** A tracked job: its work, stopped where [Working] says; or its [catch] is
    over and its [finally] is due. *)
Inductive tracked : Type :=
| Working (o : outcome Server send_error ext ())
| Caught.

Record machine : Type := {
  m_world : send_world; m_handlers : list handler; m_tracked : list (string * tracked) }.

Definition initial : machine := {| m_world := (emptyServer, []); m_handlers := []; m_tracked := [] |}.
Definition history (m : machine) : list send_event := (m_world m).2.
Definition server (m : machine) : Server := (m_world m).1.

Definition answered {R} (c : ext R) (r : reply send_error R) w : send_world := (w.1, w.2 ++ [Event c r]).

(** A handler ran until [o]: it waits, it failed, or [track] takes its job,
    which runs until it first waits before [running] is assigned. *)
Inductive handled (hs : list handler) (ts : list (string * tracked)) : handler → send_world → machine → Prop :=
| handled_waits R (c : ext R) k w :
    handled hs ts (Suspended c k) w {| m_world := w; m_handlers := hs ++ [Suspended c k]; m_tracked := ts |}
| handled_failed e w : handled hs ts (Failed e) w {| m_world := w; m_handlers := hs; m_tracked := ts |}
| handled_tracks id work w o w' :
    runs work w o w' →
    handled hs ts (Returned (id, work)) w
      {| m_world := (w'.1 <| running_job := Some id |>, w'.2); m_handlers := hs;
         m_tracked := ts ++ [(id, Working o)] |}.

Inductive step : machine → machine → Prop :=
| step_send w hs ts req o w' m' :
    runs (startSend req) w o w' → handled hs ts o w' m' →
    step {| m_world := w; m_handlers := hs; m_tracked := ts |} m'
| step_resume w hs ts id o w' m' :
    runs (resumeMint id) w o w' → handled hs ts o w' m' →
    step {| m_world := w; m_handlers := hs; m_tracked := ts |} m'
| step_handler w h1 h2 ts R (c : ext R) k r o w' m' :
    runs (k r) (answered c r w) o w' → handled (h1 ++ h2) ts o w' m' →
    step {| m_world := w; m_handlers := h1 ++ Suspended c k :: h2; m_tracked := ts |} m'
| step_reply w hs t1 t2 id R (c : ext R) k r o w' :
    runs (k r) (answered c r w) o w' →
    step {| m_world := w; m_handlers := hs; m_tracked := t1 ++ (id, Working (Suspended c k)) :: t2 |}
         {| m_world := w'; m_handlers := hs; m_tracked := t1 ++ (id, Working o) :: t2 |}
| step_returned w hs t1 t2 id :
    step {| m_world := w; m_handlers := hs; m_tracked := t1 ++ (id, Working (Returned tt)) :: t2 |}
         {| m_world := w; m_handlers := hs; m_tracked := t1 ++ (id, Caught) :: t2 |}
| step_catch w hs t1 t2 id e :
    step {| m_world := w; m_handlers := hs; m_tracked := t1 ++ (id, Working (Failed e)) :: t2 |}
         {| m_world := (onError id e w.1, w.2); m_handlers := hs; m_tracked := t1 ++ (id, Caught) :: t2 |}
| step_finally w hs t1 t2 id :
    step {| m_world := w; m_handlers := hs; m_tracked := t1 ++ (id, Caught) :: t2 |}
         {| m_world := (onFinally id w.1, w.2); m_handlers := hs; m_tracked := t1 ++ t2 |}
| step_restart w hs ts :
    step {| m_world := w; m_handlers := hs; m_tracked := ts |}
         {| m_world := (loadPendingMints (attestationFiles w.1), w.2); m_handlers := []; m_tracked := [] |}.

(** ** Request handlers *)

Record calm w0 w : Prop := { ca_running : running_job w.1 = running_job w0.1; ca_rely : rely w0 w }.

#[global] Instance calm_preorder : PreOrder calm.
Proof.
  split; [by intros w|]. intros w1 w2 w3 [E1 R1] [E2 R2]. split; [congruence|by etransitivity].
Qed.

(** Nobody works: the table is right and every job has settled. *)
Record rested w : Prop := {
  rs_ledger : ledger [] w.1 w.2;
  rs_jobs i j : map_get i (jobs w.1) = Some j → settled w.1 i j }.

(** What a handler that returns hands to [track]. *)
Definition launch (started : string * send_prog ()) w0 w : Prop :=
  running_job w0.1 = None ∧ running_job w.1 = None ∧
  (NoDup (drawnIds w.2) → rested w0 → W started.1 started.2 (λ _, ended started.1) w w).

Definition Hd {A} (p : send_prog A) (Q : A → send_world → send_world → Prop) : send_world → send_world → Prop :=
  wp (λ _ _, calm) (λ _ _, True) p Q (λ _, calm).

Lemma calm_event w0 w e : calm w0 w → eventPayment e = None → calm w0 (w.1, w.2 ++ [e]).
Proof.
  intros Hc He. etransitivity; [exact Hc|]. split; [done|]. split; try done. exists [e]. by repeat constructor.
Qed.

Lemma Hd_await {A R} (c : ext R) (k : R → send_prog A) Q w0 w :
  calm w0 w → quiet c → (∀ v w1 w', calm w1 w' → Hd (k v) Q w1 w') → Hd (await c ≫= k) Q w0 w.
Proof.
  intros Hc Hq Hk. split; [done|]. intros w' r _.
  pose proof (calm_event w' w' (Event c r) ltac:(reflexivity) (Hq r)). destruct r as [v|e]; [by apply Hk|done].
Qed.

Lemma Hd_ask {A R} (c : ext R) (k : R → send_prog A) Q w0 w :
  calm w0 w → quiet c → (∀ v w', calm w0 w' → Hd (k v) Q w0 w') → Hd (ask c ≫= k) Q w0 w.
Proof.
  intros Hc Hq Hk r. pose proof (calm_event w0 w (Event c r) Hc (Hq r)). destruct r as [v|e]; [by apply Hk|done].
Qed.

Lemma Hd_lift {A B} (r : result request_error A) (k : A → send_prog B) Q w0 w :
  calm w0 w → (∀ a, r = Ok a → Hd (k a) Q w0 w) → Hd (liftRequest r ≫= k) Q w0 w.
Proof. intros Hc Hk. destruct r as [a|e]; [by apply Hk|done]. Qed.

Lemma rested_rely w0 w : rested w0 → rely w0 w → rested w.
Proof.
  intros [Hl Hj] [R1 R2 R3 (hs & R4 & Hq)]. split.
  - rewrite R4. eapply ledger_same; [exact R2|exact R3|]. by apply ledger_quiets.
  - intros i j. rewrite R1. intros Hg. destruct (Hj i j Hg). split; auto. by rewrite R2.
Qed.

Lemma rested_calm w0 w : rested w0 → calm w0 w → rested w.
Proof. intros Hw [_ Hr]. by eapply rested_rely. Qed.

Lemma truthy_Some o (s : string) : truthy o = Some s → o = Some s.
Proof. by destruct o as [[|]|]. Qed.

Lemma settled_idle s id j : settled s id j → idle j.
Proof. intros [Hk _ Hs _]. split; [done|]. eapply Forall_impl; [exact Hs|]. by intros st [? _]. Qed.
Lemma Hd_policy Q w0 w : calm w0 w → (∀ p w1 w', calm w1 w' → Q p w1 w') → Hd policy Q w0 w.
Proof.
  intros Hc HQ. unfold policy. set (live := await LivePolicy ≫= _).
  assert (Hlive : ∀ w, calm w0 w → Hd live Q w0 w).
  { clear dependent w. intros w Hc. eapply Hd_await; [done..|]. intros p w1 w2 Hc2.
    eapply Hd_ask; [done..|]. intros at_ w3 Hc3. apply HQ. etransitivity; [exact Hc3|].
    split; [done|]. split; try done. exists []. by rewrite app_nil_r. }
  change (Hd (match policyCache w.1 with
    | Some (at_, p) => now ← ask Now; if now - at_ <? 60000 then Ret p else live
    | None => live
    end) Q w0 w).
  destruct (policyCache w.1) as [[at_ p]|]; [|by apply Hlive].
  eapply Hd_ask; [done..|]. intros now w' Hc'. destruct (now - at_ <? 60000); [by apply HQ|by apply Hlive].
Qed.

Lemma map_delete_get {V} (i k : string) (m : list (string * V)) v :
  map_get i (map_delete k m) = Some v → map_get i m = Some v.
Proof. rewrite map_get_delete. by case_decide. Qed.

Lemma addJob_get i id j s j' :
  map_get i (jobs (addJob id j s)) = Some j' → i = id ∧ j' = j ∨ i ≠ id ∧ map_get i (jobs s) = Some j'.
Proof.
  unfold addJob. cbn [set jobs].
  assert (Hcap : ∀ m : list (string * Job), map_get i (if (25 <? length m)%nat
    then match m with (oldest, _) :: _ => map_delete oldest m | [] => m end else m) = Some j' → map_get i m = Some j').
  { intros m. destruct (25 <? length m)%nat; [|done]. destruct m as [|[oldest v] m]; [done|]. apply map_delete_get. }
  intros Hm%Hcap. rewrite map_get_set in Hm. case_decide; [left|right]; [|auto]. by injection Hm as <-.
Qed.

Lemma assertNoPendingMint_spec s recipient value u :
  assertNoPendingMint s recipient value = Ok u →
  ∀ i p, map_get i (pendingMints s) = Some p → samePayment recipient value p = false.
Proof.
  unfold assertNoPendingMint. destruct (List.find _ _) as [[? ?]|] eqn:E; [done|]. intros _ i p Hp%map_get_elem.
  eapply (find_none _ _ E (i, p)). by apply list_elem_of_In.
Qed.

Lemma validateSend_recipient i v :
  validateSend i = Ok v → isHexBytes 20 (default "" (sr_recipient (vi_req i))) = true.
Proof.
  intros Hv. unfold validateSend in Hv. cbv zeta in Hv.
  do 3 apply throw_if_bind_ok in Hv as [_ Hv]. apply throw_if_bind_ok in Hv as [Hv _].
  apply negb_false_iff in Hv. by apply isAddress_format.
Qed.

Lemma Hd_beginSend req pol allowlisted balances frost w0 w :
  calm w0 w → Hd (beginSend req pol allowlisted balances frost) launch w0 w.
Proof.
  intros Hc. unfold beginSend. eapply Hd_lift; [done|]. intros v Hv%validateSend_recipient. cbn [vi_req] in Hv.
  set (recipient := default "" (sr_recipient req)) in *. cbv zeta.
  change (Hd (liftRequest (assertNoPendingMint w.1 recipient (va_value v)) ≫= λ _,
    liftRequest (match running_job w.1 with Some r => Throw (AlreadyRunning r) | None => mret tt end) ≫= λ _,
    ask RandomId ≫= λ id, assign (addJob id (newJob id req v)) ≫= λ _,
    Ret (id, match va_source v with
      | evm => runEvm (Build_Ctx id (va_value v) (va_weight v) allowlisted (tp_thresholdWeight pol) (va_signers v) recipient)
      | solana => runSolana (Build_Ctx id (va_value v) (va_weight v) allowlisted (tp_thresholdWeight pol) (va_signers v) recipient)
      end)) launch w0 w).
  eapply Hd_lift; [done|]. intros u Hpay. pose proof (assertNoPendingMint_spec _ _ _ _ Hpay) as Hfresh.
  eapply Hd_lift; [done|]. intros u' Hrun. destruct (running_job w.1) eqn:Er; [discriminate Hrun|]. clear u' Hrun.
  intros r. pose proof (calm_event w0 w (Event RandomId r) Hc eq_refl) as Hc'. destruct r as [id|e]; [|done].
  split; [|split]; [|done|].
  { destruct Hc. congruence. }
  intros Hids Hrest. cbn [fst snd] in *. pose proof (rested_calm _ _ Hrest Hc') as [Hl Hj]. cbn [fst snd] in *.
  assert (Hnone : map_get id (pendingMints w.1) = None).
  { destruct (map_get id (pendingMints w.1)) as [p|] eqn:Ep; [|done].
    pose proof (rested_calm _ _ Hrest Hc) as [Hl0 _]. destruct (lo_ids _ _ _ Hl0 id p Ep) as [Hin _].
    rewrite drawnIds_app in Hids. apply NoDup_app in Hids as (_ & Hids & _). destruct (Hids id Hin). set_solver. }
  set (w1 := (addJob id (newJob id req v) w.1, w.2 ++ [Event RandomId (Value id)])).
  assert (Hs : stage id [] (fresh_payment id recipient (va_value v)) [] idle w1 w1).
  { split; cbn.
    - done.
    - by eapply ledger_same, Hl.
    - rewrite drawnIds_app. set_solver.
    - split; [done|exact Hfresh].
    - constructor.
    - intros j Hg. apply addJob_get in Hg as [[_ ->]|[? _]]; [|done]. split; [done|]. by repeat constructor.
    - intros i j Hi Hg. apply addJob_get in Hg as [[? _]|[_ Hg]]; [done|]. by destruct (Hj i j Hg). }
  destruct (va_source v); [by eapply W_runEvm|by eapply W_runSolana].
Qed.

Lemma Hd_bind {A B} (p : send_prog A) (k : A → send_prog B) Q w0 w :
  Hd p (λ a, Hd (k a) Q) w0 w → Hd (p ≫= k) Q w0 w.
Proof. apply wp_bind. Qed.

Lemma Hd_startSend req w0 w : calm w0 w → Hd (startSend req) launch w0 w.
Proof.
  intros Hc. unfold startSend. apply Hd_bind, Hd_policy; [done|]. clear dependent w0 w. intros pol w0 w Hc.
  eapply Hd_await; [done..|]. clear dependent w0 w. intros _ w0 w Hc.
  apply Hd_bind. assert (Hrows : ∀ allowlisted w0 w, calm w0 w → Hd (rows ← await GatewayBalances;
    frost ← tryAsk FrostOwnersFile; beginSend req pol allowlisted (fetchGatewayBalances rows) frost) launch w0 w).
  { clear dependent w0 w. intros allowlisted w0 w Hc. eapply Hd_await; [done..|].
    clear dependent w0 w. intros rows w0 w Hc [frost|e].
    - apply (Hd_beginSend req pol allowlisted _ (Some frost)). by apply calm_event.
    - apply (Hd_beginSend req pol allowlisted _ None). by apply calm_event. }
  destruct (isAddress _); [|by apply Hrows].
  split; [done|]. intros w' r _. pose proof (calm_event w' w' (Event (IsAllowlisted (default "" (sr_recipient req))) r)
    ltac:(reflexivity) eq_refl). destruct r as [b|e]; [by apply Hrows|done].
Qed.

Lemma Hd_resumeMint id w0 w : calm w0 w → Hd (resumeMint id) launch w0 w.
Proof.
  intros Hc. unfold resumeMint, Hd. cbn [mbind prog_bind get bind wp].
  destruct (map_get id (pendingMints w.1)) as [p|] eqn:Ep; [|done].
  destruct (truthy (pm_attestation p)) as [a|] eqn:Ea; [|done].
  destruct (truthy (pm_signature p)) as [sg|]; [|done]. destruct (pm_dest p) as [chain|]; [|done].
  destruct (running_job w.1) eqn:Er; [done|]. refine (conj _ (conj _ _)); [|done|].
  { destruct Hc. congruence. }
  intros Hids Hrest. pose proof (rested_calm _ _ Hrest Hc) as [Hl Hj]. cbn [fst snd].
  apply W_mintStep; [done|]. split; cbn.
  - done.
  - by eapply ledger_same, Hl.
  - eapply (lo_ids _ _ _ Hl). eauto.
  - exists p. split; [done|]. by apply truthy_Some.
  - constructor.
  - intros j. cbn. rewrite map_get_set_eq. intros [= <-].
    assert (Hi : idle (default (resumedJob id p chain) (map_get id (jobs w.1)))).
    { destruct (map_get id (jobs w.1)) as [j|] eqn:Ej; [by eapply settled_idle, Hj|].
      split; [done|]. by repeat constructor. }
    exact Hi.
  - intros i j Hi. cbn. rewrite map_get_set_ne by done. intros Hg. by destruct (Hj i j Hg).
Qed.
(** ** The invariant *)

Definition handler_ok (o : handler) : Prop :=
  match o with Suspended c k => ∀ w r, Hd (k r) launch w (answered c r w) | _ => False end.

(** What job [id] guarantees where it stopped. *)
Definition stopped (id : string) (o : outcome Server send_error ext ()) : send_world → send_world → Prop :=
  wp_outcome (@hold _ id) rely o (λ _, ended id) (λ _, broke id).

Definition tracked_ok (id : string) (t : tracked) w : Prop :=
  match t with
  | Working o => stopped id o w w
  | Caught => stage id [] any [] (verdict w.1 id) w w
  end.

(** While the ids drawn are distinct: at most one job is tracked, [running] is
    its id, and everything else is at rest. *)
Definition tracked_all (ts : list (string * tracked)) w : Prop :=
  match ts with
  | [] => running_job w.1 = None ∧ rested w
  | [(id, t)] => running_job w.1 = Some id ∧ tracked_ok id t w
  | _ => False
  end.

Record inv (m : machine) : Prop := {
  in_handlers : Forall handler_ok (m_handlers m);
  in_tracked : NoDup (drawnIds (history m)) → tracked_all (m_tracked m) (m_world m) }.

Lemma stage_self id owed T evs K w0 w : stage id owed T evs K w0 w → stage id owed T evs K w w.
Proof. by intros [? ? ? ? ? ? ?]. Qed.

Lemma posting_rely {R} (c : ext R) w w' : posting_ok c w → rely w w' → posting_ok c w'.
Proof.
  intros Hp [_ _ _ (hs & E & Hq)]. destruct c; try done. cbn in *. rewrite E. intros Hd y.
  rewrite payments_app, elem_of_app. intros [Hy|Hy] Hto Hval.
  - apply minted_app, Hp; [|done..]. by eapply disk_ok_app.
  - unfold payments in Hy. apply list_elem_of_omap in Hy as (e & He & Hy).
    rewrite Forall_forall in Hq. by rewrite Hq in Hy.
Qed.

(** A stopped job is as good after what others do. *)
Lemma outcome_rely id o w0 w w' :
  stopped id o w0 w → rely w w' →
  stopped id o w' w'.
Proof.
  intros Ho Hr. destruct o as [u|e|R c k].
  - by eapply stage_rely.
  - destruct Ho as [key Ho]. exists key. by eapply stage_rely.
  - destruct Ho as [[Hs Hp] Hk]. split; [split; [by eapply stage_rely|by eapply posting_rely]|].
    intros w'' r Hr'. apply Hk. by etransitivity.
Qed.

Lemma outcome_running id o w0 w :
  stopped id o w0 w → running_job w.1 = running_job w0.1.
Proof.
  destruct o as [u|e|R c k]; cbn; [intros Hs|intros [key Hs]|intros [[Hs _] _]]; apply Hs.
Qed.

Lemma tracked_rely ts w w' :
  tracked_all ts w → rely w w' → running_job w'.1 = running_job w.1 → tracked_all ts w'.
Proof.
  intros Ht Hr Er. destruct ts as [|[id t] [|? ?]]; cbn in *; [| |done]; rewrite Er; destruct Ht as [Hrun Ht].
  - split; [done|]. by eapply rested_rely.
  - split; [done|]. destruct t as [o|]; [by eapply outcome_rely|].
    eapply stage_weaken; [done|done| |by eapply stage_rely]. intros j [V1 V2 V3]. split; auto.
    by rewrite (re_pending _ _ Hr).
Qed.

Lemma drawn_prefix w w' : (∃ hs, w'.2 = w.2 ++ hs) → NoDup (drawnIds w'.2) → NoDup (drawnIds w.2).
Proof. intros [hs ->]. rewrite drawnIds_app. intros Hd. by apply NoDup_app in Hd as [? _]. Qed.

(** A handler ran until [o], from a segment that started in [w0]. *)
Lemma handled_inv hs ts o w0 w m' :
  Forall handler_ok hs → (∃ h0, w.2 = w0.2 ++ h0) → (NoDup (drawnIds w0.2) → tracked_all ts w0) →
  wp_outcome (λ _ _, calm) (λ _ _, True) o launch (λ _, calm) w0 w → handled hs ts o w m' → inv m'.
Proof.
  intros Hhs Hpre Ht Ho Hm.
  assert (Hcalm : calm w0 w → NoDup (drawnIds w.2) → tracked_all ts w).
  { intros [Er Hr] Hids. eapply tracked_rely; [|exact Hr|done]. apply Ht. by eapply drawn_prefix. }
  destruct Hm as [R c k w|e w|id work w o w' Hruns].
  - destruct Ho as [Hc Hk]. split; [|by apply Hcalm]. apply Forall_app. split; [done|]. constructor; [|constructor].
    intros w' r. by apply Hk.
  - split; [done|by apply Hcalm].
  - destruct Ho as (Er0 & Er & Hw). split; [done|]. unfold history. cbn. intros Hids.
    assert (Hids1 : NoDup (drawnIds w.2)) by (eapply drawn_prefix; [by eapply runs_history|done]).
    pose proof (Ht (drawn_prefix _ _ Hpre Hids1)) as Ht0. destruct ts as [|[i t] [|? ?]]; [| |done].
    + destruct Ht0 as [_ Hrest]. cbn. split; [done|]. eapply outcome_rely.
      * eapply wp_runs; [exact Hruns|]. by apply Hw.
      * split; try done. exists []. by rewrite app_nil_r.
    + destruct Ht0 as [Hi _]. congruence.
Qed.

(** The tracked job ran until [o]. *)
Lemma tracked_app t1 t2 id t w :
  tracked_all (t1 ++ (id, t) :: t2) w → t1 = [] ∧ t2 = [] ∧ running_job w.1 = Some id ∧ tracked_ok id t w.
Proof. destruct t1 as [|[? ?] [|]], t2; cbn; tauto. Qed.
Lemma runs_handler_inv {A} (p : send_prog A) w0 w o w' :
  runs p w o w' → w.2 = w0.2 ∨ (∃ e, w.2 = w0.2 ++ [e]) → ∃ hs, w'.2 = w0.2 ++ hs.
Proof.
  intros [hs ->]%runs_history [->|[e ->]]; [eauto|]. rewrite <- app_assoc. eauto.
Qed.

(** *** The end of a tracked job *)

Lemma ended_verdict id w : ended id w w → tracked_ok id Caught w.
Proof.
  intros [S1 S2 S3 S4 S5 S6 S7]. split; try done. intros j Hj. destruct (S6 j Hj) as [Hi Hs].
  split; [done..|]. intros p Hp Ha. by apply S4 in Hp.
Qed.

Lemma broke_verdict id key T evs e w :
  stage id [] T evs (busy key) w w → tracked_ok id Caught (onError id e w.1, w.2).
Proof.
  intros [S1 S2 S3 S4 S5 S6 S7]. split; try done.
  - by eapply ledger_same, S2.
  - by eapply onError_verdict.
  - intros i j Hi. cbn [fst]. rewrite jobs_onError by done. intros Hj. by destruct (S7 i j Hi Hj).
Qed.

Lemma verdict_rested id w : tracked_ok id Caught w → rested (onFinally id w.1, w.2).
Proof.
  intros [S1 S2 S3 S4 S5 S6 S7]. split.
  - by eapply ledger_same, S2.
  - intros i j Hj. cbn [fst] in *. destruct (decide (i = id)) as [->|Hi].
    + by apply (onFinally_settled id w.1 S6).
    + rewrite jobs_onFinally in Hj by done. by destruct (S7 i j Hi Hj).
Qed.

Lemma tracked_others id t w : tracked_ok id t w → others id w.1.
Proof.
  destruct t as [[u|e|R c k]|]; cbn; [intros Ht|intros [key Ht]|intros [[Ht _] _]|intros Ht]; apply Ht.
Qed.

Lemma tracked_ledger ts w : tracked_all ts w → ledger [] w.1 w.2.
Proof.
  destruct ts as [|[id t] [|? ?]]; cbn; [intros [_ Hw]; apply Hw|intros [_ Ht]|done].
  destruct t as [[u|e|R c k]|]; [apply Ht|destruct Ht as [key Ht]; apply Ht|destruct Ht as [[Ht _] _]; apply Ht|apply Ht].
Qed.

Lemma step_inv m m' : inv m → step m m' → inv m'.
Proof.
  intros [Hhs Ht] Hm. unfold history in Ht. destruct Hm as
    [w hs ts req o w' m' Hr Hm|w hs ts id o w' m' Hr Hm|w h1 h2 ts R c k r o w' m' Hr Hm
    |w hs t1 t2 id R c k r o w' Hr|w hs t1 t2 id|w hs t1 t2 id e|w hs t1 t2 id|w hs ts]; cbn in Hhs, Ht.
  - eapply handled_inv; [exact Hhs|by eapply runs_handler_inv; eauto|exact Ht| |exact Hm].
    eapply wp_runs; [exact Hr|]. by apply Hd_startSend.
  - eapply handled_inv; [exact Hhs|by eapply runs_handler_inv; eauto|exact Ht| |exact Hm].
    eapply wp_runs; [exact Hr|]. by apply Hd_resumeMint.
  - apply Forall_app in Hhs as [Hh1 [Hh Hh2]%Forall_cons].
    eapply (handled_inv (h1 ++ h2) ts o w w');
      [by apply Forall_app|eapply runs_handler_inv; [exact Hr|right; eauto]|exact Ht| |exact Hm].
    eapply wp_runs; [exact Hr|]. apply Hh.
  - split; [done|]. unfold history. cbn. intros Hids.
    assert (Hpre : ∃ hs, w'.2 = w.2 ++ hs) by (eapply runs_handler_inv; [exact Hr|right; eauto]).
    apply (drawn_prefix _ _ Hpre), Ht, tracked_app in Hids as (-> & -> & Erun & [_ Hk]). cbn.
    assert (Hs : stopped id o w w') by (eapply wp_runs; [exact Hr|]; by apply Hk).
    split; [rewrite <- Erun; by eapply outcome_running|]. apply (outcome_rely _ _ _ _ _ Hs). done.
  - split; [done|]. unfold history. cbn. intros (-> & -> & Erun & Hs)%Ht%tracked_app. cbn. split; [done|].
    by apply ended_verdict.
  - split; [done|]. unfold history. cbn. intros (-> & -> & Erun & [key Hs])%Ht%tracked_app. cbn. split; [done|].
    by eapply broke_verdict.
  - split; [done|]. unfold history. cbn. intros (-> & -> & Erun & Hs)%Ht%tracked_app. cbn. split; [done|].
    by apply verdict_rested.
  - split; [constructor|]. unfold history. cbn. intros Hids%Ht. split; [done|]. split; [|done].
    apply (ledger_restart w.1 w.2). by eapply tracked_ledger.
Qed.

Lemma reachable_inv m : rtc step initial m → inv m.
Proof.
  intros Hm. assert (Hi : inv initial).
  { split; [constructor|]. intros _. split; [done|]. split; [|done]. split; [done|by intros ? ? ?%elem_of_nil|done|].
    intros y _ Hy. by apply elem_of_nil in Hy. }
  revert Hi. induction Hm as [|m1 m2 m3 Hstep _ IH]; [done|]. intros Hi. apply IH. by eapply step_inv.
Qed.
End machine.
