(* ===== verification/UtSafety.v ===== *)
(** * The ultimate treasury: no payment is made twice

    The two properties of the server's machine, and an executable schedule of
    it that reaches the second posting of the same payment. *)

From stdpp Require Import relations.
From S2P Require Import Prelude.
From S2P Require Import Js.
From S2P Require Import Decimal.
From S2P Require Import CreJson.
From S2P Require Import CreParse.
From S2P Require Import Encoding.
From S2P Require Import Abi.
From S2P Require Import AbiSample.
From S2P Require Import Float64.
From S2P Require Import JsMap.
From S2P Require Import UtConfig.
From S2P Require Import UtIntent.
From S2P Require Import UtWire.
From S2P Require Import UtValidate.
From S2P Require Import Async.
From S2P Require Import UtFiles.
From S2P Require Import UtSend.
From S2P Require Import UtLegs.
From S2P Require Import UtMachine.

(** The intents being sent to Gateway. *)
Definition postings (m : machine) : list BurnIntent :=
  omap (λ it, match it.2 with
              | Working (Suspended c _) => match c with PostTransfer i _ _ => Some i | _ => None end
              | _ => None
              end) (m_tracked m).

(** The answers of Gateway the server has received, each with the intent that
    was sent. *)
Definition eventAnswer (e : send_event) : option (BurnIntent * TransferResponse) :=
  match e with
  | Event c r =>
      match c in ext R return reply send_error R → option (BurnIntent * TransferResponse) with
      | PostTransfer i _ _ => λ r, match r with Value r => Some (i, r) | Rejects _ => None end
      | _ => λ _, None
      end r
  end.
Definition answers (hs : list send_event) : list (BurnIntent * TransferResponse) := omap eventAnswer hs.

Lemma answer_payment `{NumberText} hs j r a :
  (j, r) ∈ answers hs → tr_ok r = true → attestationOf r = Some a →
  {| py_to := intentTo j; py_value := intentValue j; py_attestation := a |} ∈ payments hs.
Proof.
  intros (e & He & Hr)%list_elem_of_omap Hok Ha. apply list_elem_of_omap. exists e. split; [done|].
  destruct e as [R c v]. destruct c; try discriminate Hr. destruct v; [|done]. cbn in Hr. injection Hr as -> ->.
  cbn. unfold attestedPayment. by rewrite Hok, Ha.
Qed.

(** ** An executable schedule *)

Section schedule.
Context `{Viem} `{UtViem} `{NumberText} `{ShowNumber}.
Context (replies : nat → ∀ R, ext R → reply send_error R).

#[local] Notation answer := (answer replies).
#[local] Notation segment := (segment replies).

(** The tracked job moves if there is one, else a pending handler, else the
    request comes in. *)
Definition handle (hs : list (outcome Server send_error ext (string * send_prog ())))
    (ts : list (string * tracked)) (ow : outcome Server send_error ext (string * send_prog ()) * send_world) : machine :=
  match ow with
  | (Suspended c k, w) => {| m_world := w; m_handlers := hs ++ [Suspended c k]; m_tracked := ts |}
  | (Failed _, w) => {| m_world := w; m_handlers := hs; m_tracked := ts |}
  | (Returned (id, work), w) =>
      let '(o, w') := segment work w in
      {| m_world := (w'.1 <| running_job := Some id |>, w'.2); m_handlers := hs; m_tracked := ts ++ [(id, Working o)] |}
  end.

Definition advance (req : SendRequest) (m : machine) : machine :=
  let '{| m_world := w; m_handlers := hs; m_tracked := ts |} := m in
  match ts, hs with
  | (id, t) :: ts, _ =>
      match t with
      | Working (Suspended c k) =>
          let '(o, w') := segment (k (answer c w)) (answered c (answer c w) w) in
          {| m_world := w'; m_handlers := hs; m_tracked := (id, Working o) :: ts |}
      | Working (Returned _) => {| m_world := w; m_handlers := hs; m_tracked := (id, Caught) :: ts |}
      | Working (Failed e) =>
          {| m_world := (onError id e w.1, w.2); m_handlers := hs; m_tracked := (id, Caught) :: ts |}
      | Caught => {| m_world := (onFinally id w.1, w.2); m_handlers := hs; m_tracked := ts |}
      end
  | [], Suspended c k :: hs => handle hs [] (segment (k (answer c w)) (answered c (answer c w) w))
  | [], _ => handle hs [] (segment (startSend req) w)
  end.

Lemma handle_handled hs ts o w : handled hs ts o w (handle hs ts (o, w)).
Proof.
  destruct o as [[id work]|e|R c k]; cbn [handle]; [|constructor..].
  pose proof (segment_runs replies work w) as Hr. destruct (segment work w) as [o w']. by constructor.
Qed.

Lemma advance_step req m : step m (advance req m).
Proof.
  destruct m as [w hs [|[id t] ts]].
  - assert (Hsend : step {| m_world := w; m_handlers := hs; m_tracked := [] |} (handle hs [] (segment (startSend req) w))).
    { pose proof (segment_runs replies (startSend req) w) as Hr. destruct (segment (startSend req) w) as [o w'].
      eapply step_send; [exact Hr|apply handle_handled]. }
    destruct hs as [|[v|e|R c k] hs]; [exact Hsend..|]. cbn [advance].
    pose proof (segment_runs replies (k (answer c w)) (answered c (answer c w) w)) as Hr.
    destruct (segment (k (answer c w)) _) as [o w']. eapply (step_handler w []); [exact Hr|apply handle_handled].
  - destruct t as [[[]|e|R c k]|]; cbn [advance].
    + apply (step_returned w hs []).
    + apply (step_catch w hs []).
    + pose proof (segment_runs replies (k (answer c w)) (answered c (answer c w) w)) as Hr.
      destruct (segment _ _) as [o w']. by eapply (step_reply w hs []).
    + apply (step_finally w hs []).
Qed.

Lemma schedule_reachable req n : rtc step initial (Nat.iter n (advance req) initial).
Proof.
  induction n as [|n IH]; [done|]. eapply rtc_r; [exact IH|]. apply advance_step.
Qed.
End schedule.

(** A network where everything goes well. *)
#[global] Instance sample_number_text : NumberText := JNonInt.
#[global] Instance sample_show_number : ShowNumber := λ _, "0.25".

Definition sample_answers (n : nat) (R : Type) (c : ext R) : reply send_error R :=
  match c in ext R return reply send_error R with
  | Now => Value 0
  | Tick => Value tt
  | Sleep _ => Value tt
  | LivePolicy => Value sample_treasury_policy
  | IsAllowlisted _ => Value true
  | GatewayBalances => Value (Some [{| gb_domain := 26; gb_depositor := EVM_TREASURY; gb_balance := "0.5" |}])
  | FrostOwnersFile => Rejects (OtherError (UtError "ENOENT"))
  | RandomId => Value (pretty (Z.of_nat n))
  | RandomSalt => Value "00"
  | BlockNumber => Value 1
  | OwnerSigs _ _ => Value ["0xaa"]
  | IsValidSignature _ _ => Value ERC1271_MAGIC
  | SolanaSlot => Value 1
  | FrostGroupKey => Value "0x00"
  | FrostExec _ _ _ => Value (ExecOk "")
  | Never => Rejects (OtherError (UtError "pending"))
  | PostTransfer _ _ _ =>
      Value {| tr_ok := true; tr_status := 201;
               tr_text := "{" +:+ q +:+ "attestation" +:+ q +:+ ":" +:+ q +:+ "0x" +:+ pretty (Z.of_nat n) +:+ q +:+ ","
                          +:+ q +:+ "signature" +:+ q +:+ ":" +:+ q +:+ "0xbb" +:+ q +:+ "}" |}
  | Timestamp => Value "2026-10-04T00:00:00.000Z"
  | SaveAttestation _ _ => Value tt
  | RemoveAttestation _ => Value tt
  | FeePayerKey => Value "0xkey"
  | BalanceOf _ _ => Value (Z.of_nat n)
  | WriteMint _ a _ => Value ("0xtx" +:+ a)
  | WaitReceipt _ _ => Value {| rc_success := true; rc_logs := [] |}
  end.

Definition sample_send : SendRequest := sample_request <| sr_source := Some "evm" |>.
Definition sample_machine (n : nat) : machine := Nat.iter n (advance sample_answers sample_send) initial.

(** ** The properties *)

Section properties.
Context `{ViemLaws} `{UtViemLaws} `{NumberText} `{ShowNumber}.

(** C4: a payment whose attestation the server has received is never sent to
    Gateway again before it is minted. In every state the server can reach - any
    requests, any interleaving, any failure of the network, the signers or a
    mint, any number of restarts - while a burn intent is being sent, every
    answer of Gateway the server has received to an earlier request for the same
    recipient and amount is a refusal, or carries no attestation that can be
    read, or one that was minted, successfully by the receipt. Requests without a
    received answer (a connection lost, a restart while it was awaited) are not
    covered: Gateway may have accepted them, and the server sends the same
    payment again ([lost_answer_sent_again]). Assumed: the random ids do not
    repeat and no attestation file failed to be written. *)
Theorem no_double_payment m i j r :
  rtc step initial m → NoDup (drawnIds (history m)) → disk_ok (history m) →
  i ∈ postings m → (j, r) ∈ answers (history m) → intentTo j = intentTo i → intentValue j = intentValue i →
  tr_ok r = false ∨ attestationOf r = None ∨
  ∃ a, attestationOf r = Some a ∧ minted (history m) a.
Proof.
  intros Hm%reachable_inv Hids Hdisk ([id t] & Hin & Hi)%list_elem_of_omap Hr Hto Hval.
  destruct Hm as [_ Ht]. specialize (Ht Hids).
  apply list_elem_of_split in Hin as (t1 & t2 & E). rewrite E in Ht.
  apply tracked_app in Ht as (_ & _ & _ & Ht). cbn in Hi. destruct t as [[u|e|R c k]|]; [done..| |done].
  destruct c; try discriminate Hi. injection Hi as ->. destruct Ht as [[_ Hpost] _].
  destruct (tr_ok r) eqn:Eok; [right|by left]. destruct (attestationOf r) as [a|] eqn:Ea; [right|by left].
  exists a. split; [done|]. apply (Hpost Hdisk _ (answer_payment _ j r a Hr Eok Ea)); done.
Qed.

(** At most one tracked job, the one [running] names, and a verdict on every
    other job. *)
Definition one_tracked_send (m : machine) : Prop :=
  (length (m_tracked m) ≤ 1)%nat ∧ running_job (server m) = head (m_tracked m).*1 ∧
  ∀ id j, map_get id (jobs (server m)) = Some j → id ∉ (m_tracked m).*1 → settled (server m) id j.

(** C5: one send at a time, and no job left half-way. In every state the
    server can reach at most one job is tracked, [running] names it exactly
    while it is, and every other job has a verdict: its status is no longer
    running, no step of it is running or pending, and if its attestation is
    still to be minted it is reported as an error whose mint can be resumed.
    Assumed: the random ids do not repeat. *)
Theorem one_send_at_a_time m :
  rtc step initial m → NoDup (drawnIds (history m)) → one_tracked_send m.
Proof.
  intros Hm%reachable_inv Hids. destruct Hm as [_ Ht]. specialize (Ht Hids). unfold one_tracked_send, server.
  destruct (m_tracked m) as [|[id t] [|? ?]]; [| |done]; destruct Ht as [Hrun Ht]; cbn.
  - split; [lia|]. split; [done|]. intros i j Hj _. by apply Ht.
  - split; [lia|]. split; [done|]. intros i j Hj Hi. rewrite list_elem_of_singleton in Hi.
    by eapply tracked_others.
Qed.
End properties.

(** ** The properties at work: the second of two equal sends is posted *)

Definition sample_payment : string * Z := (evmHex32 "0x0000000000000000000000000000000000000001", 250000).

(** What the requests of a state pay, and what an answer says. *)
Definition posted (m : machine) : list (string * Z) := (λ i, (intentTo i, intentValue i)) <$> postings m.
Definition answered_payments (hs : list send_event) : list (string * Z * bool * option string) :=
  (λ '(j, r), (intentTo j, intentValue j, tr_ok r, attestationOf r)) <$> answers hs.

Lemma no_double_payment_witness :
  ∃ i j r, i ∈ postings (sample_machine 23) ∧ (j, r) ∈ answers (history (sample_machine 23)) ∧
    intentTo j = intentTo i ∧ intentValue j = intentValue i ∧ tr_ok r = true ∧
    attestationOf r = Some "0x11" ∧ minted (history (sample_machine 23)) "0x11".
Proof.
  assert (E1 : bool_decide (NoDup (drawnIds (history (sample_machine 23)))) = true) by (vm_compute; reflexivity).
  assert (E2 : bool_decide (Forall (λ e, diskFailure e = false) (history (sample_machine 23))) = true)
    by (vm_compute; reflexivity).
  assert (E3 : answered_payments (history (sample_machine 23)) = [(sample_payment, true, Some "0x11")])
    by (vm_compute; reflexivity).
  assert (E4 : posted (sample_machine 23) = [sample_payment]) by (vm_compute; reflexivity).
  apply bool_decide_eq_true in E1, E2. unfold answered_payments, posted in E3, E4.
  assert (Hr : (sample_payment, true, Some "0x11") ∈
    (λ '(j, r), (intentTo j, intentValue j, tr_ok r, attestationOf r)) <$> answers (history (sample_machine 23)))
    by (rewrite E3; left).
  assert (Hi : sample_payment ∈ (λ i, (intentTo i, intentValue i)) <$> postings (sample_machine 23))
    by (rewrite E4; left).
  clear E3 E4. apply list_elem_of_fmap in Hi as (i & Ei & Hi).
  apply list_elem_of_fmap in Hr as ([j r] & Er & Hr). rewrite Ei in Er. injection Er as Hto Hval Hok Ha.
  exists i, j, r. split_and!; try done.
  destruct (no_double_payment (sample_machine 23) i j r) as [F|[F|(a & F & Hm)]];
    [apply schedule_reachable|exact E1|exact E2|exact Hi|exact Hr|done|done|congruence|congruence|].
  rewrite <- Ha in F. by injection F as ->.
Defined.

(** A network that loses every answer of Gateway. *)
Definition lossy_answers (n : nat) (R : Type) (c : ext R) : reply send_error R :=
  match c in ext R return reply send_error R → reply send_error R with
  | PostTransfer _ _ _ => λ _, Rejects (OtherError (UtError "fetch failed"))
  | _ => λ r, r
  end (sample_answers n R c).
Definition lossy_machine (n : nat) : machine := Nat.iter n (advance lossy_answers sample_send) initial.

Definition lost (e : send_event) : option (string * Z) :=
  match e with
  | Event c r =>
      match c in ext R return reply send_error R → option (string * Z) with
      | PostTransfer i _ _ => λ r, match r with Value _ => None | Rejects _ => Some (intentTo i, intentValue i) end
      | _ => λ _, None
      end r
  end.

(** The limit of [no_double_payment]: Gateway accepts a request, its answer is
    lost, the job fails, and the same payment is sent to Gateway again. *)
Lemma lost_answer_sent_again :
  rtc step initial (lossy_machine 18) ∧
  omap lost (history (lossy_machine 18)) = [sample_payment] ∧
  posted (lossy_machine 18) = [sample_payment].
Proof. split; [apply schedule_reachable|]. split; vm_compute; reflexivity. Qed.

Lemma one_send_at_a_time_witness : one_tracked_send (sample_machine 23).
Proof.
  assert (E : bool_decide (NoDup (drawnIds (history (sample_machine 23)))) = true) by (vm_compute; reflexivity).
  apply bool_decide_eq_true in E. apply one_send_at_a_time; [apply schedule_reachable|exact E].
Defined.
