(* ===== verification/UtChain.v ===== *)
(** * The server's EVM leg and the treasury contract

    The parts of [apps/ultimate-treasury/server/evm.ts] that read the contract
    and sign for it - [readPolicy], [isAllowlisted], [ownerSigs],
    [evmContractSignature] - against the contract they read and sign for. The
    answers [LivePolicy], [IsAllowlisted] and [OwnerSigs] of the send pipeline
    are these functions of the contract's storage and of the key file. *)

From S2P Require Import Prelude.
From S2P Require Import Js.
From S2P Require Import JsMap.
From S2P Require Import Decimal.
From S2P Require Import Encoding.
From S2P Require Import Abi.
From S2P Require Import AbiSample.
From S2P Require Import Float64.
From S2P Require Import EvmAbi.
From S2P Require Import GtPolicy.
From S2P Require Import GatewayTreasury.
From S2P Require Import GtSample.
From S2P Require Import GtQuorum.
From S2P Require Import GtSignature.
From S2P Require Import GtInvariant.
From S2P Require Import UtConfig.
From S2P Require Import UtIntent.
From S2P Require Import UtValidate.
From S2P Require Import UtWire.
From S2P Require Import UtLegs.

(** ** Keys *)

(** An entry of [keys.json]. *)
Record EvmKey : Type := { key_address : string; key_private : string }.

(** viem's [sign]; the account of a private key; the checksummed text of an
    address; [localeCompare]. *)
Class UtSigner : Type := {
  sign : string → string → string;
  addressOf : string → Z;
  showAddress : Z → string;
  localeCompare : string → string → Z }.

Section chain.
Context `{Viem} `{UtViem} `{UtSigner} `{chain : Block → EvmChain}.
Implicit Types (t : Treasury) (keys : list (string * EvmKey)) (known : list (string * string)).

(** [readEvmAddresses] *)
Definition readEvmAddresses keys : list (string * string) := (λ kv, (kv.1, key_address kv.2)) <$> keys.

Definition byAddress (x y : EvmKey) : Z :=
  if hexNumber (key_address x) <? hexNumber (key_address y) then -1 else 1.

(** The signatures [concat] joins. *)
Definition ownerSigs keys (ids : list string) (hash : string) : result ut_error (list string) :=
  owners ← mapM (λ id, match map_get id keys with
                       | Some k => Ok k
                       | None => Throw (UtError ("unknown owner " +:+ id))
                       end) ids;
  mret ((λ o, sign hash (key_private o)) <$> js_sort byAddress owners).

Definition evmContractSignature keys (message : UtIntent.BurnIntent) (hash : string) (signers : list string) : result ut_error string :=
  sigs ← ownerSigs keys signers hash; mret (encodeErc1271 message sigs).

(** ** Reading the contract *)

Definition isAllowlisted t (recipient : string) : bool :=
  bool_decide (be_value (h (b32 recipient)) ∈ allowedRecipients t).

Definition idOf known (a : string) : string :=
  match List.find (λ iv, bool_decide (toLowerCase iv.2 = toLowerCase a)) known with
  | Some (id, _) => id
  | None => String.substring 0 8 a
  end.

(** The calls of [readPolicy], on one state of the contract. *)
Definition readPolicy known t : TreasuryPolicy :=
  let ownerAddrs := showAddress <$> owners t in
  let owners := js_sort (λ a b, localeCompare (ow_id a) (ow_id b))
    ((λ a, {| ow_id := idOf known a; ow_address := a; ow_weight := weightOf t (hexNumber a) |}) <$> ownerAddrs) in
  let candidates := List.filter (λ iv, negb (existsb (λ o, bool_decide (toLowerCase o = toLowerCase iv.2)) ownerAddrs)) known in
  {| tp_live := true;
     tp_thresholdWeight := thresholdWeight t;
     tp_owners := owners;
     tp_allowlist := List.filter (λ iv, isAllowlisted t iv.2) candidates;
     tp_outsider := default ("?", "0x0000000000000000000000000000000000000000")
                      (head (List.filter (λ iv, negb (isAllowlisted t iv.2)) candidates));
     tp_destinationDomains := List.filter (λ d, bool_decide (d ∈ allowedDestinationDomains t))
                                [DOMAIN_solana; DOMAIN_baseSepolia; DOMAIN_arc];
     tp_perIntentCap := num_div_const (num_of_Z (perIntentCap t)) 1000000;
     tp_maxFeeCap := num_div_const (num_of_Z (maxFeeCap t)) 1000000;
     tp_maxExpiryBlocks := maxExpiryBlocks t |}.

(** ** The intent as the contract decodes it *)

Definition onChain (m : UtIntent.BurnIntent) : GtPolicy.BurnIntent :=
  let s := bi_spec m in
  {| maxBlockHeight := bi_maxBlockHeight m; maxFee := bi_maxFee m;
     spec := {| version := ts_version s; sourceDomain := ts_sourceDomain s; destinationDomain := ts_destinationDomain s;
                sourceContract := be_value (h (ts_sourceContract s));
                destinationContract := be_value (h (ts_destinationContract s));
                sourceToken := be_value (h (ts_sourceToken s)); destinationToken := be_value (h (ts_destinationToken s));
                sourceDepositor := be_value (h (ts_sourceDepositor s));
                destinationRecipient := be_value (h (ts_destinationRecipient s));
                sourceSigner := be_value (h (ts_sourceSigner s)); destinationCaller := be_value (h (ts_destinationCaller s));
                value := ts_value s; salt := be_value (h (ts_salt s)); hookData := h (ts_hookData s) |} |}.

(** The documented behaviour of viem on these: the EIP-712 digest, the ABI
    encoding, low-s signatures that recover to the signing account, and
    addresses as text. *)
Class UtChainLaws : Prop := {
  hash_digest m : intent_ok (onChain m) → be_value (h (hashBurnIntent m)) = burnIntentDigest (onChain m);
  erc1271_layout m sigs : intent_ok (onChain m) →
    h (encodeErc1271 m sigs) = encodeSignature 0 (encodeBurnIntent (onChain m)) (concat (h <$> sigs));
  sign_recovers b hash pk : ∃ v r s, h (sign hash pk) = word r ++ word s ++ [v] ∧
    isByte v ∧ v ≠ 0 ∧ 0 ≤ r < 2 ^ 256 ∧ 0 ≤ s ≤ SECP256K1N_DIV_2 ∧
    @tryRecover (chain b) (be_value (h hash)) v r s = Some (addressOf pk);
  showAddress_text a : 0 ≤ a < 2 ^ 160 → isHexBytes 20 (showAddress a) = true ∧ hexNumber (showAddress a) = a }.

(** ** The intent *)

Lemma be_value_h20 `{!UtViemLaws} a : isHexBytes 20 a = true → be_value (h (b32 a)) = hexNumber a.
Proof.
  intros Ha. rewrite b32_address, h_evmHex32 by done. pose proof (hexNumber_range 20 a Ha) as R.
  change (256 ^ Z.of_nat 20) with (2 ^ 160) in R. rewrite word_value; [done|]. split; [lia|].
  eapply Z.lt_le_trans; [apply R|]. by apply Z.pow_le_mono_r.
Qed.

(** The intent the server builds, read by the contract. *)
Definition chainIntent (head : Z) (salt recipient : string) (value : Z) : GtPolicy.BurnIntent :=
  {| maxBlockHeight := head + EVM_EXPIRY_BLOCKS; maxFee := MAX_FEE;
     spec := {| version := 1; sourceDomain := DOMAIN_arc; destinationDomain := DOMAIN_baseSepolia;
                sourceContract := hexNumber GATEWAY_WALLET; destinationContract := hexNumber GATEWAY_MINTER;
                sourceToken := hexNumber ARC_USDC; destinationToken := hexNumber BASE_USDC;
                sourceDepositor := hexNumber EVM_TREASURY; destinationRecipient := hexNumber recipient;
                sourceSigner := hexNumber EVM_TREASURY; destinationCaller := 0;
                GtPolicy.value := value; GtPolicy.salt := hexNumber ("0x" +:+ salt); hookData := [] |} |}.

Lemma onChain_evmIntent `{!UtViemLaws} head salt recipient value :
  isHexBytes 20 recipient = true → isHexBytes 32 ("0x" +:+ salt) = true →
  onChain (evmIntent head salt recipient value) = chainIntent head salt recipient value.
Proof.
  intros Hr Hs. unfold onChain, evmIntent, chainIntent. cbn [bi_maxBlockHeight bi_maxFee bi_spec ts_version ts_sourceDomain
    ts_destinationDomain ts_sourceContract ts_destinationContract ts_sourceToken ts_destinationToken ts_sourceDepositor
    ts_destinationRecipient ts_sourceSigner ts_destinationCaller ts_value ts_salt ts_hookData].
  rewrite !be_value_h20 by done. rewrite (h_hexBytes 32 _ Hs). pose proof (hexNumber_range 32 _ Hs).
  rewrite be_bytes_value by done. assert (padHex "0x00" 32 = "0x" +:+ padStart0 64 "00") as -> by (by apply (padHex_digits "00" 32)).
  done.
Qed.

Lemma chainIntent_ok head salt recipient value :
  isHexBytes 20 recipient = true → isHexBytes 32 ("0x" +:+ salt) = true →
  0 ≤ head < 2 ^ 64 → 0 ≤ value < 2 ^ 256 → intent_ok (chainIntent head salt recipient value).
Proof.
  intros Hr Hs Hh Hv. pose proof (hexNumber_range 20 _ Hr) as R1. pose proof (hexNumber_range 32 _ Hs) as R2.
  change (256 ^ Z.of_nat 20) with (2 ^ 160) in R1. change (256 ^ Z.of_nat 32) with (2 ^ 256) in R2.
  assert (2 ^ 160 < 2 ^ 256) by done. assert (2 ^ 64 + EVM_EXPIRY_BLOCKS < 2 ^ 256) by done.
  assert (0 ≤ EVM_EXPIRY_BLOCKS) by done.
  constructor; cbn [chainIntent spec version sourceDomain destinationDomain hookData]; try done.
  repeat (apply Forall_cons_2; [first [done|cbn [chainIntent maxBlockHeight maxFee spec GtPolicy.value GtPolicy.salt destinationRecipient]; lia]|]).
  constructor.
Qed.

(** ** The owners' signatures *)

Lemma sort_strict {A} (f : A → Z) (l : list A) :
  NoDup (f <$> l) → StronglySorted Z.lt (f <$> js_sort (λ x y, if f x <? f y then -1 else 1) l).
Proof.
  set (cmp := λ x y, if f x <? f y then -1 else 1).
  assert (∀ x l, f x ∉ f <$> l → StronglySorted Z.lt (f <$> l) → StronglySorted Z.lt (f <$> sort_insert cmp x l)) as Hins.
  { clear l. intros x l. induction l as [|y l IH]; intros Hx Hl; cbn [sort_insert]; [by repeat constructor|].
    rewrite fmap_cons in Hx, Hl. apply not_elem_of_cons in Hx as [Hxy Hx]. apply StronglySorted_inv in Hl as [Hl Hy].
    unfold cmp at 1. destruct (Z.ltb_spec (f x) (f y)) as [Hlt|Hge]; cbn [Z.leb Z.compare].
    - rewrite !fmap_cons. constructor; [by constructor|]. constructor; [done|].
      eapply Forall_impl; [exact Hy|]. cbn. lia.
    - rewrite fmap_cons. constructor; [by apply IH|]. rewrite sort_insert_perm, fmap_cons. constructor; [lia|done]. }
  induction l as [|x l IH]; [constructor|]. rewrite fmap_cons. intros [Hx Hl]%NoDup_cons.
  change (js_sort cmp (x :: l)) with (sort_insert cmp x (js_sort cmp l)). apply Hins; [|by apply IH].
  by rewrite js_sort_perm.
Qed.

(** A key and its signature, as an approval. *)
Definition signature_of b (hash : string) (k : EvmKey) (a : approval) : Prop :=
  ∃ v r s, a = EoaApproval (addressOf (key_private k)) v r s ∧ h (sign hash (key_private k)) = word r ++ word s ++ [v] ∧
           isByte v ∧ v ≠ 0 ∧ 0 ≤ r < 2 ^ 256 ∧ 0 ≤ s ≤ SECP256K1N_DIV_2 ∧
           @tryRecover (chain b) (be_value (h hash)) v r s = Some (addressOf (key_private k)).

Lemma signatures_exist `{!UtChainLaws} b hash (ks : list EvmKey) : ∃ l, Forall2 (signature_of b hash) ks l.
Proof.
  induction ks as [|k ks [l Hl]]; [by exists []|]. destruct (sign_recovers b hash (key_private k)) as (v & r & s & E & Hrest).
  exists (EoaApproval (addressOf (key_private k)) v r s :: l). constructor; [|done]. by exists v, r, s.
Qed.

Lemma signatures_blob b hash ks l :
  Forall2 (signature_of b hash) ks l → concat ((λ k, h (sign hash (key_private k))) <$> ks) = encodeApprovals l.
Proof.
  intros Hl. unfold encodeApprovals. rewrite (dynamics_eoa l), app_nil_r.
  - generalize (65 * Z.of_nat (length l)). induction Hl as [|k a ks l (v & r & s & -> & E & _) _ IH]; intros off; [done|].
    rewrite fmap_cons. cbn [concat slotsOf slotOf dynamicPart]. rewrite E. f_equal. apply IH.
  - apply Forall_forall. intros a Ha. apply list_elem_of_lookup in Ha as [i Hi].
    destruct (Forall2_lookup_r _ _ _ _ _ Hl Hi) as (k & _ & (v & r & s & -> & _)). done.
Qed.

Lemma signatures_good t b hash ks l :
  Forall2 (signature_of b hash) ks l →
  approver <$> l = (λ k, addressOf (key_private k)) <$> ks ∧ Forall (approves (chain := chain) b t (be_value (h hash))) l.
Proof.
  induction 1 as [|k a ks l (v & r & s & -> & E & Hrest) _ [IH1 IH2]]; [done|]. rewrite !fmap_cons, IH1.
  split; [done|]. by constructor.
Qed.

(** ** Labels and owners *)

(** The key file: a JSON object of labels that are no addresses, each with an
    address and the private key of that address. *)
Record key_file_ok keys : Prop := {
  kf_labels : NoDup keys.*1;
  kf_keys id k : (id, k) ∈ keys →
    startsWith "0x" id = false ∧ isHexBytes 20 (key_address k) = true ∧ addressOf (key_private k) = hexNumber (key_address k) }.

Lemma map_get_nodup {V} (m : list (string * V)) k v : NoDup m.*1 → (k, v) ∈ m → map_get k m = Some v.
Proof.
  induction m as [|[k' w] m IH]; [set_solver|]. rewrite fmap_cons. intros [Hk Hm]%NoDup_cons.
  intros [E|Hin]%elem_of_cons; cbn [map_get].
  - injection E as -> ->. by rewrite decide_True.
  - rewrite decide_False; [by apply IH|]. intros ->. apply Hk. apply list_elem_of_fmap. by exists (k, v).
Qed.

Lemma substring_prefix a : isHexBytes 20 a = true → startsWith "0x" (String.substring 0 8 a) = true.
Proof. by intros (t & -> & _ & _)%isHexBytes_split. Qed.

Lemma signer_owner `{!UtChainLaws} keys t id k o :
  key_file_ok keys → Forall (λ a, 0 ≤ a < 2 ^ 160) (owners t) → map_get id keys = Some k →
  findOwner (readPolicy (readEvmAddresses keys) t) id = Some o →
  let a := addressOf (key_private k) in
  a ∈ owners t ∧ ow_weight o = weightOf t a ∧ idOf (readEvmAddresses keys) (showAddress a) = id.
Proof.
  intros [Hnd Hk] Ho Hget Hf a. apply map_get_elem in Hget as Hin. destruct (Hk id k Hin) as (Hid & Hka & Hpk).
  apply findOwner_some in Hf as [Hf Eid]. cbn [readPolicy tp_owners] in Hf. rewrite js_sort_elem in Hf.
  rewrite <- list_fmap_compose in Hf. apply list_elem_of_fmap in Hf as (x & -> & Hx). cbn [compose ow_id ow_weight] in *.
  rewrite Forall_forall in Ho. destruct (showAddress_text x (Ho x Hx)) as [Sx1 Sx2].
  assert (x = a) as ->.
  { unfold idOf in Eid. destruct (List.find _ _) as [[id' a']|] eqn:Ef.
    - subst id'. apply List.find_some in Ef as [Hin' E%bool_decide_eq_true]. cbn [snd] in E.
      apply list_elem_of_In, list_elem_of_fmap in Hin' as ([id2 k2] & E2 & Hin2). cbn [fst snd] in E2. injection E2 as <- ->.
      pose proof (map_get_nodup keys id k2 Hnd Hin2) as G. rewrite Hget in G. injection G as <-.
      unfold a. rewrite Hpk, <- Sx2. symmetry. by apply (hexNumber_eq 20).
    - subst id. by rewrite substring_prefix in Hid. }
  rewrite Sx2. split; [done|]. split; [done|exact Eid].
Qed.

Lemma ownerSigs_ok keys ids hash sigs :
  ownerSigs keys ids hash = Ok sigs ↔
  ∃ ks, Forall2 (λ id k, map_get id keys = Some k) ids ks ∧ sigs = (λ o, sign hash (key_private o)) <$> js_sort byAddress ks.
Proof.
  unfold ownerSigs. rewrite bind_ok. split.
  - intros (ks & Hks%mapM_ok & E%ok_inj). exists ks. split; [|done]. eapply Forall2_impl; [exact Hks|]. intros id k.
    cbn. destruct (map_get id keys); naive_solver.
  - intros (ks & Hks & ->). exists ks. split; [|done]. apply mapM_ok. eapply Forall2_impl; [exact Hks|]. intros id k. cbn.
    by intros ->.
Qed.

(** The keys of distinct owner labels belong to distinct owners of the
    contract, and weigh what the server thinks they do. *)
Lemma signer_keys `{!UtChainLaws} keys t ids ks :
  let pol := readPolicy (readEvmAddresses keys) t in
  key_file_ok keys → Forall (λ a, 0 ≤ a < 2 ^ 160) (owners t) → NoDup ids →
  (∀ id, id ∈ ids → is_Some (findOwner pol id)) → Forall2 (λ id k, map_get id keys = Some k) ids ks →
  let addrs := (λ k, addressOf (key_private k)) <$> ks in
  NoDup addrs ∧ (∀ a, a ∈ addrs → a ∈ owners t) ∧ addrs = (λ k, hexNumber (key_address k)) <$> ks ∧
  sumZ (weightOf t <$> addrs) = sumZ ((λ id, match findOwner pol id with Some o => ow_weight o | None => 0 end) <$> ids).
Proof.
  intros pol Hk Ho Hnd Hown Hks addrs.
  assert (Forall2 (λ id k, addressOf (key_private k) ∈ owners t ∧ addressOf (key_private k) = hexNumber (key_address k) ∧
            weightOf t (addressOf (key_private k)) = match findOwner pol id with Some o => ow_weight o | None => 0 end ∧
            idOf (readEvmAddresses keys) (showAddress (addressOf (key_private k))) = id) ids ks) as F.
  { clear Hnd. induction Hks as [|id k ids ks Hget Hks IH]; constructor; [|apply IH; set_solver].
    destruct (Hown id ltac:(left)) as [o Eo]. destruct (signer_owner keys t id k o Hk Ho Hget Eo) as (S1 & S2 & S3).
    pose proof (kf_keys _ Hk id k (map_get_elem _ _ _ Hget)) as (_ & _ & Ek). by rewrite Eo. }
  clear Hks Hown. unfold addrs. clear addrs. induction F as [|id k ids ks (F1 & F2 & F3 & F4) F IH].
  - cbn. repeat split; [constructor|set_solver].
  - apply NoDup_cons in Hnd as [Hid Hnd]. destruct (IH Hnd) as (I1 & I2 & I3 & I4). rewrite !fmap_cons. split_and!.
    + constructor; [|done]. intros (k' & E & Hin)%list_elem_of_fmap. apply Hid. rewrite <- F4, E.
      apply list_elem_of_lookup in Hin as [j Hj]. destruct (Forall2_lookup_r _ _ _ _ _ F Hj) as (id' & Hid' & _ & _ & _ & E').
      rewrite E'. by eapply list_elem_of_lookup_2.
    + intros a [->|Ha]%elem_of_cons; auto.
    + by rewrite I3, F2.
    + cbn [sumZ]. by rewrite I4, F3.
Qed.

(** ** The verdict *)

(** The treasury the server is configured for, at work: the constants of
    [evm.ts] are the contract's and its fee cap leaves room for the server's. *)
Record deployed t : Prop := {
  dp_this : this t = hexNumber EVM_TREASURY;
  dp_wallet : gatewayWallet t = hexNumber GATEWAY_WALLET;
  dp_domain : localDomain t = DOMAIN_arc;
  dp_token : tokenAllowed t (hexNumber ARC_USDC) = true;
  dp_destination : DOMAIN_baseSepolia ∈ allowedDestinationDomains t;
  dp_minter : destinationMinters t !! DOMAIN_baseSepolia = Some (hexNumber GATEWAY_MINTER);
  dp_destinationToken : hexNumber BASE_USDC ∈ allowedDestinationTokens t;
  dp_fee : MAX_FEE ≤ maxFeeCap t;
  dp_cap : 0 ≤ perIntentCap t;
  dp_expiry : 0 ≤ maxExpiryBlocks t;
  dp_owners : Forall (λ a, 0 ≤ a < 2 ^ 160) (owners t) }.

Lemma isAllowlisted_spec `{!UtViemLaws} t recipient :
  isHexBytes 20 recipient = true → isAllowlisted t recipient = true ↔ hexNumber recipient ∈ allowedRecipients t.
Proof. intros Hr. unfold isAllowlisted. by rewrite bool_decide_eq_true, be_value_h20. Qed.

Lemma evm_domain_shape w : w ≠ 0 → w < 2 ^ 160 → shaped DOMAIN_baseSepolia w.
Proof. intros. by split. Qed.

(** What the server does not look at and the contract does: whether it is
    paused, the recipient is the zero word, the expiry the server chose from the
    chain's head [head] is too far ahead in block [b], or the intent's hash was
    revoked. *)
Definition nothing_else t b (head : Z) (recipient : string) (hash : Z) : bool :=
  negb (paused t) && negb (hexNumber recipient =? 0)
  && (head + EVM_EXPIRY_BLOCKS <=? number b + maxExpiryBlocks t)
  && negb (bool_decide (hash ∈ revokedIntents t)).

Lemma nothing_else_spec t b head recipient hash :
  nothing_else t b head recipient hash = true ↔
  paused t = false ∧ hexNumber recipient ≠ 0 ∧ head + EVM_EXPIRY_BLOCKS ≤ number b + maxExpiryBlocks t ∧
  hash ∉ revokedIntents t.
Proof.
  unfold nothing_else. rewrite !andb_true_iff, !negb_true_iff, bool_decide_eq_false, Z.eqb_neq, Z.leb_le. tauto.
Qed.

(** The policy of the contract allows such an intent exactly when its recipient
    is listed and nothing else is in the way. *)
Lemma chainIntent_allowed t b head salt recipient value hash :
  deployed t → isHexBytes 20 recipient = true → 0 < value ≤ perIntentCap t →
  burnIntentDigest (chainIntent head salt recipient value) = hash →
  burn_allowed b t hash (chainIntent head salt recipient value) ↔
  hexNumber recipient ∈ allowedRecipients t ∧ nothing_else t b head recipient hash = true.
Proof.
  intros D Hr Hv Hd. pose proof (hexNumber_range 20 _ Hr) as R. change (256 ^ Z.of_nat 20) with (2 ^ 160) in R.
  rewrite nothing_else_spec. split.
  - intros B. destruct (ba_recipient _ _ _ _ B) as [? [? _]]. split_and!; [done|apply B|done|apply (ba_expiry _ _ _ _ B)|apply B].
  - intros (Hin & Hrun & Hr0 & He & Hrev). destruct D.
    constructor; cbn [chainIntent spec version sourceDomain sourceContract sourceDepositor sourceSigner maxBlockHeight sourceToken
      hookData GtPolicy.value maxFee destinationDomain destinationContract destinationToken destinationRecipient destinationCaller];
      try done; try congruence; try lia.
    split; [done|]. apply evm_domain_shape; [done|lia].
Qed.

Lemma distinct_owners_few (t : Treasury) (addrs : list Z) :
  NoDup addrs → (∀ a, a ∈ addrs → a ∈ owners t) → (length addrs ≤ length (owners t))%nat.
Proof. intros Hn Hs. apply submseteq_length, NoDup_submseteq; [done|]. intros a. auto. Qed.

(** The blob the server concatenates is one the contract reads as the
    chosen owners' approvals. *)
Lemma signer_approvals `{!UtChainLaws} keys t b hash ids ks :
  let pol := readPolicy (readEvmAddresses keys) t in
  key_file_ok keys → wellformed t → Forall (λ a, 0 ≤ a < 2 ^ 160) (owners t) → ids ≠ [] → NoDup ids →
  (∀ id, id ∈ ids → is_Some (findOwner pol id)) → Forall2 (λ id k, map_get id keys = Some k) ids ks →
  ∃ l, concat (h <$> ((λ o, sign hash (key_private o)) <$> js_sort byAddress ks)) = encodeApprovals l ∧
    l ≠ [] ∧ StronglySorted Z.lt (0 :: (approver <$> l)) ∧ Forall (approves (chain := chain) b t (be_value (h hash))) l ∧
    Forall (λ a, weightOf t (approver a) ≠ 0) l ∧ lenZ (encodeApprovals l) < 2 ^ 62 ∧
    approvedWeight t l = sumZ ((λ id, match findOwner pol id with Some o => ow_weight o | None => 0 end) <$> ids).
Proof.
  intros pol Hk W Ho Hne Hnd Hown Hks.
  destruct (signer_keys keys t ids ks Hk Ho Hnd Hown Hks) as (A1 & A2 & A3 & A4).
  destruct (signatures_exist b hash (js_sort byAddress ks)) as [l Hl]. exists l.
  destruct (signatures_good t b hash _ l Hl) as [G1 G2]. set (f := λ k, addressOf (key_private k)) in *.
  assert (approver <$> l ≡ₚ f <$> ks) as Pl by (rewrite G1; apply fmap_Permutation, js_sort_perm).
  assert (∀ a, a ∈ l → approver a ∈ owners t) as Hin.
  { intros a Ha. apply A2. rewrite <- Pl. apply list_elem_of_fmap. by exists a. }
  assert (StronglySorted Z.lt (approver <$> l)) as Hs.
  { rewrite G1. assert (f <$> js_sort byAddress ks = (λ k, hexNumber (key_address k)) <$> js_sort byAddress ks) as ->.
    - apply list_fmap_ext. intros i k Hi. apply list_elem_of_lookup_2 in Hi. rewrite js_sort_elem in Hi.
      apply list_elem_of_lookup in Hi as [j Hj]. assert ((f <$> ks) !! j = ((λ k, hexNumber (key_address k)) <$> ks) !! j) as E by (by rewrite A3).
      rewrite !list_lookup_fmap, Hj in E. by injection E.
    - apply (sort_strict (λ k, hexNumber (key_address k))). by rewrite <- A3. }
  assert (length l = length ks) as Ll by (rewrite <- (length_fmap approver l), Pl; apply length_fmap).
  assert (length ks = length ids) as Lk by (symmetry; by eapply Forall2_length).
  split_and!.
  - rewrite <- list_fmap_compose. by apply (signatures_blob b).
  - intros ->. destruct ids; [done|]. cbn in *. lia.
  - constructor; [done|]. apply Forall_forall. intros x (a & -> & Ha)%list_elem_of_fmap.
    rewrite Forall_forall in Ho. pose proof (Ho _ (Hin a Ha)). pose proof (wf_owners _ W _ (Hin a Ha)). lia.
  - done.
  - apply Forall_forall. intros a Ha. pose proof (wf_owners _ W _ (Hin a Ha)). lia.
  - pose proof (distinct_owners_few t _ A1 A2) as F. rewrite length_fmap in F. pose proof (wf_count _ W).
    rewrite encodeApprovals_length, dynamics_eoa; [change (lenZ []) with 0; lia|]. apply Forall_forall. intros a Ha.
    apply list_elem_of_lookup in Ha as [i Hi]. destruct (Forall2_lookup_r _ _ _ _ _ Hl Hi) as (k & _ & (v & r & s & -> & _)). done.
  - unfold pol. rewrite <- A4. unfold approvedWeight. rewrite list_fmap_compose. apply sumZ_perm. by apply fmap_Permutation.
Qed.

Lemma evm_verdict `{!ViemLaws} `{!UtViemLaws} `{!UtChainLaws} keys t b caller req balances frost v head salt sig :
  let pol := readPolicy (readEvmAddresses keys) t in
  let recipient := default "" (sr_recipient req) in
  let listed := isAllowlisted t recipient in
  let m := evmIntent head salt recipient (va_value v) in
  let hash := hashBurnIntent m in
  key_file_ok keys → wellformed t → deployed t →
  validateSend {| vi_req := req; vi_pol := pol; vi_allowlisted := listed; vi_balances := balances; vi_frostOwners := frost |} = Ok v →
  evmContractSignature keys m hash (va_signers v) = Ok sig →
  isHexBytes 32 ("0x" +:+ salt) = true → 0 ≤ head < 2 ^ 64 →
  isValidSignature (chain := chain) b t caller (be_value (h hash)) (h sig)
  = if listed && (tp_thresholdWeight pol <=? va_weight v) && nothing_else t b head recipient (be_value (h hash))
    then ERC1271_MAGICVALUE else ERC1271_INVALID.
Proof.
  intros pol recipient listed m hash Hk W D Hv Hsig Hsalt Hhead.
  apply validateSend_validated in Hv as [Hv1 Hv2 Hv3 Hv4 _ Hv6 Hv7 Hv8 _ _]. cbn [vi_req vi_pol] in *.
  apply isAddress_format in Hv2. fold recipient in Hv2.
  specialize (Hv4 (perIntentCap t) eq_refl (dp_cap _ D)).
  assert (onChain m = chainIntent head salt recipient (va_value v)) as Em by (by apply onChain_evmIntent).
  assert (intent_ok (onChain m)) as Hok.
  { rewrite Em. assert (1000000 < 2 ^ 256) by done. apply chainIntent_ok; [assumption..|lia]. }
  assert (be_value (h hash) = burnIntentDigest (onChain m)) as Eh by (by apply hash_digest).
  unfold evmContractSignature in Hsig. apply bind_ok in Hsig as (sigs & Hsigs & Hsig%ok_inj). subst sig.
  apply ownerSigs_ok in Hsigs as (ks & Hks & ->). destruct Hv6 as (Hne & Hnd & _).
  destruct (signer_approvals keys t b hash (va_signers v) ks Hk W (dp_owners _ D) Hne Hnd Hv7 Hks)
    as (l & Eblob & L1 & L2 & L3 & L4 & L5 & L6).
  rewrite erc1271_layout, Eblob by exact Hok.
  destruct (burn_signature_verdict (chain := chain) b t caller (be_value (h hash)) (onChain m) (encodeApprovals l)) as [V1 V2];
    [exact Hok|apply (dp_expiry _ D)|by rewrite Em|exact L5|].
  assert (burn_allowed b t (be_value (h hash)) (onChain m) ↔
    listed = true ∧ nothing_else t b head recipient (be_value (h hash)) = true) as Hlisted.
  { unfold listed. rewrite isAllowlisted_spec by exact Hv2. rewrite Em. apply chainIntent_allowed; try assumption; [lia|].
    by rewrite Eh, Em. }
  destruct listed, (nothing_else t b head recipient (be_value (h hash))); rewrite ?andb_true_r, ?andb_false_r; cbn [andb].
  - rewrite V1 by (apply Hlisted; split; reflexivity). rewrite checkWeightedSigs_encoded; [by rewrite L6, Hv8|assumption..|].
    eapply Z.lt_trans; [exact L5|done].
  - apply V2. intros [_ F]%Hlisted. discriminate F.
  - apply V2. intros [F _]%Hlisted. discriminate F.
  - apply V2. intros [F _]%Hlisted. discriminate F.
Qed.

End chain.

(** ** An instance *)

Lemma bytesFromHex_bytes s : Forall byte (bytesFromHex s).
Proof.
  enough (∀ n s, (String.length s ≤ n)%nat → Forall byte (bytesFromHex s)) as E by (by apply (E (String.length s))).
  clear s. induction n as [|n IH]; intros [|a [|c s]] Hl; try constructor; try (cbn in Hl; lia).
  cbn [bytesFromHex]. destruct (is_hex a && is_hex c) eqn:E; [|constructor].
  apply andb_true_iff in E as [Ha%hexDigitVal_range Hc%hexDigitVal_range]. constructor; [unfold byte; lia|].
  apply IH. cbn in Hl. lia.
Qed.

Lemma words_bytes ws : Forall byte (words ws).
Proof. unfold words. induction ws as [|w ws IH]; [constructor|]. rewrite fmap_cons. apply Forall_app. split; [apply be_bytes_range|done]. Qed.

Lemma bytesTail_bytes d : Forall byte d → Forall byte (bytesTail d).
Proof.
  intros Hd. unfold bytesTail, padWords. rewrite !Forall_app. split_and!; [apply be_bytes_range|done|].
  apply Forall_forall. intros z Hz%list_elem_of_In%repeat_spec. by subst.
Qed.

(** viem as the contract ABI and EIP-712 have it. *)
#[local] Instance chain_ut_viem : UtViem :=
  {| padHex hex n := "0x" +:+ padStart0 (2 * n) (str_drop 2 hex);
     parseUnits s _ := amountUnits s;
     hashBurnIntent m := "0x" +:+ bytesHex (word (burnIntentDigest (onChain m)));
     encodeErc1271 m sigs := "0x" +:+ bytesHex (encodeSignature 0 (encodeBurnIntent (onChain m)) (concat (h <$> sigs))) |}.
#[local] Instance sample_signer : UtSigner :=
  {| sign hash pk := "0x" +:+ bytesHex (word (hexNumber pk mod 2 ^ 160) ++ word 9 ++ [27]);
     addressOf pk := hexNumber pk mod 2 ^ 160;
     showAddress a := "0x" +:+ hexDigits 40 a;
     localeCompare _ _ := 0 |}.

#[local] Instance chain_ut_viem_laws : UtViemLaws.
Proof. by split. Qed.

#[local] Instance sample_chain_laws : UtChainLaws (chain := sample_chain).
Proof.
  split.
  - intros m _. cbn [hashBurnIntent chain_ut_viem]. rewrite h_bytesHex by apply be_bytes_range. apply word_value.
    apply Z.mod_pos_bound. done.
  - intros m sigs _. cbn [encodeErc1271 chain_ut_viem]. apply h_bytesHex. unfold encodeSignature, encodeBurnIntent.
    rewrite !Forall_app. split; [apply words_bytes|]. split; apply bytesTail_bytes.
    + apply Forall_app. split; [apply words_bytes|]. apply bytesTail_bytes, bytesFromHex_bytes.
    + induction sigs as [|x sigs IH]; [constructor|]. rewrite fmap_cons. apply Forall_app. split; [apply bytesFromHex_bytes|done].
  - intros b hash pk. exists 27, (hexNumber pk mod 2 ^ 160), 9. cbn [sign addressOf sample_signer].
    assert (0 ≤ hexNumber pk mod 2 ^ 160 < 2 ^ 160) by (by apply Z.mod_pos_bound). assert (2 ^ 160 < 2 ^ 256) by done.
    rewrite h_bytesHex; [|rewrite !Forall_app; split_and!; [apply be_bytes_range..|by apply Forall_singleton]].
    split_and!; try done; lia.
  - intros a Ha. cbn [showAddress sample_signer]. destruct (hexDigits_spec 40 a) as (D1 & D2 & D3). split.
    + change ("0x" +:+ hexDigits 40 a) with (String "0" (String "x" (hexDigits 40 a))).
      unfold isHexBytes. cbn [startsWith str_drop]. rewrite D1, !Ascii.eqb_refl, andb_true_r. cbn [andb].
      unfold strlen in *. cbn [String.length]. apply Z.eqb_eq. lia.
    + change (hexNumber ("0x" +:+ hexDigits 40 a)) with (hexval_from 0 (hexDigits 40 a)). rewrite D3.
      apply Z.mod_small. done.
Qed.

(** The sample treasury at the server's addresses, its owners' keys, and
    payments by both owners and by one. *)
Definition chainKeys : list (string * EvmKey) :=
  [("A", {| key_address := "0x00000000000000000000000000000000000000b2"; key_private := "0x00000000000000000000000000000000000000b2" |});
   ("B", {| key_address := "0x00000000000000000000000000000000000000a1"; key_private := "0x00000000000000000000000000000000000000a1" |})].
Definition chainSigners : SignerParams :=
  {| sp_owners := [0xb2; 0xa1]; sp_weights := [2; 1]; sp_thresholdWeight := 3; sp_gatewayWallet := hexNumber GATEWAY_WALLET |}.
Definition chainPolicy : PolicyParams :=
  {| pp_allowedRecipients := [hexNumber "0x0000000000000000000000000000000000000001"];
     pp_allowedDestinationDomains := [DOMAIN_baseSepolia]; pp_tokenAddresses := [hexNumber ARC_USDC];
     pp_tokenNames := [textBytes "USDC"]; pp_tokenVersions := [textBytes "2"];
     pp_allowedDestinationTokens := [hexNumber BASE_USDC]; pp_perIntentCap := 5000000; pp_maxFeeCap := 3000000;
     pp_adminTimelock := 3600; pp_maxExpiryBlocks := 1250000; pp_localDomain := DOMAIN_arc;
     pp_destinationMinters := [hexNumber GATEWAY_MINTER]; pp_allowedDestinationCallers := [] |}.
Definition chainTreasury : Treasury :=
  match constructor (blockAt 1000) (hexNumber EVM_TREASURY) chainSigners chainPolicy with Ok t => t | Throw _ => sampleTreasury end.

Lemma chainTreasury_wellformed : wellformed chainTreasury.
Proof. apply (constructor_wellformed (blockAt 1000) (hexNumber EVM_TREASURY) chainSigners chainPolicy). reflexivity. Qed.

Lemma chainTreasury_deployed : deployed chainTreasury.
Proof.
  constructor.
  1-4, 6: vm_compute; reflexivity.
  3-5: vm_compute; congruence.
  - refine (proj1 (bool_decide_eq_true (_ ∈ _)) _). vm_compute. reflexivity.
  - refine (proj1 (bool_decide_eq_true (_ ∈ _)) _). vm_compute. reflexivity.
  - assert (owners chainTreasury = [0xb2; 0xa1]) as -> by (vm_compute; reflexivity).
    repeat (apply Forall_cons_2; [by split|]). constructor.
Qed.

Lemma chainKeys_ok : key_file_ok chainKeys.
Proof.
  constructor; [repeat constructor; set_solver|].
  intros id k [E|[E|[]%elem_of_nil]%elem_of_cons]%elem_of_cons; injection E as -> ->; by vm_compute.
Qed.

Definition chainSalt : string := hexDigits 64 5.
Definition chainRequest (signers : list string) : SendRequest :=
  sample_request <| sr_signers := Some signers |> <| sr_source := Some "evm" |>.
Definition chainPayee (signers : list string) : string := default "" (sr_recipient (chainRequest signers)).
Definition chainInput (signers : list string) : ValidateInput :=
  {| vi_req := chainRequest signers; vi_pol := readPolicy (readEvmAddresses chainKeys) chainTreasury;
     vi_allowlisted := isAllowlisted chainTreasury (default "" (sr_recipient (chainRequest signers)));
     vi_balances := {| bal_evm := toNumber "0.5"; bal_solana := toNumber "0.5" |}; vi_frostOwners := None |}.

Lemma chain_validated signers w :
  signers = ["A"; "B"] ∧ w = 3 ∨ signers = ["A"] ∧ w = 2 →
  ∃ v, validateSend (chainInput signers) = Ok v ∧ va_value v = 250000 ∧ va_weight v = w ∧ va_signers v = signers.
Proof. intros [[-> ->]|[-> ->]]; eexists; (split; [vm_compute; reflexivity|done]). Qed.

Lemma chain_signed m hash : 
  (∃ sig, evmContractSignature chainKeys m hash ["A"; "B"] = Ok sig) ∧ (∃ sig, evmContractSignature chainKeys m hash ["A"] = Ok sig).
Proof. split; eexists; reflexivity. Qed.

Definition chainVerdict (signers : list string) (v : Validated) (sig : string) : Z :=
  isValidSignature (chain := sample_chain) (blockAt 2000) chainTreasury 7
    (be_value (h (hashBurnIntent (evmIntent 100 chainSalt (chainPayee signers) (va_value v))))) (h sig).

