(* ===== verification/LedgerSigner.v ===== *)
(** * The Ledger swap signer

    [packages/ledger/src/native/ledger-native.service.ts]: [connectLedger] and
    [createLedgerSwapSigner]. A swap is reviewed once; the signer it creates
    may have the device sign the transactions of that swap in order, or its
    order, and nothing else. Device, wallet service, chain and clock are
    external calls; viem and the application's own packages are an interface.
    The status callback and the text of the prompts are left out. *)

From Stdlib Require Import QArith.
From S2P Require Import Prelude.
From S2P Require Import Js.
From S2P Require Import Decimal.
From S2P Require Import CreJson.
From S2P Require Import Abi.
From S2P Require Import Float64.
From S2P Require Import Async.

(** ** Data *)

Record Wallet : Type := {
  wa_id : string; wa_user_id : option string; wa_main_type : string; wa_address : option string;
  wa_blockchain : string; wa_custody_model : string; wa_provider : option string }.
Record Draft : Type := {
  dr_face : string; dr_walletId : string; dr_tokenIn : string; dr_tokenOut : string; dr_amountIn : string }.
Record Quote : Type := {
  qu_provider : string; qu_amountOutMin : string; qu_providerBps : num; qu_platformBps : num; qu_rest : jsval }.
Record Review : Type := { rv_chain : string; rv_draft : Draft; rv_wallet : Wallet; rv_quote : Quote }.

(** A transaction of the provider's answer; [value] is decimal text. *)
Record SwapTx : Type := { tx_kind : string; tx_chainId : Z; tx_to : string; tx_data : string; tx_value : string }.
Inductive Execution : Type :=
| UnsignedTx (chainKind : string) (quote : Quote) (approval : option SwapTx) (tx : SwapTx)
| UnsignedOrder (quote : Quote) (deadline : num) (permitData : jsval)
| OtherExecution (quote : Quote).
Definition executionQuote (e : Execution) : Quote :=
  match e with UnsignedTx _ q _ _ | UnsignedOrder q _ _ | OtherExecution q => q end.

(** An entry of [SWAP_CHAINS]. *)
Record ChainMeta : Type := { cm_isTestnet : bool; cm_kind : string; cm_chainId : Z }.

(** [LedgerSwapTransaction] *)
Record SwapStep : Type := { ss_to : string; ss_data : string; ss_value : Z }.

(** What [prepareTransactionRequest] filled in. *)
Record Prepared : Type := {
  pr_chainId : Z; pr_to : option string; pr_data : option string; pr_value : option Z; pr_type : option string;
  pr_rest : jsval }.

Record DeviceSignature : Type := { ds_r : string; ds_s : string; ds_v : jsnum }.
Record Device : Type := { dv_id : string; dv_rssi : option num }.
(** [LedgerConnection] *)
Record Connection : Type := { cn_session : string; cn_address : string }.

(** The constants the closures of [createLedgerSwapSigner] share. *)
Record Swap : Type := {
  sw_review : Review; sw_execution : Execution; sw_owner : string; sw_userId : string; sw_chainId : Z;
  sw_steps : list SwapStep; sw_order : option (jsval * string) }.

(** Their variables. *)
Record Signer : Type := {
  connection : option Connection; busy : bool; closed : bool; nextStep : Z; attempted : Z;
  orderAttempted : bool; pendingTx : option (string * Z) }.
#[global] Instance eta_signer : Eta Signer :=
  λ r, {| connection := connection r; busy := busy r; closed := closed r; nextStep := nextStep r;
          attempted := attempted r; orderAttempted := orderAttempted r; pendingTx := pendingTx r |}.
Definition newSigner : Signer :=
  {| connection := None; busy := false; closed := false; nextStep := 0; attempted := -1; orderAttempted := false;
     pendingTx := None |}.

(** ** External calls *)

Record TxReceipt : Type := { re_hash : string; re_status : string }.

Inductive lg_ext : Type → Type :=
| Now : lg_ext Z
| Tick : lg_ext ()                                  (* a dynamic import, an async function that does not wait *)
| CheckQuote (quote : Quote) (draft : Draft) (chain : string) : lg_ext ()     (* assertSwapQuote *)
| AssertActive : lg_ext ()
| Session : lg_ext (option (string * string))       (* access token and user id *)
| WalletFaces (token : string) : lg_ext (list Wallet)
| RpcChainId : lg_ext Z
| ChooseTransport : lg_ext string
| GetDmk : lg_ext ()
| EnvironmentSupported : lg_ext bool
| ScanDevices (transport : option string) : lg_ext (list Device)
| StopDiscovering : lg_ext ()
| ConnectDevice (device : Device) : lg_ext string
| GetAddress (session : string) : lg_ext string
| Disconnect (session : string) : lg_ext ()
| DeviceSignTransaction (c : Connection) (transaction : string) : lg_ext DeviceSignature
| DeviceSignTypedData (c : Connection) (data : jsval) : lg_ext DeviceSignature
| PrepareTransaction (step : SwapStep) : lg_ext Prepared
| SendRawTransaction (serialized : string) : lg_ext string
| WaitForReceipt (hash : string) : lg_ext TxReceipt.

Notation lg_prog := (prog Signer string lg_ext).

(** viem, the packages the application shares and the platform. *)
Class LedgerLib : Type := {
  platform : string;
  swapChain : string → option ChainMeta;
  getTokenAddress : string → string → option string;
  getBlockchainFromChainId : Z → option string;
  personalWalletKind : string → option string → string;
  swapAtomic : string → string → result string Z;
  resolveChainConfig : string → result string (Z * bool);
  isHexAddress : string → bool;
  decodeApproval : string → result string (string * (string * Z));
  encodeApproval : string → string → Z → string;
  hashTypedData : jsval → result string string;
  serializeTransaction : Prepared → option (string * string * Z) → result string string;
  hexToBytesOk : string → result string ();
  recoverTransactionAddress : string → result string string;
  recoverTypedDataAddress : jsval → string → result string string;
  formatLedgerSignature : DeviceSignature → result string string;
  keccakHex : string → string;
  numberOfVal : jsval → num }.

Section signer.
Context `{LedgerLib}.

(** [a.toLowerCase() !== b.toLowerCase()] *)
Definition differ (a b : string) : bool := negb (bool_decide (toLowerCase a = toLowerCase b)).
Definition guard (c : bool) (message : string) : lg_prog () := lift (throw_if c message).

(** A promise whose rejection is swallowed. *)
Definition tryAwait (c : lg_ext ()) : lg_prog () := Await c (λ _, Ret tt).

(** ** [connectLedger] *)

Definition rssiOf (d : Device) : num := default NegInf (dv_rssi d).
Definition byRssi (a b : Device) : Z := num_sign (num_sub (rssiOf b) (rssiOf a)).

Definition connectLedger : lg_prog Connection :=
  _ ← guard (negb (bool_decide (platform = "ios")) && negb (bool_decide (platform = "android")))
        "Ledger mobile support requires the BUFI iOS or Android app.";
  _ ← await Tick;
  transport ← (if bool_decide (platform = "android") then
                 _ ← await Tick; t ← await ChooseTransport; Ret (Some t)
               else Ret None);
  let usb := bool_decide (transport = Some "RN_HID") in
  _ ← await GetDmk;
  supported ← ask EnvironmentSupported;
  _ ← guard (negb supported) "Ledger connections are not supported on this device.";
  devices ← finally
    (catch (await (ScanDevices transport))
       (λ e, Fail ("No Ledger found. " +:+
                   (if usb then "Check the USB cable and allow the connection on your phone."
                    else "Unlock it and enable Bluetooth.") +:+ " " +:+ e)))
    (tryAwait StopDiscovering);
  match js_sort byRssi devices with
  | [] => Fail "TypeError"
  | device :: _ =>
      session ← await (ConnectDevice device);
      catch
        (_ ← await Tick;
         address ← await (GetAddress session);
         _ ← guard (negb (isHexAddress address)) "Ledger returned an invalid address.";
         Ret {| cn_session := session; cn_address := address |})
        (λ e, _ ← tryAwait (Disconnect session); Fail e)
  end.

Definition signTransaction (c : Connection) (transaction : string) : lg_prog DeviceSignature :=
  _ ← lift (hexToBytesOk transaction);
  _ ← await Tick;
  await (DeviceSignTransaction c transaction).
Definition deviceSignTypedData (c : Connection) (data : jsval) : lg_prog string :=
  _ ← await Tick;
  sig ← await (DeviceSignTypedData c data);
  lift (formatLedgerSignature sig).

(** ** What a reviewed swap allows *)

Definition registeredLedger (w : Wallet) : bool :=
  bool_decide (personalWalletKind (wa_custody_model w) (wa_provider w) = "ledger").

(** [assertReview] *)
Definition assertReview (review : Review) (execution : Execution) : lg_prog () :=
  let d := rv_draft review in
  let rq := rv_quote review in
  let eq := executionQuote execution in
  let changed := "The swap terms changed. Review a fresh quote before signing." in
  _ ← ask (CheckQuote rq d (rv_chain review));
  _ ← ask (CheckQuote eq d (rv_chain review));
  _ ← guard (negb (bool_decide (qu_provider eq = qu_provider rq))) changed;
  got ← lift (swapAtomic (qu_amountOutMin eq) (dr_tokenOut d));
  agreed ← lift (swapAtomic (qu_amountOutMin rq) (dr_tokenOut d));
  _ ← guard (got <? agreed) changed;
  _ ← guard (num_ltb (num_add (qu_providerBps rq) (qu_platformBps rq)) (num_add (qu_providerBps eq) (qu_platformBps eq))) changed;
  match execution with
  | UnsignedOrder _ deadline _ =>
      match deadline with
      | Fin _ => now ← ask Now; guard (num_leb (num_mul_const deadline 1000) (num_of_Z now)) changed
      | _ => Fail changed
      end
  | _ => Ret tt
  end.

(** The two regular expressions: [0x] and pairs of hexadecimal digits in either
    case; a decimal number without leading zeros. *)
Definition isHexData (s : string) : bool :=
  startsWith "0x" s && str_all is_hex (str_drop 2 s) && (strlen (str_drop 2 s) mod 2 =? 0).
Definition isCanonicalDecimal (s : string) : bool :=
  match s with
  | EmptyString => false
  | String c t => str_all is_digit s && (negb (Ascii.eqb c "0") || bool_decide (t = ""))
  end.

(** The loop over the approval and the transaction. *)
Fixpoint swapSteps (chainId : Z) (txs : list SwapTx) : result string (list SwapStep) :=
  match txs with
  | [] => mret []
  | t :: txs =>
      _ ← throw_if (negb (tx_chainId t =? chainId) || negb (isHexAddress (tx_to t)) || negb (isHexData (tx_data t))
                    || negb (isCanonicalDecimal (tx_value t)))
            "The swap transaction does not match the reviewed testnet.";
      rest ← swapSteps chainId txs;
      mret ({| ss_to := tx_to t; ss_data := tx_data t; ss_value := dec_value (tx_value t) |} :: rest)
  end.

Definition checkApproval (chain : string) (d : Draft) (approval tx : SwapTx) : result string () :=
  let wrong := "The approval must match this swap input, amount and recipient." in
  '(name, (spender, amount)) ← decodeApproval (tx_data approval);
  _ ← throw_if (negb (bool_decide (name = "approve")) && negb (bool_decide (name = "increaseAllowance"))) wrong;
  _ ← throw_if (negb (bool_decide (Some (toLowerCase (tx_to approval)) = toLowerCase <$> getTokenAddress chain (dr_tokenIn d)))) wrong;
  _ ← throw_if (differ spender (tx_to tx)) wrong;
  atomic ← swapAtomic (dr_amountIn d) (dr_tokenIn d);
  _ ← throw_if (negb (amount =? atomic)) wrong;
  _ ← throw_if (negb (bool_decide (tx_value approval = "0"))) wrong;
  throw_if (differ (encodeApproval name spender amount) (tx_data approval)) wrong.

Definition checkOrder (chainId : Z) (permitData : jsval) : result string string :=
  _ ← throw_if (negb (truthyVal (prop "domain" permitData))
                || negb (num_leb (num_of_Z chainId) (numberOfVal (prop "chainId" (prop "domain" permitData)))
                         && num_leb (numberOfVal (prop "chainId" (prop "domain" permitData))) (num_of_Z chainId))
                || negb (truthyVal (prop "types" permitData)) || negb (truthyVal (prop "primaryType" permitData))
                || negb (truthyVal (prop "message" permitData)))
        "The swap order does not match the reviewed testnet.";
  hashTypedData permitData.

(** The transactions, or the order and its hash. *)
Definition swapContents (review : Review) (chainId : Z) (execution : Execution) :
    result string (list SwapStep * option (jsval * string)) :=
  match execution with
  | UnsignedTx chainKind _ approval tx =>
      _ ← throw_if (negb (bool_decide (chainKind = "evm")) || negb (bool_decide (tx_kind tx = "evm")))
            "This Ledger swap requires EVM transactions.";
      steps ← swapSteps chainId (option_list approval ++ [tx]);
      _ ← (match approval with Some a => checkApproval (rv_chain review) (rv_draft review) a tx | None => mret tt end);
      mret (steps, None)
  | UnsignedOrder _ _ permitData => hash ← checkOrder chainId permitData; mret ([], Some (permitData, hash))
  | OtherExecution _ => Throw "This swap does not require a Ledger signature."
  end.

(** ** The closures *)

Context (assertsActive : bool) (sw : Swap).
Notation wallet := (rv_wallet (sw_review sw)).

Definition sameWallet (row : Wallet) : bool :=
  bool_decide (wa_id row = wa_id wallet) && bool_decide (wa_user_id row = Some (sw_userId sw)) &&
  bool_decide (wa_main_type row = "individual") &&
  bool_decide (toLowerCase <$> wa_address row = Some (toLowerCase (sw_owner sw))) &&
  bool_decide (wa_blockchain row = wa_blockchain wallet) && registeredLedger row.

(** [session?.user.id] *)
Definition userOf (session : option (string * string)) : option string :=
  match session with Some (_, user) => Some user | None => None end.

Definition assertOwner : lg_prog () :=
  let gone := "Your Ledger wallet session changed. Reopen this wallet." in
  _ ← await (if assertsActive then AssertActive else Tick);
  session ← await Session;
  match session with
  | None => Fail gone
  | Some (token, user) =>
      _ ← guard (bool_decide (token = "") || negb (bool_decide (user = sw_userId sw))) gone;
      rows ← await (WalletFaces token);
      _ ← guard (negb (length (List.filter sameWallet rows) =? 1)%nat)
            "This wallet is no longer your registered Personal Ledger.";
      current ← await Session;
      guard (negb (bool_decide (userOf current = Some (sw_userId sw)))) gone
  end.

Definition assertChain : lg_prog () :=
  id ← await RpcChainId;
  guard (negb (id =? sw_chainId sw)) "The RPC network changed. Reopen this testnet swap.".

Definition device : lg_prog Connection :=
  s ← get;
  c ← (match connection s with
       | Some c => Ret c
       | None => c ← connectLedger; _ ← assign (λ s, s <| connection := Some c |>); Ret c
       end);
  if differ (cn_address c) (sw_owner sw) then
    _ ← tryAwait (Disconnect (cn_session c));
    _ ← assign (λ s, s <| connection := None |>);
    Fail "Connect the Ledger account registered for this Personal wallet."
  else Ret c.

Definition review : lg_prog () := assertReview (sw_review sw) (sw_execution sw).
Definition notClosed : lg_prog () :=
  s ← get; guard (closed s) "The Ledger swap was closed. Review it again before signing.".

Definition enter : lg_prog () :=
  s ← get;
  _ ← guard (closed s || busy s) "The Ledger swap is closed or already awaiting approval.";
  _ ← assign (λ s, s <| busy := true |>);
  catch (_ ← review; _ ← assertOwner; _ ← assertChain; _ ← review; notClosed)
    (λ e, _ ← assign (λ s, s <| busy := false |>); Fail e).

Definition confirmPending : lg_prog (option string) :=
  s ← get;
  match pendingTx s with
  | None => Ret None
  | Some (hash, step) =>
      receipt ← await (WaitForReceipt hash);
      _ ← guard (differ (re_hash receipt) hash) "The swap receipt does not match the submitted transaction.";
      _ ← assign (λ s, s <| pendingTx := None |>);
      _ ← guard (negb (bool_decide (re_status receipt = "success"))) "The Ledger swap transaction reverted.";
      _ ← assign (λ s, s <| nextStep := step + 1 |>);
      Ret (Some hash)
  end.

Definition expectedStep (n : Z) : option SwapStep := sw_steps sw !! Z.to_nat n.

(** What was prepared is the reviewed step. *)
Definition preparedMatches (e : SwapStep) (p : Prepared) : bool :=
  (pr_chainId p =? sw_chainId sw) &&
  bool_decide (toLowerCase <$> pr_to p = Some (toLowerCase (ss_to e))) &&
  bool_decide (toLowerCase <$> pr_data p = Some (toLowerCase (ss_data e))) &&
  bool_decide (pr_value p = Some (ss_value e)) &&
  bool_decide (default "" (pr_type p) ∈ ["legacy"; "eip2930"; "eip1559"]).

Definition parityOf (v : Z) : Z := if v <=? 1 then v else (v + 1) mod 2.

(** The end of [sendTransaction]: the signed text is saved, sent and awaited. *)
Definition broadcast (serialized : string) : lg_prog (option string) :=
  _ ← assign (λ s, s <| pendingTx := Some (keccakHex serialized, nextStep s) |>);
  hash ← await (SendRawTransaction serialized);
  s ← get;
  match pendingTx s with
  | None => Fail "TypeError"
  | Some (saved, _) =>
      _ ← guard (differ hash saved) "The RPC returned a different transaction hash. Check the saved transaction.";
      confirmPending
  end.

(** The body of [sendTransaction] inside its [try]. *)
Definition sendStep (expected : SwapStep) : lg_prog (option string) :=
  _ ← assign (λ s, s <| attempted := nextStep s |>);
  ledger ← device;
  prepared ← await (PrepareTransaction expected);
  _ ← guard (negb (preparedMatches expected prepared)) "The prepared transaction changed the reviewed swap.";
  unsigned ← lift (serializeTransaction prepared None);
  sig ← signTransaction ledger unsigned;
  v ← (match ds_v sig with
       | JInt v => if (0 <=? v) && (v <=? 255) then Ret v else Fail "Ledger returned an invalid transaction recovery id."
       | JNonInt _ => Fail "Ledger returned an invalid transaction recovery id."
       end);
  serialized ← lift (serializeTransaction prepared (Some (ds_r sig, ds_s sig, 27 + parityOf v)));
  _ ← await Tick;
  from ← lift (recoverTransactionAddress serialized);
  _ ← guard (differ from (sw_owner sw)) "The swap signature does not match the registered Ledger.";
  _ ← notClosed;
  _ ← review;
  _ ← assertOwner;
  _ ← assertChain;
  _ ← notClosed;
  _ ← review;
  broadcast serialized.

Definition release : lg_prog () := assign (λ s, s <| busy := false |>).

Definition sendTransaction (tx : SwapStep) : lg_prog (option string) :=
  s ← get;
  match expectedStep (nextStep s) with
  | None => Fail "Only the next transaction in this reviewed swap may be signed."
  | Some expected =>
      _ ← guard (differ (ss_to tx) (ss_to expected) || differ (ss_data tx) (ss_data expected)
                 || negb (ss_value tx =? ss_value expected))
            "Only the next transaction in this reviewed swap may be signed.";
      _ ← guard (bool_decide (is_Some (pendingTx s)) || (attempted s =? nextStep s))
            "This swap step was already requested. Check its transaction before retrying.";
      _ ← enter;
      finally (sendStep expected) release
  end.

Definition signOrder (order : jsval) : lg_prog (option string) :=
  _ ← assign (λ s, s <| orderAttempted := true |>);
  ledger ← device;
  signature ← deviceSignTypedData ledger order;
  _ ← await Tick;
  from ← lift (recoverTypedDataAddress order signature);
  _ ← guard (differ from (sw_owner sw)) "The swap signature does not match the registered Ledger.";
  _ ← notClosed;
  _ ← review;
  _ ← assertOwner;
  _ ← notClosed;
  _ ← review;
  Ret (Some signature).

Definition signTypedData (data : jsval) : lg_prog (option string) :=
  let only := "Only the original reviewed swap order may be signed." in
  match sw_order sw with
  | None => Fail only
  | Some (order, orderHash) =>
      _ ← guard (bool_decide (orderHash = "")) only;
      hash ← lift (hashTypedData data);
      _ ← guard (negb (bool_decide (hash = orderHash))) only;
      s ← get;
      _ ← guard (orderAttempted s) "This swap order was already requested. Review a fresh quote to retry.";
      _ ← enter;
      finally (signOrder order) release
  end.

Definition getPendingTransaction (s : Signer) : option string := fst <$> pendingTx s.

Definition resumeTransaction : lg_prog (option string) :=
  s ← get;
  _ ← guard (busy s) "The Ledger swap is still awaiting approval.";
  match pendingTx s with
  | None => Ret None
  | Some _ =>
      _ ← assign (λ s, s <| busy := true |>);
      finally (_ ← assertOwner; _ ← assertChain; confirmPending) release
  end.

Definition close : lg_prog (option string) :=
  _ ← assign (λ s, s <| closed := true |>);
  s ← get;
  _ ← (match connection s with Some c => tryAwait (Disconnect (cn_session c)) | None => Ret tt end);
  _ ← assign (λ s, s <| connection := None |>);
  Ret None.
End signer.

(** ** [createLedgerSwapSigner] *)

Section create.
Context `{LedgerLib}.

Definition createLedgerSwapSigner (assertsActive : bool) (review : Review) (execution : Execution) : lg_prog Swap :=
  let d := rv_draft review in
  let w := rv_wallet review in
  let unfit := "Choose a registered Personal Ledger wallet on testnet for this swap." in
  _ ← await Tick;
  match swapChain (rv_chain review), truthy (wa_user_id w), truthy (wa_address w) with
  | Some meta, Some userId, Some owner =>
      _ ← guard (negb (cm_isTestnet meta) || negb (bool_decide (cm_kind meta = "evm"))
                 || negb (bool_decide (dr_face d = "personal")) || negb (bool_decide (dr_walletId d = wa_id w))
                 || negb (bool_decide (wa_main_type w = "individual")) || negb (isHexAddress owner)
                 || negb (registeredLedger w)) unfit;
      match getBlockchainFromChainId (cm_chainId meta) with
      | None => Fail "The reviewed Ledger wallet does not match this testnet."
      | Some blockchain =>
          _ ← guard (negb (bool_decide (wa_blockchain w = blockchain)) && negb (bool_decide (wa_blockchain w = "EVM")))
                "The reviewed Ledger wallet does not match this testnet.";
          _ ← assertReview review execution;
          '(steps, order) ← lift (swapContents review (cm_chainId meta) execution);
          let sw := {| sw_review := review; sw_execution := execution; sw_owner := owner; sw_userId := userId;
                       sw_chainId := cm_chainId meta; sw_steps := steps; sw_order := order |} in
          _ ← assertOwner assertsActive sw;
          _ ← await Tick;
          '(chainId, testnet) ← lift (resolveChainConfig blockchain);
          _ ← guard (negb (chainId =? cm_chainId meta) || negb testnet)
                "Ledger swaps require the matching testnet chain configuration.";
          Ret sw
      end
  | _, _, _ => Fail unfit
  end.
End create.
