(* ===== verification/LedgerMachine.v ===== *)
(** * The Ledger swap signer as a machine

    The calls a user interface makes on one signer, interleaved at every
    suspension: [busy] is a lock, the state is well formed whenever it is free,
    and the one call that holds it keeps it so at each suspension, whatever
    device, wallet service and chain answer and whenever [close] comes. *)

From S2P Require Import Prelude.
From S2P Require Import Js.
From S2P Require Import Decimal.
From S2P Require Import CreJson.
From S2P Require Import Abi.
From S2P Require Import Float64.
From S2P Require Import Async.
From S2P Require Import LedgerSigner.

(** ** Calls and steps *)

Inductive call : Type :=
| CallSendTransaction (tx : SwapStep)
| CallSignTypedData (data : jsval)
| CallResumeTransaction
| CallClose.

Notation lg_event := (event string lg_ext).
Notation lg_world := (world Signer string lg_ext).
Notation lg_outcome := (outcome Signer string lg_ext (option string)).

(** What an event asked of the device and of the chain. *)
Definition signRequest (e : lg_event) : option (Connection * string) :=
  match e with Event c _ => match c with DeviceSignTransaction d t => Some (d, t) | _ => None end end.
Definition sendRequest (e : lg_event) : option string :=
  match e with Event c _ => match c with SendRawTransaction s => Some s | _ => None end end.
Definition orderRequest (e : lg_event) : option (Connection * jsval) :=
  match e with Event c _ => match c with DeviceSignTypedData d o => Some (d, o) | _ => None end end.
Definition quietEvent (e : lg_event) : Prop := signRequest e = None ∧ sendRequest e = None ∧ orderRequest e = None.

(** A request without its answer, as an event: the reply is a dummy. *)
Definition request {R} (c : lg_ext R) : lg_event := Event c (Rejects EmptyString).
Definition waiting (o : lg_outcome) : list lg_event := match o with Suspended c _ => [request c] | _ => [] end.
Definition answered {R} (c : lg_ext R) (r : reply string R) (w : lg_world) : lg_world := (w.1, w.2 ++ [Event c r]).

Record machine : Type := { m_world : lg_world; m_calls : list (call * lg_outcome) }.
Definition initial : machine := {| m_world := (newSigner, []); m_calls := [] |}.

Lemma wp_guard hold rely {B} (ok : B → lg_world → lg_world → Prop) ko w0 w b m (k : () → lg_prog B) :
  (b = false → wp hold rely (k tt) ok ko w0 w) → (b = true → ko m w0 w) → wp hold rely (guard b m ≫= k) ok ko w0 w.
Proof. intros Hk Hf. destruct b; [by apply Hf|by apply Hk]. Qed.

Section machine.
Context `{LedgerLib} (assertsActive : bool) (sw : Swap).

Definition program (c : call) : lg_prog (option string) :=
  match c with
  | CallSendTransaction tx => sendTransaction assertsActive sw tx
  | CallSignTypedData data => signTypedData assertsActive sw data
  | CallResumeTransaction => resumeTransaction assertsActive sw
  | CallClose => close
  end.

Inductive step : machine → machine → Prop :=
| step_call w cs c o w' :
    runs (program c) w o w' →
    step {| m_world := w; m_calls := cs |} {| m_world := w'; m_calls := cs ++ [(c, o)] |}
| step_reply w c1 c2 c R (e : lg_ext R) k r o w' :
    runs (k r) (answered e r w) o w' →
    step {| m_world := w; m_calls := c1 ++ (c, Suspended e k) :: c2 |}
         {| m_world := w'; m_calls := c1 ++ (c, o) :: c2 |}.

Inductive reachable : machine → Prop :=
| reachable_initial : reachable initial
| reachable_step m m' : reachable m → step m m' → reachable m'.

(** ** The invariant *)

(** What was asked so far: the answered calls [h] and the waiting ones [q]. *)
Definition signs (h q : list lg_event) : list (Connection * string) := omap signRequest (h ++ q).
Definition sends (h q : list lg_event) : list string := omap sendRequest (h ++ q).
Definition orders (h q : list lg_event) : list (Connection * jsval) := omap orderRequest (h ++ q).
#[global] Arguments signs : simpl never.
#[global] Arguments sends : simpl never.
#[global] Arguments orders : simpl never.

Definition ownerDevice (c : Connection) : Prop := toLowerCase (cn_address c) = toLowerCase (sw_owner sw).

(** A text that is the reviewed step, unsigned, or signed by the owner. *)
Definition reviewed_unsigned (e : SwapStep) (t : string) : Prop :=
  ∃ p, preparedMatches sw e p = true ∧ serializeTransaction p None = Ok t.
Definition reviewed_signed (e : SwapStep) (t : string) : Prop :=
  ∃ p sig from, preparedMatches sw e p = true ∧ serializeTransaction p (Some sig) = Ok t ∧
    recoverTransactionAddress t = Ok from ∧ toLowerCase from = toLowerCase (sw_owner sw).

Definition confirmed (h : list lg_event) (raw : string) : Prop :=
  ∃ re, Event (WaitForReceipt (keccakHex raw)) (Value re) ∈ h ∧ re_status re = "success" ∧
        toLowerCase (re_hash re) = toLowerCase (keccakHex raw).

Record inv (s : Signer) (h q : list lg_event) : Prop := {
  v_signs i c t : signs h q !! i = Some (c, t) → ownerDevice c ∧ ∃ e, sw_steps sw !! i = Some e ∧ reviewed_unsigned e t;
  v_sends i raw : sends h q !! i = Some raw → ∃ e, sw_steps sw !! i = Some e ∧ reviewed_signed e raw;
  v_orders c d : (c, d) ∈ orders h q → ownerDevice c ∧ ∃ hash, sw_order sw = Some (d, hash);
  v_once : (length (orders h q) ≤ if orderAttempted s then 1 else 0)%nat;
  v_next : 0 ≤ nextStep s;
  v_attempted : attempted s ≤ nextStep s;
  v_counts : nextStep s ≤ Z.of_nat (length (sends h q)) ≤ Z.of_nat (length (signs h q));
  v_ahead : Z.of_nat (length (signs h q)) ≤ nextStep s + (if attempted s =? nextStep s then 1 else 0);
  v_pending hs k : pendingTx s = Some (hs, k) →
    k = nextStep s ∧ attempted s = nextStep s ∧ ∃ raw, sends h q !! Z.to_nat k = Some raw ∧ hs = keccakHex raw;
  v_confirmed i : Z.of_nat i < nextStep s → ∃ raw, sends h q !! i = Some raw ∧ confirmed h raw }.

(** ** The holder of the lock *)

(** Counters that a quiet step leaves alone. *)
Definition snap (w : lg_world) : Z * Z * option (string * Z) * bool * nat * nat * nat :=
  (nextStep w.1, attempted w.1, pendingTx w.1, orderAttempted w.1,
   length (signs w.2 []), length (sends w.2 []), length (orders w.2 [])).

Implicit Types (w : lg_world).

Record stage K w0 w : Prop := {
  g_inv : inv w.1 w.2 [];
  g_busy : busy w.1 = true;
  g_snap : snap w = K;
  g_closed : closed w.1 = closed w0.1 }.

(** What [close] and the calls that find the lock taken do meanwhile. *)
Record rely w w' : Prop := {
  r_state : w.1 = w'.1 <| connection := connection w.1 |> <| closed := closed w.1 |>;
  r_closed : closed w.1 = true → closed w'.1 = true;
  r_history : ∃ hs, w'.2 = w.2 ++ hs ∧ Forall quietEvent hs }.

#[global] Instance rely_preorder : PreOrder rely.
Proof.
  split.
  - intros [s h]. split; [by destruct s|done|]. exists []. by rewrite app_nil_r.
  - intros [s1 h1] [s2 h2] [s3 h3] [E1 C1 (l1 & E & Q1)] [E2 C2 (l2 & E' & Q2)]. cbn in *. subst h2 h3. split; cbn.
    + rewrite E1, E2. by destruct s3.
    + auto.
    + exists (l1 ++ l2). rewrite app_assoc. split; [done|]. by apply Forall_app.
Qed.

Definition hold {R} (c : lg_ext R) w0 w : Prop :=
  inv w.1 w.2 [request c] ∧ busy w.1 = true ∧ closed w.1 = closed w0.1 ∧
  (is_Some (sendRequest (request c)) → closed w.1 = false).

Notation WP := (wp (@hold) rely).
Definition stages {A} K (_ : A) w0 w : Prop := stage K w0 w.
Definition broken (_ : string) w0 w : Prop := ∃ K, stage K w0 w.

Lemma quiet_one (e : lg_event) : quietEvent e → Forall quietEvent [e].
Proof. intros He. by constructor. Qed.
Lemma asked_quiet (h hs : list lg_event) :
  Forall quietEvent hs →
  signs (h ++ hs) [] = signs h [] ∧ sends (h ++ hs) [] = sends h [] ∧ orders (h ++ hs) [] = orders h [].
Proof.
  intros Hq. unfold signs, sends, orders. rewrite !app_nil_r, !omap_app.
  assert (omap signRequest hs = [] ∧ omap sendRequest hs = [] ∧ omap orderRequest hs = []) as (-> & -> & ->); [|by rewrite !app_nil_r].
  induction Hq as [|e hs (E1 & E2 & E3) _ (I1 & I2 & I3)]; [done|]. cbn. by rewrite E1, E2, E3.
Qed.

Lemma confirmed_app h hs raw : confirmed h raw → confirmed (h ++ hs) raw.
Proof. intros (re & Hin & Hre). exists re. split; [set_solver|done]. Qed.

Lemma inv_history s h h' q q' :
  signs h' q' = signs h q → sends h' q' = sends h q → orders h' q' = orders h q →
  (∀ raw, confirmed h raw → confirmed h' raw) → inv s h q → inv s h' q'.
Proof.
  intros E1 E2 E3 Hc []. constructor; rewrite ?E1, ?E2, ?E3; try done. intros i Hi.
  destruct (v_confirmed0 i Hi) as (raw & ? & ?). eauto.
Qed.

Lemma inv_quiet s h hs : Forall quietEvent hs → inv s h [] → inv s (h ++ hs) [].
Proof.
  intros Hq. destruct (asked_quiet h hs Hq) as (E1 & E2 & E3). apply inv_history; try done. intros raw. apply confirmed_app.
Qed.

Lemma inv_reply {R} s h (c : lg_ext R) r : inv s h [request c] → inv s (h ++ [Event c r]) [].
Proof.
  apply inv_history; try (intros raw; apply confirmed_app); unfold signs, sends, orders; by rewrite app_nil_r, !omap_app.
Qed.

Lemma inv_request {R} s h (c : lg_ext R) : quietEvent (request c) → inv s h [] → inv s h [request c].
Proof.
  intros Hq. destruct (asked_quiet h [request c] (quiet_one _ Hq)) as (E1 & E2 & E3).
  apply inv_history; [| | |done]; unfold signs, sends, orders in *; rewrite !app_nil_r in *; done.
Qed.

(** The invariant looks at the counters only. *)
Lemma inv_state s s' h q :
  nextStep s' = nextStep s → attempted s' = attempted s → pendingTx s' = pendingTx s → orderAttempted s' = orderAttempted s →
  inv s h q → inv s' h q.
Proof. intros E1 E2 E3 E4 []. constructor; rewrite ?E1, ?E2, ?E3, ?E4; done. Qed.

Lemma rely_fields w w' : rely w w' →
  nextStep w'.1 = nextStep w.1 ∧ attempted w'.1 = attempted w.1 ∧ pendingTx w'.1 = pendingTx w.1 ∧
  orderAttempted w'.1 = orderAttempted w.1 ∧ busy w'.1 = busy w.1.
Proof. intros [E _ _]. by rewrite E. Qed.

Lemma lock_quiet K w0 w e : stage K w0 w → quietEvent e → stage K w0 (w.1, w.2 ++ [e]).
Proof.
  intros [G1 G2 G3 G4] He%quiet_one. rename He into Hq.
  split; cbn; [by apply inv_quiet|done| |done]. unfold snap in *. cbn [fst snd]. by destruct (asked_quiet w.2 [e] Hq) as (-> & -> & ->).
Qed.

Lemma lock_rely K w0 w w' : stage K w0 w → rely w w' → stage K w' w'.
Proof.
  intros [G1 G2 G3 G4] Hr. destruct (rely_fields _ _ Hr) as (E1 & E2 & E3 & E4 & E5). destruct Hr as [_ _ (hs & Eh & Hq)].
  split; [|congruence| |done].
  - rewrite Eh. apply inv_quiet; [done|]. by apply inv_state with w.1.
  - unfold snap in *. rewrite E1, E2, E3, E4, Eh. by destruct (asked_quiet w.2 hs Hq) as (-> & -> & ->).
Qed.

Lemma lock_hold K w0 w {R} (c : lg_ext R) : stage K w0 w → quietEvent (request c) → hold c w0 w.
Proof.
  intros [G1 G2 G3 G4] Hq. split; [by apply inv_request|]. split; [done|]. split; [done|]. destruct Hq as (_ & -> & _).
  by intros [? ?].
Qed.

Lemma WP_await {A} (ok : A → lg_world → lg_world → Prop) (ko : string → lg_world → lg_world → Prop) w0 w (c : lg_ext A) :
  hold c w0 w →
  (∀ w' v, rely w w' → ok v w' (answered c (Value v) w')) →
  (∀ w' e, rely w w' → ko e w' (answered c (Rejects e) w')) → WP (await c) ok ko w0 w.
Proof. intros Hh Hk Hf. split; [done|]. intros w' [v|e] Hr; [by apply Hk|by apply Hf]. Qed.

(** ** Programs that neither ask for a signature nor send *)

Definition tame {A} (p : lg_prog A) : Prop := ∀ K w0 w, stage K w0 w → WP p (stages K) (stages K) w0 w.

Lemma tame_ret {A} (a : A) : tame (Ret a).
Proof. by intros K w0 w. Qed.
Lemma tame_fail {A} e : tame (Fail e : lg_prog A).
Proof. by intros K w0 w. Qed.
Lemma tame_bind {A B} (p : lg_prog A) (k : A → lg_prog B) : tame p → (∀ a, tame (k a)) → tame (p ≫= k).
Proof.
  intros Hp Hk K w0 w Hs. apply wp_bind. eapply wp_mono; [| |by apply (Hp K)]; [|done]. intros a w1 w2. apply Hk.
Qed.
Lemma tame_await {R} (c : lg_ext R) : quietEvent (request c) → tame (await c).
Proof.
  intros Hq K w0 w Hs. split; [by eapply lock_hold|]. intros w' r Hr.
  assert (stage K w' (w'.1, w'.2 ++ [Event c r])) as Hs' by (apply lock_quiet; [by eapply lock_rely|done]). by destruct r.
Qed.
Lemma tame_ask {R} (c : lg_ext R) : quietEvent (request c) → tame (ask c).
Proof.
  intros Hq K w0 w Hs r. assert (stage K w0 (w.1, w.2 ++ [Event c r])) as Hs' by (by apply lock_quiet). by destruct r.
Qed.
Lemma tame_tryAwait (c : lg_ext ()) : quietEvent (request c) → tame (tryAwait c).
Proof.
  intros Hq K w0 w Hs. split; [by eapply lock_hold|]. intros w' r Hr. apply lock_quiet; [by eapply lock_rely|done].
Qed.
Lemma tame_lift {A} (r : result string A) : tame (lift r).
Proof. destruct r; [apply tame_ret|apply tame_fail]. Qed.
Lemma tame_guard b m : tame (guard b m).
Proof. apply tame_lift. Qed.
Lemma tame_get {A} (k : Signer → lg_prog A) : (∀ s, tame (k s)) → tame (get ≫= k).
Proof. intros Hk K w0 w. apply (Hk w.1). Qed.
Lemma tame_connection c : tame (assign (λ s, s <| connection := c |>)).
Proof. intros K w0 w [G1 G2 G3 G4]. split; try done. by apply inv_state with w.1. Qed.
Lemma tame_catch {A} (p : lg_prog A) h : tame p → (∀ e, tame (h e)) → tame (catch p h).
Proof.
  intros Hp Hh K w0 w Hs. apply wp_catch. eapply wp_mono; [| |by apply (Hp K)]; [done|]. intros e w1 w2. apply Hh.
Qed.
Lemma tame_finally {A} (p : lg_prog A) q : tame p → tame q → tame (finally p q).
Proof.
  intros Hp Hq K w0 w Hs. apply wp_finally. eapply wp_mono; [| |by apply (Hp K)].
  - intros a w1 w2 Hs2. eapply wp_mono; [| |by apply (Hq K)]; done.
  - intros e w1 w2 Hs2. eapply wp_mono; [| |by apply (Hq K)]; done.
Qed.
End machine.

Create HintDb tame discriminated.
#[export] Hint Resolve tame_ret tame_fail tame_lift tame_guard tame_connection tame_await tame_ask tame_tryAwait : tame.
#[export] Hint Extern 1 (quietEvent _) => (split; [|split]; reflexivity) : tame.

(** Takes a quiet program apart along its binds and branches. *)
Ltac tame :=
  repeat first
    [ progress intros
    | match goal with
      | |- tame _ (get ≫= _) => apply tame_get
      | |- tame _ (_ ≫= _) => apply tame_bind
      | |- tame _ (catch _ _) => apply tame_catch
      | |- tame _ (finally _ _) => apply tame_finally
      | |- tame _ (if ?b then _ else _) => destruct b
      | |- tame _ (match ?x with _ => _ end) => destruct x
      end
    | solve [auto with tame] ].
