(* ===== verification/LedgerSafety.v ===== *)
(** * The Ledger swap signer: what one operation does

    Each operation of the signer against the invariant of [LedgerMachine]: the
    checks are quiet, the device is the owner's, a step is signed and sent at
    most once and only as reviewed, and the lock is free again at the end. *)

From S2P Require Import Prelude.
From S2P Require Import Js.
From S2P Require Import Decimal.
From S2P Require Import CreJson.
From S2P Require Import Abi.
From S2P Require Import Float64.
From S2P Require Import Async.
From S2P Require Import LedgerSigner.
From S2P Require Import LedgerMachine.

Section operations.
Context `{LedgerLib} (assertsActive : bool) (sw : Swap).
Implicit Types (w : lg_world).
Notation WP := (wp (@hold _ sw) rely).

(** ** The quiet parts *)

Lemma tame_connectLedger : tame sw connectLedger.
Proof. unfold connectLedger. tame. Qed.
Lemma tame_review : tame sw (review sw).
Proof. unfold review, assertReview. tame. Qed.
Lemma tame_assertOwner : tame sw (assertOwner assertsActive sw).
Proof. unfold assertOwner. destruct assertsActive; tame. Qed.
Lemma tame_assertChain : tame sw (assertChain sw).
Proof. unfold assertChain. tame. Qed.
Lemma tame_notClosed : tame sw notClosed.
Proof. unfold notClosed. tame. Qed.
#[local] Hint Resolve tame_connectLedger tame_notClosed tame_review tame_assertOwner tame_assertChain : tame.

(** The checks before the device is used and again before the result is. *)
Definition hot K w0 w : Prop := stage sw K w0 w ∧ closed w.1 = false.

Lemma WP_quiet {A} (p : lg_prog A) (ok : A → lg_world → lg_world → Prop) ko K w0 w :
  tame sw p → stage sw K w0 w → (∀ a w0 w, stage sw K w0 w → ok a w0 w) → (∀ e w0 w, stage sw K w0 w → ko e w0 w) →
  WP p ok ko w0 w.
Proof. intros Hp Hs Ho Hk. eapply wp_mono; [| |by apply (Hp K)]; auto. Qed.

Lemma WP_notClosed (ok : () → lg_world → lg_world → Prop) ko w0 w :
  (closed w.1 = false → ok tt w0 w) → (∀ e, ko e w0 w) → WP notClosed ok ko w0 w.
Proof. intros Ho Hk. cbn. unfold guard, throw_if. destruct (closed w.1); cbn; auto. Qed.

(** The review itself does not wait. *)
Fixpoint prompt {A} (p : lg_prog A) : Prop :=
  match p with
  | Ret _ | Fail _ => True
  | Read k => ∀ s, prompt (k s)
  | Ask _ k => ∀ r, prompt (k r)
  | Upd _ _ | Await _ _ => False
  end.
Lemma prompt_bind {A B} (p : lg_prog A) (k : A → lg_prog B) : prompt p → (∀ a, prompt (k a)) → prompt (p ≫= k).
Proof. intros Hp Hk. unfold mbind, prog_bind. induction p; cbn in *; auto; done. Qed.
Lemma prompt_lift {A} (r : result string A) : prompt (lift r).
Proof. by destruct r. Qed.
Lemma prompt_ask {R} (c : lg_ext R) : prompt (ask c).
Proof. by intros []. Qed.
#[local] Hint Resolve prompt_lift prompt_ask : core.
Lemma prompt_review : prompt (review sw).
Proof.
  unfold review, assertReview, guard. repeat (apply prompt_bind; [by auto|intros ?]).
  destruct (sw_execution sw) as [| |]; try destruct deadline; try done.
  apply prompt_bind; auto.
Qed.

Lemma WP_prompt {A} (p : lg_prog A) ok ko w0 w :
  prompt p → WP p ok ko w0 w → WP p (λ a w0' w', ok a w0' w' ∧ w'.1 = w.1) ko w0 w.
Proof.
  revert w. induction p as [a|e|f p IH|k IH|R c k IH|R c k IH]; intros w Hp; cbn in *; try done; [by apply IH|].
  intros Hw r. by apply (IH r (w.1, _)).
Qed.
Lemma WP_review K (ok : () → lg_world → lg_world → Prop) ko w0 w :
  hot K w0 w → (∀ w0 w, hot K w0 w → ok tt w0 w) → (∀ e w0 w, stage sw K w0 w → ko e w0 w) → WP (review sw) ok ko w0 w.
Proof.
  intros [Hs Hc] Ho Hk. eapply wp_mono; [| |apply WP_prompt; [apply prompt_review|by apply (tame_review K)]]; [|done].
  intros [] w1 w2 [Hs2 E]. apply Ho. split; [done|]. by rewrite E.
Qed.

Lemma WP_device K w0 w :
  stage sw K w0 w → WP (device sw) (λ c w0 w, ownerDevice sw c ∧ stage sw K w0 w) (λ _, stage sw K) w0 w.
Proof.
  intros Hs. unfold device. apply wp_bind. cbn [get wp]. apply wp_bind.
  apply WP_quiet with K; [tame|done| |done].
  clear. intros c w0 w Hs. destruct (differ (cn_address c) (sw_owner sw)) eqn:Hd.
  - apply wp_bind, WP_quiet with K; [tame|done|clear; intros _ w0 w Hs|done].
    by apply wp_bind, WP_quiet with K; [tame|done| |].
  - split; [|done]. apply negb_false_iff, bool_decide_eq_true in Hd. done.
Qed.

(** The lock is free again. *)
Record rest w0 w : Prop := {
  rest_inv : inv sw w.1 w.2 [];
  rest_busy : busy w.1 = false;
  rest_closed : closed w.1 = closed w0.1 }.

Lemma stage_release K w0 w : stage sw K w0 w → rest w0 (w.1 <| busy := false |>, w.2).
Proof. intros [G1 G2 G3 G4]. split; cbn; [by apply inv_state with w.1|done|done]. Qed.

(** Runs the quiet program at the head of the goal from the stage [Hs]. *)
Ltac quietly Hs :=
  first [eapply wp_bind|idtac]; eapply WP_quiet; [solve [tame]|exact Hs|clear Hs; intros ? ? ? Hs|clear Hs; intros ? ? ? Hs].

Lemma WP_enter (ok : () → lg_world → lg_world → Prop) w0 w :
  inv sw w.1 w.2 [] → closed w.1 = closed w0.1 → busy w.1 = false →
  (∀ w0 w', hot (snap w) w0 w' → ok tt w0 w') → WP (enter assertsActive sw) ok (λ _, rest) w0 w.
Proof.
  intros Hi Hc Hb Ho. apply wp_get, wp_guard; [intros [Hcl _]%orb_false_iff|by intros _; split].
  apply wp_assign, wp_catch. cbv beta.
  match goal with |- wp _ _ _ _ _ _ ?w' => assert (stage sw (snap w) w0 w') as Hs end.
  { split; cbn; [by apply inv_state with w.1|done|done|done]. }
  do 4 (quietly Hs; [|by eapply stage_release]).
  apply WP_notClosed; [intros Hcl'; by apply Ho|]. intros e. by eapply stage_release.
Qed.

(** ** The steps that move the invariant *)

Lemma signs_request h c t : signs h [request (DeviceSignTransaction c t)] = signs h [] ++ [(c, t)].
Proof. unfold signs. by rewrite app_nil_r, omap_app. Qed.
Lemma sends_request h raw : sends h [request (SendRawTransaction raw)] = sends h [] ++ [raw].
Proof. unfold sends. by rewrite app_nil_r, omap_app. Qed.
Lemma orders_request h c d : orders h [request (DeviceSignTypedData c d)] = orders h [] ++ [(c, d)].
Proof. unfold orders. by rewrite app_nil_r, omap_app. Qed.
Lemma signs_other h {R} (c : lg_ext R) : signRequest (request c) = None → signs h [request c] = signs h [].
Proof. intros E. unfold signs. rewrite app_nil_r, omap_app. cbn [omap list_omap]. by rewrite E, app_nil_r. Qed.
Lemma sends_other h {R} (c : lg_ext R) : sendRequest (request c) = None → sends h [request c] = sends h [].
Proof. intros E. unfold sends. rewrite app_nil_r, omap_app. cbn [omap list_omap]. by rewrite E, app_nil_r. Qed.
Lemma orders_other h {R} (c : lg_ext R) : orderRequest (request c) = None → orders h [request c] = orders h [].
Proof. intros E. unfold orders. rewrite app_nil_r, omap_app. cbn [omap list_omap]. by rewrite E, app_nil_r. Qed.

Lemma lookup_last {A} (l : list A) x y i : (l ++ [x]) !! i = Some y → l !! i = Some y ∨ i = length l ∧ y = x.
Proof. intros [?|[Hle [Hi ->]%list_lookup_singleton_Some]]%lookup_app_Some; [by left|right]. split; [lia|done]. Qed.

Lemma inv_attempt s h :
  inv sw s h [] → pendingTx s = None → attempted s ≠ nextStep s → inv sw (s <| attempted := nextStep s |>) h [].
Proof.
  intros [V1 V2 V3 V4 V5 V6 V7 V8 V9 V10] Hp Ha. apply Z.eqb_neq in Ha. rewrite Ha in V8.
  split; cbn; rewrite ?Z.eqb_refl, ?Hp; try done; lia.
Qed.

Lemma inv_sign s h c t e :
  inv sw s h [] → ownerDevice sw c → attempted s = nextStep s → length (signs h []) = Z.to_nat (nextStep s) →
  sw_steps sw !! Z.to_nat (nextStep s) = Some e → reviewed_unsigned sw e t →
  inv sw s h [request (DeviceSignTransaction c t)].
Proof.
  intros [V1 V2 V3 V4 V5 V6 V7 V8 V9 V10] Hc Ha Hl He Ht.
  split; try done; rewrite ?signs_request, ?length_app, ?sends_other, ?orders_other by done; try done; [|rewrite ?Ha, ?Z.eqb_refl; cbn; lia..].
  intros i c' t' [?|[-> [= -> ->]]]%lookup_last; [eauto|]. rewrite Hl. eauto.
Qed.

Lemma inv_send s h raw e :
  inv sw s h [] → attempted s = nextStep s → pendingTx s = None →
  length (sends h []) = Z.to_nat (nextStep s) → length (signs h []) = S (Z.to_nat (nextStep s)) →
  sw_steps sw !! Z.to_nat (nextStep s) = Some e → reviewed_signed sw e raw →
  inv sw (s <| pendingTx := Some (keccakHex raw, nextStep s) |>) h [request (SendRawTransaction raw)].
Proof.
  intros [V1 V2 V3 V4 V5 V6 V7 V8 V9 V10] Ha Hp Hl Hl' He Hr.
  split; cbn; rewrite ?sends_request, ?length_app, ?signs_other, ?orders_other by done; try done; [|cbn; lia|..].
  - intros i raw' [?|[-> ->]]%lookup_last; [eauto|]. rewrite Hl. eauto.
  - intros hs k [= <- <-]. repeat split; [done|]. exists raw. split; [|done]. apply lookup_snoc_Some. auto.
  - intros i Hi. destruct (V10 i Hi) as (r & Hr' & Hc). exists r. split; [|done]. by apply lookup_app_l_Some.
Qed.

Lemma inv_order_attempt s h : inv sw s h [] → inv sw (s <| orderAttempted := true |>) h [].
Proof. intros [V1 V2 V3 V4 V5 V6 V7 V8 V9 V10]. split; cbn; try done. destruct (orderAttempted s); lia. Qed.

Lemma inv_order s h c d hash :
  inv sw s h [] → ownerDevice sw c → orderAttempted s = true → orders h [] = [] → sw_order sw = Some (d, hash) →
  inv sw s h [request (DeviceSignTypedData c d)].
Proof.
  intros [V1 V2 V3 V4 V5 V6 V7 V8 V9 V10] Hc Ha Hn Ho.
  split; rewrite ?orders_request, ?Hn, ?Ha, ?signs_other, ?sends_other by done; try done.
  intros c' d' [= -> ->]%list_elem_of_singleton. eauto.
Qed.

Lemma inv_drop s h : inv sw s h [] → inv sw (s <| pendingTx := None |>) h [].
Proof. intros [V1 V2 V3 V4 V5 V6 V7 V8 V9 V10]. by split. Qed.

Lemma inv_confirm s h raw k :
  inv sw s h [] → pendingTx s = None → k = nextStep s → attempted s = nextStep s → sends h [] !! Z.to_nat k = Some raw → confirmed h raw →
  inv sw (s <| nextStep := k + 1 |>) h [].
Proof.
  intros [V1 V2 V3 V4 V5 V6 V7 V8 V9 V10] Hp -> Ha Hr Hc. pose proof (lookup_lt_Some _ _ _ Hr) as Hlt.
  rewrite Ha, Z.eqb_refl in V8.
  split; cbn; rewrite ?Hp; try done; [lia..| |].
  - rewrite (proj2 (Z.eqb_neq _ _)); lia.
  - intros i Hi. destruct (decide (Z.of_nat i < nextStep s)) as [Hi'|Hi']; [by apply V10|].
    exists raw. split; [|done]. by replace i with (Z.to_nat (nextStep s)) by lia.
Qed.

(** ** The operations *)

Definition live w0 w : Prop := ∃ K, stage sw K w0 w.
#[local] Notation broke := (λ _ : string, live).

Lemma live_stage K w0 w : stage sw K w0 w → live w0 w.
Proof. by exists K. Qed.
Lemma make_live w0 w : inv sw w.1 w.2 [] → busy w.1 = true → closed w.1 = closed w0.1 → live w0 w.
Proof. intros ???. exists (snap w). by split. Qed.
#[local] Hint Resolve live_stage : core.

Lemma stage_answered K w0 w w' {R} (c : lg_ext R) r :
  stage sw K w0 w → rely w w' → quietEvent (request c) → stage sw K w' (answered c r w').
Proof. intros Hs Hr Hq. apply lock_quiet; [by eapply lock_rely|done]. Qed.

Lemma WP_ask {A} (c : lg_ext A) (ok : A → lg_world → lg_world → Prop) ko K w0 w :
  quietEvent (request c) → stage sw K w0 w →
  (∀ w' v, rely w w' → stage sw K w' (answered c (Value v) w') → ok v w' (answered c (Value v) w')) →
  (∀ e w0 w, stage sw K w0 w → ko e w0 w) → WP (await c) ok ko w0 w.
Proof.
  intros Hq Hs Hk Hf. apply WP_await; [by eapply lock_hold|intros w' v Hr; apply Hk; [done|]|intros w' v Hr; apply Hf];
    by eapply stage_answered.
Qed.

(** A hash the signer hands out. *)
Definition settled (hash : string) (h : list lg_event) : Prop :=
  ∃ i raw, sends h [] !! i = Some raw ∧ hash = keccakHex raw ∧ confirmed h raw.
Definition hash_settled (r : option string) w0 w : Prop := live w0 w ∧ ∃ hash, r = Some hash ∧ settled hash w.2.

Lemma WP_confirmPending K w0 w :
  stage sw K w0 w → is_Some (pendingTx w.1) → WP confirmPending hash_settled broke w0 w.
Proof.
  intros Hs [[hs k] Hp]. apply wp_get. rewrite Hp.
  eapply wp_bind, WP_ask; [done|exact Hs| |eauto]. clear Hs. intros w' re Hr Hs. destruct (rely_fields _ _ Hr) as (_ & _ & E & _).
  rewrite Hp in E. apply wp_guard; [intros Hd|eauto]. destruct Hs as [G1 G2 G3 G4].
  apply wp_assign, wp_guard; [intros Hst|intros _; apply make_live; cbn; [by apply inv_drop|done|done]].
  destruct (v_pending _ _ _ _ G1 hs k E) as (Hk & Ha & raw & Hraw & ->).
  assert (confirmed (w'.2 ++ [Event (WaitForReceipt (keccakHex raw)) (Value re)]) raw) as Hc.
  { exists re. split; [set_solver|]. apply negb_false_iff, bool_decide_eq_true in Hst, Hd. done. }
  split; [apply make_live; cbn; [|done|done]|].
  - by apply inv_confirm with raw; [apply inv_drop| | | | |].
  - eexists. split; [done|]. by exists (Z.to_nat k), raw.
Qed.

Lemma snap_eq w w' : snap w = snap w' →
  nextStep w.1 = nextStep w'.1 ∧ attempted w.1 = attempted w'.1 ∧ pendingTx w.1 = pendingTx w'.1 ∧
  orderAttempted w.1 = orderAttempted w'.1 ∧ length (signs w.2 []) = length (signs w'.2 []) ∧
  length (sends w.2 []) = length (sends w'.2 []) ∧ length (orders w.2 []) = length (orders w'.2 []).
Proof. unfold snap. intros [= -> -> -> -> -> -> ->]. done. Qed.

(** Where a step of the swap is on its way: how often it was signed. *)
Record underway (signed : nat) (e : SwapStep) w : Prop := {
  u_attempted : attempted w.1 = nextStep w.1;
  u_pending : pendingTx w.1 = None;
  u_sends : length (sends w.2 []) = Z.to_nat (nextStep w.1);
  u_signs : length (signs w.2 []) = (signed + Z.to_nat (nextStep w.1))%nat;
  u_step : sw_steps sw !! Z.to_nat (nextStep w.1) = Some e }.
Definition way n e K w0 w : Prop := stage sw K w0 w ∧ underway n e w.
Lemma way_stage n e K w0 w w0' w' : way n e K w0 w → stage sw K w0' w' → way n e K w0' w'.
Proof.
  intros [[_ _ <- _] []] Hs. split; [done|]. destruct (snap_eq _ _ (g_snap _ _ _ _ Hs)) as (E1 & E2 & E3 & E4 & E5 & E6 & E7).
  split; congruence.
Qed.
Lemma WP_way {A} (p : lg_prog A) ok n e K w0 w :
  tame sw p → way n e K w0 w → (∀ a w0 w, way n e K w0 w → ok a w0 w) → WP p ok broke w0 w.
Proof. intros Hp Hw Ho. apply WP_quiet with K; [done|by destruct Hw| |eauto]. intros a w1 w2 Hs. eapply Ho, way_stage; done. Qed.

Lemma inv_answered {R} (c : lg_ext R) r w w' :
  inv sw w.1 w.2 [request c] → rely w w' → inv sw (answered c r w').1 (answered c r w').2 [].
Proof.
  intros Hi Hr. cbn. destruct (rely_fields _ _ Hr) as (E1 & E2 & E3 & E4 & _). destruct Hr as [_ _ (hs & -> & Hq)].
  apply inv_state with w.1; [done..|]. revert Hi. destruct (asked_quiet w.2 hs Hq) as (S1 & S2 & S3).
  unfold signs, sends, orders in *. rewrite !app_nil_r in *.
  apply inv_history; unfold signs, sends, orders; rewrite ?app_nil_r, ?(omap_app _ (w.2 ++ hs)), ?S1, ?S2, ?S3, ?(omap_app _ w.2); try done.
  intros raw Hc. by do 2 apply confirmed_app.
Qed.

(** A request that moves the invariant, the state being set just before. *)
Lemma WP_request {A} (c : lg_ext A) (ok : A → lg_world → lg_world → Prop) ko w0 w :
  inv sw w.1 w.2 [request c] → busy w.1 = true → closed w.1 = closed w0.1 →
  (is_Some (sendRequest (request c)) → closed w.1 = false) →
  (∀ w' v, rely w w' → live w' (answered c (Value v) w') → ok v w' (answered c (Value v) w')) →
  (∀ e w0 w, live w0 w → ko e w0 w) → WP (await c) ok ko w0 w.
Proof.
  intros Hi Hb Hc Hs Hk Hf.
  assert (∀ w' r, rely w w' → live w' (answered c r w')) as Hl.
  { intros w' r Hr. apply make_live; [by apply (inv_answered c r w)| |done]. cbn. by destruct (rely_fields _ _ Hr) as (_ & _ & _ & _ & ->). }
  apply WP_await; [by split_and!|auto|auto].
Qed.

Lemma WP_deviceSign K c e t (ok : DeviceSignature → lg_world → lg_world → Prop) w0 w :
  way 0 e K w0 w → ownerDevice sw c → reviewed_unsigned sw e t →
  (∀ K a w0 w, way 1 e K w0 w → ok a w0 w) → WP (await (DeviceSignTransaction c t)) ok broke w0 w.
Proof.
  intros [[G1 G2 G3 G4] [U1 U2 U3 U4 U5]] Hc Ht Ho.
  apply WP_request; [by eapply inv_sign|done|done|by intros [? ?]| |done].
  intros w' sig Hr [K' Hs]. apply (Ho K'). split; [done|].
  destruct (rely_fields _ _ Hr) as (E1 & E2 & E3 & E4 & E5). destruct Hr as [_ _ (hs & Eh & Hq)].
  destruct (asked_quiet w.2 hs Hq) as (S1 & S2 & S3).
  split; cbn; rewrite ?E1, ?E2, ?E3, ?Eh; try done; unfold signs, sends in *; rewrite !app_nil_r in *;
    rewrite omap_app, ?S1, ?S2, length_app; cbn; lia.
Qed.

Lemma WP_broadcast K e raw w0 w :
  way 1 e K w0 w → closed w.1 = false → reviewed_signed sw e raw → WP (broadcast raw) hash_settled broke w0 w.
Proof.
  intros [[G1 G2 G3 G4] [U1 U2 U3 U4 U5]] Hc Hr. apply wp_assign.
  apply wp_bind, WP_request; [by apply inv_send with e|done..| |done].
  intros w' hash Hw [K' Hs]. destruct (rely_fields _ _ Hw) as (_ & _ & E & _).
  apply wp_get. cbn [answered fst] in *. rewrite E. apply wp_guard; [intros _|by exists K'].
  eapply WP_confirmPending; [done|]. cbn. rewrite E. eauto.
Qed.

Ltac onward Hw := eapply WP_way; [solve [tame]|exact Hw|clear Hw; intros ? ? ? Hw].

Lemma WP_sendStep K expected w0 w :
  hot K w0 w → pendingTx w.1 = None → attempted w.1 ≠ nextStep w.1 → sw_steps sw !! Z.to_nat (nextStep w.1) = Some expected →
  WP (sendStep assertsActive sw expected) hash_settled broke w0 w.
Proof.
  intros [[G1 G2 G3 G4] Hc] Hp Ha He. apply wp_assign. pose proof (v_counts _ _ _ _ G1). pose proof (v_next _ _ _ _ G1).
  pose proof (v_ahead _ _ _ _ G1) as Hn. apply Z.eqb_neq in Ha as Ha'. rewrite Ha' in Hn.
  match goal with |- wp _ _ _ _ _ _ ?v => assert (∃ K, way 0 expected K w0 v) as [K1 Hw] end.
  { eexists. split; [split; [by apply inv_attempt|done|done|done]|]. split; cbn; [done..|lia|lia|done]. }
  match type of Hw with way _ _ _ _ ?v => generalize dependent v end. clear. intros w Hw.
  apply wp_bind. eapply wp_mono; [| |eapply WP_device, Hw]; [|intros e w1 w2 Hs; exists K1; exact Hs]. intros c w1 w2 [Hdev Hs].
  apply (way_stage _ _ _ _ _ _ _ Hw) in Hs. clear Hw. rename Hs into Hw.
  apply wp_bind. onward Hw. rename a into p.
  apply wp_guard; [intros Hp%negb_false_iff|destruct Hw; eauto].
  apply wp_lift; [intros unsigned Hser|destruct Hw; eauto].
  unfold signTransaction. apply wp_bind, wp_bind. onward Hw. apply wp_bind. onward Hw.
  eapply WP_deviceSign; [exact Hw|done|by exists p|clear Hw; intros K2 sig ? ? Hw].
  apply wp_bind. onward Hw. apply wp_lift; [intros raw Hraw|destruct Hw; eauto].
  apply wp_bind. onward Hw. apply wp_lift; [intros from Hfrom|destruct Hw; eauto].
  apply wp_guard; [intros Hown%negb_false_iff%bool_decide_eq_true|destruct Hw; eauto].
  do 4 (apply wp_bind; onward Hw).
  apply wp_bind, WP_notClosed; [intros Hcl|destruct Hw; eauto].
  eapply wp_bind, WP_review; [split; [apply Hw|done]|intros ? ? [Hs Hcl']|eauto].
  eapply WP_broadcast; [by eapply way_stage|done|]. by eexists p, _, from.
Qed.

(** ** The calls *)

(** What a call gives back. *)
Definition verdict (c : call) (r : option string) (h : list lg_event) : Prop :=
  match c with
  | CallSendTransaction _ => ∃ hash, r = Some hash ∧ settled hash h
  | CallResumeTransaction => ∀ hash, r = Some hash → settled hash h
  | CallSignTypedData _ =>
      ∃ sig order hash from, r = Some sig ∧ sw_order sw = Some (order, hash) ∧
        recoverTypedDataAddress order sig = Ok from ∧ toLowerCase from = toLowerCase (sw_owner sw)
  | CallClose => r = None
  end.

(** An order's signature is not given out once the swap is closed. *)
Definition open_order (c : call) w : Prop :=
  match c with CallSignTypedData _ => closed w.1 = false | _ => True end.

Definition finish c (r : option string) w0 w : Prop := rest w0 w ∧ verdict c r w.2 ∧ open_order c w.

Lemma WP_locked c (p : lg_prog (option string)) w0 w :
  WP p (λ r w0 w, live w0 w ∧ verdict c r w.2 ∧ open_order c w) broke w0 w → WP (finally p release) (finish c) (λ _, rest) w0 w.
Proof.
  intros Hp. apply wp_finally. eapply wp_mono; [| |exact Hp].
  - intros r w1 w2 ([K Hs] & Hv & Ho). split_and!; [by eapply stage_release|done|by destruct c].
  - intros e w1 w2 [K Hs]. by eapply stage_release.
Qed.

Lemma WP_sendTransaction tx w0 w :
  inv sw w.1 w.2 [] → busy w.1 = false → closed w.1 = closed w0.1 →
  WP (sendTransaction assertsActive sw tx) (finish (CallSendTransaction tx)) (λ _, rest) w0 w.
Proof.
  intros Hi Hb Hc. assert (rest w0 w) as Hr by done. apply wp_get. unfold expectedStep.
  destruct (sw_steps sw !! Z.to_nat (nextStep w.1)) as [e|] eqn:He; [|done].
  apply wp_guard; [intros _|done]. apply wp_guard; [intros [Hp Ha]%orb_false_iff|done].
  apply bool_decide_eq_false in Hp. apply eq_None_not_Some in Hp. apply Z.eqb_neq in Ha.
  apply wp_bind, WP_enter; [done..|]. intros w1 w2 Hh. apply WP_locked.
  destruct (snap_eq _ _ (g_snap _ _ _ _ (proj1 Hh))) as (E1 & E2 & E3 & _).
  eapply wp_mono; [| |apply (WP_sendStep (snap w) e)]; [|done|exact Hh|congruence..].
  intros r w3 w4 [Hl Hset]. done.
Qed.

Lemma WP_resumeTransaction w0 w :
  inv sw w.1 w.2 [] → busy w.1 = false → closed w.1 = closed w0.1 →
  WP (resumeTransaction assertsActive sw) (finish CallResumeTransaction) (λ _, rest) w0 w.
Proof.
  intros Hi Hb Hc. assert (rest w0 w) as Hr by done. apply wp_get, wp_guard; [intros _|done].
  destruct (pendingTx w.1) as [pd|] eqn:Hp; [|by split].
  apply wp_assign, WP_locked.
  match goal with |- wp _ _ _ _ _ _ ?v => assert (stage sw (snap v) w0 v ∧ pendingTx v.1 = Some pd) as [Hs Hp'] end.
  { split; [split; [by apply inv_state with w.1|done..]|done]. }
  match type of Hs with stage _ _ _ ?v => generalize dependent v end. clear. intros w Hs Hp.
  do 2 (quietly Hs; [|by eexists]).
  destruct (snap_eq _ _ (g_snap _ _ _ _ Hs)) as (_ & _ & E & _).
  eapply wp_mono; [| |eapply WP_confirmPending; [exact Hs|by rewrite E, Hp]]; [|done].
  intros r ? ? (Hl & hash & -> & Hset). split_and!; [done| |done]. by intros ? [= <-].
Qed.


Lemma WP_signOrder K order hash w0 w :
  hot K w0 w → orderAttempted w.1 = false → sw_order sw = Some (order, hash) →
  WP (signOrder assertsActive sw order)
     (λ r w0 w, live w0 w ∧ verdict (CallSignTypedData order) r w.2 ∧ closed w.1 = false) broke w0 w.
Proof.
  intros [[G1 G2 G3 G4] Hc] Ha Ho. apply wp_assign. pose proof (v_once _ _ _ _ G1) as Hn. rewrite Ha in Hn.
  match goal with |- wp _ _ _ _ _ _ ?v =>
    assert (stage sw (snap v) w0 v ∧ orderAttempted v.1 = true ∧ length (orders v.2 []) = 0%nat) as (Hs & Ha' & Hn') end.
  { split; [split; [by apply inv_order_attempt|done..]|]. split; cbn; [done|lia]. }
  match type of Hs with stage _ _ _ ?v => generalize dependent v end. clear -Ho. intros w Hs Ha Hn.
  apply wp_bind. eapply wp_mono; [| |eapply WP_device, Hs]; [|intros e w1 w2 Hs'; eexists; exact Hs'].
  intros c w1 w2 [Hdev Hs']. clear Hs. rename Hs' into Hs. unfold deviceSignTypedData.
  apply wp_bind, wp_bind. quietly Hs; [|by eexists].
  destruct (snap_eq _ _ (g_snap _ _ _ _ Hs)) as (_ & _ & _ & E & _ & _ & E'). destruct Hs as [G1 G2 G3 G4].
  apply wp_bind, WP_request; [eapply inv_order; [done..|congruence| |done]|done|done|by intros [? ?]| |done].
  { apply nil_length_inv. congruence. }
  clear - Ho. intros w sig _ [K Hs].
  quietly Hs; [|by eexists]. quietly Hs; [|by eexists].
  apply wp_lift; [intros from Hfrom|eauto].
  apply wp_guard; [intros Hown%negb_false_iff%bool_decide_eq_true|eauto].
  do 3 (quietly Hs; [|by eexists]).
  apply wp_bind, WP_notClosed; [intros Hcl|eauto].
  eapply wp_bind, WP_review; [by split|clear Hs Hcl; intros ? ? [Hs Hcl]|eauto].
  split_and!; [eauto| |done]. by eexists _, order, hash, from.
Qed.

Lemma WP_signTypedData data w0 w :
  inv sw w.1 w.2 [] → busy w.1 = false → closed w.1 = closed w0.1 →
  WP (signTypedData assertsActive sw data) (finish (CallSignTypedData data)) (λ _, rest) w0 w.
Proof.
  intros Hi Hb Hc. assert (rest w0 w) as Hr by done. unfold signTypedData.
  destruct (sw_order sw) as [[order hash]|] eqn:Ho; [|done].
  apply wp_guard; [intros _|done]. apply wp_lift; [intros hash' _|done]. apply wp_guard; [intros _|done].
  apply wp_get, wp_guard; [intros Ha|done].
  apply wp_bind, WP_enter; [done..|]. intros w1 w2 Hh. apply WP_locked.
  destruct (snap_eq _ _ (g_snap _ _ _ _ (proj1 Hh))) as (_ & _ & _ & E & _).
  eapply wp_mono; [| |eapply WP_signOrder; [exact Hh|congruence|done]]; done.
Qed.
End operations.
