(* ===== verification/LedgerAuthority.v ===== *)
(** * The Ledger swap signer: every interleaving

    The operations of [LedgerSafety] run as calls of the machine of
    [LedgerMachine]. In every reachable state at most one call holds the lock;
    the device has been asked for the reviewed steps only, each once and in
    order; a closed swap sends nothing more. First, concrete libraries, wallet,
    device and chain with a schedule that runs on the machine: a swap of two
    transactions, the second closed while the device is asked. *)

From Stdlib Require Import QArith.
From S2P Require Import Prelude.
From S2P Require Import Js.
From S2P Require Import Decimal.
From S2P Require Import CreJson.
From S2P Require Import Abi.
From S2P Require Import Float64.
From S2P Require Import Async.
From S2P Require Import LedgerSigner.
From S2P Require Import LedgerMachine.
From S2P Require Import LedgerSafety.

(** ** A schedule *)

Section schedule.
Context `{LedgerLib} (answers : nat → ∀ R, lg_ext R → reply string R) (assertsActive : bool) (sw : Swap).

Inductive action : Type :=
| Start (c : call)
| Reply (i : nat).

Definition act (m : machine) (a : action) : machine :=
  match a with
  | Start c =>
      let '(o, w) := segment answers (program assertsActive sw c) (m_world m) in
      {| m_world := w; m_calls := m_calls m ++ [(c, o)] |}
  | Reply i =>
      match m_calls m !! i with
      | Some (c, Suspended e k) =>
          let r := answer answers e (m_world m) in
          let '(o, w) := segment answers (k r) (answered e r (m_world m)) in
          {| m_world := w; m_calls := take i (m_calls m) ++ (c, o) :: drop (S i) (m_calls m) |}
      | _ => m
      end
  end.

Lemma act_step m a : act m a = m ∨ step assertsActive sw m (act m a).
Proof.
  destruct a as [c|i]; cbn.
  - pose proof (segment_runs answers (program assertsActive sw c) (m_world m)) as Hr.
    destruct (segment _ _ _) as [o w]. right. destruct m. by apply step_call.
  - destruct (m_calls m !! i) as [[c [r|e|R e k]]|] eqn:Hi; [by left..| |by left].
    pose proof (segment_runs answers (k (answer answers e (m_world m))) (answered e (answer answers e (m_world m)) (m_world m))) as Hr.
    destruct (segment _ _ _) as [o w]. right. destruct m as [w0 cs]. cbn in *.
    rewrite <- (take_drop_middle _ _ _ Hi) at 1. eapply step_reply, Hr.
Qed.
Lemma act_reachable m a : reachable assertsActive sw m → reachable assertsActive sw (act m a).
Proof. intros Hm. destruct (act_step m a) as [->|Hs]; [done|]. by eapply reachable_step. Qed.
Lemma schedule_reachable_from l : reachable assertsActive sw (foldl act initial l).
Proof.
  induction l as [|a l IH] using rev_ind; [constructor|]. rewrite foldl_app. by apply act_reachable.
Qed.
End schedule.

(** ** Sample libraries *)

Definition sample_owner : string := "0x00000000000000000000000000000000000000AA".
Definition sample_token : string := "0x00000000000000000000000000000000000000BB".
Definition sample_router : string := "0x00000000000000000000000000000000000000CC".

#[global] Instance sample_lib : LedgerLib := {|
  platform := "ios";
  swapChain c := if bool_decide (c = "base-sepolia") then Some {| cm_isTestnet := true; cm_kind := "evm"; cm_chainId := 84532 |} else None;
  getTokenAddress _ t := if bool_decide (t = "USDC") then Some sample_token else None;
  getBlockchainFromChainId n := if n =? 84532 then Some "BASE-SEPOLIA" else None;
  personalWalletKind model _ := if bool_decide (model = "ledger") then "ledger" else "passkey";
  swapAtomic amount _ := if isCanonicalDecimal amount then Ok (dec_value amount) else Throw "amount";
  resolveChainConfig _ := Ok (84532, true);
  isHexAddress s := startsWith "0x" s && (strlen s =? 42);
  decodeApproval d := if bool_decide (d = "0xa0") then Ok ("approve", (sample_router, 1000)) else Throw "selector";
  encodeApproval _ _ _ := "0xa0";
  hashTypedData v := Ok ("0xh" +:+ toText v);
  serializeTransaction p s := Ok (default "" (pr_to p) +:+ default "" (pr_data p) +:+ (if s then "ff" else ""));
  hexToBytesOk _ := Ok tt;
  recoverTransactionAddress _ := Ok sample_owner;
  recoverTypedDataAddress _ _ := Ok sample_owner;
  formatLedgerSignature s := Ok (ds_r s +:+ ds_s s);
  keccakHex s := "0xh" +:+ s;
  numberOfVal _ := Fin (84532 # 1) |}.

Definition sample_wallet : Wallet :=
  {| wa_id := "w1"; wa_user_id := Some "user"; wa_main_type := "individual"; wa_address := Some sample_owner;
     wa_blockchain := "EVM"; wa_custody_model := "ledger"; wa_provider := None |}.
Definition sample_quote (out : string) : Quote :=
  {| qu_provider := "lifi"; qu_amountOutMin := out; qu_providerBps := Fin (10 # 1); qu_platformBps := Fin (5 # 1); qu_rest := VNull |}.
Definition sample_review : Review :=
  {| rv_chain := "base-sepolia";
     rv_draft := {| dr_face := "personal"; dr_walletId := "w1"; dr_tokenIn := "USDC"; dr_tokenOut := "EURC"; dr_amountIn := "1000" |};
     rv_wallet := sample_wallet; rv_quote := sample_quote "990" |}.
Definition sample_execution : Execution :=
  UnsignedTx "evm" (sample_quote "991")
    (Some {| tx_kind := "evm"; tx_chainId := 84532; tx_to := sample_token; tx_data := "0xa0"; tx_value := "0" |})
    {| tx_kind := "evm"; tx_chainId := 84532; tx_to := sample_router; tx_data := "0xb0"; tx_value := "7" |}.

Definition sample_ledger_answers (n : nat) (R : Type) (c : lg_ext R) : reply string R :=
  match c in lg_ext R return reply string R with
  | Now => Value (Z.of_nat n)
  | Tick => Value tt
  | CheckQuote _ _ _ => Value tt
  | AssertActive => Value tt
  | Session => Value (Some ("token", "user"))
  | WalletFaces _ => Value [sample_wallet]
  | RpcChainId => Value 84532
  | ChooseTransport => Value "RN_BLE"
  | GetDmk => Value tt
  | EnvironmentSupported => Value true
  | ScanDevices _ => Value [{| dv_id := "nano"; dv_rssi := None |}]
  | StopDiscovering => Value tt
  | ConnectDevice _ => Value "session"
  | GetAddress _ => Value sample_owner
  | Disconnect _ => Value tt
  | DeviceSignTransaction _ _ => Value {| ds_r := "0x1"; ds_s := "0x2"; ds_v := JInt 0 |}
  | DeviceSignTypedData _ _ => Value {| ds_r := "0x1"; ds_s := "0x2"; ds_v := JInt 0 |}
  | PrepareTransaction e =>
      Value {| pr_chainId := 84532; pr_to := Some (ss_to e); pr_data := Some (ss_data e); pr_value := Some (ss_value e);
               pr_type := Some "eip1559"; pr_rest := VNull |}
  | SendRawTransaction raw => Value ("0xh" +:+ raw)
  | WaitForReceipt hash => Value {| re_hash := hash; re_status := "success" |}
  end.

(** ** The swap of the review, and its two transactions *)

(** A program with all its suspensions answered at once. *)
Fixpoint complete {A} (p : lg_prog A) (w : lg_world) : result string A :=
  match p with
  | Ret a => Ok a
  | Fail e => Throw e
  | Upd f p => complete p (f w.1, w.2)
  | Read k => complete (k w.1) w
  | Ask c k => complete (k (answer sample_ledger_answers c w)) (answered c (answer sample_ledger_answers c w) w)
  | Await c k => complete (k (answer sample_ledger_answers c w)) (answered c (answer sample_ledger_answers c w) w)
  end.

Definition sample_swap : Swap :=
  {| sw_review := sample_review; sw_execution := sample_execution; sw_owner := sample_owner; sw_userId := "user"; sw_chainId := 84532;
     sw_steps := [{| ss_to := sample_token; ss_data := "0xa0"; ss_value := 0 |}; {| ss_to := sample_router; ss_data := "0xb0"; ss_value := 7 |}];
     sw_order := None |}.

(** [createLedgerSwapSigner] makes it of the review and the provider's answer. *)
Example sample_swap_created : complete (createLedgerSwapSigner true sample_review sample_execution) (newSigner, []) = Ok sample_swap.
Proof. vm_compute. reflexivity. Qed.

Definition sample_run : list action → machine := foldl (act sample_ledger_answers true sample_swap) initial.
Definition approve_step : call := CallSendTransaction {| ss_to := sample_token; ss_data := "0xA0"; ss_value := 0 |}.
Definition swap_step : call := CallSendTransaction {| ss_to := sample_router; ss_data := "0xb0"; ss_value := 7 |}.

(** The approval from request to receipt, then the swap up to the device; then
    a [close], and the device's answer. *)
Definition approved : list action := Start approve_step :: replicate 23 (Reply 0).
Definition asked : list action := approved ++ Start swap_step :: replicate 7 (Reply 1).
Definition shutting : list action := asked ++ [Start CallClose; Reply 1].

Lemma sample_reachable l : reachable true sample_swap (sample_run l).
Proof. apply schedule_reachable_from. Qed.

(** How the second call failed. *)
Definition secondFailure (m : machine) : option string :=
  match m_calls m !! 1%nat with Some (_, Failed e) => Some e | _ => None end.

Lemma last_step l a :
  length (m_world (sample_run (l ++ [a]))).2 ≠ length (m_world (sample_run l)).2 →
  step true sample_swap (sample_run l) (sample_run (l ++ [a])).
Proof.
  unfold sample_run. rewrite foldl_app. cbn [foldl]. intros Hl.
  destruct (act_step sample_ledger_answers true sample_swap (foldl (act sample_ledger_answers true sample_swap) initial l) a) as [E|Hs];
    [|exact Hs]. by rewrite E in Hl.
Qed.

(** ** Every interleaving *)

Section authority.
Context `{LedgerLib} (assertsActive : bool) (sw : Swap).
Implicit Types (w : lg_world) (o : lg_outcome).

(** What [m]'s calls are waiting for. *)
Definition queue (m : machine) : list lg_event := m_calls m ≫= λ co, waiting co.2.

(** A call that does not hold the lock: it is over, or it is a [close] that
    waits for the device to disconnect. *)
Definition resting (h : list lg_event) (co : call * lg_outcome) : Prop :=
  match co.2 with
  | Returned r => verdict sw co.1 r h
  | Failed _ => True
  | Suspended e k => co.1 = CallClose ∧ quietEvent (request e) ∧
      ∀ r w o w', runs (k r) w o w' → o = Returned None ∧ w' = (w.1 <| connection := None |>, w.2)
  end.

(** The call that holds the lock, suspended in some earlier world. *)
Definition active (co : call * lg_outcome) w : Prop :=
  match co.2 with
  | Suspended e k => co.1 ≠ CallClose ∧ ∃ w0 w1,
      wp (@hold _ sw) rely (Await e k) (finish sw co.1) (λ _, rest sw) w0 w1 ∧ rely w1 w
  | _ => False
  end.

Lemma settled_app hash h hs : settled hash h → settled hash (h ++ hs).
Proof.
  intros (i & raw & Hi & -> & Hc). exists i, raw. split_and!; [|done|by apply confirmed_app].
  revert Hi. unfold sends. rewrite !app_nil_r, omap_app. apply lookup_app_l_Some.
Qed.
Lemma resting_app h hs co : resting h co → resting (h ++ hs) co.
Proof.
  destruct co as [c [r|e|R e k]]; cbn; try done. destruct c; cbn; try done.
  - intros (hash & -> & Hs). eauto using settled_app.
  - eauto using settled_app.
Qed.

Lemma rely_inv w w' q : rely w w' → inv sw w.1 w.2 q → inv sw w'.1 w'.2 q.
Proof.
  intros Hr Hi. destruct (rely_fields _ _ Hr) as (E1 & E2 & E3 & E4 & _). destruct Hr as [_ _ (hs & -> & Hq)].
  apply inv_state with w.1; [done..|]. revert Hi. destruct (asked_quiet w.2 hs Hq) as (S1 & S2 & S3).
  unfold signs, sends, orders in *. rewrite !app_nil_r in *.
  apply inv_history; unfold signs, sends, orders; rewrite ?(omap_app _ (w.2 ++ hs)), ?S1, ?S2, ?S3, ?(omap_app _ w.2); try done.
  intros raw. apply confirmed_app.
Qed.

(** ** What a step does *)

Lemma rely_flags w w' hs :
  w.1 = w'.1 <| connection := connection w.1 |> <| closed := closed w.1 |> → (closed w.1 = true → closed w'.1 = true) →
  w'.2 = w.2 ++ hs → Forall quietEvent hs → rely w w'.
Proof. intros E Hc Hh Hq. split; [done|done|by exists hs]. Qed.

(** [close], started or resumed, only marks the swap closed and drops the connection. *)
Lemma close_runs w o w' : runs close w o w' → rely w w' ∧ resting w'.2 (CallClose, o).
Proof.
  destruct w as [s h]. intros Hr%runs_form%runs_form. cbn in Hr. destruct (connection s) as [c|] eqn:Hc.
  - apply runs_form in Hr as [-> ->]. split.
    + apply rely_flags with []; [by destruct s|done|by rewrite app_nil_r|constructor].
    + split_and!; [done|done|]. intros r w o w' Hr%runs_form%runs_form. destruct Hr as [-> ->]. done.
  - apply runs_form, runs_form in Hr as [-> ->]. split; [|done].
    apply rely_flags with []; [by destruct s|done|by rewrite app_nil_r|constructor].
Qed.

Lemma resting_reply h c R (e : lg_ext R) k r w o w' :
  resting h (c, Suspended e k) → runs (k r) (answered e r w) o w' → rely w w' ∧ resting w'.2 (c, o).
Proof.
  intros (Hc & Hq & Hk) Hr. cbn in Hc. subst c. destruct (Hk _ _ _ _ Hr) as [-> ->]. split; [|done].
  apply rely_flags with [Event e r]; [by destruct w as [[] ?]|done|done|by apply quiet_one].
Qed.

(** A call that finds the lock taken is refused and changes nothing. *)
Notation REFUSED p w := (wp (λ _ _ _ _, False) (λ _ _, True) p (λ _ _ _, False) (λ _ _ w', w' = w) w w).
Lemma refused_enter {A} (k : () → lg_prog A) w : busy w.1 = true → REFUSED (enter assertsActive sw ≫= k) w.
Proof. intros Hb. apply wp_bind, wp_get, wp_guard; [rewrite Hb, orb_true_r; discriminate|done]. Qed.
Lemma refused_program c w : c ≠ CallClose → busy w.1 = true → REFUSED (program assertsActive sw c) w.
Proof.
  intros Hc Hb. destruct c as [tx|data| |]; [| | |done]; cbn [program].
  - apply wp_get. destruct (expectedStep sw (nextStep w.1)); [|done].
    do 2 (apply wp_guard; [intros _|done]). by apply refused_enter.
  - unfold signTypedData. destruct (sw_order sw) as [[order hash]|]; [|done].
    apply wp_guard; [intros _|done]. apply wp_lift; [intros hash' _|done]. apply wp_guard; [intros _|done].
    apply wp_get, wp_guard; [intros _|done]. by apply refused_enter.
  - apply wp_get, wp_guard; [by rewrite Hb|done].
Qed.
Lemma locked_runs c w o w' :
  c ≠ CallClose → busy w.1 = true → runs (program assertsActive sw c) w o w' → (∃ e, o = Failed e) ∧ w' = w.
Proof.
  intros Hc Hb Hr. pose proof (wp_runs _ _ _ _ _ _ _ _ _ Hr (refused_program c w Hc Hb)) as Hw.
  destruct o as [r|e|R e k]; [done|by eauto|by destruct Hw].
Qed.

Lemma free_runs c w o w' :
  c ≠ CallClose → inv sw w.1 w.2 [] → busy w.1 = false → runs (program assertsActive sw c) w o w' →
  wp_outcome (@hold _ sw) rely o (finish sw c) (λ _, rest sw) w w'.
Proof.
  intros Hc Hi Hb Hr. apply (wp_runs _ _ _ _ _ _ _ _ _ Hr).
  destruct c; [by apply WP_sendTransaction|by apply WP_signTypedData|by apply WP_resumeTransaction|done].
Qed.

(** ** The invariant of the machine *)

(** The lock is free and no call holds it, or one call does. *)
Definition idle (m : machine) : Prop :=
  busy (m_world m).1 = false ∧ inv sw (m_world m).1 (m_world m).2 [] ∧ Forall (resting (m_world m).2) (m_calls m).
Definition held (m : machine) : Prop :=
  busy (m_world m).1 = true ∧ ∃ c1 co c2,
    m_calls m = c1 ++ co :: c2 ∧ active co (m_world m) ∧ Forall (resting (m_world m).2) (c1 ++ c2).
Definition good (m : machine) : Prop := idle m ∨ held m.

Lemma rely_resting w w' l : rely w w' → Forall (resting w.2) l → Forall (resting w'.2) l.
Proof. intros [_ _ (hs & -> & _)] Hl. eapply Forall_impl; [exact Hl|]. intros co. apply resting_app. Qed.
Lemma rely_active co w w' : rely w w' → active co w → active co w'.
Proof.
  destruct co as [c [r|e|R e k]]; cbn; try done.
  intros Hr (Hc & w0 & w1 & Hw & Hr'). split; [done|]. exists w0, w1. split; [done|]. by transitivity w.
Qed.

(** What the holder of the lock stops with. *)
Lemma settle c o w0 w c1 c2 :
  c ≠ CallClose → wp_outcome (@hold _ sw) rely o (finish sw c) (λ _, rest sw) w0 w → Forall (resting w.2) (c1 ++ c2) →
  good {| m_world := w; m_calls := c1 ++ (c, o) :: c2 |}.
Proof.
  intros Hc Ho Hl. pose proof Hl as [H1 H2]%Forall_app. destruct o as [r|e|R e k].
  - destruct Ho as ([Hi Hb _] & Hv & _). left. split_and!; [done|done|]. apply Forall_app. split; [done|]. by constructor.
  - destruct Ho as [Hi Hb _]. left. split_and!; [done|done|]. apply Forall_app. split; [done|]. by constructor.
  - right. split; [by destruct Ho as [(_ & Hb & _) _]|]. exists c1, (c, Suspended e k), c2. split_and!; [done| |done].
    split; [done|]. by exists w0, w.
Qed.

Lemma idle_rely w w' cs cs' :
  rely w w' → idle {| m_world := w; m_calls := cs |} → Forall (resting w'.2) cs' → idle {| m_world := w'; m_calls := cs' |}.
Proof.
  intros Hr (Hb & Hi & _) Hl. split_and!; [|by eapply rely_inv|done].
  cbn in *. by destruct (rely_fields _ _ Hr) as (_ & _ & _ & _ & ->).
Qed.
Lemma held_rely w w' co c1 c2 :
  rely w w' → busy w.1 = true → active co w → Forall (resting w'.2) (c1 ++ c2) →
  held {| m_world := w'; m_calls := c1 ++ co :: c2 |}.
Proof.
  intros Hr Hb Ha Hl. split; [cbn; by destruct (rely_fields _ _ Hr) as (_ & _ & _ & _ & ->)|].
  exists c1, co, c2. split_and!; [done|by eapply rely_active|done].
Qed.

Lemma runs_resting {A} (p : lg_prog A) w (o : outcome _ _ _ A) w' l :
  runs p w o w' → Forall (resting w.2) l → Forall (resting w'.2) l.
Proof. intros [hs ->]%runs_history Hl. eapply Forall_impl; [exact Hl|]. intros co. apply resting_app. Qed.

Lemma good_call w cs c o w' :
  good {| m_world := w; m_calls := cs |} → runs (program assertsActive sw c) w o w' →
  good {| m_world := w'; m_calls := cs ++ [(c, o)] |}.
Proof.
  intros Hg Hr. assert (c = CallClose ∨ c ≠ CallClose) as [->|Hc] by (destruct c; auto).
  - apply close_runs in Hr as [Hr Ho]. destruct Hg as [Hi|(Hb & c1 & co & c2 & Hcs & Ha & Hl)]; cbn in *.
    + left. eapply idle_rely; [done|done|]. apply Forall_app. split; [by eapply rely_resting, Hi|by constructor].
    + right. subst cs. rewrite <- app_assoc. cbn. eapply (held_rely w); [done|done|done|].
      rewrite app_assoc. apply Forall_app. split; [by eapply rely_resting|by constructor].
  - destruct Hg as [(Hb & Hi & Hl)|(Hb & c1 & co & c2 & Hcs & Ha & Hl)]; cbn in *.
    + eapply settle; [done|by eapply free_runs|]. rewrite app_nil_r. by eapply runs_resting.
    + apply locked_runs in Hr as [[e ->] ->]; [|done|done]. right. subst cs. rewrite <- app_assoc. cbn.
      eapply held_rely; [reflexivity|done|done|]. rewrite app_assoc. apply Forall_app. split; [done|by constructor].
Qed.

Lemma two_places {A} (l1 l2 k1 k2 : list A) x y : l1 ++ x :: l2 = k1 ++ y :: k2 →
  (l1 = k1 ∧ x = y ∧ l2 = k2) ∨ (∃ m, k1 = l1 ++ x :: m ∧ l2 = m ++ y :: k2) ∨ (∃ m, l1 = k1 ++ y :: m ∧ k2 = m ++ x :: l2).
Proof.
  revert k1. induction l1 as [|z l1 IH]; intros [|z' k1]; cbn; intros [= -> E].
  - auto.
  - right; left. by exists k1.
  - right; right. exists l1. done.
  - destruct (IH _ E) as [(-> & -> & ->)|[(m & -> & ->)|(m & -> & ->)]]; [auto|right; left; by exists m|right; right; by exists m].
Qed.

Lemma good_reply w c1 c2 c R (e : lg_ext R) k r o w' :
  good {| m_world := w; m_calls := c1 ++ (c, Suspended e k) :: c2 |} → runs (k r) (answered e r w) o w' →
  good {| m_world := w'; m_calls := c1 ++ (c, o) :: c2 |}.
Proof.
  intros Hg Hr. destruct Hg as [(Hb & Hi & Hl)|(Hb & d1 & co & d2 & Hcs & Ha & Hl)]; cbn in *.
  - apply Forall_app in Hl as Hl'. destruct Hl' as [H1 [Hc H2]%Forall_cons].
    destruct (resting_reply _ _ _ _ _ _ _ _ _ Hc Hr) as [Hr' Ho]. left. eapply idle_rely; [done|by split_and!|].
    apply Forall_app. split; [by eapply rely_resting|]. constructor; [done|by eapply rely_resting].
  - assert (Forall (resting w.2) (c1 ++ c2) → (c, Suspended e k) = co → good {| m_world := w'; m_calls := c1 ++ (c, o) :: c2 |}) as Hact.
    { intros Hl' <-. destruct Ha as (Hc & w0 & w1 & [_ Hk] & Hr'). 
      eapply settle; [done|eapply wp_runs; [exact Hr|by apply Hk]|].
      eapply runs_resting; [exact Hr|]. cbn. eapply Forall_impl; [exact Hl'|]. intros ?. apply resting_app. }
    destruct (two_places _ _ _ _ _ _ Hcs) as [(-> & E & ->)|[(m & -> & ->)|(m & -> & ->)]]; [by apply Hact| |].
    + rewrite !Forall_app, Forall_cons in Hl. destruct Hl as [(L1 & Lc & Lm) L2].
      destruct (resting_reply _ _ _ _ _ _ _ _ _ Lc Hr) as [Hr' Ho]. right.
      replace (c1 ++ (c, o) :: m ++ co :: d2) with ((c1 ++ (c, o) :: m) ++ co :: d2) by by rewrite <- app_assoc.
      eapply (held_rely w); [done..|]. rewrite !Forall_app, Forall_cons. by split_and!; try eapply rely_resting.
    + rewrite !Forall_app, Forall_cons in Hl. destruct Hl as (L1 & Lm & Lc & L2).
      destruct (resting_reply _ _ _ _ _ _ _ _ _ Lc Hr) as [Hr' Ho]. right. rewrite <- app_assoc. cbn.
      eapply (held_rely w); [done..|]. rewrite !Forall_app, Forall_cons. by split_and!; try eapply rely_resting.
Qed.

Lemma inv_newSigner : inv sw newSigner [] [].
Proof. split; cbn; try done; try lia. intros ? ? ?%elem_of_nil. done. Qed.

Lemma reachable_good m : reachable assertsActive sw m → good m.
Proof.
  induction 1 as [|m m' _ IH Hs]; [left; split_and!; [done|apply inv_newSigner|constructor]|].
  destruct Hs; [by eapply good_call|by eapply good_reply].
Qed.

(** What the waiting calls ask for, seen by the invariant. *)
Lemma omap_queue {A} (f : lg_event → option A) h l :
  (∀ e, quietEvent e → f e = None) → Forall (resting h) l → omap f (l ≫= λ co, waiting co.2) = [].
Proof.
  intros Hf. induction 1 as [|[c [r|e|R e k]] l Hco _ IH]; cbn; try done. rewrite (Hf (request e)); [done|apply Hco].
Qed.

Lemma good_inv m : good m → inv sw (m_world m).1 (m_world m).2 (queue m).
Proof.
  intros [(Hb & Hi & Hl)|(Hb & c1 & [c [| |R e k]] & c2 & Hcs & Ha & Hl)]; try done.
  - revert Hi. apply inv_history; try done; unfold signs, sends, orders, queue; rewrite !omap_app; f_equal;
      (eapply omap_queue; [|exact Hl]); intros ev He; apply He.
  - destruct Ha as (_ & w0 & w1 & [(Hi & _) _] & Hr). apply (rely_inv _ _ _ Hr) in Hi. revert Hi.
    apply Forall_app in Hl as [L1 L2].
    apply inv_history; try done; unfold signs, sends, orders, queue; rewrite Hcs, bind_app, bind_cons, !omap_app;
      f_equal;
      (rewrite !(omap_queue _ (m_world m).2), app_nil_r; [done|intros ev He; apply He|done|intros ev He; apply He|done]).
Qed.

(** ** Properties *)

(** C17: device authority. Whatever the calls, their interleaving and the
    answers of device, wallet service and chain, the [i]-th transaction the
    device is asked to sign is the [i]-th step of the reviewed swap, on the
    owner's account; the [i]-th transaction sent is that step signed by the
    owner, never without having been put to the device; a further step goes to
    the device only after the one before was confirmed on chain; and at most
    one order, the reviewed one, is ever put to it. *)
Theorem device_authority m : reachable assertsActive sw m →
  let h := (m_world m).2 in
  let q := queue m in
  (∀ i c t, signs h q !! i = Some (c, t) → ownerDevice sw c ∧ ∃ e, sw_steps sw !! i = Some e ∧ reviewed_unsigned sw e t) ∧
  (∀ i raw, sends h q !! i = Some raw → ∃ e, sw_steps sw !! i = Some e ∧ reviewed_signed sw e raw) ∧
  (length (sends h q) ≤ length (signs h q))%nat ∧
  (∀ i x, signs h q !! S i = Some x → ∃ raw, sends h q !! i = Some raw ∧ confirmed h raw) ∧
  (∀ c d, (c, d) ∈ orders h q → ownerDevice sw c ∧ ∃ hash, sw_order sw = Some (d, hash)) ∧
  (length (orders h q) ≤ 1)%nat.
Proof.
  intros Hm%reachable_good%good_inv h q. subst h q. destruct Hm as [V1 V2 V3 V4 V5 V6 V7 V8 V9 V10].
  split_and!; [exact V1|exact V2|lia| |exact V3|destruct (orderAttempted _); lia].
  intros i x Hi%lookup_lt_Some. apply V10. destruct (attempted _ =? nextStep _); lia.
Qed.

(** A suspended call other than [close]. *)
Definition holder (co : call * lg_outcome) : bool :=
  match co with (CallClose, _) => false | (_, Suspended _ _) => true | _ => false end.

Lemma resting_holders h l : Forall (resting h) l → length (List.filter holder l) = 0%nat.
Proof. induction 1 as [|[c [r|e|R e k]] l Hco _ IH]; cbn; [done|by destruct c..|]. destruct Hco as [E _]. cbn in E. by subst c. Qed.

(** C19: one operation at a time. [busy] is a lock: it is set exactly while one
    call (other than [close]) is on its way, and never two are. *)
Theorem one_operation m : reachable assertsActive sw m →
  length (List.filter holder (m_calls m)) = if busy (m_world m).1 then 1%nat else 0%nat.
Proof.
  intros [(Hb & Hi & Hl)|(Hb & c1 & [c [| |R e k]] & c2 & Hcs & Ha & [L1 L2]%Forall_app)]%reachable_good; try done; rewrite Hb.
  - by eapply resting_holders.
  - rewrite Hcs, List.filter_app, length_app, (resting_holders _ _ L1). cbn.
    destruct Ha as [Hc _]. destruct c; cbn; try done; by rewrite (resting_holders _ _ L2).
Qed.

(** C20: what the signer gives back. A transaction hash it returns is that of a
    transaction it sent whose successful receipt it saw; an order signature
    recovers to the owner on the reviewed order. *)
Theorem returned_is_settled m c r : reachable assertsActive sw m → (c, Returned r) ∈ m_calls m → verdict sw c r (m_world m).2.
Proof.
  intros [(Hb & Hi & Hl)|(Hb & c1 & co & c2 & Hcs & Ha & Hl)]%reachable_good Hin.
  - rewrite Forall_forall in Hl. by apply (Hl _ Hin).
  - rewrite Hcs in Hin. apply elem_of_app in Hin as [Hin|[<-|Hin]%elem_of_cons]; [|done|];
      rewrite Forall_forall in Hl; apply (Hl (c, Returned r)); set_solver.
Qed.

(** Neither waiting for a transaction to be sent nor an order signed. *)
Definition shut (co : call * lg_outcome) : Prop :=
  match co with
  | (_, Suspended e _) => sendRequest (request e) = None
  | (CallSignTypedData _, Returned _) => False
  | _ => True
  end.

Lemma holder_shut c o w0 w :
  wp_outcome (@hold _ sw) rely o (finish sw c) (λ _, rest sw) w0 w → closed w0.1 = true → closed w.1 = true ∧ shut (c, o).
Proof.
  intros Ho Hc. destruct o as [r|e|R e k].
  - destruct Ho as ([_ _ E] & _ & Ho). rewrite <- Hc, E. split; [done|]. destruct c; cbn in *; try done. congruence.
  - destruct Ho as [_ _ E]. rewrite <- Hc, E. by destruct c.
  - destruct Ho as [(_ & _ & E & Hs) _]. rewrite <- Hc, E. split; [done|].
    assert (sendRequest (request e) = None) as Hn; [|by destruct c].
    apply eq_None_not_Some. intros Hse%Hs. congruence.
Qed.
Lemma resting_shut h o w w' : rely w w' → resting h (CallClose, o) → closed w.1 = true → closed w'.1 = true ∧ shut (CallClose, o).
Proof. intros Hr Hrest Hc. split; [by apply (r_closed _ _ Hr)|]. destruct o; try done. apply Hrest. Qed.

Lemma call_shut w cs c o w' :
  good {| m_world := w; m_calls := cs |} → closed w.1 = true → runs (program assertsActive sw c) w o w' →
  closed w'.1 = true ∧ shut (c, o).
Proof.
  intros Hg Hcl Hr. assert (c = CallClose ∨ c ≠ CallClose) as [->|Hc] by (destruct c; auto).
  - apply close_runs in Hr as [Hr Ho]. by eapply resting_shut.
  - destruct Hg as [(Hb & Hi & _)|(Hb & _)].
    + eapply holder_shut; [by eapply free_runs|done].
    + apply locked_runs in Hr as [[e ->] ->]; [|done..]. by destruct c.
Qed.
Lemma reply_shut w c1 c2 c R (e : lg_ext R) k r o w' :
  good {| m_world := w; m_calls := c1 ++ (c, Suspended e k) :: c2 |} → closed w.1 = true →
  runs (k r) (answered e r w) o w' → closed w'.1 = true ∧ shut (c, o).
Proof.
  intros Hg Hcl Hr.
  assert (resting w.2 (c, Suspended e k) ∨ active (c, Suspended e k) w) as [Hc|(Hc & w0 & w1 & [_ Hk] & Hr')].
  { destruct Hg as [(Hb & Hi & Hl)|(Hb & d1 & co & d2 & Hcs & Ha & Hl)]; cbn in *.
    - left. rewrite Forall_forall in Hl. apply (Hl (c, Suspended e k)). set_solver.
    - destruct (two_places _ _ _ _ _ _ Hcs) as [(-> & <- & ->)|[(m & -> & ->)|(m & -> & ->)]]; [by right|left..];
        rewrite Forall_forall in Hl; apply (Hl (c, Suspended e k)); set_solver. }
  - destruct (resting_reply _ _ _ _ _ _ _ _ _ Hc Hr) as [Hr' Ho]. destruct Hc as [E _]. cbn in E. subst c. by eapply resting_shut.
  - eapply holder_shut; [eapply wp_runs; [exact Hr|by apply Hk]|done].
Qed.

(** C18: closing. Once the swap is closed it stays closed, and no step of any
    call still on its way sends a transaction or gives out the order's
    signature. *)
Theorem closed_is_shut m m' i co :
  reachable assertsActive sw m → closed (m_world m).1 = true → step assertsActive sw m m' → m_calls m' !! i = Some co →
  closed (m_world m').1 = true ∧ (m_calls m !! i = Some co ∨ shut co).
Proof.
  intros Hg%reachable_good Hcl Hs Hi. destruct Hs as [w cs c o w' Hr|w c1 c2 c R e k r o w' Hr]; cbn in *.
  - destruct (call_shut _ _ _ _ _ Hg Hcl Hr) as [Hcl' Hsh]. split; [done|].
    apply lookup_app_Some in Hi as [Hi|[_ [_ <-]%list_lookup_singleton_Some]]; auto.
  - destruct (reply_shut _ _ _ _ _ _ _ _ _ _ Hg Hcl Hr) as [Hcl' Hsh]. split; [done|].
    apply lookup_app_Some in Hi as [Hi|[Hle Hi]]; [left; by apply lookup_app_l_Some|].
    rewrite lookup_app_r by done. destruct (i - length c1)%nat as [|j]; cbn in *; [|by left].
    injection Hi as <-. by right.
Qed.
End authority.

(** ** The properties at work: an approval, then a swap that is closed *)

Lemma device_authority_witness : ∃ raw,
  sends (m_world (sample_run asked)).2 (queue (sample_run asked)) !! 0%nat = Some raw ∧
  confirmed (m_world (sample_run asked)).2 raw.
Proof.
  assert (E : is_Some (signs (m_world (sample_run asked)).2 (queue (sample_run asked)) !! 1%nat)).
  { eexists. vm_compute. reflexivity. }
  destruct E as [x E]. exact (proj1 (proj2 (proj2 (proj2 (device_authority true sample_swap _ (sample_reachable asked))))) 0%nat x E).
Defined.

Lemma one_operation_witness : length (List.filter holder (m_calls (sample_run asked))) = 1%nat.
Proof.
  assert (E : busy (m_world (sample_run asked)).1 = true) by (vm_compute; reflexivity).
  rewrite (one_operation true sample_swap _ (sample_reachable asked)), E. reflexivity.
Defined.

Lemma returned_is_settled_witness : ∃ hash,
  m_calls (sample_run approved) = [(approve_step, Returned (Some hash))] ∧ settled hash (m_world (sample_run approved)).2.
Proof.
  assert (E : ∃ hash, m_calls (sample_run approved) = [(approve_step, Returned (Some hash))]).
  { eexists. vm_compute. reflexivity. }
  destruct E as [hash E].
  assert (Hin : (approve_step, Returned (Some hash)) ∈ m_calls (sample_run approved)) by (rewrite E; left).
  destruct (returned_is_settled true sample_swap _ _ _ (sample_reachable approved) Hin) as (hash' & Eh & Hs).
  injection Eh as <-. exists hash. exact (conj E Hs).
Defined.

(** The signed swap is not sent after all. *)
Lemma closed_is_shut_witness : ∃ co,
  m_calls (sample_run (shutting ++ [Reply 1])) !! 1%nat = Some co ∧ co.2 = Failed "The Ledger swap was closed. Review it again before signing." ∧
  shut co.
Proof.
  assert (Hc : closed (m_world (sample_run shutting)).1 = true) by (vm_compute; reflexivity).
  assert (Hl : length (m_world (sample_run (shutting ++ [Reply 1]))).2 ≠ length (m_world (sample_run shutting)).2)
    by (vm_compute; discriminate).
  assert (E : secondFailure (sample_run (shutting ++ [Reply 1])) = Some "The Ledger swap was closed. Review it again before signing.")
    by (vm_compute; reflexivity).
  assert (E' : secondFailure (sample_run shutting) = None) by (vm_compute; reflexivity).
  pose proof (last_step _ _ Hl) as Hs. revert E Hs. generalize (sample_run (shutting ++ [Reply 1])). intros m' E Hs.
  unfold secondFailure in E. destruct (m_calls m' !! 1%nat) as [[c [r|e|R e k]]|] eqn:Hco; [discriminate E| |discriminate E..].
  injection E as ->. eexists. split; [reflexivity|]. split; [reflexivity|].
  destruct (closed_is_shut true sample_swap _ _ 1%nat _ (sample_reachable shutting) Hc Hs Hco) as [_ [Hold|Hshut]]; [|exact Hshut].
  unfold secondFailure in E'. rewrite Hold in E'. discriminate E'.
Defined.
