(* ===== verification/LedgerCreate.v ===== *)
(** * The Ledger swap signer: what a review lets through

    [createLedgerSwapSigner] of [LedgerSigner]: the swap it hands to the
    machine of [LedgerMachine] keeps to the terms the user reviewed. *)

From Stdlib Require Import QArith.
From S2P Require Import Prelude.
From S2P Require Import Js.
From S2P Require Import Decimal.
From S2P Require Import CreJson.
From S2P Require Import Abi.
From S2P Require Import Float64.
From S2P Require Import Async.
From S2P Require Import LedgerSigner.
From S2P Require Import LedgerMachine.

Section create.
Context `{LedgerLib}.

(** A transaction of the provider's answer and the step made of it. *)
Record step_of (chainId : Z) (t : SwapTx) (e : SwapStep) : Prop := {
  so_chain : tx_chainId t = chainId;
  so_to : ss_to e = tx_to t; so_address : isHexAddress (ss_to e) = true;
  so_data : ss_data e = tx_data t; so_hex : isHexData (ss_data e) = true;
  so_value : ss_value e = dec_value (tx_value t) }.

(** The approval allows the swap's own contract exactly the amount reviewed. *)
Definition exact_approval (review : Review) (a tx : SwapTx) : Prop :=
  ∃ name spender amount,
    decodeApproval (tx_data a) = Ok (name, (spender, amount)) ∧ (name = "approve" ∨ name = "increaseAllowance") ∧
    toLowerCase spender = toLowerCase (tx_to tx) ∧ swapAtomic (dr_amountIn (rv_draft review)) (dr_tokenIn (rv_draft review)) = Ok amount ∧
    Some (toLowerCase (tx_to a)) = toLowerCase <$> getTokenAddress (rv_chain review) (dr_tokenIn (rv_draft review)) ∧ tx_value a = "0".

(** The execution is no worse than the quote that was reviewed. *)
Definition no_worse (review : Review) (q : Quote) : Prop :=
  let rq := rv_quote review in
  qu_provider q = qu_provider rq ∧
  (∃ got agreed, swapAtomic (qu_amountOutMin q) (dr_tokenOut (rv_draft review)) = Ok got ∧
     swapAtomic (qu_amountOutMin rq) (dr_tokenOut (rv_draft review)) = Ok agreed ∧ agreed ≤ got) ∧
  num_ltb (num_add (qu_providerBps rq) (qu_platformBps rq)) (num_add (qu_providerBps q) (qu_platformBps q)) = false.

Definition contents (review : Review) (execution : Execution) (sw : Swap) : Prop :=
  match execution with
  | UnsignedTx _ _ approval tx =>
      Forall2 (step_of (sw_chainId sw)) (option_list approval ++ [tx]) (sw_steps sw) ∧ sw_order sw = None ∧
      match approval with Some a => exact_approval review a tx | None => True end
  | UnsignedOrder _ _ permitData =>
      sw_steps sw = [] ∧ ∃ hash, sw_order sw = Some (permitData, hash) ∧ hashTypedData permitData = Ok hash
  | OtherExecution _ => False
  end.

(** The signer's wallet is the reviewed one: a registered personal Ledger on the reviewed testnet. *)
Definition ledger_wallet (review : Review) (sw : Swap) : Prop :=
  let w := rv_wallet review in
  registeredLedger w = true ∧ wa_main_type w = "individual" ∧ dr_face (rv_draft review) = "personal" ∧
  dr_walletId (rv_draft review) = wa_id w ∧ wa_address w = Some (sw_owner sw) ∧ wa_user_id w = Some (sw_userId sw) ∧
  ∃ meta, swapChain (rv_chain review) = Some meta ∧ cm_isTestnet meta = true ∧ cm_chainId meta = sw_chainId sw.

Lemma swapSteps_ok chainId txs steps : swapSteps chainId txs = Ok steps → Forall2 (step_of chainId) txs steps.
Proof.
  revert steps. induction txs as [|t txs IH]; cbn; intros steps Hs.
  - injection Hs as <-. constructor.
  - ok_inv. subst steps. constructor; [|by apply IH]. zify_bool. by split.
Qed.

Lemma checkApproval_ok review a tx u :
  checkApproval (rv_chain review) (rv_draft review) a tx = Ok u → exact_approval review a tx.
Proof.
  unfold checkApproval, differ. intros Hs. ok_inv. destruct r as (name & spender & amount). ok_inv.
  apply andb_false_iff in Hr0. rewrite !negb_false_iff, !bool_decide_eq_true in Hr0. zify_bool. subst r2.
  by exists name, spender, amount.
Qed.

(** [sw] carries what [swapContents] gave. *)
Lemma swapContents_ok review execution sw :
  swapContents review (sw_chainId sw) execution = Ok (sw_steps sw, sw_order sw) → contents review execution sw.
Proof.
  destruct sw as [rv ex owner user chainId steps order]. unfold swapContents, contents, checkOrder. cbn.
  destruct execution as [kind q approval tx|q deadline data|q]; intros Hs; ok_inv.
  - match goal with HE : swapSteps _ _ = _ |- _ => apply swapSteps_ok in HE end. split_and!; [by simplify_eq|by simplify_eq|].
    destruct approval as [a|]; [|done]. by eapply checkApproval_ok.
  - simplify_eq. eauto.
Qed.

(** ** What a program ends with, whatever it is answered *)

Definition ensures {A} (p : lg_prog A) (Q : A → Prop) : Prop :=
  ∀ w0 w, wp (λ _ _ _ _, True) (λ _ _, True) p (λ a _ _, Q a) (λ _ _ _, True) w0 w.

Lemma ensures_any {A} (p : lg_prog A) (Q : Prop) : Q → ensures p (λ _, Q).
Proof. intros HQ w0 w. revert w0 w. induction p; cbn; auto. Qed.
Lemma ensures_bind {A B} (p : lg_prog A) P (k : A → lg_prog B) Q :
  ensures p P → (∀ a, P a → ensures (k a) Q) → ensures (p ≫= k) Q.
Proof. intros Hp Hk w0 w. apply wp_bind. eapply wp_mono; [| |apply Hp]; [|done]. intros a w1 w2 Ha. by apply Hk. Qed.
Lemma ensures_ret {A} (a : A) (Q : A → Prop) : Q a → ensures (Ret a) Q.
Proof. by intros Ha w0 w. Qed.
Lemma ensures_fail {A} e (Q : A → Prop) : ensures (Fail e) Q.
Proof. by intros w0 w. Qed.
Lemma ensures_lift {A} (r : result string A) : ensures (lift r) (λ a, r = Ok a).
Proof. destruct r; [by apply ensures_ret|apply ensures_fail]. Qed.
Lemma ensures_guard b m : ensures (guard b m) (λ _, b = false).
Proof. destruct b; [apply ensures_fail|by apply ensures_ret]. Qed.

(** Steps over what says nothing; through a guard or a computation with what it says. *)
Ltac skip := eapply ensures_bind; [by apply (ensures_any _ True)|intros ? _].
Tactic Notation "through" simple_intropattern(H) :=
  eapply ensures_bind; [first [apply ensures_guard|apply ensures_lift]|intros ?; cbv beta; intros H].

Lemma assertReview_ensures review execution :
  ensures (assertReview review execution) (λ _, no_worse review (executionQuote execution)).
Proof.
  unfold assertReview. do 2 skip.
  through Hp%negb_false_iff%bool_decide_eq_true. through Hg. through Ha. through Hl. through Hf.
  assert (no_worse review (executionQuote execution)) as Hn.
  { split_and!; [done| |done]. do 2 eexists. split_and!; [exact Hg|exact Ha|]. by zify_bool. }
  by apply ensures_any.
Qed.

(** C21: the review bounds the swap. Whatever it is answered, the signer
    [createLedgerSwapSigner] hands out is bound to the reviewed wallet - a
    registered personal Ledger - on the reviewed testnet; the execution has the
    reviewed provider, at least the reviewed minimum and at most the reviewed
    fees; its steps are the provider's transactions, all on that chain, and an
    approval among them allows the swap's contract exactly the reviewed amount
    of the reviewed token. *)
Theorem created_within_review assertsActive review execution w0 w :
  wp (λ _ _ _ _, True) (λ _ _, True) (createLedgerSwapSigner assertsActive review execution)
     (λ sw _ _, sw_review sw = review ∧ sw_execution sw = execution ∧ ledger_wallet review sw ∧
                no_worse review (executionQuote execution) ∧ contents review execution sw)
     (λ _ _ _, True) w0 w.
Proof.
  revert w0 w. change (ensures (createLedgerSwapSigner assertsActive review execution) (λ sw,
    sw_review sw = review ∧ sw_execution sw = execution ∧ ledger_wallet review sw ∧
    no_worse review (executionQuote execution) ∧ contents review execution sw)).
  unfold createLedgerSwapSigner. skip.
  destruct (swapChain (rv_chain review)) as [meta|] eqn:Hm; [|apply ensures_fail].
  destruct (truthy (wa_user_id _)) as [userId|] eqn:Hu; [|apply ensures_fail].
  destruct (truthy (wa_address _)) as [owner|] eqn:Ho; [|apply ensures_fail].
  through Hw. rewrite !orb_false_iff, !negb_false_iff, !bool_decide_eq_true in Hw. destruct_and!.
  destruct (getBlockchainFromChainId _) as [blockchain|]; [|apply ensures_fail].
  through Hb. eapply ensures_bind; [apply assertReview_ensures|intros ?; cbv beta; intros Hn].
  eapply ensures_bind; [apply ensures_lift|intros [steps order]; cbv beta; intros Hs]. do 2 skip.
  eapply ensures_bind; [by apply (ensures_any _ True)|intros [chainId testnet] _]. through Ht.
  apply ensures_ret. split_and!; [done|done| |done|by apply swapContents_ok].
  apply truthy_some in Hu as [Hu _], Ho as [Ho _]. split_and!; try done. by exists meta.
Qed.
End create.
