(* ===== verification/Conduit.v ===== *)
(** * The treasury conduits

    [contracts/src/bufi/conduit]: [TreasuryConduit], which runs a
    quorum-signed intent on a treasury's tokens and hands everything back,
    [TreasuryRedeemConduit], its exit from a vault, and
    [TreasurySwapAndDeposit], a target of the first. Tokens, vaults and the
    contracts an intent calls are other code: a world of type [W] that the
    calls change, with the behaviour of ERC-20 tokens as laws. OpenZeppelin's
    reentrancy guard is read as documented: a call back into a guarded function
    reverts, so the storage of a conduit is the same after an external call. A
    revert undoes everything: the result is the world after, or the error. *)

From stdpp Require Import gmap.
From S2P Require Import Prelude.
From S2P Require Import Js.
From S2P Require Import Encoding.
From S2P Require Import Abi.
From S2P Require Import EvmAbi.
From S2P Require Import GtPolicy.

(** ** The rest of the chain *)

Class World (W : Type) : Type := {
  balanceOf : W → Z → Z → option Z;
  allowance : W → Z → Z → Z → Z;
  receiveWithAuthorization : W → Z → Z → Z → Z → Z → Z → Z → Z → list Z → option W;
  forceApprove : W → Z → Z → Z → Z → option W;
  safeTransfer : W → Z → Z → Z → Z → option W;
  safeTransferFrom : W → Z → Z → Z → Z → Z → option W;
  callContract : W → Z → Z → list Z → result (list Z) W;
  vaultAsset : W → Z → option Z;
  vaultRedeem : W → Z → Z → Z → Z → Z → option W;
  vaultDeposit : W → Z → Z → Z → Z → option W;
  aaveSupply : W → Z → Z → Z → Z → Z → option W;
  validSignature : W → Z → Z → list Z → option Z }.

(** ** Errors *)

Inductive cd_error : Type :=
| BeneficiaryMismatch (beneficiary from : Z)
| TokenMismatch (tokenIn token : Z)
| AmountMismatch (amountIn value : Z)
| NonceIsNotTheIntent (nonce expected : Z)
| IntentExpired (deadline now : Z)
| TargetNotRegistered (target : Z)
| TargetCallFailed (reason : list Z)
| BelowFloor (gained minOut : Z)
| NothingToSweep
| OwnableUnauthorizedAccount (account : Z)
| VaultNotRegistered (vault : Z)
| ZeroShares
| RedeemExpired (deadline now : Z)
| NonceUsed (nonce : Z)
| InvalidQuorumSignature
| ZeroAddress
| VenueNotRegistered (venue : Z)
| DestNotRegistered (dest : Z)
| SwapRequired
| UnexpectedSwap
| SwapFailed (reason : list Z)
| BelowUsdcFloor (got minUsdc : Z)
| Panic
| CallReverted.

Definition demand {A} (o : option A) : result cd_error A := match o with Some a => Ok a | None => Throw CallReverted end.
(** Checked subtraction. *)
Definition subChecked (a b : Z) : result cd_error Z := if a <? b then Throw Panic else Ok (a - b).

(** ** Structs *)

Record Authorization : Type := {
  au_token : Z; au_from : Z; au_value : Z; au_validAfter : Z; au_validBefore : Z; au_nonce : Z }.
Record Intent : Type := {
  in_target : Z; in_data : list Z; in_tokenIn : Z; in_amountIn : Z; in_tokenOut : Z; in_minOut : Z;
  in_beneficiary : Z; in_deadline : Z; in_memoId : Z; in_memo : list Z }.

(** The storage of [TreasuryConduit]; [cd_this] is its address. *)
Record Conduit : Type := { cd_this : Z; cd_owner : Z; targets : gset Z }.
#[global] Instance eta_conduit : Eta Conduit := λ c, {| cd_this := cd_this c; cd_owner := cd_owner c; targets := targets c |}.

Section conduit.
Context `{Viem} {W : Type} `{World W}.

(** ** TreasuryConduit *)

Definition INTENT_TYPEHASH : Z :=
  keccakText "Intent(address target,bytes data,address tokenIn,uint256 amountIn,address tokenOut,uint256 minOut,address beneficiary,uint256 deadline,bytes32 memoId,bytes memo)".
Definition intentPreimage (i : Intent) : list Z :=
  words [INTENT_TYPEHASH; in_target i; keccak256 (in_data i); in_tokenIn i; in_amountIn i; in_tokenOut i; in_minOut i;
         in_beneficiary i; in_deadline i; in_memoId i; keccak256 (in_memo i)].
Definition intentNonce (i : Intent) : Z := keccak256 (intentPreimage i).

Definition setTarget (sender target : Z) (allowed : bool) (c : Conduit) : result cd_error Conduit :=
  _ ← throw_if (negb (sender =? cd_owner c)) (OwnableUnauthorizedAccount sender);
  mret (c <| targets := if allowed then {[target]} ∪ targets c else targets c ∖ {[target]} |>).

(** [_sweep] *)
Definition sweep (this token to : Z) (w : W) : result cd_error W :=
  amount ← demand (balanceOf w token this);
  if 0 <? amount then demand (safeTransfer w token this to amount) else mret w.

Definition checkIntent (c : Conduit) (now : Z) (a : Authorization) (i : Intent) : result cd_error () :=
  _ ← throw_if (negb (in_beneficiary i =? au_from a)) (BeneficiaryMismatch (in_beneficiary i) (au_from a));
  _ ← throw_if (negb (in_tokenIn i =? au_token a)) (TokenMismatch (in_tokenIn i) (au_token a));
  _ ← throw_if (negb (in_amountIn i =? au_value a)) (AmountMismatch (in_amountIn i) (au_value a));
  _ ← throw_if (negb (au_nonce a =? intentNonce i)) (NonceIsNotTheIntent (au_nonce a) (intentNonce i));
  _ ← throw_if (in_deadline i <? now) (IntentExpired (in_deadline i) now);
  throw_if (negb (bool_decide (in_target i ∈ targets c))) (TargetNotRegistered (in_target i)).

(** What [Executed] reports is the world after and the gain. *)
Definition execute (c : Conduit) (now : Z) (a : Authorization) (sig : list Z) (i : Intent) (w : W) : result cd_error (Z * W) :=
  let this := cd_this c in
  _ ← checkIntent c now a i;
  before ← demand (balanceOf w (in_tokenOut i) (au_from a));
  w ← demand (receiveWithAuthorization w (au_token a) this (au_from a) this (au_value a) (au_validAfter a)
                (au_validBefore a) (au_nonce a) sig);
  w ← demand (forceApprove w (in_tokenIn i) this (in_target i) (in_amountIn i));
  w ← (match callContract w this (in_target i) (in_data i) with Ok w => Ok w | Throw ret => Throw (TargetCallFailed ret) end);
  w ← demand (forceApprove w (in_tokenIn i) this (in_target i) 0);
  w ← sweep this (in_tokenIn i) (au_from a) w;
  w ← (if in_tokenOut i =? in_tokenIn i then mret w else sweep this (in_tokenOut i) (au_from a) w);
  after ← demand (balanceOf w (in_tokenOut i) (au_from a));
  gained ← subChecked after before;
  _ ← throw_if (gained <? in_minOut i) (BelowFloor gained (in_minOut i));
  mret (gained, w).

Definition rescue (sender token to : Z) (c : Conduit) (w : W) : result cd_error W :=
  _ ← throw_if (negb (sender =? cd_owner c)) (OwnableUnauthorizedAccount sender);
  amount ← demand (balanceOf w token (cd_this c));
  _ ← throw_if (amount =? 0) NothingToSweep;
  demand (safeTransfer w token (cd_this c) to amount).
End conduit.

(** ** TreasuryRedeemConduit *)

Record RedeemConduit : Type := {
  rc_this : Z; rc_owner : Z; rc_domain : Z; vaults : gset Z; usedNonces : gset (Z * Z) }.
#[global] Instance eta_redeem : Eta RedeemConduit :=
  λ c, {| rc_this := rc_this c; rc_owner := rc_owner c; rc_domain := rc_domain c; vaults := vaults c; usedNonces := usedNonces c |}.

Section redeem.
Context `{Viem} {W : Type} `{World W}.

Definition setVault (sender vault : Z) (allowed : bool) (c : RedeemConduit) : result cd_error RedeemConduit :=
  _ ← throw_if (negb (sender =? rc_owner c)) (OwnableUnauthorizedAccount sender);
  mret (c <| vaults := if allowed then {[vault]} ∪ vaults c else vaults c ∖ {[vault]} |>).

Definition REDEEM_TYPEHASH : Z :=
  keccakText "Redeem(address treasury,address vault,uint256 shares,uint256 minAssets,uint256 deadline,uint256 nonce)".
Definition redeemHash (c : RedeemConduit) (treasury vault shares minAssets deadline nonce : Z) : Z :=
  typedDigest (rc_domain c) (keccak256 (words [REDEEM_TYPEHASH; treasury; vault; shares; minAssets; deadline; nonce])).

Definition redeem (now treasury vault shares minAssets deadline nonce : Z) (sig : list Z) (c : RedeemConduit) (w : W) :
    result cd_error (Z * RedeemConduit * W) :=
  _ ← throw_if (negb (bool_decide (vault ∈ vaults c))) (VaultNotRegistered vault);
  _ ← throw_if (shares =? 0) ZeroShares;
  _ ← throw_if (deadline <? now) (RedeemExpired deadline now);
  _ ← throw_if (bool_decide ((treasury, nonce) ∈ usedNonces c)) (NonceUsed nonce);
  magic ← demand (validSignature w treasury (redeemHash c treasury vault shares minAssets deadline nonce) sig);
  _ ← throw_if (negb (magic =? ERC1271_MAGICVALUE)) InvalidQuorumSignature;
  let c := c <| usedNonces := {[(treasury, nonce)]} ∪ usedNonces c |> in
  asset ← demand (vaultAsset w vault);
  before ← demand (balanceOf w asset treasury);
  w ← demand (vaultRedeem w (rc_this c) vault shares treasury treasury);
  after ← demand (balanceOf w asset treasury);
  gained ← subChecked after before;
  _ ← throw_if (gained <? minAssets) (BelowFloor gained minAssets);
  mret (gained, c, w).
End redeem.

(** ** TreasurySwapAndDeposit *)

Inductive DestKind : Type := Vault4626 | AaveV3Supply.
Record SwapDeposit : Type := { sd_this : Z; sd_owner : Z; USDC : Z; venues : gset Z; dests : gset Z }.
#[global] Instance eta_swapDeposit : Eta SwapDeposit :=
  λ c, {| sd_this := sd_this c; sd_owner := sd_owner c; USDC := USDC c; venues := venues c; dests := dests c |}.

Section swapDeposit.
Context {W : Type} `{World W}.

Definition setVenue (sender venue : Z) (allowed : bool) (c : SwapDeposit) : result cd_error SwapDeposit :=
  _ ← throw_if (negb (sender =? sd_owner c)) (OwnableUnauthorizedAccount sender);
  _ ← throw_if (venue =? 0) ZeroAddress;
  mret (c <| venues := if allowed then {[venue]} ∪ venues c else venues c ∖ {[venue]} |>).
Definition setDest (sender dest : Z) (allowed : bool) (c : SwapDeposit) : result cd_error SwapDeposit :=
  _ ← throw_if (negb (sender =? sd_owner c)) (OwnableUnauthorizedAccount sender);
  _ ← throw_if (dest =? 0) ZeroAddress;
  mret (c <| dests := if allowed then {[dest]} ∪ dests c else dests c ∖ {[dest]} |>).

(** The swap of [run], when the token is not USDC already. *)
Definition swapLeg (c : SwapDeposit) (tokenIn amountIn swapTarget : Z) (swapData : list Z) (w : W) : result cd_error W :=
  if negb (tokenIn =? USDC c) then
    _ ← throw_if ((swapTarget =? 0) || negb (bool_decide (swapTarget ∈ venues c))) (VenueNotRegistered swapTarget);
    _ ← throw_if (bool_decide (length swapData = 0%nat)) SwapRequired;
    w ← demand (forceApprove w tokenIn (sd_this c) swapTarget amountIn);
    let called := callContract w (sd_this c) swapTarget swapData in
    w ← demand (forceApprove (match called with Ok w' => w' | Throw _ => w end) tokenIn (sd_this c) swapTarget 0);
    match called with Ok _ => mret w | Throw ret => Throw (SwapFailed ret) end
  else
    _ ← throw_if (negb (swapTarget =? 0) || negb (bool_decide (length swapData = 0%nat))) UnexpectedSwap;
    mret w.

Definition run (c : SwapDeposit) (sender tokenIn amountIn swapTarget : Z) (swapData : list Z) (destKind : DestKind)
    (dest beneficiary minUsdc : Z) (w : W) : result cd_error W :=
  let this := sd_this c in
  _ ← throw_if ((beneficiary =? 0) || (tokenIn =? 0)) ZeroAddress;
  _ ← throw_if (negb (bool_decide (dest ∈ dests c))) (DestNotRegistered dest);
  w ← demand (safeTransferFrom w tokenIn this sender this amountIn);
  w ← swapLeg c tokenIn amountIn swapTarget swapData w;
  usdcBal ← demand (balanceOf w (USDC c) this);
  _ ← throw_if (usdcBal <? minUsdc) (BelowUsdcFloor usdcBal minUsdc);
  w ← demand (forceApprove w (USDC c) this dest usdcBal);
  w ← (match destKind with
       | Vault4626 => demand (vaultDeposit w this dest usdcBal beneficiary)
       | AaveV3Supply => demand (aaveSupply w this dest (USDC c) usdcBal beneficiary)
       end);
  w ← demand (forceApprove w (USDC c) this dest 0);
  w ← sweep this tokenIn sender w;
  if tokenIn =? USDC c then mret w else sweep this (USDC c) sender w.
End swapDeposit.
