(* ===== verification/ConduitSafety.v ===== *)
(** * What the conduit promises a treasury

    [TreasuryConduit.execute] of [Conduit] against the behaviour of ERC-20 and
    ERC-3009 tokens: funds leave under a signature on the whole intent only, the
    conduit keeps nothing, and the treasury gains at least what was reviewed -
    whatever the called contract does. The contract an intent calls is not
    constrained. *)

From stdpp Require Import gmap.
From S2P Require Import Prelude.
From S2P Require Import Js.
From S2P Require Import Encoding.
From S2P Require Import Abi.
From S2P Require Import AbiSample.
From S2P Require Import EvmAbi.
From S2P Require Import GtPolicy.
From S2P Require Import Conduit.

Definition bal {W} `{World W} (w : W) (token holder : Z) : Z := default 0 (balanceOf w token holder).

(** [v] of [token] goes from one holder to another; other balances stay. *)
Definition moved {W} `{World W} (good : Z → Prop) (w w' : W) (token from to v : Z) : Prop :=
  ∀ t h, good t → bal w' t h = bal w t h + if t =? token then (if h =? to then v else 0) - (if h =? from then v else 0) else 0.

(** Tokens that behave as ERC-20 and ERC-3009 say: [good] names them, [signed]
    is the treasury's valid signature on an authorization. *)
Class TokenLaws (W : Type) `{World W} (good : Z → Prop) (signed : Z → Z → Z → Z → Z → Z → Z → list Z → Prop) : Prop := {
  balance_total w t h : good t → ∃ b, balanceOf w t h = Some b ∧ 0 ≤ b;
  receive_moves w t from this v va vb n s w' :
    good t → receiveWithAuthorization w t this from this v va vb n s = Some w' →
    signed t from this v va vb n s ∧ moved good w w' t from this v;
  approve_sets w t o s a w' :
    good t → forceApprove w t o s a = Some w' →
    allowance w' t o s = a ∧ ∀ t' h, good t' → bal w' t' h = bal w t' h;
  transfer_moves w t from to v w' :
    good t → safeTransfer w t from to v = Some w' →
    moved good w w' t from to v ∧ ∀ t' o s, allowance w' t' o s = allowance w t' o s }.

Section safety.
Context `{Viem} {W : Type} `{TokenLaws W good signed}.
Implicit Types (w : W).

Lemma demand_ok {A} (o : option A) a : demand o = Ok a ↔ o = Some a.
Proof. destruct o; cbn; split; congruence. Qed.
Lemma subChecked_ok a b c : subChecked a b = Ok c ↔ b ≤ a ∧ c = a - b.
Proof. unfold subChecked. destruct (Z.ltb_spec a b); split; [done|lia| |]; [intros [= <-]; lia|intros [_ ->]; done]. Qed.
Lemma balance_bal w t h b : balanceOf w t h = Some b → bal w t h = b.
Proof. unfold bal. by intros ->. Qed.

Lemma swept_ok this token to w w' :
  good token → to ≠ this → sweep this token to w = Ok w' →
  bal w' token this = 0 ∧ moved good w w' token this to (bal w token this) ∧
  ∀ t o s, allowance w' t o s = allowance w t o s.
Proof.
  intros Hg Hto. unfold sweep. destruct (balance_total w token this Hg) as (b & Hb & Hb0). rewrite Hb. cbn.
  rewrite (balance_bal _ _ _ _ Hb). destruct (Z.ltb_spec 0 b) as [Hpos|Hz].
  - intros Ht%demand_ok. destruct (transfer_moves _ _ _ _ _ _ Hg Ht) as [Hm Ha]. split_and!; [|done|done].
    rewrite (Hm token this Hg), Z.eqb_refl, (balance_bal _ _ _ _ Hb). rewrite (proj2 (Z.eqb_neq this to)), Z.eqb_refl by done. lia.
  - intros [= <-]. assert (b = 0) as -> by lia. split_and!; [by apply balance_bal| |done].
    intros t h _. destruct (t =? token), (h =? to), (h =? this); lia.
Qed.

Lemma checkIntent_ok c now a i u : checkIntent c now a i = Ok u →
  in_beneficiary i = au_from a ∧ in_tokenIn i = au_token a ∧ in_amountIn i = au_value a ∧ au_nonce a = intentNonce i ∧
  now ≤ in_deadline i ∧ in_target i ∈ targets c.
Proof. unfold checkIntent. intros Hc. ok_inv. zify_bool. done. Qed.

(** Both sweeps: the conduit is empty, the recipient no poorer. *)
Lemma sweeps_ok this tokenIn tokenOut to w w1 w' :
  good tokenIn → good tokenOut → to ≠ this → sweep this tokenIn to w = Ok w1 →
  (if tokenOut =? tokenIn then mret w1 else sweep this tokenOut to w1) = Ok w' →
  bal w' tokenIn this = 0 ∧ bal w' tokenOut this = 0 ∧ bal w tokenIn to ≤ bal w' tokenIn to ∧
  ∀ t o s, allowance w' t o s = allowance w t o s.
Proof.
  intros Gi Go Hne Hs1 Hs2. destruct (swept_ok _ _ _ _ _ Gi Hne Hs1) as (B1 & M1 & A1).
  destruct (balance_total w tokenIn this Gi) as (b & Hb & Hb0). rewrite (balance_bal _ _ _ _ Hb) in M1.
  assert (bal w tokenIn to ≤ bal w1 tokenIn to) as Hup.
  { rewrite (M1 tokenIn to Gi), !Z.eqb_refl, (proj2 (Z.eqb_neq to this)) by done. lia. }
  destruct (Z.eqb_spec tokenOut tokenIn) as [->|Ht]; [by injection Hs2 as <-|].
  destruct (swept_ok _ _ _ _ _ Go Hne Hs2) as (B2 & M2 & A2).
  rewrite (M2 tokenIn this Gi), (M2 tokenIn to Gi), (proj2 (Z.eqb_neq tokenIn tokenOut)) by done.
  split_and!; [lia|done|lia|]. intros. by rewrite A2, A1.
Qed.

(** C22: the conduit's invariants. When [execute] goes through, the treasury
    signed an authorization, to this conduit and of exactly this amount, whose
    nonce is the hash of the whole intent - target, calldata, floor, beneficiary,
    deadline, memo; the intent is in time and its target registered; the conduit
    is left without input token, output token or allowance; the treasury's
    balance of the output token has risen by the reported gain, at least the
    reviewed floor; and unless the called contract takes from the treasury
    itself, at most the reviewed amount of the input token is gone. *)
Theorem execute_delivers c now a sig i w gained w' :
  good (in_tokenIn i) → good (in_tokenOut i) → au_from a ≠ cd_this c →
  execute c now a sig i w = Ok (gained, w') →
  (signed (in_tokenIn i) (in_beneficiary i) (cd_this c) (in_amountIn i) (au_validAfter a) (au_validBefore a) (intentNonce i) sig ∧
   in_beneficiary i = au_from a ∧ now ≤ in_deadline i ∧ in_target i ∈ targets c) ∧
  (bal w' (in_tokenIn i) (cd_this c) = 0 ∧ bal w' (in_tokenOut i) (cd_this c) = 0 ∧
   allowance w' (in_tokenIn i) (cd_this c) (in_target i) = 0) ∧
  (bal w' (in_tokenOut i) (in_beneficiary i) = bal w (in_tokenOut i) (in_beneficiary i) + gained ∧ in_minOut i ≤ gained) ∧
  ((∀ w1 w2, callContract w1 (cd_this c) (in_target i) (in_data i) = Ok w2 →
      bal w1 (in_tokenIn i) (in_beneficiary i) ≤ bal w2 (in_tokenIn i) (in_beneficiary i)) →
   bal w (in_tokenIn i) (in_beneficiary i) - in_amountIn i ≤ bal w' (in_tokenIn i) (in_beneficiary i)).
Proof.
  intros Gi Go Hne. unfold execute. intros He. ok_inv. rename select (checkIntent _ _ _ _ = _) into Hc.
  apply checkIntent_ok in Hc as (Hb & Ht & Hv & Hn & Hd & Htgt).
  destruct a as [tok from v va vb n]. cbn in *. subst tok from v n.
  repeat match goal with Hx : demand _ = Ok _ |- _ => apply demand_ok in Hx end.
  match goal with Hx : subChecked _ _ = _ |- _ => apply subChecked_ok in Hx as [Hle ->] end.
  match goal with Hx : receiveWithAuthorization _ _ _ _ _ _ _ _ _ _ = Some ?x |- _ =>
    destruct (receive_moves _ _ _ _ _ _ _ _ _ _ Gi Hx) as [Hsig Hm] end.
  destruct (callContract _ _ _ _) as [w3|ret] eqn:Hcall; [|done]. simplify_eq.
  rename select (forceApprove _ _ _ _ (in_amountIn i) = _) into Ha1. rename select (forceApprove _ _ _ _ 0 = _) into Ha2.
  apply (approve_sets _ _ _ _ _ _ Gi) in Ha1 as [_ B1], Ha2 as [A2 B2].
  match goal with Hx : sweep _ (in_tokenIn i) _ _ = Ok _, Hy : (if _ then _ else _) = Ok _ |- _ =>
    destruct (sweeps_ok _ _ _ _ _ _ _ Gi Go Hne Hx Hy) as (S1 & S2 & S3 & S4) end.
  repeat match goal with Hx : balanceOf _ _ _ = Some _ |- _ => apply balance_bal in Hx end. subst.
  split_and!; [done..|by rewrite S4|lia|lia|].
  intros Hcalm. specialize (Hcalm _ _ Hcall). rewrite (B1 _ _ Gi), (Hm _ _ Gi), !Z.eqb_refl, (proj2 (Z.eqb_neq _ _) Hne) in Hcalm.
  rewrite (B2 _ _ Gi) in S3. lia.
Qed.
End safety.

(** ** The exit *)

Section redeem.
Context `{Viem} {W : Type} `{World W}.

(** What a redemption that goes through has checked, and that its nonce is spent:
    it is refused to every later one, whatever else changes. *)
Theorem redeem_once now now' treasury vault vault' shares shares' minAssets minAssets' deadline deadline' nonce sig sig' c c' c2 (w w' w2 : W) gained :
  redeem now treasury vault shares minAssets deadline nonce sig c w = Ok (gained, c', w') →
  (vault ∈ vaults c ∧ now ≤ deadline ∧ (treasury, nonce) ∉ usedNonces c ∧ minAssets ≤ gained ∧
   validSignature w treasury (redeemHash c treasury vault shares minAssets deadline nonce) sig = Some ERC1271_MAGICVALUE) ∧
  (usedNonces c' ⊆ usedNonces c2 →
   is_ok (redeem now' treasury vault' shares' minAssets' deadline' nonce sig' c2 w2) = false).
Proof.
  unfold redeem. intros Hr. ok_inv. repeat match goal with Hx : demand _ = Ok _ |- _ => apply demand_ok in Hx end. zify_bool.
  simplify_eq. split; [by split_and!|].
  intros Hsub. rewrite !throw_if_bind. repeat case_match; try done. cbn in Hsub.
  match goal with Hx : bool_decide _ = false |- _ => apply bool_decide_eq_false in Hx; destruct Hx end. set_solver.
Qed.
End redeem.

(** ** A world *)

Definition Ledger : Type := gmap (Z * Z) N * gmap (Z * Z * Z) Z.
Definition balanceIn (w : Ledger) (t h : Z) : Z := Z.of_N (default 0%N (w.1 !! (t, h))).
Definition setBalance (t h : Z) (v : Z) (w : Ledger) : Ledger := (<[(t, h) := Z.to_N v]> w.1, w.2).
Definition move (w : Ledger) (t from to v : Z) : option Ledger :=
  if (0 <=? v) && (v <=? balanceIn w t from) then
    let w := setBalance t from (balanceIn w t from - v) w in Some (setBalance t to (balanceIn w t to + v) w)
  else None.
Definition sampleSigned (t from this v va vb n : Z) (sig : list Z) : Prop := sig = [27].

(** Every token behaves; the contract at 99 swaps 100 of token 1 for 80 of token 2. *)
#[global] Instance sample_world : World Ledger := {|
  balanceOf w t h := Some (balanceIn w t h);
  allowance w t o s := default 0 (w.2 !! (t, o, s));
  receiveWithAuthorization w t caller from to v va vb n sig := if bool_decide (sig = [27]) then move w t from to v else None;
  forceApprove w t o s a := Some (w.1, <[(t, o, s) := a]> w.2);
  safeTransfer w t from to v := move w t from to v;
  safeTransferFrom w t caller from to v := move w t from to v;
  callContract w caller target data :=
    match (if target =? 99 then move w 1 caller 99 100 else None) with
    | Some w => Ok (setBalance 2 caller (balanceIn w 2 caller + 80) w)
    | None => Throw []
    end;
  vaultAsset w v := Some 1;
  vaultRedeem w caller v shares receiver owner := None;
  vaultDeposit w caller v assets receiver := None;
  aaveSupply w caller pool asset amount onBehalfOf := None;
  validSignature w account digest sig := None |}.

Lemma balanceIn_set w t h t' h' v : 0 ≤ v → balanceIn (setBalance t h v w) t' h' = if (t' =? t) && (h' =? h) then v else balanceIn w t' h'.
Proof.
  intros Hv. unfold balanceIn, setBalance. cbn. destruct (Z.eqb_spec t' t) as [->|Ht], (Z.eqb_spec h' h) as [->|Hh]; cbn.
  - rewrite lookup_insert_eq. cbn. lia.
  - by rewrite lookup_insert_ne by congruence.
  - by rewrite lookup_insert_ne by congruence.
  - by rewrite lookup_insert_ne by congruence.
Qed.
Lemma move_moves w t from to v w' : move w t from to v = Some w' → moved (λ _, True) w w' t from to v ∧ w'.2 = w.2.
Proof.
  unfold move. destruct (_ && _) eqn:Hc; [|done]. intros [= <-]. split; [|done]. apply andb_true_iff in Hc. zify_bool.
  intros t' h _. unfold bal. cbn. assert (0 ≤ balanceIn w t to) by (unfold balanceIn; lia).
  rewrite !balanceIn_set; [| |lia|]; [|lia|rewrite balanceIn_set by lia; destruct (_ && _); lia].
  rewrite Z.eqb_refl. cbn [andb].
  destruct (Z.eqb_spec t' t), (Z.eqb_spec h to), (Z.eqb_spec h from), (Z.eqb_spec to from); subst; cbn; try congruence; lia.
Qed.

#[global] Instance sample_token_laws : TokenLaws Ledger (λ _, True) sampleSigned.
Proof.
  split.
  - intros w t h _. eexists. split; [done|]. unfold balanceIn. lia.
  - intros w t from this v va vb n s w' _. cbn. destruct (decide (s = [27])) as [->|Hs];
      [|by rewrite bool_decide_false]. rewrite bool_decide_true by done. intros Hm. split; [done|]. by apply move_moves.
  - intros w t o s a w' _ [= <-]. cbn. by rewrite lookup_insert_eq.
  - intros w t from to v w' _ Hm. cbn in Hm. destruct (move_moves _ _ _ _ _ _ Hm) as [Hmv E]. split; [done|].
    intros t' o s. cbn. by rewrite E.
Qed.

Definition sample_conduit : Conduit := {| cd_this := 50; cd_owner := 7; targets := {[99]} |}.
Definition sample_intent : Intent :=
  {| in_target := 99; in_data := [1; 2]; in_tokenIn := 1; in_amountIn := 100; in_tokenOut := 2; in_minOut := 80;
     in_beneficiary := 10; in_deadline := 1000; in_memoId := 5; in_memo := [] |}.
Definition sample_authorization : Authorization :=
  {| au_token := 1; au_from := 10; au_value := 100; au_validAfter := 0; au_validBefore := 1000; au_nonce := intentNonce sample_intent |}.
Definition sample_ledger : Ledger := setBalance 1 10 250 (∅, ∅).

Lemma execute_delivers_witness : ∃ w', execute sample_conduit 900 sample_authorization [27] sample_intent sample_ledger = Ok (80, w') ∧
  bal w' 1 50 = 0 ∧ bal w' 2 10 = bal sample_ledger 2 10 + 80.
Proof.
  assert (E0 : match execute sample_conduit 900 sample_authorization [27] sample_intent sample_ledger with Ok (g, _) => g | _ => -1 end = 80)
    by (vm_compute; reflexivity).
  destruct (execute sample_conduit 900 sample_authorization [27] sample_intent sample_ledger) as [[g w']|e] eqn:E; [|discriminate E0].
  subst g.
  exists w'. split; [reflexivity|].
  assert (Hne : au_from sample_authorization ≠ cd_this sample_conduit) by discriminate.
  destruct (execute_delivers (good := λ _, True) (signed := sampleSigned) sample_conduit 900 sample_authorization [27] sample_intent
    sample_ledger 80 w' I I Hne E) as (_ & (B & _) & (G & _) & _).
  split; [exact B|exact G].
Defined.
