(* ===== verification/AgentKit.v ===== *)
(** * The agent's treasury kit

    [apps/agent/src]: the in-memory kit the agent app runs against
    ([kit-stub.ts]), the quotes and the Pods check that build requests
    ([quote.ts], [pods.ts]), the texts an owner reads ([facts.ts]) and the
    approval gate ([gate.ts]). The maps of the module are the state the
    operations thread; an [Address] or [Hex] is its text. An error is its
    message. viem is the interface of [Abi] and the few functions of [KitLib]. *)

From S2P Require Import Prelude.
From S2P Require Import Js.
From S2P Require Import Decimal.
From S2P Require Import Encoding.
From S2P Require Import Abi.
From S2P Require Import GtPolicy.
From S2P Require Import Float64.
From S2P Require Import JsMap.

(** ** Data ([treasury-kit/src/types.ts]) *)

Record TreasuryChain : Type := {
  tc_key : string; tc_chainId : Z; tc_modularPath : option string; tc_rpcUrl : string; tc_deploymentFile : string;
  tc_usdc : string; tc_eurc : option string; tc_erc3009Domain : list (string * (string * string));
  tc_conduit : option string; tc_targets : list (string * string) }.
#[global] Instance eta_chain : Eta TreasuryChain := λ c,
  {| tc_key := tc_key c; tc_chainId := tc_chainId c; tc_modularPath := tc_modularPath c; tc_rpcUrl := tc_rpcUrl c;
     tc_deploymentFile := tc_deploymentFile c; tc_usdc := tc_usdc c; tc_eurc := tc_eurc c;
     tc_erc3009Domain := tc_erc3009Domain c; tc_conduit := tc_conduit c; tc_targets := tc_targets c |}.

Record TreasuryOwner : Type := { ow_address : string; ow_weight : Z }.
Record OwnerSigner : Type := { os_address : string; os_sign : string → result string string }.
Record DeployTreasuryInput : Type := {
  di_chains : list string; di_owners : list TreasuryOwner; di_threshold : Z; di_allowlist : list string; di_salt : option string }.
Record DeployedTreasury : Type := {
  dt_chain : string; dt_address : string; dt_owners : list TreasuryOwner; dt_threshold : Z; dt_allowlist : list string;
  dt_hashes : list string }.

Record Budget : Type := { bu_limit : Z; bu_refresh : Z }.
Record AgentGrant : Type := {
  ag_allow : list (string * option (list string)); ag_erc20 : option (list (string * Budget)); ag_gas : option Budget;
  ag_validUntil : Z }.
Record DeployAgentFaceInput : Type := {
  fi_chain : string; fi_treasury : string; fi_sessionKey : string; fi_grant : AgentGrant; fi_salt : option string }.
Record DeployedAgentFace : Type := {
  fa_chain : string; fa_address : string; fa_sessionKey : string; fa_grant : AgentGrant; fa_hashes : list string }.

Record ConduitIntent : Type := {
  ki_target : string; ki_data : string; ki_tokenIn : string; ki_amountIn : Z; ki_tokenOut : string; ki_minOut : Z;
  ki_beneficiary : string; ki_deadline : Z }.
Record ConduitAuthorization : Type := {
  ka_token : string; ka_from : string; ka_value : Z; ka_validAfter : Z; ka_validBefore : Z; ka_nonce : string }.
Inductive FactsKind : Type := KSwap | KEarnDeposit | KEarnWithdraw | KCustom.
Record ConduitFacts : Type := {
  fc_kind : FactsKind; fc_chain : string; fc_treasury : string; fc_target : string;
  fc_spend : string * string * string; fc_receive : string * string * string; fc_deadline : string; fc_lines : list string }.
Record ConduitRequest : Type := {
  rq_chain : string; rq_intent : ConduitIntent; rq_authorization : ConduitAuthorization; rq_facts : ConduitFacts }.
Record ApprovedConduitRequest : Type := { ap_request : ConduitRequest; ap_signature : string; ap_calldata : string }.
Record ConduitReceipt : Type := { re_chain : string; re_txHash : string; re_gained : Z; re_tokenOut : string }.
Inductive SubmitVia : Type := ViaEoa (privateKey : string) | ViaAgent (agent sessionKey : string).

Record BuildSwapRequestInput : Type := {
  sr_chain : string; sr_treasury : string; sr_tokenIn : string; sr_tokenOut : string; sr_amountIn : Z; sr_minOut : Z;
  sr_validForSeconds : option jsnum; sr_target : string; sr_data : string; sr_label : string }.
Record BuildEarnDepositRequestInput : Type := {
  er_chain : string; er_treasury : string; er_vault : string; er_token : string; er_amountIn : Z; er_minShares : Z;
  er_validForSeconds : option jsnum }.
Record BuildFromPodsBytecodeInput : Type := {
  po_chain : string; po_treasury : string; po_action : string; po_to : string; po_bytecode : string; po_tokenIn : string;
  po_amountIn : Z; po_tokenOut : string; po_minOut : Z; po_destinationAddress : string; po_validForSeconds : option jsnum }.

(** ** The module's state *)

Record StubTreasury : Type := {
  tr_owners : list TreasuryOwner; tr_threshold : Z; tr_allowlist : list string; tr_balances : list (string * Z) }.
Record Stub : Type := { treasuries : list (string * StubTreasury); usedNonces : list string; txCounter : Z }.
#[global] Instance eta_stubTreasury : Eta StubTreasury := λ t,
  {| tr_owners := tr_owners t; tr_threshold := tr_threshold t; tr_allowlist := tr_allowlist t; tr_balances := tr_balances t |}.
#[global] Instance eta_stub : Eta Stub := λ s,
  {| treasuries := treasuries s; usedNonces := usedNonces s; txCounter := txCounter s |}.
Definition resetStub : Stub := {| treasuries := []; usedNonces := []; txCounter := 0 |}.

(** What a pure function of viem, or the platform, gives back. *)
Class KitLib : Type := {
  checksumAddress : string → string;
  toHex : Z → string;
  formatUnits : Z → Z → string;
  isoText : Z → string;                       (* toISOString of a time in range *)
  encodeDeposit : Z → string → result string string;
  encodeExecute : ConduitAuthorization → string → ConduitIntent → result string string;
  authorizationHash : string → string → ConduitAuthorization → result string string }.

Section kit.
Context `{Viem} `{KitLib}.

Definition lower (a : string) : string := toLowerCase a.
Definition same (a b : string) : bool := bool_decide (lower a = lower b).
Definition newline : string := String "010" "".

(** ** Hexadecimal text and hashes *)

Definition hexWord (z : Z) : string := "0x" +:+ hexDigits 64 z.
(** [hexToBytes]: an odd digit count is padded on the left. *)
Definition hexBytes (s : string) : result string (list Z) :=
  if startsWith "0x" s && str_all is_hex (str_drop 2 s) then mret (be_bytes (Z.to_nat ((strlen s - 1) / 2)) (hexNumber s))
  else Throw "invalid hex".
Definition keccakText32 (text : string) : string := hexWord (keccakText text).
Definition keccakHex32 (hex : string) : result string string := bs ← hexBytes hex; mret (hexWord (keccak256 bs)).

(** ** Chains *)

(** [getAddress]: any 20 hexadecimal bytes, checksummed. *)
Definition getAddress (a : string) : result string string :=
  if isHexBytes 20 a then mret (checksumAddress (lower a)) else Throw ("Address " +:+ a +:+ " is invalid.").
Definition placeholder (label : string) : string :=
  checksumAddress ("0x" +:+ str_drop 26 (keccakText32 ("bufi6900-stub:" +:+ label))).

Definition chain (key : string) (chainId : Z) (modularPath : option string) : TreasuryChain :=
  {| tc_key := key; tc_chainId := chainId; tc_modularPath := modularPath; tc_rpcUrl := "";
     tc_deploymentFile := "contracts/deployments/" +:+ toLowerCase key +:+ ".json";
     tc_usdc := placeholder (key +:+ ":usdc"); tc_eurc := Some (placeholder (key +:+ ":eurc"));
     tc_erc3009Domain := [("USDC", ("USDC", "2")); ("EURC", ("EURC", "2"))];
     tc_conduit := Some (placeholder (key +:+ ":conduit"));
     tc_targets := [("router", placeholder (key +:+ ":router")); ("vault", placeholder (key +:+ ":vault"))] |}.

Definition STUB_CHAINS : list (string * TreasuryChain) :=
  [("LOCAL", chain "LOCAL" 31337 None <| tc_usdc := "0x38B45856e28E86985560f9c4B87113E8Eb86b0AD" |>);
   ("ARC-TESTNET", chain "ARC-TESTNET" 5042002 (Some "/arcTestnet"));
   ("AVAX-FUJI", chain "AVAX-FUJI" 43113 (Some "/avalancheFuji"));
   ("ARB-SEPOLIA", chain "ARB-SEPOLIA" 421614 (Some "/arbitrumSepolia"));
   ("BASE-SEPOLIA", chain "BASE-SEPOLIA" 84532 (Some "/baseSepolia"));
   ("ARC", chain "ARC" 5042 (Some "/arc") <| tc_conduit := None |> <| tc_targets := [] |>);
   ("AVAX", chain "AVAX" 43114 (Some "/avalanche") <| tc_conduit := None |> <| tc_targets := [] |>)].

Definition getChain (key : string) : result string TreasuryChain :=
  match map_get key STUB_CHAINS with Some c => mret c | None => Throw ("unknown chain " +:+ key) end.
Definition withConduit (base : TreasuryChain) (conduit : string) (ts : list (string * string)) : TreasuryChain :=
  base <| tc_conduit := Some conduit |> <| tc_targets := foldl (λ m kv, map_set kv.1 kv.2 m) (tc_targets base) ts |>.

Definition target (name : string) (c : TreasuryChain) : option string := map_get name (tc_targets c).
Definition isToken (token : option string) (t : string) : bool :=
  match truthy token with Some a => same t a | None => false end.
Definition symbolOf (c : TreasuryChain) (token : string) : string :=
  if same token (tc_usdc c) then "USDC"
  else if isToken (tc_eurc c) token then "EURC"
  else if isToken (target "vault" c) token then "shares"
  else "tokens".
Definition tokenOf (c : TreasuryChain) (symbol : string) : result string string :=
  if bool_decide (symbol = "USDC") then mret (tc_usdc c)
  else match truthy (tc_eurc c) with Some e => mret e | None => Throw (tc_key c +:+ " has no EURC") end.
Definition conduitOf (c : TreasuryChain) : result string string :=
  match truthy (tc_conduit c) with Some a => mret a | None => Throw (tc_key c +:+ " has no TreasuryConduit deployed") end.

(** ** Treasuries *)

Definition ledgerKey (chainKey treasury : string) : string := chainKey +:+ ":" +:+ lower treasury.
Definition SEED_USDC : Z := 1000000000.

(** [concatHex] of the salt, the owners and [toHex(threshold)]; then a placeholder. *)
Definition concatHex (parts : list string) : string := "0x" +:+ String.concat "" (str_drop 2 <$> parts).
Definition deriveTreasury (i : DeployTreasuryInput) : result string string :=
  seed ← keccakHex32 (concatHex (default "0x00" (di_salt i) :: (ow_address <$> di_owners i) ++ [toHex (di_threshold i)]));
  mret (placeholder ("treasury:" +:+ seed)).

Definition putTreasury (key address : string) (t : StubTreasury) (s : Stub) : Stub :=
  s <| treasuries := map_set (ledgerKey key address) t (treasuries s) |>.

(** The [map] over the chains: those before an unknown one are already in the map. *)
Fixpoint deployOn (address : string) (i : DeployTreasuryInput) (keys : list string) (s : Stub) : result string (list DeployedTreasury) * Stub :=
  match keys with
  | [] => (mret [], s)
  | key :: keys =>
      match getChain key with
      | Throw e => (Throw e, s)
      | Ok c =>
          let t := {| tr_owners := di_owners i; tr_threshold := di_threshold i; tr_allowlist := di_allowlist i;
                      tr_balances := [(lower (tc_usdc c), SEED_USDC)] |} in
          let d := {| dt_chain := key; dt_address := address; dt_owners := di_owners i; dt_threshold := di_threshold i;
                      dt_allowlist := di_allowlist i;
                      dt_hashes := [keccakText32 (key +:+ ":create"); keccakText32 (key +:+ ":address-book")] |} in
          let '(r, s) := deployOn address i keys (putTreasury key address t s) in
          ((ds ← r; mret (d :: ds)), s)
      end
  end.
Definition deployTreasury (i : DeployTreasuryInput) (s : Stub) : result string (list DeployedTreasury) * Stub :=
  match deriveTreasury i with Throw e => (Throw e, s) | Ok address => deployOn address i (di_chains i) s end.

Record StatusReport : Type := {
  sp_deployed : bool; sp_owners : list TreasuryOwner; sp_threshold : Z; sp_allowlist : list string; sp_balances : list (string * Z) }.
Fixpoint reportBalances (c : TreasuryChain) (bs : list (string * Z)) (acc : list (string * Z)) : result string (list (string * Z)) :=
  match bs with
  | [] => mret acc
  | (token, amount) :: bs => a ← getAddress token; reportBalances c bs (map_set (symbolOf c a) amount acc)
  end.
Definition treasuryStatus (key treasury : string) (s : Stub) : result string StatusReport :=
  c ← getChain key;
  match map_get (ledgerKey key treasury) (treasuries s) with
  | None => mret {| sp_deployed := false; sp_owners := []; sp_threshold := 0; sp_allowlist := []; sp_balances := [] |}
  | Some t =>
      balances ← reportBalances c (tr_balances t) [];
      mret {| sp_deployed := true; sp_owners := tr_owners t; sp_threshold := tr_threshold t; sp_allowlist := tr_allowlist t;
              sp_balances := balances |}
  end.

(** ** The agent face *)

Definition EXECUTE_SIGNATURE : string :=
  "execute((address,address,uint256,uint256,uint256,bytes32),bytes,(address,bytes,address,uint256,address,uint256,address,uint256))".
Definition EXECUTE_SELECTOR : string := "0x" +:+ String.substring 2 8 (keccakText32 EXECUTE_SIGNATURE).
Definition conduitExecutorGrant (conduit : string) (validUntil : Z) (gasBudget : option Budget) : AgentGrant :=
  {| ag_allow := [(conduit, Some [EXECUTE_SELECTOR])]; ag_erc20 := None; ag_gas := gasBudget; ag_validUntil := validUntil |}.
Definition deployAgentFace (i : DeployAgentFaceInput) (s : Stub) : result string DeployedAgentFace :=
  _ ← throw_if (negb (map_has (ledgerKey (fi_chain i) (fi_treasury i)) (treasuries s)))
        ("no treasury " +:+ fi_treasury i +:+ " on " +:+ fi_chain i);
  let address := placeholder ("agent:" +:+ fi_chain i +:+ ":" +:+ fi_treasury i +:+ ":" +:+ fi_sessionKey i +:+ ":" +:+ default "" (fi_salt i)) in
  mret {| fa_chain := fi_chain i; fa_address := address; fa_sessionKey := fi_sessionKey i; fa_grant := fi_grant i;
          fa_hashes := [keccakText32 (address +:+ ":create"); keccakText32 (address +:+ ":session-key")] |}.

(** ** Conduit requests *)

(** [encodeAbiParameters] of static types, its error a message. *)
Definition encodeParams (ts : list abi_type) (vs : list abi_arg) : result string (list Z) :=
  match encodeAbiParameters ts vs with Ok ws => Ok ws | Throw (Err m) | Throw (ViemErr m) => Throw m end.

Definition KIT_INTENT_TYPEHASH : string :=
  keccakText32 "Intent(address target,bytes data,address tokenIn,uint256 amountIn,address tokenOut,uint256 minOut,address beneficiary,uint256 deadline)".
Definition kitIntentTypes : list abi_type :=
  [TBytesN 32; TAddress; TBytesN 32; TAddress; TUint 256; TAddress; TUint 256; TAddress; TUint 256].
Definition intentNonce (i : ConduitIntent) : result string string :=
  data ← keccakHex32 (ki_data i);
  bs ← encodeParams kitIntentTypes
         [AText KIT_INTENT_TYPEHASH; AText (ki_target i); AText data; AText (ki_tokenIn i); ANum (ki_amountIn i);
          AText (ki_tokenOut i); ANum (ki_minOut i); AText (ki_beneficiary i); ANum (ki_deadline i)];
  mret (hexWord (keccak256 bs)).

(** [BigInt(Math.floor(Date.now() / 1000))] and [BigInt(n)] of a number. *)
Definition nowSeconds (now : Z) : Z := now / 1000.
Definition bigIntOf (n : jsnum) : result string Z :=
  match n with JInt z => mret z | JNonInt s => Throw ("The number " +:+ s +:+ " cannot be converted to a BigInt because it is not an integer") end.
Definition human (amount : Z) : string := formatUnits amount 6.
(** [new Date(Number(deadline) * 1000).toISOString()] *)
Definition isoDate (deadline : Z) : result string string :=
  if Z.abs (deadline * 1000) <=? 8640000000000000 then mret (isoText (deadline * 1000)) else Throw "Invalid time value".

Definition assemble (now : Z) (c : TreasuryChain) (treasury : string) (kind : FactsKind)
    (tgt data tokenIn : string) (amountIn : Z) (tokenOut : string) (minOut : Z) (receiveSymbol : string) (lines : list string)
    (validForSeconds : jsnum) : result string ConduitRequest :=
  valid ← bigIntOf validForSeconds;
  let deadline := nowSeconds now + valid in
  let full := {| ki_target := tgt; ki_data := data; ki_tokenIn := tokenIn; ki_amountIn := amountIn; ki_tokenOut := tokenOut;
                 ki_minOut := minOut; ki_beneficiary := treasury; ki_deadline := deadline |} in
  nonce ← intentNonce full;
  let spendSymbol := symbolOf c tokenIn in
  iso ← isoDate deadline;
  conduit ← conduitOf c;
  mret {| rq_chain := tc_key c; rq_intent := full;
          rq_authorization := {| ka_token := tokenIn; ka_from := treasury; ka_value := amountIn; ka_validAfter := 0;
                                 ka_validBefore := deadline; ka_nonce := nonce |};
          rq_facts := {| fc_kind := kind; fc_chain := tc_key c; fc_treasury := treasury; fc_target := tgt;
                         fc_spend := (tokenIn, spendSymbol, human amountIn); fc_receive := (tokenOut, receiveSymbol, human minOut);
                         fc_deadline := iso;
                         fc_lines := lines ++
                           ["Treasury " +:+ treasury +:+ " signs an ERC-3009 authorization for " +:+ human amountIn +:+ " " +:+ spendSymbol
                              +:+ " to the conduit " +:+ conduit;
                            "Nonce " +:+ nonce +:+ " binds the signature to this exact intent; it cannot be replayed";
                            "Everything returns to the treasury; the conduit holds nothing after the transaction";
                            "Valid until " +:+ iso] |} |}.

Definition anHour (validForSeconds : option jsnum) : jsnum := default (JInt 3600) validForSeconds.

Definition buildSwapRequest (now : Z) (i : BuildSwapRequestInput) : result string ConduitRequest :=
  c ← getChain (sr_chain i);
  _ ← throw_if (bool_decide (sr_tokenIn i = sr_tokenOut i)) "tokenIn and tokenOut must differ";
  tokenIn ← tokenOf c (sr_tokenIn i);
  tokenOut ← tokenOf c (sr_tokenOut i);
  assemble now c (sr_treasury i) KSwap (sr_target i) (sr_data i) tokenIn (sr_amountIn i) tokenOut (sr_minOut i) (sr_tokenOut i)
    ["Swap " +:+ human (sr_amountIn i) +:+ " " +:+ sr_tokenIn i +:+ " for at least " +:+ human (sr_minOut i) +:+ " " +:+ sr_tokenOut i
       +:+ " on " +:+ tc_key c;
     "Route: " +:+ sr_label i +:+ " at " +:+ sr_target i]
    (anHour (sr_validForSeconds i)).

Definition buildEarnDepositRequest (now : Z) (i : BuildEarnDepositRequestInput) : result string ConduitRequest :=
  c ← getChain (er_chain i);
  data ← encodeDeposit (er_amountIn i) (er_treasury i);
  tokenIn ← tokenOf c (er_token i);
  assemble now c (er_treasury i) KEarnDeposit (er_vault i) data tokenIn (er_amountIn i) (er_vault i) (er_minShares i) "shares"
    ["Deposit " +:+ human (er_amountIn i) +:+ " " +:+ er_token i +:+ " into the ERC-4626 vault " +:+ er_vault i +:+ " on " +:+ tc_key c;
     "The treasury must receive at least " +:+ human (er_minShares i) +:+ " vault shares"]
    (anHour (er_validForSeconds i)).

(** [length / 2 - 1] of the text: half a byte more when the count is odd. *)
Definition byteCount (hex : string) : string :=
  pretty (strlen hex / 2 - 1) +:+ (if strlen hex mod 2 =? 0 then "" else ".5").

Definition buildFromPodsBytecode (now : Z) (i : BuildFromPodsBytecodeInput) : result string ConduitRequest :=
  _ ← throw_if (negb (same (po_destinationAddress i) (po_treasury i)))
        ("Pods destinationAddress " +:+ po_destinationAddress i +:+ " is not the treasury " +:+ po_treasury i
         +:+ ": Pods maps it to onBehalfOf/to, so the position would belong to someone else");
  c ← getChain (po_chain i);
  assemble now c (po_treasury i) KCustom (po_to i) (po_bytecode i) (po_tokenIn i) (po_amountIn i) (po_tokenOut i) (po_minOut i)
    (symbolOf c (po_tokenOut i))
    ["Pods " +:+ po_action i +:+ ": " +:+ human (po_amountIn i) +:+ " " +:+ symbolOf c (po_tokenIn i) +:+ " through " +:+ po_to i
       +:+ " on " +:+ tc_key c;
     "Calldata is Pods' bytecode, reviewed as-is (" +:+ byteCount (po_bytecode i) +:+ " bytes)"]
    (anHour (po_validForSeconds i)).

(** ** Approve and submit *)

Definition sortedOwners (owners : list OwnerSigner) : list OwnerSigner :=
  js_sort (λ a b, if hexNumber (os_address a) <? hexNumber (os_address b) then -1 else 1) owners.

Definition ownerWeight (t : StubTreasury) (o : OwnerSigner) : result string Z :=
  match List.find (λ x, same (ow_address x) (os_address o)) (tr_owners t) with
  | Some w => mret (ow_weight w)
  | None => Throw (os_address o +:+ " is not an owner of the treasury")
  end.
(** The [reduce] over the quorum. *)
Fixpoint quorumWeight (t : StubTreasury) (owners : list OwnerSigner) (sum : Z) : result string Z :=
  match owners with
  | [] => mret sum
  | o :: owners => w ← ownerWeight t o; quorumWeight t owners (sum + w)
  end.
Fixpoint signAll (digest : string) (owners : list OwnerSigner) : result string (list string) :=
  match owners with
  | [] => mret []
  | o :: owners => s ← os_sign o digest; rest ← signAll digest owners; mret (s :: rest)
  end.

Definition authorizationDigest (r : ConduitRequest) : result string string :=
  c ← getChain (rq_chain r);
  conduit ← conduitOf c;
  authorizationHash (rq_chain r +:+ ":ReceiveWithAuthorization") conduit (rq_authorization r).

(** [approveWithQuorum] up to the signatures, and from there. *)
Definition quorumReached (r : ConduitRequest) (owners : list OwnerSigner) (s : Stub) : result string () :=
  match map_get (ledgerKey (rq_chain r) (ki_beneficiary (rq_intent r))) (treasuries s) with
  | None => Throw ("no treasury " +:+ ki_beneficiary (rq_intent r) +:+ " on " +:+ rq_chain r)
  | Some t =>
      weight ← quorumWeight t owners 0;
      throw_if (weight <? tr_threshold t) ("quorum weight " +:+ pretty weight +:+ " is under the threshold " +:+ pretty (tr_threshold t))
  end.
Definition approveWithQuorum (r : ConduitRequest) (owners : list OwnerSigner) (s : Stub) : result string ApprovedConduitRequest :=
  _ ← quorumReached r owners s;
  digest ← authorizationDigest r;
  parts ← signAll digest (sortedOwners owners);
  calldata ← encodeExecute (rq_authorization r) (concatHex parts) (rq_intent r);
  mret {| ap_request := r; ap_signature := concatHex parts; ap_calldata := calldata |}.

(** The stub's venue; bigint division rounds towards zero. *)
Definition simulateGain (c : TreasuryChain) (i : ConduitIntent) (kind : FactsKind) : Z :=
  match kind with
  | KSwap =>
      let inSym := symbolOf c (ki_tokenIn i) in
      let outSym := symbolOf c (ki_tokenOut i) in
      if bool_decide (inSym = "USDC") && bool_decide (outSym = "EURC") then Z.quot (ki_amountIn i * 8000) 10000
      else if bool_decide (inSym = "EURC") && bool_decide (outSym = "USDC") then Z.quot (ki_amountIn i * 12500) 10000
      else ki_amountIn i
  | _ => ki_amountIn i
  end.

Definition nonceKey (r : ConduitRequest) : string := rq_chain r +:+ ":" +:+ ka_nonce (rq_authorization r).

(** What a submit does to the balances of the treasury. *)
Definition settle (i : ConduitIntent) (gained : Z) (t : StubTreasury) : StubTreasury :=
  let inKey := lower (ki_tokenIn i) in
  let outKey := lower (ki_tokenOut i) in
  let have := default 0 (map_get inKey (tr_balances t)) in
  let bs := map_set inKey (have - ki_amountIn i) (tr_balances t) in
  t <| tr_balances := map_set outKey (default 0 (map_get outKey bs) + gained) bs |>.

(** The checks of [submitApproved]: the treasury and what it would gain. *)
Definition submitChecks (now : Z) (r : ConduitRequest) (via : SubmitVia) (s : Stub) : result string (StubTreasury * Z) :=
  let i := rq_intent r in
  c ← getChain (rq_chain r);
  _ ← throw_if (bool_decide (nonceKey r ∈ usedNonces s)) "authorization already used: this intent was executed once";
  _ ← throw_if (ki_deadline i <? nowSeconds now) "intent expired";
  _ ← throw_if (match via with ViaAgent _ k => bool_decide (k = "") | ViaEoa _ => false end) "agent submit needs a session key";
  match map_get (ledgerKey (rq_chain r) (ki_beneficiary i)) (treasuries s) with
  | None => Throw ("no treasury on " +:+ rq_chain r)
  | Some t =>
      let have := default 0 (map_get (lower (ki_tokenIn i)) (tr_balances t)) in
      _ ← throw_if (have <? ki_amountIn i) ("insufficient " +:+ symbolOf c (ki_tokenIn i) +:+ ": have " +:+ human have);
      let gained := simulateGain c i (fc_kind (rq_facts r)) in
      _ ← throw_if (gained <? ki_minOut i) ("BelowFloor: venue would return " +:+ human gained +:+ ", floor is " +:+ human (ki_minOut i));
      mret (t, gained)
  end.

(** The state has moved by the time the transaction hash is made up. *)
Definition submitApproved (now : Z) (a : ApprovedConduitRequest) (via : SubmitVia) (s : Stub) : result string ConduitReceipt * Stub :=
  let r := ap_request a in
  let i := rq_intent r in
  match submitChecks now r via s with
  | Throw e => (Throw e, s)
  | Ok (t, gained) =>
      let s := putTreasury (rq_chain r) (ki_beneficiary i) (settle i gained t) s
                 <| usedNonces := set_add (usedNonces s) (nonceKey r) |> <| txCounter := txCounter s + 1 |> in
      ((hash ← keccakHex32 (concatHex [ap_calldata a; toHex (txCounter s)]);
        mret {| re_chain := rq_chain r; re_txHash := hash; re_gained := gained; re_tokenOut := ki_tokenOut i |}), s)
  end.
End kit.
