(* ===== verification/AgentGate.v ===== *)
(** * The agent's approval gate

    [apps/agent/src]: [facts.ts], what an owner reads; [gate.ts], the question
    and what follows from its answer; [pods.ts] and [quote.ts], which build the
    requests. The kit behind the gate is [AgentKit]. *)

From S2P Require Import Prelude.
From S2P Require Import Js.
From S2P Require Import Decimal.
From S2P Require Import CreJson.
From S2P Require Import Abi.
From S2P Require Import Float64.
From S2P Require Import JsMap.
From S2P Require Import AgentKit.
From S2P Require Import Async.

Section gate.
Context `{Viem} `{KitLib}.

(** ** facts.ts *)

Definition GATE_LABEL : string := "Quorum approval — owners sign the ERC-3009 authorization".
Definition kindTitle (k : FactsKind) : string :=
  match k with KSwap => "Swap" | KEarnDeposit => "Earn deposit" | KEarnWithdraw => "Earn withdrawal" | KCustom => "Custom protocol call" end.
Definition formatAmount (atomic : Z) : string := formatUnits atomic 6.
Definition renderFacts (r : ConduitRequest) : string :=
  let f := rq_facts r in
  let '(_, spendSymbol, amount) := fc_spend f in
  let '(_, receiveSymbol, minimum) := fc_receive f in
  joinWith newline
    ((kindTitle (fc_kind f) +:+ " on " +:+ fc_chain f +:+ " — treasury " +:+ fc_treasury f)
     :: ("Spend " +:+ amount +:+ " " +:+ spendSymbol +:+ " → receive at least " +:+ minimum +:+ " " +:+ receiveSymbol
         +:+ " (deadline " +:+ fc_deadline f +:+ ")")
     :: ((λ line, "  • " +:+ line) <$> fc_lines f)).
Definition renderReceipt (c : ConduitReceipt) (r : ConduitRequest) : string :=
  joinWith newline
    ["Executed on " +:+ re_chain c; "tx " +:+ re_txHash c;
     "treasury gained " +:+ formatAmount (re_gained c) +:+ " " +:+ (fc_receive (rq_facts r)).1.2 +:+ " (" +:+ re_tokenOut c +:+ ")"].
Definition REJECTED_LINE : string := "The owners did not approve. Nothing was signed and nothing moved.".

(** ** gate.ts *)

(** [true] is approve. *)
Definition parseApproval (answer : string) : bool :=
  let a := toLowerCase (trim answer) in bool_decide (a = "y") || bool_decide (a = "yes").
Definition gatePrompt : string := GATE_LABEL +:+ " [y/N] ".

Record GateSigners : Type := { gs_owners : list OwnerSigner; gs_agent : string; gs_sessionKey : string }.
Inductive GateOutcome : Type :=
| Rejected (text : string)
| Executed (receipt : ConduitReceipt) (text : string).

(** What the gate and the kit behind it wait for: the owner's answer, the
    signatures ([Promise.all] of the owners' [signDigest]), a microtask; the
    clock is read without waiting. *)
Inductive gate_call : Type → Type :=
| AskOwner (question : string) : gate_call string
| SignDigests (owners : list OwnerSigner) (digest : string) : gate_call (list string)
| Resume : gate_call ()
| DateNow : gate_call Z.

(** The kit's state and what the terminal shows, a printed text a line. *)
Record Terminal (K : Type) : Type := { te_kit : K; te_out : list string }.
#[global] Arguments te_kit {K} t.
#[global] Arguments te_out {K} t.
#[global] Instance eta_terminal {K} : Eta (Terminal K) := λ t, {| te_kit := te_kit t; te_out := te_out t |}.

Notation gate_prog K := (prog (Terminal K) string gate_call).

(** The part of the kit contract the gate calls. *)
Record GateKit (K : Type) : Type := {
  gk_approve : ConduitRequest → list OwnerSigner → gate_prog K ApprovedConduitRequest;
  gk_submit : ApprovedConduitRequest → SubmitVia → gate_prog K ConduitReceipt }.
#[global] Arguments gk_approve {K} g.
#[global] Arguments gk_submit {K} g.

Definition print_ {K} (text : string) : gate_prog K () := assign (λ t, t <| te_out ::= λ out, out ++ [text] |>).

(** After the submit, after the approval, after the answer. *)
Definition concluded {K} (r : ConduitRequest) (receipt : ConduitReceipt) : gate_prog K GateOutcome :=
  let text := renderReceipt receipt r in
  _ ← print_ text;
  Ret (Executed receipt text).
Definition submitting {K} (kit : GateKit K) (r : ConduitRequest) (g : GateSigners) (approved : ApprovedConduitRequest) :
    gate_prog K GateOutcome :=
  _ ← print_ ("agent " +:+ gs_agent g +:+ " submitting through its session key " +:+ gs_sessionKey g +:+ " …");
  receipt ← gk_submit kit approved (ViaAgent (gs_agent g) (gs_sessionKey g));
  _ ← await Resume;
  concluded r receipt.
Definition actOn {K} (kit : GateKit K) (r : ConduitRequest) (g : GateSigners) (answer : string) : gate_prog K GateOutcome :=
  if negb (parseApproval answer) then
    _ ← print_ REJECTED_LINE;
    Ret (Rejected REJECTED_LINE)
  else
    _ ← print_ ("owners signing (" +:+ joinWith ", " (os_address <$> gs_owners g) +:+ ") …");
    approved ← gk_approve kit r (gs_owners g);
    _ ← await Resume;
    submitting kit r g approved.
Definition runGate {K} (kit : GateKit K) (r : ConduitRequest) (g : GateSigners) : gate_prog K GateOutcome :=
  _ ← print_ (newline +:+ renderFacts r +:+ newline);
  answer ← await (AskOwner gatePrompt);
  actOn kit r g answer.

(** The stub kit's two operations as they suspend: the approval looks at the
    treasury, then waits for the signatures; the submit does not wait. *)
Definition stubApprove (r : ConduitRequest) (owners : list OwnerSigner) : gate_prog Stub ApprovedConduitRequest :=
  s ← get;
  _ ← lift (quorumReached r owners (te_kit s));
  digest ← lift (authorizationDigest r);
  parts ← await (SignDigests (sortedOwners owners) digest);
  calldata ← lift (encodeExecute (rq_authorization r) (concatHex parts) (rq_intent r));
  Ret {| ap_request := r; ap_signature := concatHex parts; ap_calldata := calldata |}.
Definition stubSubmit (a : ApprovedConduitRequest) (via : SubmitVia) : gate_prog Stub ConduitReceipt :=
  now ← ask DateNow;
  s ← get;
  let '(receipt, kit) := submitApproved now a via (te_kit s) in
  _ ← assign (λ t, t <| te_kit := kit |>);
  lift receipt.
Definition stubKit : GateKit Stub := {| gk_approve := stubApprove; gk_submit := stubSubmit |}.

(** ** pods.ts *)

Definition PODS_ON_BEHALF_OF_CAVEAT : string :=
  "Pods maps destinationAddress to the protocol's onBehalfOf / to once their fix ships; a destination other than the treasury would hand the position (aToken / vault share) to that address, not to the treasury. Refused.".
Definition isPodsDestinationTreasury (destinationAddress treasury : string) : bool :=
  bool_decide (toLowerCase (trim destinationAddress) = toLowerCase treasury).
Definition podsRefusal (destinationAddress treasury : string) : option string :=
  if isPodsDestinationTreasury destinationAddress treasury then None
  else Some ("destinationAddress " +:+ destinationAddress +:+ " is not the treasury " +:+ treasury +:+ ". " +:+ PODS_ON_BEHALF_OF_CAVEAT).

(** ** quote.ts *)

Definition applySlippage (expected : Z) (slippageBps : jsnum) : result string Z :=
  match slippageBps with
  | JInt b =>
      if (b <? 0) || (10000 <? b) then Throw ("slippageBps must be an integer between 0 and 10000, got " +:+ numToString slippageBps)
      else mret (Z.quot (expected * (10000 - b)) 10000)
  | JNonInt _ => Throw ("slippageBps must be an integer between 0 and 10000, got " +:+ numToString slippageBps)
  end.

(** [createStubQuoter] *)
Definition stubRateBps (c : TreasuryChain) (tokenIn tokenOut : string) : Z :=
  let isUsdc t := bool_decide (toLowerCase t = toLowerCase (tc_usdc c)) in
  if isUsdc tokenIn && negb (isUsdc tokenOut) then 8000
  else if negb (isUsdc tokenIn) && isUsdc tokenOut then 12500
  else 10000.
Definition stubPreviewDeposit (assets : Z) : Z := assets.
End gate.
