(* ===== verification/AgentSafety.v ===== *)
(** * The agent's kit and gate: what holds

    The properties of [AgentKit] and [AgentGate]: the requests the kit builds,
    the quorum behind an approval, what a submit moves, the ledger over any
    sequence of operations, the gate - and that the nonce the kit computes is
    not the one [Conduit] asks for. *)

From S2P Require Import Prelude.
From S2P Require Import Js.
From S2P Require Import Decimal.
From S2P Require Import Encoding.
From S2P Require Import Abi.
From S2P Require Import EvmAbi.
From S2P Require Import GtPolicy.
From S2P Require Import Float64.
From S2P Require Import JsMap.
From S2P Require Import AbiSample.
From S2P Require Import Conduit.
From S2P Require Import ConduitSafety.
From S2P Require Import AgentKit.
From S2P Require Import Async.
From S2P Require Import AgentGate.

(** The documented behaviour of [encodeAbiParameters] on static types, and the
    range of keccak256. *)
Class AbiParamLaws `{Viem} : Prop := {
  encodeAbiParameters_static ts vs ws :
    Forall (λ t, is_static t = true) ts → encodeWords ts vs = Some ws → encodeAbiParameters ts vs = Ok ws;
  encodeAbiParameters_reject ts vs :
    Forall (λ t, is_static t = true) ts → encodeWords ts vs = None → ∃ e, encodeAbiParameters ts vs = Throw e;
  keccak256_range bs : 0 ≤ keccak256 bs < 2 ^ 256 }.

Section requests.
Context `{Viem} `{KitLib}.

(** ** What a built request says *)

(** The authorization is for the intent, and the facts say what the intent does. *)
Record faithful (r : ConduitRequest) : Prop := {
  ff_token : ka_token (rq_authorization r) = ki_tokenIn (rq_intent r);
  ff_from : ka_from (rq_authorization r) = ki_beneficiary (rq_intent r);
  ff_value : ka_value (rq_authorization r) = ki_amountIn (rq_intent r);
  ff_before : ka_validBefore (rq_authorization r) = ki_deadline (rq_intent r);
  ff_nonce : intentNonce (rq_intent r) = Ok (ka_nonce (rq_authorization r));
  ff_treasury : fc_treasury (rq_facts r) = ki_beneficiary (rq_intent r);
  ff_target : fc_target (rq_facts r) = ki_target (rq_intent r);
  ff_spend : (fc_spend (rq_facts r)).1.1 = ki_tokenIn (rq_intent r) ∧ (fc_spend (rq_facts r)).2 = human (ki_amountIn (rq_intent r));
  ff_receive : (fc_receive (rq_facts r)).1.1 = ki_tokenOut (rq_intent r) ∧ (fc_receive (rq_facts r)).2 = human (ki_minOut (rq_intent r));
  ff_deadline : isoDate (ki_deadline (rq_intent r)) = Ok (fc_deadline (rq_facts r));
  ff_nonceShown : ("Nonce " +:+ ka_nonce (rq_authorization r) +:+ " binds the signature to this exact intent; it cannot be replayed") ∈ fc_lines (rq_facts r) }.

Lemma assemble_ok now c treasury kind tgt data tokenIn amountIn tokenOut minOut sym lines valid r :
  assemble now c treasury kind tgt data tokenIn amountIn tokenOut minOut sym lines valid = Ok r →
  faithful r ∧ rq_chain r = tc_key c ∧ fc_kind (rq_facts r) = kind ∧
  ∃ v, valid = JInt v ∧
    rq_intent r = {| ki_target := tgt; ki_data := data; ki_tokenIn := tokenIn; ki_amountIn := amountIn; ki_tokenOut := tokenOut;
                     ki_minOut := minOut; ki_beneficiary := treasury; ki_deadline := nowSeconds now + v |}.
Proof.
  unfold assemble. intros Hr. ok_inv. subst r. destruct valid as [v|]; [|done].
  match goal with Hv : bigIntOf _ = Ok _ |- _ => injection Hv as <- end.
  split_and!; [|done|done|by exists v]. split; cbn; try done. apply elem_of_app. right. set_solver.
Qed.

(** A request one of the kit's builders made for [treasury]. *)
Inductive built (now : Z) (treasury : string) (r : ConduitRequest) : Prop :=
| built_swap i : sr_treasury i = treasury → buildSwapRequest now i = Ok r → built now treasury r
| built_earn i : er_treasury i = treasury → buildEarnDepositRequest now i = Ok r → built now treasury r
| built_pods i : po_treasury i = treasury → buildFromPodsBytecode now i = Ok r → built now treasury r.

Lemma getChain_ok key c : getChain key = Ok c → map_get key STUB_CHAINS = Some c.
Proof. unfold getChain. destruct (map_get key STUB_CHAINS); [by intros [= ->]|done]. Qed.

Lemma built_faithful now treasury r : built now treasury r → faithful r ∧ ki_beneficiary (rq_intent r) = treasury.
Proof.
  intros [i <- Hr|i <- Hr|i <- Hr];
    unfold buildSwapRequest, buildEarnDepositRequest, buildFromPodsBytecode in Hr; ok_inv;
    match goal with Ha : assemble _ _ _ _ _ _ _ _ _ _ _ _ _ = Ok _ |- _ => apply assemble_ok in Ha as (Hf & _ & _ & v & _ & ->) end; done.
Qed.
End requests.

(** ** The quorum *)

Section quorum.
Context `{Viem} `{KitLib}.

Definition signerOf (owners : list OwnerSigner) (x : TreasuryOwner) : Prop :=
  ∃ o, o ∈ owners ∧ lower (ow_address x) = lower (os_address o).
#[global] Instance signerOf_dec owners x : Decision (signerOf owners x).
Proof.
  refine (cast_if (decide (Exists (λ o, lower (ow_address x) = lower (os_address o)) owners)));
    rewrite Exists_exists in *; done.
Defined.

(** The weight of the treasury's owners who are among the signers. *)
Definition signedWeight (t : StubTreasury) (owners : list OwnerSigner) : Z :=
  sumZ (ow_weight <$> filter (signerOf owners) (tr_owners t)).

Lemma ownerWeight_ok t o w : ownerWeight t o = Ok w →
  ∃ x, x ∈ tr_owners t ∧ lower (ow_address x) = lower (os_address o) ∧ ow_weight x = w.
Proof.
  unfold ownerWeight. destruct (List.find _ _) as [x|] eqn:Hx; [|done]. intros [= <-].
  apply List.find_some in Hx as [Hin Hs%bool_decide_eq_true]. exists x. split_and!; [by apply list_elem_of_In|done|done].
Qed.

(** The owners found, one for each signer. *)
Lemma quorumWeight_ok t owners sum w : quorumWeight t owners sum = Ok w →
  ∃ xs, Forall2 (λ x o, x ∈ tr_owners t ∧ lower (ow_address x) = lower (os_address o)) xs owners ∧
        w = sum + sumZ (ow_weight <$> xs).
Proof.
  revert sum. induction owners as [|o owners IH]; cbn; intros sum Hw.
  - injection Hw as <-. exists []. split; [constructor|]. cbn. lia.
  - ok_inv. rename select (ownerWeight _ _ = _) into Ho. apply ownerWeight_ok in Ho as (x & Hin & Hs & <-).
    destruct (IH _ Hw) as (xs & Hxs & ->). exists (x :: xs). split; [by constructor|]. cbn. lia.
Qed.

Lemma quorumWeight_signed t owners w :
  NoDup (lower ∘ os_address <$> owners) → NoDup (lower ∘ ow_address <$> tr_owners t) →
  quorumWeight t owners 0 = Ok w → w = signedWeight t owners.
Proof.
  intros Hd Hd' (xs & Hxs & ->)%quorumWeight_ok. unfold signedWeight. rewrite Z.add_0_l. apply sumZ_perm, fmap_Permutation.
  assert (lower ∘ ow_address <$> xs = lower ∘ os_address <$> owners) as Hmap.
  { clear -Hxs. induction Hxs as [|x o xs owners [_ E] _ IH]; [done|]. rewrite !fmap_cons, IH. cbn. by rewrite E. }
  apply NoDup_Permutation.
  - rewrite <- Hmap in Hd. by apply NoDup_fmap_1 in Hd.
  - apply NoDup_filter. by apply NoDup_fmap_1 in Hd'.
  - intros x. rewrite list_elem_of_filter. split.
    + intros Hx. apply list_elem_of_lookup in Hx as [i Hi]. destruct (Forall2_lookup_l _ _ _ _ _ Hxs Hi) as (o & Ho & Hin & Hs).
      split; [|done]. exists o. split; [by eapply list_elem_of_lookup_2|done].
    + intros [(o & Ho & Hs) Hin]. apply list_elem_of_lookup in Ho as [i Hi].
      destruct (Forall2_lookup_r _ _ _ _ _ Hxs Hi) as (x' & Hx' & Hin' & Hs').
      enough (x = x') as -> by (by eapply list_elem_of_lookup_2).
      apply list_elem_of_lookup in Hin as [j Hj], Hin' as [j' Hj'].
      assert (j = j') as <-; [|congruence].
      apply (NoDup_lookup _ j j' (lower (os_address o)) Hd'); rewrite list_lookup_fmap; [rewrite Hj|rewrite Hj'];
        cbn; congruence.
Qed.
End quorum.

(** ** What a submit moves *)

Section submit.
Context `{Viem} `{KitLib}.

Definition balance (t : StubTreasury) (token : string) : Z := default 0 (map_get (lower token) (tr_balances t)).

Lemma settle_balance i gained t token :
  balance (settle i gained t) token = balance t token - (if same token (ki_tokenIn i) then ki_amountIn i else 0)
                                      + (if same token (ki_tokenOut i) then gained else 0).
Proof.
  unfold balance, settle, same. cbn. rewrite !map_get_set.
  destruct (decide (lower (ki_tokenOut i) = lower token)) as [<-|Ho].
  - rewrite (bool_decide_true (lower (ki_tokenOut i) = lower (ki_tokenOut i))) by done. cbn.
    destruct (decide (lower (ki_tokenIn i) = lower (ki_tokenOut i))) as [E|E]; cbn.
    + rewrite E, bool_decide_true by done. lia.
    + rewrite bool_decide_false by congruence. lia.
  - rewrite (bool_decide_false (lower token = lower (ki_tokenOut i))) by congruence.
    destruct (decide (lower (ki_tokenIn i) = lower token)) as [<-|E]; cbn.
    + rewrite bool_decide_true by done. lia.
    + rewrite bool_decide_false by congruence. lia.
Qed.

(** The listed signers are owners of the request's treasury, and the weights
    found for them, one for each listing, reach its threshold: so do the weights
    of the owners among them, when neither list names anyone twice. *)
Definition quorum_met (r : ConduitRequest) (owners : list OwnerSigner) (s : Stub) : Prop :=
  ∃ t xs, map_get (ledgerKey (rq_chain r) (ki_beneficiary (rq_intent r))) (treasuries s) = Some t ∧
    Forall2 (λ x o, x ∈ tr_owners t ∧ lower (ow_address x) = lower (os_address o)) xs owners ∧
    tr_threshold t ≤ sumZ (ow_weight <$> xs) ∧
    (NoDup (lower ∘ os_address <$> owners) → NoDup (lower ∘ ow_address <$> tr_owners t) →
     tr_threshold t ≤ signedWeight t owners).

(** The request ran once: the treasury [t] became [t'], whose balances moved by
    exactly the amount and the gain. *)
Definition submitted (now : Z) (r : ConduitRequest) (s s' : Stub) : Prop :=
  let i := rq_intent r in
  let key := ledgerKey (rq_chain r) (ki_beneficiary i) in
  ∃ t t' gained,
    map_get key (treasuries s) = Some t ∧
    (nonceKey r ∉ usedNonces s ∧ nowSeconds now ≤ ki_deadline i ∧ ki_minOut i ≤ gained ∧ ki_amountIn i ≤ balance t (ki_tokenIn i)) ∧
    s' = {| treasuries := map_set key t' (treasuries s); usedNonces := usedNonces s ++ [nonceKey r]; txCounter := txCounter s + 1 |} ∧
    (tr_owners t' = tr_owners t ∧ tr_threshold t' = tr_threshold t ∧ tr_allowlist t' = tr_allowlist t ∧
     ∀ token, balance t' token = balance t token - (if same token (ki_tokenIn i) then ki_amountIn i else 0)
                                 + (if same token (ki_tokenOut i) then gained else 0)).

Lemma submitChecks_ok now r via s t gained : submitChecks now r via s = Ok (t, gained) →
  nonceKey r ∉ usedNonces s ∧ nowSeconds now ≤ ki_deadline (rq_intent r) ∧
  map_get (ledgerKey (rq_chain r) (ki_beneficiary (rq_intent r))) (treasuries s) = Some t ∧
  ki_amountIn (rq_intent r) ≤ balance t (ki_tokenIn (rq_intent r)) ∧ ki_minOut (rq_intent r) ≤ gained.
Proof.
  unfold submitChecks. intros Hs. ok_inv. destruct (map_get _ (treasuries s)) as [t'|]; [|done]. ok_inv. simplify_eq. zify_bool. done.
Qed.

Lemma quorumReached_ok r owners s u : quorumReached r owners s = Ok u → quorum_met r owners s.
Proof.
  unfold quorumReached. intros Hq. destruct (map_get _ (treasuries s)) as [t|] eqn:Ht; [|done]. ok_inv. zify_bool.
  rename select (quorumWeight _ _ _ = _) into Hw. destruct (quorumWeight_ok _ _ _ _ Hw) as (xs & Hxs & E).
  exists t, xs. split_and!; [done|done|lia|]. intros Hd1 Hd2. by rewrite <- (quorumWeight_signed _ _ _ Hd1 Hd2 Hw).
Qed.

Lemma approve_request r owners s a : approveWithQuorum r owners s = Ok a → ap_request a = r.
Proof. unfold approveWithQuorum. intros Ha. ok_inv. by subst a. Qed.

(** A submit that changes anything ran the request; one that succeeds changed
    something. *)
Lemma submit_moves now a via s res s' : submitApproved now a via s = (res, s') →
  (∃ e, res = Throw e) ∧ s' = s ∨ submitted now (ap_request a) s s'.
Proof.
  unfold submitApproved. destruct (submitChecks now (ap_request a) via s) as [[t gained]|e] eqn:Hs.
  2: { intros [= <- <-]. left. eauto. }
  apply submitChecks_ok in Hs as (Hn & Hd & Ht & Ha & Hm). intros [= _ <-]. right.
  exists t, (settle (rq_intent (ap_request a)) gained t), gained. split_and!; try done.
  - unfold putTreasury, set_add. cbn. by rewrite decide_False.
  - intros token. apply settle_balance.
Qed.
End submit.

(** ** The gate *)

Section gate.
Context `{Viem} `{KitLib}.
Notation gate_world := (world (Terminal Stub) string gate_call).

(** No segment touches the kit. *)
Definition untouched (segs : list (gate_world * gate_world)) : Prop :=
  Forall (λ seg, te_kit seg.2.1 = te_kit seg.1.1) segs.

Lemma concluded_execs r receipt (w : gate_world) segs o : execs (concluded r receipt) w segs o →
  untouched segs ∧ ∃ text, o = Returned (Executed receipt text).
Proof.
  intros (o1 & w1 & segs1 & Hr & -> & Hc)%execs_form. apply runs_form, runs_form in Hr as [-> ->].
  destruct Hc as [[-> ->]|[]]. split; [by constructor|]. by eexists.
Qed.

Lemma failed_execs {A} e (w : gate_world) segs (o : outcome _ _ _ A) :
  execs (Fail e) w segs o → untouched segs ∧ o = Failed e.
Proof.
  intros (o1 & w1 & segs1 & Hr & -> & Hc)%execs_form. apply runs_form in Hr as [-> ->].
  destruct Hc as [[-> ->]|[]]. by repeat constructor.
Qed.

Lemma stubSubmit_runs a via (w : gate_world) o w' : runs (stubSubmit a via) w o w' →
  te_kit w'.1 = te_kit w.1 ∧ (∃ e, o = Failed e) ∨
  ∃ now, Event DateNow (Value now) ∈ w'.2 ∧ submitted now (ap_request a) (te_kit w.1) (te_kit w'.1) ∧
    ((∃ receipt, o = Returned receipt) ∨ ∃ e, o = Failed e).
Proof.
  intros [[now|e] Hr]%runs_form.
  2: { apply runs_form in Hr as [-> ->]. left. eauto. }
  apply runs_form in Hr. cbn [mbind prog_bind bind get fst snd] in Hr.
  destruct (submitApproved now a via (te_kit w.1)) as [res kit'] eqn:Es. apply submit_moves in Es.
  apply runs_form in Hr. assert (He : Event DateNow (Value now) ∈ w.2 ++ [Event DateNow (Value now)])
    by (apply elem_of_app; right; left).
  destruct res as [receipt|e]; apply runs_form in Hr as [-> ->]; cbn [te_kit fst snd set].
  - destruct Es as [[[e He'] _]|Es]; [done|]. right. exists now. split_and!; [done|done|left; eauto].
  - destruct Es as [[_ ->]|Es]; [left; eauto|]. right. exists now. split_and!; [done|done|right; eauto].
Qed.

(** The submit: in its first segment, or never. *)
Lemma submitting_execs r g a (w : gate_world) segs o : ap_request a = r → execs (submitting stubKit r g a) w segs o →
  ∃ w' segs', segs = (w, w') :: segs' ∧ untouched segs' ∧
    ((te_kit w'.1 = te_kit w.1 ∧ ∃ e, o = Failed e) ∨
     ∃ now, Event DateNow (Value now) ∈ w'.2 ∧ submitted now r (te_kit w.1) (te_kit w'.1)).
Proof.
  intros <- (o1 & w1 & segs1 & Hr & -> & Hc)%execs_form. exists w1, segs1. split; [done|].
  apply runs_form in Hr. apply (runs_bind (stubSubmit a (ViaAgent (gs_agent g) (gs_sessionKey g)))) in Hr as (o2 & w2 & Hr & Ho).
  apply stubSubmit_runs in Hr.
  destruct Hr as [[Hk [e ->]]|(now & Hnow & Hs & [[receipt ->]|[e ->]])].
  - destruct Ho as [-> ->]. destruct Hc as [[-> ->]|[]]. split; [constructor|left; eauto].
  - apply runs_form in Ho as [-> ->]. split; [|right; eauto].
    destruct Hc as [[-> _]|([[]|e] & s & Hc)]; [constructor|by apply concluded_execs in Hc as [? _]|by apply failed_execs in Hc as [? _]].
  - destruct Ho as [-> ->]. destruct Hc as [[-> ->]|[]]. split; [constructor|right; eauto].
Qed.

(** What has happened before and in the one segment that submits: an explicit
    yes, the quorum check in the kit's state after the answer, the signatures of
    the request's digest by the listed owners, and the submit of the request in
    the kit's state of that moment. *)
Definition acted (r : ConduitRequest) (g : GateSigners) (segs : list (gate_world * gate_world))
    (seg : gate_world * gate_world) : Prop :=
  ∃ answer digest parts now v,
    parseApproval answer = true ∧ Event (AskOwner gatePrompt) (Value answer) ∈ seg.1.2 ∧
    segs !! 1%nat = Some v ∧ quorum_met r (gs_owners g) (te_kit v.2.1) ∧
    authorizationDigest r = Ok digest ∧
    Event (SignDigests (sortedOwners (gs_owners g)) digest) (Value parts) ∈ seg.1.2 ∧
    segs !! 3%nat = Some seg ∧ Event DateNow (Value now) ∈ seg.2.2 ∧
    submitted now r (te_kit seg.1.1) (te_kit seg.2.1).

(** After the answer: nothing, or the approval, the signatures and a submit. *)
Definition acts (r : ConduitRequest) (g : GateSigners) (hs : list (event string gate_call))
    (segs : list (gate_world * gate_world)) (o : outcome (Terminal Stub) string gate_call GateOutcome) : Prop :=
  untouched segs ∧ (∀ receipt text, o ≠ Returned (Executed receipt text)) ∨
  ∃ v u seg segs' digest parts now,
    segs = v :: u :: seg :: segs' ∧ untouched [v; u] ∧ untouched segs' ∧ quorum_met r (gs_owners g) (te_kit v.2.1) ∧
    authorizationDigest r = Ok digest ∧
    seg.1.2 = hs ++ [Event (SignDigests (sortedOwners (gs_owners g)) digest) (Value parts); Event Resume (Value tt)] ∧
    Event DateNow (Value now) ∈ seg.2.2 ∧ submitted now r (te_kit seg.1.1) (te_kit seg.2.1).

Lemma acts_still r g hs segs e : untouched segs → acts r g hs segs (Failed e).
Proof. intros Hs. left. done. Qed.

Lemma actOn_execs r g answer (w : gate_world) segs o : execs (actOn stubKit r g answer) w segs o →
  if parseApproval answer then acts r g w.2 segs o
  else untouched segs ∧ o = Returned (Rejected REJECTED_LINE).
Proof.
  unfold actOn. destruct (parseApproval answer); cbn [negb]; intros (o1 & w1 & segs1 & Hr & -> & Hc)%execs_form.
  2: { apply runs_form, runs_form in Hr as [-> ->]. destruct Hc as [[-> ->]|[]]. by repeat constructor. }
  apply runs_form, (runs_bind (stubApprove r (gs_owners g))) in Hr as (o2 & w2 & Hr & Ho).
  apply runs_form, runs_lift in Hr as [(u & Hq%quorumReached_ok & Hr)|(e & _ & -> & ->)].
  2: { destruct Ho as [-> ->]. destruct Hc as [[-> ->]|[]]. apply acts_still. by repeat constructor. }
  apply runs_lift in Hr as [(digest & Hd & Hr)|(e & _ & -> & ->)].
  2: { destruct Ho as [-> ->]. destruct Hc as [[-> ->]|[]]. apply acts_still. by repeat constructor. }
  apply runs_form in Hr as [-> ->]. destruct Ho as [-> ->].
  destruct Hc as [[-> ->]|(rep & s1 & Hc)]; [left; by repeat constructor|].
  destruct rep as [parts|e].
  2: { apply failed_execs in Hc as [Hu ->]. apply acts_still. by constructor. }
  apply execs_form in Hc as (o3 & w3 & segs3 & Hr & -> & Hc).
  apply (runs_bind (lift (encodeExecute (rq_authorization r) (concatHex parts) (rq_intent r)) ≫= λ calldata,
    Ret {| ap_request := r; ap_signature := concatHex parts; ap_calldata := calldata |})) in Hr as (o4 & w4 & Hr & Ho).
  apply runs_lift in Hr as [(calldata & _ & Hr)|(e & _ & -> & ->)].
  2: { destruct Ho as [-> ->]. destruct Hc as [[-> ->]|[]]. apply acts_still. by repeat constructor. }
  apply runs_form in Hr as [-> ->]. apply runs_form in Ho as [-> ->].
  destruct Hc as [[-> ->]|([[]|e] & s3 & Hc)]; [left; by repeat constructor| |].
  2: { apply failed_execs in Hc as [Hu ->]. apply acts_still. by repeat constructor. }
  apply submitting_execs in Hc as (w5 & segs5 & -> & Hu & [[Hk [e ->]]|(now & Hnow & Hs)]); [| |done].
  - apply acts_still. by repeat constructor.
  - right. eexists _, _, _, _, digest, parts, now. split; [done|].
    split_and!; [by repeat constructor|done|exact Hq|exact Hd| |exact Hnow|exact Hs].
    cbn. by rewrite <- app_assoc.
Qed.

Definition answerOf (hs : list (event string gate_call)) : option string :=
  match hs with
  | Event c r :: _ =>
      match c in gate_call R return reply string R → option string with
      | AskOwner _ => λ r, match r with Value a => Some a | Rejects _ => None end
      | _ => λ _, None
      end r
  | [] => None
  end.

(** C24: the gate acts on an explicit yes only, whatever runs between its
    suspensions (the kit's state, and the terminal, may be changed by others
    while it waits for the owner, for the signatures or for the kit). Its first
    segment prints the facts of the request and nothing else. If the answer is
    not y or yes the outcome is the rejection and no segment of the gate touches
    the kit's state. A segment that does touch it is the fourth, and only that
    one: the answer was an explicit yes, after it the listed signers were
    owners of the treasury whose weights, one for each listing, reached its
    threshold (the weights of the owners who are signers, when no signer and no
    owner is listed twice), they signed the request's digest, and the request
    was submitted in the state the segment found: its nonce was fresh and is
    used now, it is in time, and the treasury's balances moved by exactly the
    amount spent and the gain, which is no less than the reviewed minimum. When
    the gate reports the request as executed, that happened. *)
Theorem gate_acts_on_yes_only r g s out segs o :
  execs (runGate stubKit r g) ({| te_kit := s; te_out := out |}, []) segs o →
  (∃ w, head segs = Some (({| te_kit := s; te_out := out |}, []), w) ∧
     te_kit w.1 = s ∧ te_out w.1 = out ++ [newline +:+ renderFacts r +:+ newline]) ∧
  (∀ seg answer, segs !! 1%nat = Some seg → seg.1.2 = [Event (AskOwner gatePrompt) (Value answer)] →
     parseApproval answer = false → untouched segs ∧ o = Returned (Rejected REJECTED_LINE)) ∧
  (∀ seg, seg ∈ segs → te_kit seg.2.1 ≠ te_kit seg.1.1 → acted r g segs seg) ∧
  (∀ receipt text, o = Returned (Executed receipt text) → ∃ seg, seg ∈ segs ∧ acted r g segs seg).
Proof.
  intros (o1 & w1 & segs1 & Hr & -> & Hc)%execs_form.
  apply runs_form, runs_form in Hr as [-> ->]. split; [by eexists|]. cbn [fst snd] in Hc.
  assert (Hstill : ∀ segs, untouched segs → ∀ seg, seg ∈ segs → te_kit seg.2.1 ≠ te_kit seg.1.1 → False).
  { intros l Hl seg Hin Hne. unfold untouched in Hl. rewrite Forall_forall in Hl. by apply Hne, Hl. }
  destruct Hc as [[-> ->]|(rep & s1 & Hc)].
  { split_and!; [done| |done]. intros seg ->%list_elem_of_singleton Hne. by destruct Hne. }
  destruct rep as [answer|e].
  2: { apply failed_execs in Hc as Hf. destruct Hf as [Hu ->]. apply execs_form in Hc as (o2 & w2 & segs2 & _ & -> & _).
       split_and!; [|intros seg Hin Hne; exfalso; refine (Hstill _ _ seg Hin Hne); by constructor|done].
       intros seg answer [= <-] E. cbn in E. apply (f_equal answerOf) in E. done. }
  apply actOn_execs in Hc as Ha. apply execs_form in Hc as (o2 & w2 & segs2 & _ & -> & _). cbn [fst snd app] in *.
  split.
  { intros seg answer' [= <-] E. cbn in E. apply (f_equal answerOf) in E. cbn in E. injection E as <-. intros Hno.
    rewrite Hno in Ha. destruct Ha as [Hu ->]. split; [by constructor|done]. }
  destruct (parseApproval answer) eqn:Hy.
  2: { destruct Ha as [Hu ->]. split; [|done]. intros seg Hin Hne. exfalso. refine (Hstill _ _ seg Hin Hne). by constructor. }
  destruct Ha as [[Hu Ho]|(v & u & seg & segs' & digest & parts & now & E & Hvu & Hu & Hq & Hd & Eh & Hnow & Hs)].
  { split; [|by intros receipt text ->; destruct (Ho receipt text)].
    intros seg Hin Hne. exfalso. refine (Hstill _ _ seg Hin Hne). by constructor. }
  rewrite E in *. apply Forall_cons in Hvu as [Hv [Hu' _]%Forall_cons].
  assert (Hact : ∀ v0, acted r g (v0 :: v :: u :: seg :: segs') seg).
  { intros v0. exists answer, digest, parts, now, v. rewrite Eh. split_and!; try done; [left|right; left]. }
  split; [|intros; exists seg; split; [do 3 right; left|apply Hact]].
  intros seg' Hin Hne. rewrite !elem_of_cons in Hin.
  destruct Hin as [->|[->|[->|[->|Hin]]]]; [by destruct Hne|by destruct Hne|by destruct Hne|apply Hact|].
  exfalso. by eapply Hstill.
Qed.
End gate.

(** ** The ledger over time *)

Section ledger.
Context `{Viem} `{KitLib} `{!AbiParamLaws}.

Lemma kit_types_static : Forall (λ t, is_static t = true) kitIntentTypes.
Proof. by repeat constructor. Qed.

Lemma encodeWord_length t v w : (∀ k, t = TBytesN k → (k ≤ 32)%nat) → encodeWord t v = Some w → length w = 32%nat.
Proof.
  intros Hk. destruct t, v; cbn [encodeWord]; try done.
  - destruct (isAddress _); [|done]. intros [= <-]. apply word_length.
  - intros [= <-]. apply word_length.
  - destruct (_ && _); [|done]. intros [= <-]. apply word_length.
  - destruct (isHexBytes _ _); [|done]. intros [= <-]. rewrite length_app, be_bytes_length, repeat_length. specialize (Hk n eq_refl). lia.
Qed.
Lemma encodeWords_ok ts vs ws : encodeWords ts vs = Some ws → Forall2 (λ t v, is_Some (encodeWord t v)) ts vs.
Proof.
  revert vs ws. induction ts as [|t ts IH]; intros [|v vs] ws; cbn [encodeWords]; try done.
  destruct (encodeWord t v) as [w|] eqn:Hw; [|done]. destruct (encodeWords ts vs) as [ws'|] eqn:Hws; [|done].
  intros _. constructor; [by eexists|by eapply IH].
Qed.
Lemma encodeWords_length ts vs ws :
  Forall (λ t, ∀ k, t = TBytesN k → (k ≤ 32)%nat) ts → encodeWords ts vs = Some ws → length ws = (32 * length ts)%nat.
Proof.
  intros Ht. revert vs ws. induction Ht as [|t ts Ht _ IH]; intros [|v vs] ws; cbn [encodeWords]; try done; [by intros [= <-]|].
  destruct (encodeWord t v) as [w|] eqn:Hw; [|done]. destruct (encodeWords ts vs) as [ws'|] eqn:Hws; [|done].
  intros [= <-]. rewrite length_app, (encodeWord_length _ _ _ Ht Hw), (IH _ _ Hws). cbn. lia.
Qed.
Lemma encodeWord_uint n : is_Some (encodeWord (TUint 256) (ANum n)) → 0 ≤ n < 2 ^ 256.
Proof. cbn [encodeWord]. destruct (_ && _) eqn:Hn; [|by intros []]. intros _. apply andb_true_iff in Hn. zify_bool. exact Hn. Qed.

(** What the kit hashes for an intent. *)
Definition kitPreimage (i : ConduitIntent) : result string (list Z) :=
  data ← keccakHex32 (ki_data i);
  encodeParams kitIntentTypes
    [AText KIT_INTENT_TYPEHASH; AText (ki_target i); AText data; AText (ki_tokenIn i); ANum (ki_amountIn i);
     AText (ki_tokenOut i); ANum (ki_minOut i); AText (ki_beneficiary i); ANum (ki_deadline i)].

(** The words the kit hashes: nine of them, the amounts in range. *)
Lemma kit_words i n : intentNonce i = Ok n →
  ∃ ws, kitPreimage i = Ok ws ∧ n = hexWord (keccak256 ws) ∧ length ws = 288%nat ∧
    0 ≤ ki_amountIn i < 2 ^ 256 ∧ 0 ≤ ki_minOut i < 2 ^ 256.
Proof.
  unfold intentNonce. intros Hn. apply bind_ok in Hn as (data & Hdata & Hn). apply bind_ok in Hn as (ws & Hr0 & Hn%ok_inj).
  exists ws. split; [unfold kitPreimage; rewrite Hdata; exact Hr0|]. split; [done|]. clear Hn Hdata. unfold encodeParams in Hr0.
  destruct (encodeAbiParameters _ _) as [ws'|[|]] eqn:He; [|done..]. injection Hr0 as ->.
  match type of He with encodeAbiParameters _ ?vs = _ =>
    destruct (encodeWords kitIntentTypes vs) as [ws'|] eqn:Hw;
      [|by destruct (encodeAbiParameters_reject _ _ kit_types_static Hw) as [e He']; rewrite He' in He] end.
  pose proof (encodeAbiParameters_static _ _ _ kit_types_static Hw) as He'. rewrite He' in He. injection He as ->.
  split; [eapply (encodeWords_length kitIntentTypes); [|exact Hw]|].
  - repeat (apply Forall_cons_2; [intros k E; first [discriminate E|injection E as <-; lia]|]). apply Forall_nil_2.
  - apply encodeWords_ok in Hw. unfold kitIntentTypes in Hw.
    split; apply encodeWord_uint; [apply (Forall2_lookup_lr _ _ _ 4%nat _ _ Hw)|apply (Forall2_lookup_lr _ _ _ 6%nat _ _ Hw)]; done.
Qed.

Lemma hexNumber_hexWord z : 0 ≤ z < 2 ^ 256 → hexNumber (hexWord z) = z.
Proof.
  intros Hz. destruct (hexDigits_spec 64 z) as (_ & _ & E). change (hexNumber (hexWord z)) with (hexval_from 0 (hexDigits 64 z)).
  rewrite E. apply Z.mod_small. by change (16 ^ Z.of_nat 64) with (2 ^ 256).
Qed.

Lemma intentPreimage_length i : length (Conduit.intentPreimage i) = 352%nat.
Proof. unfold Conduit.intentPreimage, words. cbn [fmap list_fmap concat]. by rewrite !length_app, !word_length. Qed.

(** C25: the kit's nonce is not the contract's. [kit-stub.ts] says it computes
    [TreasuryConduit.intentNonce]; the contract's intent also carries a memo
    reference and a memo, so the bytes the two hash differ in length. Whatever
    intent is passed along, with any memo, the contract refuses to execute an
    authorization that carries the nonce of a request a builder of the kit made
    - unless those very two byte strings, the kit's of the request's intent and
    the contract's of the intent passed along, have the same keccak256. *)
Theorem kit_nonce_never_executes {W} `{Conduit.World W} now' treasury r c now a sig i (w : W) :
  built now' treasury r → Conduit.au_nonce a = hexNumber (ka_nonce (rq_authorization r)) →
  (∃ e, Conduit.execute c now a sig i w = Throw e) ∨
  ∃ d, kitPreimage (rq_intent r) = Ok d ∧ d ≠ Conduit.intentPreimage i ∧
       keccak256 d = keccak256 (Conduit.intentPreimage i).
Proof.
  intros [Hf _]%built_faithful Ha. destruct (kit_words _ _ (ff_nonce _ Hf)) as (ws & Hk & Hn & Hl & _).
  destruct (Conduit.execute c now a sig i w) as [r'|e] eqn:He; [|by left; exists e]. right.
  exists ws. split; [exact Hk|]. split.
  - intros E. pose proof (intentPreimage_length i) as Hl'. rewrite <- E, Hl in Hl'. done.
  - unfold Conduit.execute in He. ok_inv. unfold Conduit.checkIntent in *. ok_inv. zify_bool.
    rewrite Hn in Ha. rewrite hexNumber_hexWord in Ha by apply keccak256_range. unfold Conduit.intentNonce in *. congruence.
Qed.

(** ** What the ledger keeps *)

(** An operation that changes the kit's state: a deployment, or the submit of a
    request one of the builders made and some quorum approved. *)
Inductive kit_step : Stub → Stub → Prop :=
| kit_deploy i s : kit_step s (deployTreasury i s).2
| kit_submit now' treasury r owners s0 a now via s :
    built now' treasury r → approveWithQuorum r owners s0 = Ok a → kit_step s (submitApproved now a via s).2.

Record ledger_ok (s : Stub) : Prop := {
  lo_balances key t token v : map_get key (treasuries s) = Some t → map_get token (tr_balances t) = Some v → 0 ≤ v;
  lo_once : NoDup (usedNonces s);
  lo_count : txCounter s = Z.of_nat (length (usedNonces s)) }.

Lemma simulateGain_nonneg c i kind : 0 ≤ ki_amountIn i → 0 ≤ simulateGain c i kind.
Proof. intros Ha. unfold simulateGain. destruct kind; try done. repeat case_match; try done; apply Z.quot_pos; lia. Qed.

Lemma deployOn_ok address i keys s : ledger_ok s → ledger_ok (deployOn address i keys s).2.
Proof.
  revert s. induction keys as [|key keys IH]; cbn; intros s Hs; [done|].
  destruct (getChain key) as [c|e]; [|done].
  match goal with |- context [putTreasury key address ?t s] => assert (ledger_ok (putTreasury key address t s)) as Hp end.
  { destruct Hs as [L1 L2 L3]. split; cbn; [|done|done]. intros k t token v. rewrite map_get_set. case_decide as E; [|apply L1].
    intros [= <-]. cbn. case_decide; [|done]. intros [= <-]. done. }
  destruct (deployOn address i keys _) as [rs s'] eqn:E. specialize (IH _ Hp). rewrite E in IH. exact IH.
Qed.

Lemma settle_nonneg i gained t :
  (∀ token v, map_get token (tr_balances t) = Some v → 0 ≤ v) → 0 ≤ gained → ki_amountIn i ≤ balance t (ki_tokenIn i) →
  ∀ token v, map_get token (tr_balances (settle i gained t)) = Some v → 0 ≤ v.
Proof.
  intros Ht Hg Ha token v. unfold settle, balance in *. cbn. rewrite !map_get_set.
  assert (∀ k, 0 ≤ default 0 (map_get k (tr_balances t))) as Hd.
  { intros k. destruct (map_get k (tr_balances t)) as [x|] eqn:E; [by eapply Ht|done]. }
  repeat case_decide; intros Hv; simplify_eq; cbn.
  all: try (eapply Ht; done).
  all: try match goal with |- context [default 0 (map_get ?k ?m)] => pose proof (Hd k) end; lia.
Qed.

(** C23: the ledger of the kit. However treasuries are deployed and approved
    requests submitted, in any order and as often as one likes, no balance ever
    goes below zero and no authorization is executed twice: there are as many
    transactions as nonces used, all different. *)
Theorem kit_ledger_safe s : rtc kit_step resetStub s → ledger_ok s.
Proof.
  intros Hr. assert (ledger_ok resetStub) as H0' by (split; [done|constructor|done]). revert H0'.
  induction Hr as [|s1 s2 s3 Hs _ IH]; [done|]. intros Hok. apply IH. clear IH. destruct Hs as [i s|now' treasury r owners s0 a now via s Hb Ha].
  - unfold deployTreasury. destruct (deriveTreasury i); [by apply deployOn_ok|done].
  - apply approve_request in Ha as <-. apply built_faithful in Hb as [Hf _]. destruct (kit_words _ _ (ff_nonce _ Hf)) as (_ & _ & _ & _ & Hamt & Hmin).
    unfold submitApproved. destruct (submitChecks now (ap_request a) via s) as [[t gained]|e] eqn:Hc; [|done].
    apply submitChecks_ok in Hc as (Hn & Hd & Ht & Hle & Hm). destruct Hok as [L1 L2 L3]. cbn.
    unfold set_add. rewrite decide_False by done. split; cbn.
    + intros key t' token v. rewrite map_get_set. case_decide as E; [|apply L1]. intros [= <-].
      apply settle_nonneg; [intros ? ?; by eapply L1|lia|done].
    + apply NoDup_app. split_and!; [done| |apply NoDup_singleton]. intros x Hx ->%list_elem_of_singleton. done.
    + rewrite length_app, L3. cbn. lia.
Qed.
End ledger.

(** ** A platform for the witnesses *)

(** [sample_viem] with [encodeAbiParameters] as the ABI says. *)
Definition kit_viem : Viem :=
  {| isAddress := isHexBytes 20; selectorOf := sampleHash 7; toFunctionSelector s := s;
     encodeFunctionData _ _ _ := Ok [];
     encodeAbiParameters ts vs := match sample_words ts vs with Some ws => Ok ws | None => Throw (ViemErr "InvalidArgument") end;
     keccak256 bs := be_value bs mod 2 ^ 256; erc20Abi := []; erc4626Abi := [] |}.
Definition kit_lib : KitLib :=
  {| checksumAddress a := a; toHex n := "0x" +:+ hexDigits 2 n; formatUnits n _ := pretty n; isoText t := pretty t;
     encodeDeposit _ _ := Ok "0x6e553f65"; encodeExecute _ sig _ := Ok sig;
     authorizationHash _ _ a := Ok (ka_nonce a) |}.

Lemma kit_param_laws : @AbiParamLaws kit_viem.
Proof.
  split.
  - intros ts vs ws _ Hw. cbn. change (sample_words ts vs) with (@encodeWords kit_viem ts vs). by rewrite Hw.
  - intros ts vs _ Hw. cbn. change (sample_words ts vs) with (@encodeWords kit_viem ts vs). rewrite Hw. by eexists.
  - intros bs. apply Z.mod_pos_bound. lia.
Qed.

Definition sample_now : Z := 1700000000000.
Definition sample_owner (a : string) : OwnerSigner := {| os_address := a; os_sign digest := Ok digest |}.
Definition sample_alice : string := "0x00000000000000000000000000000000000000A1".
Definition sample_bob : string := "0x00000000000000000000000000000000000000B2".
Definition sample_deploy : DeployTreasuryInput :=
  {| di_chains := ["LOCAL"]; di_owners := [{| ow_address := sample_alice; ow_weight := 1 |}; {| ow_address := sample_bob; ow_weight := 1 |}];
     di_threshold := 2; di_allowlist := []; di_salt := None |}.
Definition sample_treasury : string :=
  match @deriveTreasury kit_viem kit_lib sample_deploy with Ok a => a | Throw _ => "" end.
Definition sample_swap : BuildSwapRequestInput :=
  {| sr_chain := "LOCAL"; sr_treasury := sample_treasury; sr_tokenIn := "USDC"; sr_tokenOut := "EURC"; sr_amountIn := 1000000;
     sr_minOut := 790000; sr_validForSeconds := None; sr_target := sample_bob; sr_data := "0x1234"; sr_label := "router" |}.

(** An owner who signs twice is counted twice: alone, she meets a threshold of
    two owners. *)
Lemma duplicate_signer_counted :
  match @buildSwapRequest kit_viem kit_lib sample_now sample_swap with
  | Ok r => is_ok (@approveWithQuorum kit_viem kit_lib r [sample_owner sample_alice; sample_owner sample_alice]
                     (@deployTreasury kit_viem kit_lib sample_deploy resetStub).2)
  | Throw _ => false
  end = true.
Proof. vm_compute. reflexivity. Qed.

(** At a swap of one USDC, in the world where every token behaves. *)
Lemma kit_nonce_never_executes_witness : ∃ r a,
  @buildSwapRequest kit_viem kit_lib sample_now sample_swap = Ok r ∧
  ((∃ e, @Conduit.execute kit_viem Ledger sample_world sample_conduit 900 a [27] sample_intent sample_ledger = Throw e) ∨
   (∃ d, @kitPreimage kit_viem (rq_intent r) = Ok d ∧ d ≠ Conduit.intentPreimage sample_intent ∧
      @keccak256 kit_viem d = @keccak256 kit_viem (Conduit.intentPreimage sample_intent))).
Proof.
  assert (E0 : is_ok (@buildSwapRequest kit_viem kit_lib sample_now sample_swap) = true) by (vm_compute; reflexivity).
  destruct (@buildSwapRequest kit_viem kit_lib sample_now sample_swap) as [r|e] eqn:E; [|discriminate E0].
  exists r, {| Conduit.au_token := 1; Conduit.au_from := 10; Conduit.au_value := 100; Conduit.au_validAfter := 0;
               Conduit.au_validBefore := 1000; Conduit.au_nonce := hexNumber (ka_nonce (rq_authorization r)) |}.
  split; [reflexivity|].
  apply (@kit_nonce_never_executes kit_viem kit_lib kit_param_laws Ledger sample_world sample_now sample_treasury r).
  - exact (@built_swap kit_viem kit_lib sample_now sample_treasury r sample_swap eq_refl E).
  - reflexivity.
Defined.

(** After a treasury is deployed, a swap approved by both owners and submitted. *)
Lemma kit_ledger_safe_witness : ∃ s, @rtc Stub (@kit_step kit_viem kit_lib) resetStub s ∧ txCounter s = 1 ∧ ledger_ok s.
Proof.
  set (s0 := (@deployTreasury kit_viem kit_lib sample_deploy resetStub).2).
  assert (E0 : match @buildSwapRequest kit_viem kit_lib sample_now sample_swap with
               | Ok r => match @approveWithQuorum kit_viem kit_lib r [sample_owner sample_alice; sample_owner sample_bob] s0 with
                         | Ok a => txCounter (@submitApproved kit_viem kit_lib sample_now a (ViaAgent "0x1" "0x2") s0).2
                         | Throw _ => -1 end
               | Throw _ => -2 end = 1) by (vm_compute; reflexivity).
  destruct (@buildSwapRequest kit_viem kit_lib sample_now sample_swap) as [r|e] eqn:Er; [|discriminate E0].
  destruct (@approveWithQuorum kit_viem kit_lib r [sample_owner sample_alice; sample_owner sample_bob] s0) as [a|e] eqn:Ea; [|discriminate E0].
  exists (@submitApproved kit_viem kit_lib sample_now a (ViaAgent "0x1" "0x2") s0).2.
  assert (@rtc Stub (@kit_step kit_viem kit_lib) resetStub (@submitApproved kit_viem kit_lib sample_now a (ViaAgent "0x1" "0x2") s0).2) as Hr.
  { apply (rtc_l _ _ s0); [apply (@kit_deploy kit_viem kit_lib)|]. apply rtc_once.
    exact (@kit_submit kit_viem kit_lib sample_now sample_treasury r _ s0 a sample_now (ViaAgent "0x1" "0x2") s0
             (@built_swap kit_viem kit_lib sample_now sample_treasury r sample_swap eq_refl Er) Ea). }
  split; [exact Hr|]. split; [exact E0|].
  exact (@kit_ledger_safe kit_viem kit_lib kit_param_laws _ Hr).
Defined.

(** The owner says yes, both owners sign, in a second. *)
Definition gate_answers (n : nat) (R : Type) (c : gate_call R) : reply string R :=
  match c with
  | AskOwner _ => Value " Yes"
  | SignDigests owners digest => Value ((λ _, digest) <$> owners)
  | Resume => Value tt
  | DateNow => Value (sample_now + 1000)
  end.
Definition sample_gate : GateSigners :=
  {| gs_owners := [sample_owner sample_alice; sample_owner sample_bob]; gs_agent := "0x1"; gs_sessionKey := "0x2" |}.
Definition is_executed (o : outcome (Terminal Stub) string gate_call GateOutcome) : bool :=
  match o with Returned (Executed _ _) => true | _ => false end.

Lemma gate_acts_on_yes_only_witness : ∃ r segs o seg,
  @buildSwapRequest kit_viem kit_lib sample_now sample_swap = Ok r ∧
  execs (@runGate kit_lib Stub (@stubKit kit_viem kit_lib) r sample_gate)
    ({| te_kit := (@deployTreasury kit_viem kit_lib sample_deploy resetStub).2; te_out := [] |}, []) segs o ∧
  length segs = 5%nat ∧ seg ∈ segs ∧ @acted kit_viem kit_lib r sample_gate segs seg.
Proof.
  set (s0 := (@deployTreasury kit_viem kit_lib sample_deploy resetStub).2).
  assert (E0 : match @buildSwapRequest kit_viem kit_lib sample_now sample_swap with
               | Ok r => let d := drive gate_answers 5 (@runGate kit_lib Stub (@stubKit kit_viem kit_lib) r sample_gate)
                           ({| te_kit := s0; te_out := [] |}, []) in
                         is_executed d.2 && Nat.eqb (length d.1) 5
               | Throw _ => false end = true) by (vm_compute; reflexivity).
  destruct (@buildSwapRequest kit_viem kit_lib sample_now sample_swap) as [r|e] eqn:Er; [|discriminate E0].
  cbv zeta in E0. apply andb_true_iff in E0 as [E0 E1%Nat.eqb_eq].
  pose proof (drive_execs gate_answers 5 (@runGate kit_lib Stub (@stubKit kit_viem kit_lib) r sample_gate)
    ({| te_kit := s0; te_out := [] |}, [])) as Hr.
  destruct (drive gate_answers 5 _ _) as [segs o]. cbn [fst snd] in *.
  destruct (@gate_acts_on_yes_only kit_viem kit_lib r sample_gate s0 [] segs o Hr) as (_ & _ & _ & H4).
  destruct o as [[text|receipt text]|e|R c k]; try discriminate E0.
  destruct (H4 receipt text eq_refl) as (seg & Hin & Ha).
  exists r, segs, (Returned (Executed receipt text)), seg. split_and!; try assumption. reflexivity.
Defined.
