(* ===== verification/JsonText.v ===== *)
(** * Indented JSON text

    [JSON.stringify(value, null, 2)] of the state files, and that [JSON.parse]
    reads it back. No bigint, symbol or function is among the values. *)

From S2P Require Import Prelude.
From S2P Require Import Js.
From S2P Require Import Decimal.
From S2P Require Import CreJson.
From S2P Require Import CreParse.

Definition lineFeed : string := String "010" "".

(** ** Printing *)

(** A block of members, one a line, the closing line indented by [ind]. *)
Definition block (op cl ind : string) (ts : list string) : string :=
  match ts with
  | [] => op +:+ cl
  | _ => op +:+ joinWith "," ((λ t, (lineFeed +:+ ind +:+ "  ") +:+ t) <$> ts) +:+ lineFeed +:+ ind +:+ cl
  end.

(** [None] is undefined: a member is left out, an item is null. *)
Fixpoint jsonText (ind : string) (v : jsval) : option string :=
  match v with
  | VUndefined | VOther _ => None
  | VNull => Some "null"
  | VBool b => Some (if b then "true" else "false")
  | VNum n => Some (if isFinite n then numToString n else "null")
  | VStr s => Some (quoteText s)
  | VArr l => Some (block "[" "]" ind (map (λ v, default "null" (jsonText (ind +:+ "  ") v)) l))
  | VObj l => Some (block "{" "}" ind (omap (λ o, o) (map (λ '(k, v), (λ t, quoteText k +:+ ": " +:+ t) <$> jsonText (ind +:+ "  ") v) l)))
  end.

(** What is read back: no member is undefined. *)
Fixpoint clean (v : jsval) : jsval :=
  match v with
  | VArr l => VArr (map clean l)
  | VObj l => VObj (omap (λ o, o) (map (λ '(k, v), match v with VUndefined => None | _ => Some (k, clean v) end) l))
  | _ => v
  end.

(** ** Reading back *)

Section reading.
Context (numberOf : string → jsnum).
Notation reads := (reads numberOf).
Notation wfVal := (wfVal numberOf).

Definition isWhite (c : ascii) : bool := (code c =? 32) || (code c =? 9) || (code c =? 10) || (code c =? 13).

Lemma skip_white ws s : str_all isWhite ws = true → skip (ws +:+ s) = skip s.
Proof.
  induction ws as [|c ws IH]; [done|]. cbn [str_all]. intros [Hc Hws]%andb_true_iff.
  rewrite string_app_cons. cbn [skip]. unfold isWhite in Hc. rewrite Hc. by apply IH.
Qed.

Lemma reads_white ws t w : str_all isWhite ws = true → reads t w → reads (ws +:+ t) w.
Proof.
  intros Hws Ht [|n] rest Hn Hs; [lia|]. rewrite string_length_app in Hn.
  rewrite string_app_assoc. cbn [parseValue]. rewrite skip_white by done.
  specialize (Ht (S n) rest ltac:(lia) Hs). cbn [parseValue] in Ht. exact Ht.
Qed.

(** Text that closes a block: white space and the bracket. *)
Definition closes (b : ascii) (X rest : string) : Prop := skip X = String b rest ∧ stops X.

Lemma reads_block_items (l : list jsval) ts X rest :
  l ≠ [] → Forall2 reads ts l → closes "]" X rest →
  ∀ n, (2 * String.length (joinWith "," ts) + 2 ≤ n)%nat →
  parseItems numberOf n (joinWith "," ts +:+ X) = Some (l, rest).
Proof.
  intros Hl Hr [HX HX']. revert ts Hl Hr. induction l as [|v l IH]; [done|]. intros ts _ Hr.
  inversion Hr as [|t ? ts' ? Ht Hts]; subst. intros [|n] Hn; [lia|]. cbn [parseItems]. destruct l as [|w l].
  - inversion Hts; subst. cbn [joinWith] in *. rewrite Ht by (done || lia). cbn [mbind option_bind]. by rewrite HX.
  - inversion Hts as [|t' ? ts'' ? Ht' Hts']; subst. rewrite joinWith_cons in *.
    rewrite !string_length_app in Hn. cbn [String.length] in Hn.
    rewrite !string_app_assoc. rewrite Ht by (done || lia). cbn [mbind option_bind].
    change ("," +:+ joinWith "," (t' :: ts'') +:+ X) with (String "," (joinWith "," (t' :: ts'') +:+ X)).
    change (skip (String "," ?x)) with (String "," x). cbn iota. change (Ascii.eqb "," ",") with true. cbn iota.
    by rewrite (IH (t' :: ts'')) by (done || lia).
Qed.

(** A member on its line. *)
Definition memberText (ws k t : string) : string := ws +:+ quoteText k +:+ ": " +:+ t.

Lemma parse_member ws k u w acc n X :
  str_all isWhite ws = true → reads u w → (2 * String.length u + 3 ≤ n)%nat → stops X → k ∉ map fst acc →
  parseMembers numberOf (S n) acc (memberText ws k u +:+ X)
  = match skip X with
    | String c r =>
        if Ascii.eqb c "," then parseMembers numberOf n (acc ++ [(k, w)]) r
        else if Ascii.eqb c "}" then Some (acc ++ [(k, w)], r) else None
    | EmptyString => None
    end.
Proof.
  intros Hws Hu Hn HX Hk. unfold memberText. rewrite !string_app_assoc. cbn [parseMembers].
  rewrite skip_white by done. rewrite quoteText_cons. rewrite skip_head by done.
  change (Ascii.eqb "034" "034") with true. cbn [negb]. rewrite parse_escapeText. cbn [mbind option_bind].
  change (": " +:+ u +:+ X) with (String ":" ((" " +:+ u) +:+ X)).
  change (skip (String ":" ?x)) with (String ":" x). cbn iota. change (Ascii.eqb ":" ":") with true. cbn [negb].
  rewrite (reads_white " " u w eq_refl Hu) by (done || (rewrite string_length_app; cbn [String.length]; lia)). cbn [mbind option_bind].
  by rewrite setEntry_new.
Qed.

Lemma reads_block_members ws (l : list (string * jsval)) ts X rest :
  str_all isWhite ws = true → l ≠ [] →
  Forall2 (λ t kv, ∃ u, t = memberText ws kv.1 u ∧ reads u kv.2) ts l → closes "}" X rest →
  ∀ n acc, (2 * String.length (joinWith "," ts) + 2 ≤ n)%nat → NoDup (map fst (acc ++ l)) →
  parseMembers numberOf n acc (joinWith "," ts +:+ X) = Some (acc ++ l, rest).
Proof.
  intros Hws Hl Hr [HX HX']. revert ts Hl Hr. induction l as [|[k w] l IH]; [done|]. intros ts _ Hr.
  inversion Hr as [|t ? ts' ? Ht Hts]; subst. destruct Ht as (u & -> & Hu). cbn [fst snd] in *.
  intros [|n] acc Hn Hnd; [lia|].
  assert (k ∉ map fst acc) as Hk.
  { rewrite map_app in Hnd. apply NoDup_app in Hnd as (_ & Hd & _). intros Hin. apply (Hd _ Hin). left. }
  assert (2 * String.length u + 3 ≤ n)%nat as Hlen.
  { destruct ts' as [|t' ts']; cbn [joinWith] in Hn; unfold memberText in Hn; rewrite ?string_length_app in Hn;
      pose proof (f_equal String.length (quoteText_cons k "")) as E; rewrite !string_length_app in E;
      cbn [String.length] in *; lia. }
  destruct l as [|kv l].
  - inversion Hts; subst. cbn [joinWith]. rewrite (parse_member ws k u w) by done. by rewrite HX.
  - inversion Hts as [|t' ? ts'' ? Ht' Hts']; subst. rewrite joinWith_cons in *.
    rewrite !string_length_app in Hn. cbn [String.length] in Hn.
    rewrite !string_app_assoc. rewrite (parse_member ws k u w) by done.
    change ("," +:+ joinWith "," (t' :: ts'') +:+ X) with (String "," (joinWith "," (t' :: ts'') +:+ X)).
    change (skip (String "," ?x)) with (String "," x). cbn iota. change (Ascii.eqb "," ",") with true. cbn iota.
    rewrite (IH (t' :: ts'')); [by rewrite <- app_assoc | done | done | lia | by rewrite <- app_assoc].
Qed.

(** A block that is not empty starts with something else than its bracket. *)
Definition headed (t : string) : Prop := ∃ c r, t = String c r ∧ headOk c = true.

Lemma block_starts ws t ts X :
  str_all isWhite ws = true → headed t →
  ∃ c r, skip (joinWith "," ((ws +:+ t) :: ts) +:+ X) = String c r ∧ Ascii.eqb c "]" = false ∧ Ascii.eqb c "}" = false.
Proof.
  intros Hws (c & r & -> & Hc).
  assert (∃ r', joinWith "," ((ws +:+ String c r) :: ts) +:+ X = ws +:+ String c r') as [r' ->].
  { destruct ts as [|u ts]; [cbn [joinWith]|rewrite joinWith_cons]; rewrite !string_app_assoc; by eexists. }
  exists c, r'. rewrite skip_white, skip_head by done. split; [done|].
  unfold headOk in Hc. rewrite !andb_true_iff, !negb_true_iff in Hc. tauto.
Qed.

Lemma closes_block b ind rest :
  str_all isWhite ind = true → headOk b = false → isWhite b = false → closes b (lineFeed +:+ ind +:+ String b rest) rest.
Proof.
  intros Hi _ Hb. split; [|done].
  change (lineFeed +:+ ind +:+ String b rest) with (String "010" (ind +:+ String b rest)).
  change (skip (String "010" ?x)) with (skip x). rewrite skip_white by done.
  cbn [skip]. unfold isWhite in Hb. by rewrite Hb.
Qed.

Lemma white_line ind : str_all isWhite ind = true → str_all isWhite (lineFeed +:+ ind +:+ "  ") = true.
Proof. intros Hi. rewrite !str_all_app, Hi. done. Qed.
Lemma white_indent ind : str_all isWhite ind = true → str_all isWhite (ind +:+ "  ") = true.
Proof. intros Hi. by rewrite str_all_app, Hi. Qed.

(** The brackets of a block, read by [parseValue]. *)
Lemma parse_open op n s :
  op = "["%char ∨ op = "{"%char →
  parseValue numberOf (S n) (String op s)
  = match skip s with
    | String d r' =>
        if Ascii.eqb op "[" then if Ascii.eqb d "]" then Some (VArr [], r') else '(l, r) ← parseItems numberOf n s; Some (VArr l, r)
        else if Ascii.eqb d "}" then Some (VObj [], r') else '(l, r) ← parseMembers numberOf n [] s; Some (VObj l, r)
    | EmptyString => None
    end.
Proof. intros [-> | ->]; reflexivity. Qed.

Lemma block_cons op cl ind t ts rest :
  block op cl ind (t :: ts) +:+ rest
  = op +:+ joinWith "," (((lineFeed +:+ ind +:+ "  ") +:+ t) :: ((λ t, (lineFeed +:+ ind +:+ "  ") +:+ t) <$> ts)) +:+ lineFeed +:+ ind +:+ cl +:+ rest.
Proof. unfold block. rewrite fmap_cons. generalize (lineFeed +:+ ind +:+ "  "). intros ws. by rewrite !(string_app_assoc _ _ rest). Qed.

Lemma reads_array_block ind l ts :
  str_all isWhite ind = true → Forall headed ts → Forall2 reads ts l → reads (block "[" "]" ind ts) (VArr l).
Proof.
  intros Hi Hh Hr [|n] rest Hn Hs; [lia|]. destruct ts as [|t ts].
  { inversion Hr; subst. reflexivity. }
  rewrite block_cons. unfold block in Hn. rewrite !string_length_app in Hn. cbn [String.length fmap list_fmap] in Hn.
  change ("[" +:+ ?x) with (String "[" x). rewrite parse_open by auto. inversion Hh as [|? ? Ht _]; subst.
  destruct (block_starts (lineFeed +:+ ind +:+ "  ") t ((λ t, (lineFeed +:+ ind +:+ "  ") +:+ t) <$> ts)
    (lineFeed +:+ ind +:+ "]" +:+ rest) (white_line _ Hi) Ht) as (c & r & -> & Hc & _).
  rewrite Hc. change (Ascii.eqb "[" "[") with true. cbn iota.
  rewrite (reads_block_items l _ _ rest); [done| | | |].
  - intros ->. inversion Hr.
  - change (((lineFeed +:+ ind +:+ "  ") +:+ t) :: ?k) with ((λ t, (lineFeed +:+ ind +:+ "  ") +:+ t) <$> t :: ts).
    apply Forall2_fmap_l. eapply Forall2_impl; [exact Hr|]. intros t' w. by apply reads_white, white_line.
  - by apply closes_block.
  - unfold lineFeed in *. lia.
Qed.

Lemma reads_object_block ind (l : list (string * jsval)) ts :
  str_all isWhite ind = true → NoDup (map fst l) →
  Forall2 (λ t kv, ∃ u, t = quoteText kv.1 +:+ ": " +:+ u ∧ reads u kv.2) ts l → reads (block "{" "}" ind ts) (VObj l).
Proof.
  intros Hi Hnd Hr [|n] rest Hn Hs; [lia|]. destruct ts as [|t ts].
  { inversion Hr; subst. reflexivity. }
  rewrite block_cons. unfold block in Hn. rewrite !string_length_app in Hn. cbn [String.length fmap list_fmap] in Hn.
  change ("{" +:+ ?x) with (String "{" x). rewrite parse_open by auto.
  assert (headed t) as Ht.
  { inversion Hr as [|? ? ? ? (u & -> & _) _]; subst. eexists _, _. split; [reflexivity|done]. }
  destruct (block_starts (lineFeed +:+ ind +:+ "  ") t ((λ t, (lineFeed +:+ ind +:+ "  ") +:+ t) <$> ts)
    (lineFeed +:+ ind +:+ "}" +:+ rest) (white_line _ Hi) Ht) as (c & r & -> & _ & Hc).
  rewrite Hc. change (Ascii.eqb "{" "[") with false. cbn iota.
  rewrite (reads_block_members (lineFeed +:+ ind +:+ "  ") l _ _ rest); [done| | | | | |done].
  - by apply white_line.
  - intros ->. inversion Hr.
  - change (((lineFeed +:+ ind +:+ "  ") +:+ t) :: ?k) with ((λ t, (lineFeed +:+ ind +:+ "  ") +:+ t) <$> t :: ts).
    apply Forall2_fmap_l. eapply Forall2_impl; [exact Hr|]. intros t' w (u & -> & Hu). by exists u.
  - by apply closes_block.
  - unfold lineFeed in *. lia.
Qed.

(** ** The round trip *)

(** JSON data, members that are undefined apart. *)
Fixpoint plain (v : jsval) : Prop :=
  match v with
  | VUndefined | VOther _ => False
  | VNum n => isFinite n = true ∧ numOk numberOf n
  | VArr l => Forall id (map plain l)
  | VObj l => NoDup (map fst l) ∧ Forall id (map (λ kv, kv.2 = VUndefined ∨ plain kv.2) l)
  | _ => True
  end.

Lemma plain_arr l : plain (VArr l) ↔ Forall plain l.
Proof. cbn [plain]. by rewrite Forall_map. Qed.
Lemma plain_obj l : plain (VObj l) ↔ NoDup (map fst l) ∧ Forall (λ kv, kv.2 = VUndefined ∨ plain kv.2) l.
Proof. cbn [plain]. by rewrite Forall_map. Qed.

Definition cleanMember (kv : string * jsval) : option (string * jsval) :=
  match kv.2 with VUndefined => None | _ => Some (kv.1, clean kv.2) end.
Definition memberOf (ind : string) (kv : string * jsval) : option string :=
  (λ t, quoteText kv.1 +:+ ": " +:+ t) <$> jsonText (ind +:+ "  ") kv.2.

Lemma clean_obj l : clean (VObj l) = VObj (omap cleanMember l).
Proof. cbn [clean]. f_equal. induction l as [|[k v] l IH]; [done|]. cbn. rewrite IH. unfold cleanMember. cbn. by destruct v. Qed.
Lemma jsonText_obj ind l : jsonText ind (VObj l) = Some (block "{" "}" ind (omap (memberOf ind) l)).
Proof.
  cbn [jsonText]. do 2 f_equal. induction l as [|[k v] l IH]; [done|]. cbn. rewrite IH. unfold memberOf. cbn.
  by destruct (jsonText _ v).
Qed.

Lemma omap_fst (l : list (string * jsval)) k : k ∈ map fst (omap cleanMember l) → k ∈ map fst l.
Proof.
  intros ([k' v'] & -> & ([j v] & Hin & E)%list_elem_of_omap)%list_elem_of_fmap. apply list_elem_of_fmap. exists (j, v).
  split; [|done]. unfold cleanMember in E. cbn in E. destruct v; by simplify_eq.
Qed.

Lemma json_reads v : plain v → ∀ ind, str_all isWhite ind = true → ∃ t, jsonText ind v = Some t ∧ headed t ∧ reads t (clean v).
Proof.
  induction v as [| |b|n|s|l IH|l IH|tx] using jsval_rec'; intros Hp ind Hi; try done.
  - eexists. split; [done|]. split; [by eexists _, _|]. apply reads_null.
  - eexists. split; [done|]. split; [destruct b; by eexists _, _|]. apply reads_bool.
  - destruct Hp as [Hf Hn]. cbn [jsonText]. rewrite Hf. eexists. split; [done|]. split; [|by apply reads_num].
    destruct (numberText_head _ (proj1 Hn) (proj1 (proj2 Hn))) as (c & r & -> & Hc & _). by eexists _, _.
  - eexists. split; [done|]. split; [by eexists _, _|]. apply reads_text.
  - apply plain_arr in Hp.
    assert (Forall2 (λ t w, headed t ∧ reads t w) (map (λ v, default "null" (jsonText (ind +:+ "  ") v)) l) (map clean l)) as Hl.
    { clear -IH Hp Hi. induction l as [|v l IHl]; [constructor|].
      inversion IH as [|? ? Hv IH']; inversion Hp as [|? ? Hv' Hp']; subst. cbn [map]. constructor; [|by apply IHl].
      destruct (Hv Hv' _ (white_indent _ Hi)) as (t & -> & Hh & Hr). done. }
    eexists. split; [reflexivity|]. split; [by unfold block; case_match; eexists _, _|].
    apply reads_array_block; [done| |].
    + eapply Forall2_Forall_l; [exact Hl|]. apply Forall_forall. by intros ? _ ? [].
    + eapply Forall2_impl; [exact Hl|]. by intros ? ? [].
  - apply plain_obj in Hp as [Hnd Hp]. rewrite jsonText_obj, clean_obj. eexists. split; [reflexivity|].
    split; [by unfold block; case_match; eexists _, _|]. apply reads_object_block; [done|..].
    + clear -Hnd. induction l as [|[k v] l IHl]; [constructor|]. inversion Hnd as [|? ? Hk Hnd']; subst.
      cbn [omap list_omap cleanMember]. unfold cleanMember at 1. cbn. destruct v; try (by apply IHl); cbn; constructor; try (by apply IHl);
        intros Hin; apply Hk; by apply omap_fst.
    + clear Hnd. induction l as [|[k v] l IHl]; [constructor|]. inversion IH as [|? ? Hv IH']; inversion Hp as [|? ? Hv' Hp']; subst.
      cbn [snd] in *. destruct Hv' as [->|Hv']; [by apply IHl|]. destruct (Hv Hv' _ (white_indent _ Hi)) as (t & E & Hh & Hr).
      assert (cleanMember (k, v) = Some (k, clean v)) as Ec by (by destruct v).
      cbn [omap list_omap]. unfold memberOf at 1. cbn [snd fst]. rewrite E, Ec. cbn [fmap option_fmap option_map]. constructor; [|by apply IHl].
      by exists t.
Qed.

Lemma json_roundtrip v t tail :
  plain v → jsonText "" v = Some t → str_all isWhite tail = true → JSON_parse numberOf (t +:+ tail) = Some (clean v).
Proof.
  intros Hp Ht Htail. destruct (json_reads v Hp "" eq_refl) as (t' & E & _ & Hr). rewrite Ht in E. injection E as <-.
  unfold JSON_parse. rewrite Hr.
  - rewrite <- (string_app_nil_r tail), skip_white by done. done.
  - rewrite string_length_app. lia.
  - destruct tail as [|c r]; [done|]. cbn [str_all] in Htail. apply andb_true_iff in Htail as [Hc _].
    revert Hc. by destruct c as [[] [] [] [] [] [] [] []].
Qed.
End reading.
