(* ===== verification/AgentState.v ===== *)
(** * The agent's state file

    [apps/agent/src/state.ts]: what [.agent-state.json] holds, its schema, the
    text it is written as and how that is read. zod is a parameter; what the
    code relies on is the documented meaning of the combinators it uses. *)

From S2P Require Import Prelude.
From S2P Require Import Js.
From S2P Require Import Decimal.
From S2P Require Import CreJson.
From S2P Require Import CreParse.
From S2P Require Import JsonText.
From S2P Require Import Abi.
From S2P Require Import AgentKit.

(** ** Schemas *)

Inductive schema : Type :=
| ZString (regex : string → bool)
| ZInt                                    (* z.number().int() *)
| ZLiteral (n : Z)
| ZEnum (keys : list string)
| ZArray (item : schema)
| ZObject (fields : list (string * schema))
| ZOptional (inner : schema).

(** The value of an own property. *)
Definition own (k : string) (l : list (string * jsval)) : option jsval := snd <$> List.find (λ kv, bool_decide (kv.1 = k)) l.

(** What zod documents: the value validated, unknown members stripped. An
    absent member is fine where its schema takes undefined. *)
Fixpoint conform (s : schema) (v : jsval) : option jsval :=
  match s with
  | ZString regex => match v with VStr t => if regex t then Some v else None | _ => None end
  | ZInt => match safeInteger v with Some _ => Some v | None => None end
  | ZLiteral n => match v with VNum (JInt m) => if m =? n then Some v else None | _ => None end
  | ZEnum keys => match v with VStr t => if bool_decide (t ∈ keys) then Some v else None | _ => None end
  | ZArray item => match v with VArr l => VArr <$> mapM (conform item) l | _ => None end
  | ZObject fields =>
      match v with
      | VObj l =>
          (λ ms, VObj (omap (λ o, o) ms)) <$>
            mapM (λ o, o) (map (λ '(k, s), match own k l with
                                           | Some v => (λ w, Some (k, w)) <$> conform s v
                                           | None => match s with ZOptional _ => Some None | _ => None end
                                           end) fields)
      | _ => None
      end
  | ZOptional inner => match v with VUndefined => Some VUndefined | _ => conform inner v end
  end.

Class Zod : Type := { zodParse : schema → jsval → option jsval }.
Class ZodLaws `{Zod} : Prop := { zod_conform s v : zodParse s v = conform s v }.

Definition hex : schema := ZString (λ t, startsWith "0x" t && str_all is_hex (str_drop 2 t)).
Definition address : schema := ZString (isHexBytes 20).
Definition privateKey : schema := ZString (isHexBytes 32).
Definition isDigits (t : string) : bool := negb (bool_decide (t = "")) && str_all is_digit t.
Definition bigintString : schema := ZString isDigits.

Definition grantSchema : schema :=
  ZObject [("allow", ZArray (ZObject [("target", address); ("selectors", ZOptional (ZArray hex))]));
           ("erc20Budget", ZOptional (ZArray (ZObject [("token", address); ("limit", bigintString); ("refreshIntervalSeconds", ZInt)])));
           ("gasBudget", ZOptional (ZObject [("limit", bigintString); ("refreshIntervalSeconds", ZInt)]));
           ("validUntil", ZInt)].
Definition chainKeys : list string := ["LOCAL"; "ARC-TESTNET"; "AVAX-FUJI"; "ARB-SEPOLIA"; "BASE-SEPOLIA"; "ARC"; "AVAX"].
Definition chainKey : schema := ZEnum chainKeys.
Definition agentSchema : schema := ZObject [("address", address); ("sessionKey", address); ("grant", grantSchema)].
Definition deploymentSchema : schema :=
  ZObject [("chain", chainKey); ("treasury", address); ("conduit", address);
           ("owners", ZArray (ZObject [("address", address); ("weight", bigintString)]));
           ("thresholdWeight", bigintString); ("allowlist", ZArray address); ("agent", ZOptional agentSchema)].
Definition stateSchema : schema :=
  ZObject [("version", ZLiteral 1); ("sessionPrivateKey", ZOptional privateKey); ("deployments", ZArray deploymentSchema)].

(** ** The state *)

Record StoredAgent : Type := { sa_address : string; sa_sessionKey : string; sa_grant : AgentGrant }.
Record StoredDeployment : Type := {
  dp_chain : string; dp_treasury : string; dp_conduit : string; dp_owners : list TreasuryOwner; dp_threshold : Z;
  dp_allowlist : list string; dp_agent : option StoredAgent }.
Record AgentState : Type := { sessionPrivateKey : option string; deployments : list StoredDeployment }.
#[global] Instance eta_agentState : Eta AgentState :=
  λ s, {| sessionPrivateKey := sessionPrivateKey s; deployments := deployments s |}.
Definition emptyState : AgentState := {| sessionPrivateKey := None; deployments := [] |}.

(** ** To JSON *)

Definition vopt {A} (f : A → jsval) (o : option A) : jsval := match o with Some a => f a | None => VUndefined end.
Definition vlist {A} (f : A → jsval) (l : list A) : jsval := VArr (map f l).
Definition vint (z : Z) : jsval := VNum (JInt z).
Definition vbig (z : Z) : jsval := VStr (pretty z).

Definition allowToJson (a : string * option (list string)) : jsval :=
  VObj [("target", VStr a.1); ("selectors", vopt (vlist VStr) a.2)].
Definition budgetToJson (tb : string * Budget) : jsval :=
  VObj [("token", VStr tb.1); ("limit", vbig (bu_limit tb.2)); ("refreshIntervalSeconds", vint (bu_refresh tb.2))].
Definition gasToJson (b : Budget) : jsval := VObj [("limit", vbig (bu_limit b)); ("refreshIntervalSeconds", vint (bu_refresh b))].
Definition grantToJson (g : AgentGrant) : jsval :=
  VObj [("allow", vlist allowToJson (ag_allow g)); ("erc20Budget", vopt (vlist budgetToJson) (ag_erc20 g));
        ("gasBudget", vopt gasToJson (ag_gas g)); ("validUntil", vint (ag_validUntil g))].
Definition ownerToJson (o : TreasuryOwner) : jsval := VObj [("address", VStr (ow_address o)); ("weight", vbig (ow_weight o))].
Definition agentToJson (a : StoredAgent) : jsval :=
  VObj [("address", VStr (sa_address a)); ("sessionKey", VStr (sa_sessionKey a)); ("grant", grantToJson (sa_grant a))].
Definition deploymentToJson (d : StoredDeployment) : jsval :=
  VObj [("chain", VStr (dp_chain d)); ("treasury", VStr (dp_treasury d)); ("conduit", VStr (dp_conduit d));
        ("owners", vlist ownerToJson (dp_owners d)); ("thresholdWeight", vbig (dp_threshold d));
        ("allowlist", vlist VStr (dp_allowlist d)); ("agent", vopt agentToJson (dp_agent d))].
Definition stateToJson (s : AgentState) : jsval :=
  VObj [("version", vint 1); ("sessionPrivateKey", vopt VStr (sessionPrivateKey s)); ("deployments", vlist deploymentToJson (deployments s))].

Definition serializeState (s : AgentState) : string := default "undefined" (jsonText "" (stateToJson s)) +:+ lineFeed.

(** ** From JSON *)

(** Readers of values the schema has accepted. *)
Definition textOf (v : jsval) : string := match v with VStr t => t | _ => "" end.
Definition intOf (v : jsval) : Z := match v with VNum (JInt z) => z | _ => 0 end.
Definition bigOf (v : jsval) : Z := dec_value (textOf v).
Definition listOf {A} (f : jsval → A) (v : jsval) : list A := match v with VArr l => map f l | _ => [] end.
Definition optOf {A} (f : jsval → A) (v : jsval) : option A := match v with VUndefined => None | _ => Some (f v) end.

Definition allowFromJson (v : jsval) : string * option (list string) := (textOf (prop "target" v), optOf (listOf textOf) (prop "selectors" v)).
Definition gasFromJson (v : jsval) : Budget := {| bu_limit := bigOf (prop "limit" v); bu_refresh := intOf (prop "refreshIntervalSeconds" v) |}.
Definition budgetFromJson (v : jsval) : string * Budget := (textOf (prop "token" v), gasFromJson v).
Definition grantFromJson (v : jsval) : AgentGrant :=
  {| ag_allow := listOf allowFromJson (prop "allow" v); ag_erc20 := optOf (listOf budgetFromJson) (prop "erc20Budget" v);
     ag_gas := optOf gasFromJson (prop "gasBudget" v); ag_validUntil := intOf (prop "validUntil" v) |}.
Definition ownerFromJson (v : jsval) : TreasuryOwner := {| ow_address := textOf (prop "address" v); ow_weight := bigOf (prop "weight" v) |}.
Definition agentFromJson (v : jsval) : StoredAgent :=
  {| sa_address := textOf (prop "address" v); sa_sessionKey := textOf (prop "sessionKey" v); sa_grant := grantFromJson (prop "grant" v) |}.
Definition deploymentFromJson (v : jsval) : StoredDeployment :=
  {| dp_chain := textOf (prop "chain" v); dp_treasury := textOf (prop "treasury" v); dp_conduit := textOf (prop "conduit" v);
     dp_owners := listOf ownerFromJson (prop "owners" v); dp_threshold := bigOf (prop "thresholdWeight" v);
     dp_allowlist := listOf textOf (prop "allowlist" v); dp_agent := optOf agentFromJson (prop "agent" v) |}.
Definition stateFromJson (v : jsval) : AgentState :=
  {| sessionPrivateKey := optOf textOf (prop "sessionPrivateKey" v); deployments := listOf deploymentFromJson (prop "deployments" v) |}.

Inductive state_error : Type := NotJson | NotTheSchema | ReadFailed (code : string).

(** [readFile]: the text, or the code of the error. *)
Inductive file_read : Type := FileText (text : string) | FileError (code : string).

Section file.
Context (numberOf : string → jsnum) `{Zod}.

Definition parseState (text : string) : result state_error AgentState :=
  match JSON_parse numberOf text with
  | None => Throw NotJson
  | Some v => match zodParse stateSchema v with None => Throw NotTheSchema | Some raw => mret (stateFromJson raw) end
  end.

Definition loadState (file : file_read) : result state_error AgentState :=
  match file with
  | FileText text => parseState text
  | FileError code => if bool_decide (code = "ENOENT") then mret emptyState else Throw (ReadFailed code)
  end.
(** [saveState]: what the file holds next. *)
Definition saveState (s : AgentState) : file_read := FileText (serializeState s).
End file.

Definition upsertDeployment (s : AgentState) (d : StoredDeployment) : AgentState :=
  s <| deployments := filter (λ x, dp_chain x ≠ dp_chain d) (deployments s) ++ [d] |>.
Definition findDeployment (s : AgentState) (chain : string) : option StoredDeployment :=
  List.find (λ d, bool_decide (dp_chain d = chain)) (deployments s).
