(* ===== verification/AgentFile.v ===== *)
(** * The agent's state file: what holds

    Schemas as codecs: what is written for a value conforms to its schema and
    reads back as the value, and whatever conforms reads as a value in range. *)

From S2P Require Import Prelude.
From S2P Require Import Js.
From S2P Require Import Decimal.
From S2P Require Import CreJson.
From S2P Require Import CreParse.
From S2P Require Import JsonText.
From S2P Require Import Abi.
From S2P Require Import AgentKit.
From S2P Require Import AgentState.

(** ** Values in range *)

Definition optP {A} (P : A → Prop) (o : option A) : Prop := match o with Some a => P a | None => True end.
Definition hexText (t : string) : Prop := startsWith "0x" t && str_all is_hex (str_drop 2 t) = true.
Definition addressText (t : string) : Prop := isHexBytes 20 t = true.
Definition safe (z : Z) : Prop := Z.abs z ≤ MAX_SAFE_INTEGER.
Definition budgetOk (b : Budget) : Prop := 0 ≤ bu_limit b ∧ safe (bu_refresh b).
Definition allowOk (a : string * option (list string)) : Prop := addressText a.1 ∧ optP (Forall hexText) a.2.
Definition tokenBudgetOk (tb : string * Budget) : Prop := addressText tb.1 ∧ budgetOk tb.2.
Definition grantOk (g : AgentGrant) : Prop :=
  Forall allowOk (ag_allow g) ∧ optP (Forall tokenBudgetOk) (ag_erc20 g) ∧ optP budgetOk (ag_gas g) ∧ safe (ag_validUntil g).
Definition ownerOk (o : TreasuryOwner) : Prop := addressText (ow_address o) ∧ 0 ≤ ow_weight o.
Definition agentOk (a : StoredAgent) : Prop := addressText (sa_address a) ∧ addressText (sa_sessionKey a) ∧ grantOk (sa_grant a).
Definition deploymentOk (d : StoredDeployment) : Prop :=
  dp_chain d ∈ chainKeys ∧ addressText (dp_treasury d) ∧ addressText (dp_conduit d) ∧ Forall ownerOk (dp_owners d) ∧
  0 ≤ dp_threshold d ∧ Forall addressText (dp_allowlist d) ∧ optP agentOk (dp_agent d).
Definition stateOk (s : AgentState) : Prop :=
  optP (λ k, isHexBytes 32 k = true) (sessionPrivateKey s) ∧ Forall deploymentOk (deployments s).

Section codecs.
Context (numberOf : string → jsnum).
Notation plain := (plain numberOf).

(** ** Objects *)

Lemma clean_undefined v : clean v = VUndefined → v = VUndefined.
Proof. by destruct v. Qed.

(** A member fits its field. *)
Record fits (s : schema) (v : jsval) : Prop := {
  fits_plain : v = VUndefined ∨ plain v;
  fits_conform : conform s (clean v) = Some (clean v);
  fits_undefined : v = VUndefined → ∃ i, s = ZOptional i }.

Lemma own_clean k l : NoDup (map fst l) → own k (omap cleanMember l) = match entry k l with VUndefined => None | v => Some (clean v) end.
Proof.
  unfold own. induction l as [|[k' v] l IH]; intros Hnd; [done|]. inversion Hnd as [|? ? Hk Hnd']; subst. specialize (IH Hnd').
  cbn [omap list_omap entry]. unfold cleanMember at 1. cbn [snd fst].
  destruct (decide (k' = k)) as [->|Hne].
  - destruct v; cbn [List.find fst]; rewrite ?bool_decide_true by done; try done.
    destruct (List.find _ _) as [x|] eqn:Hx; [|done]. apply List.find_some in Hx as [Hin Hxk%bool_decide_eq_true].
    destruct Hk. apply omap_fst. apply list_elem_of_In in Hin. subst k. by apply (list_elem_of_fmap_2 fst).
  - destruct v; cbn [List.find fst]; rewrite ?bool_decide_false by done; done.
Qed.

Lemma prop_own k l : prop k (VObj l) = default VUndefined (own k l).
Proof.
  unfold own. cbn [prop]. induction l as [|[k' v] l IH]; [done|]. cbn [entry List.find fst].
  destruct (decide (k' = k)); [by rewrite bool_decide_true|by rewrite bool_decide_false].
Qed.
Lemma prop_clean k l : NoDup (map fst l) → prop k (clean (VObj l)) = clean (entry k l).
Proof. intros Hnd. rewrite clean_obj, prop_own, own_clean by done. by destruct (entry k l). Qed.

(** One field of an object. *)
Definition fieldOf (l : list (string * jsval)) (ks : string * schema) : option (option (string * jsval)) :=
  match own ks.1 l with
  | Some v => (λ w, Some (ks.1, w)) <$> conform ks.2 v
  | None => match ks.2 with ZOptional _ => Some None | _ => None end
  end.
Lemma conform_object fields l : conform (ZObject fields) (VObj l) = (λ ms, VObj (omap (λ o, o) ms)) <$> mapM (fieldOf l) fields.
Proof.
  cbn [conform]. f_equal. induction fields as [|[k s] fields IH]; [done|]. cbn [map mapM]. rewrite IH. done.
Qed.

Lemma entry_lookup k v (l : list (string * jsval)) : NoDup (map fst l) → (k, v) ∈ l → entry k l = v.
Proof.
  induction l as [|[k' v'] l IH]; intros Hnd; [by intros ?%not_elem_of_nil|]. inversion Hnd as [|? ? Hk Hnd']; subst.
  intros [[= -> ->]|Hin]%elem_of_cons; cbn [entry]; [by rewrite decide_True|].
  rewrite decide_False; [by apply IH|]. intros ->. apply Hk. by apply (list_elem_of_fmap_2 fst _ (k, v)).
Qed.

Lemma object_conform fields l :
  NoDup (map fst l) → Forall2 (λ ks kv, ks.1 = kv.1 ∧ fits ks.2 kv.2) fields l →
  conform (ZObject fields) (clean (VObj l)) = Some (clean (VObj l)).
Proof.
  intros Hnd Hf. rewrite clean_obj, conform_object.
  enough (mapM (fieldOf (omap cleanMember l)) fields = Some (cleanMember <$> l)) as ->.
  { cbn. do 2 f_equal. clear. induction l as [|kv l IH]; [done|]. cbn. destruct (cleanMember kv); by rewrite IH. }
  apply mapM_Some.
  assert (∀ kv, kv ∈ l → own kv.1 (omap cleanMember l) = match kv.2 with VUndefined => None | v => Some (clean v) end) as H.
  { intros [k v] Hin. cbn [fst snd]. by rewrite own_clean, (entry_lookup k v l) by done. }
  revert H. generalize (omap cleanMember l). intros m H. clear Hnd.
  induction Hf as [|[k s] [k' v] fields l [E [Hp Hc Hu]] Hf IH]; [constructor|]. cbn [fst snd] in *. subst k'.
  cbn [fmap list_fmap]. constructor; [|apply IH; intros kv Hin; apply H; by right].
  pose proof (H (k, v) (list_elem_of_here _ _)) as Hk. unfold fieldOf, cleanMember. cbn [fst snd] in *. rewrite Hk.
  destruct v; try (by rewrite Hc). by destruct (Hu eq_refl) as [i ->].
Qed.

Lemma object_plain fields l :
  NoDup (map fst l) → Forall2 (λ ks kv, ks.1 = kv.1 ∧ fits ks.2 kv.2) fields l → plain (VObj l).
Proof.
  intros Hnd Hf. apply plain_obj. split; [done|]. clear Hnd. induction Hf as [|ks kv fields l [_ [Hp _ _]] _ IH]; by constructor.
Qed.

(** What a field of a validated object is. *)
Lemma object_back fields v w :
  NoDup (map fst fields) → conform (ZObject fields) v = Some w →
  Forall (λ ks, ∃ u, conform ks.2 u = Some (prop ks.1 w)) fields.
Proof.
  intros Hnd. destruct v as [| | | | | |l|]; try done. rewrite conform_object.
  destruct (mapM (fieldOf l) fields) as [ms|] eqn:Hms; [|done]. intros [= <-]. apply mapM_Some in Hms.
  assert (∀ ks o, fieldOf l ks = Some o → (o = None ∧ ∃ i, ks.2 = ZOptional i) ∨ ∃ w u, o = Some (ks.1, w) ∧ conform ks.2 u = Some w) as Hone.
  { intros [k s] o. unfold fieldOf. cbn [fst snd]. destruct (own k l) as [u|].
    - destruct (conform s u) as [w|] eqn:E; [|done]. intros [= <-]. right. by exists w, u.
    - destruct s; try done. intros [= <-]. left. split; [done|by eexists]. }
  assert (∀ k ms fields, Forall2 (λ ks o, fieldOf l ks = Some o) fields ms → k ∉ map fst fields →
            own k (omap (λ o, o) ms) = None) as Hnone.
  { clear -Hone. intros k ms fields Hf. induction Hf as [|ks o fields ms Ho Hf IH]; [done|]. cbn [map]. intros [Hk Hn]%not_elem_of_cons.
    specialize (IH Hn). destruct (Hone _ _ Ho) as [[-> _]|(w & u & -> & _)]; [done|]. unfold own in *. cbn.
    rewrite bool_decide_false by done. done. }
  induction Hms as [|ks o fields ms Ho Hf IH]; [constructor|]. cbn [map] in Hnd. inversion Hnd as [|? ? Hk Hnd']; subst.
  constructor.
  - rewrite prop_own. destruct (Hone _ _ Ho) as [[-> [i Hi]]|(w & u & -> & E)].
    + cbn [omap list_omap]. rewrite (Hnone _ _ _ Hf Hk), Hi. by exists VUndefined.
    + exists u. unfold own. cbn. by rewrite bool_decide_true.
  - specialize (IH Hnd'). rewrite Forall_forall in IH |- *. intros ks' Hin. destruct (IH ks' Hin) as [u' Hu]. exists u'. rewrite Hu. f_equal.
    assert (ks.1 ≠ ks'.1) as Hne by (intros E; apply Hk; rewrite E; by apply list_elem_of_fmap_2).
    rewrite !prop_own. destruct (Hone _ _ Ho) as [[-> _]|(w & u & -> & _)]; [done|]. unfold own. cbn. by rewrite bool_decide_false.
Qed.
(** ** Codecs *)

(** What [f] writes fits the schema and is what [g] reads; what the schema
    accepts, [g] reads as a value that is [ok]. *)
Record codec {A} (s : schema) (f : A → jsval) (g : jsval → A) (ok : A → Prop) : Prop := {
  cd_fits a : ok a → fits s (f a);
  cd_read a : ok a → g (clean (f a)) = a;
  cd_back v w : conform s v = Some w → ok (g w) }.

Definition present {A} (f : A → jsval) : Prop := ∀ a, f a ≠ VUndefined.

Lemma codec_text regex : codec (ZString regex) VStr textOf (λ t, regex t = true).
Proof.
  split; [|done|].
  - intros t Ht. split; [by right| |done]. cbn. by rewrite Ht.
  - intros v w. destruct v; try done. cbn [conform]. case_match; [|done]. by intros [= <-].
Qed.
Lemma codec_enum keys : codec (ZEnum keys) VStr textOf (λ t, t ∈ keys).
Proof.
  split; [|done|].
  - intros t Ht. split; [by right| |done]. cbn. by rewrite bool_decide_true.
  - intros v w. destruct v; try done. cbn [conform]. destruct (bool_decide _) eqn:E; [|done]. apply bool_decide_eq_true in E. by intros [= <-].
Qed.
Lemma codec_int : codec ZInt vint intOf safe.
Proof.
  split; [|done|].
  - intros z Hz. unfold safe in Hz. split; [right; split; [done|by apply safe_numOk]| |done]. cbn. by rewrite (proj2 (Z.leb_le _ _) Hz).
  - intros v w. destruct v as [| | |[z|]| | | |]; try done. cbn. destruct (Z.leb_spec (Z.abs z) MAX_SAFE_INTEGER); [|done]. by intros [= <-].
Qed.

Lemma pretty_isDigits z : 0 ≤ z → isDigits (pretty z) = true ∧ dec_value (pretty z) = z.
Proof.
  intros Hz. split; [|by apply dec_value_pretty]. unfold isDigits. rewrite (pretty_digits z Hz), andb_true_r.
  by rewrite bool_decide_false by apply pretty_nonempty.
Qed.
Lemma codec_big : codec bigintString vbig bigOf (λ z, 0 ≤ z).
Proof.
  split.
  - intros z Hz. split; [by right| |done]. cbn. by rewrite (proj1 (pretty_isDigits z Hz)).
  - intros z Hz. by apply pretty_isDigits.
  - intros v w. destruct v; try done. cbn [conform bigintString]. destruct (isDigits s) eqn:E; [|done].
    intros [= <-]. apply andb_true_iff in E as [_ E]. apply (dec_value_bound s E).
Qed.

Lemma codec_list {A} s (f : A → jsval) g ok : codec s f g ok → present f → codec (ZArray s) (vlist f) (listOf g) (Forall ok).
Proof.
  intros [Cf Cr Cb] Hf. split.
  - intros l Hl. split; [right|..|done].
    + apply plain_arr. apply Forall_map. eapply Forall_impl; [exact Hl|]. intros a Ha.
      destruct (fits_plain _ _ (Cf a Ha)) as [E|]; [by destruct (Hf a)|done].
    + cbn. enough (mapM (conform s) (map clean (map f l)) = Some (map clean (map f l))) as -> by done.
      apply mapM_Some. induction Hl as [|a l Ha _ IH]; [constructor|]. constructor; [|done]. apply (fits_conform _ _ (Cf a Ha)).
  - intros l Hl. cbn. induction Hl as [|a l Ha _ IH]; [done|]. cbn [map]. by rewrite Cr, IH.
  - intros v w. destruct v as [| | | | |vs| |]; try done. cbn [conform]. destruct (mapM (conform s) vs) as [ws|] eqn:E; [|done].
    intros [= <-]. apply mapM_Some in E. cbn. apply Forall_map. induction E as [|v w vs ws E _ IH]; [constructor|].
    constructor; [by eapply Cb|done].
Qed.
Lemma codec_opt {A} s (f : A → jsval) g ok : codec s f g ok → present f → codec (ZOptional s) (vopt f) (optOf g) (optP ok).
Proof.
  intros [Cf Cr Cb] Hf. split.
  - intros [a|] Ha; cbn in *; [|split; [by left|done|by eexists]]. destruct (Cf a Ha) as [F1 F2 F3].
    split; [done| |intros E; by destruct (Hf a)]. cbn [conform]. rewrite F2. by destruct (clean (f a)).
  - intros [a|] Ha; cbn in *; [|done]. unfold optOf. specialize (Cr a Ha). pose proof (clean_undefined (f a)) as Hu.
    destruct (clean (f a)); try (by rewrite Cr). by destruct (Hf a (Hu eq_refl)).
  - intros v w Hv. unfold optOf. destruct w; try done; apply (Cb v); destruct v; try done; exact Hv.
Qed.

(** ** The objects of the file *)

Lemma object_fits fields l :
  NoDup (map fst l) → Forall2 (λ ks kv, ks.1 = kv.1 ∧ fits ks.2 kv.2) fields l → fits (ZObject fields) (VObj l).
Proof. intros Hnd Hf. split; [right; by eapply object_plain|by apply object_conform|done]. Qed.

Lemma present_obj {A} (f : A → list (string * jsval)) : present (λ a, VObj (f a)).
Proof. done. Qed.

Lemma codec_hex : codec hex VStr textOf hexText.
Proof. apply codec_text. Qed.
Lemma codec_address : codec address VStr textOf addressText.
Proof. apply codec_text. Qed.
Lemma codec_key : codec privateKey VStr textOf (λ k, isHexBytes 32 k = true).
Proof. apply codec_text. Qed.
Lemma codec_chain : codec chainKey VStr textOf (λ k, k ∈ chainKeys).
Proof. apply codec_enum. Qed.
Lemma codec_version : fits (ZLiteral 1) (vint 1).
Proof. split; [right; split; [done|by apply safe_numOk]|done..]. Qed.

Lemma entry_here k v l : entry k ((k, v) :: l) = v.
Proof. cbn [entry]. by rewrite decide_True. Qed.
Lemma entry_there k k' v l : bool_decide (k' = k) = false → entry k ((k', v) :: l) = entry k l.
Proof. intros E%bool_decide_eq_false. cbn [entry]. by rewrite decide_False. Qed.

Create HintDb codec.
#[local] Hint Resolve codec_hex codec_address codec_key codec_chain codec_int codec_big codec_list codec_opt : codec.
#[local] Hint Extern 1 (present _) => (intros ?; discriminate) : codec.

(** The codec of an object from those of its fields: each field written fits,
    each field read is the one written, each field accepted reads well. *)
Ltac fields := repeat (apply Forall2_cons; split; [split; [reflexivity|]|]); [..|by apply Forall2_nil]; cbn [snd fst].
Ltac keys := apply (bool_decide_unpack _); vm_compute; reflexivity.
Ltac one_fits := eapply cd_fits; [solve [eauto with codec]|first [assumption|tauto]].
Ltac one_read := solve [eapply cd_read; [typeclasses eauto with codec|first [assumption|tauto]]].
Ltac read_fields := rewrite !prop_clean by keys; repeat first [rewrite entry_here|rewrite entry_there by reflexivity].
Ltac back_fields H :=
  apply object_back in H; [|keys]; rewrite !Forall_cons in H; cbn [fst snd] in H; decompose [and ex] H; clear H;
  repeat match goal with E : conform _ _ = Some _ |- _ => eapply cd_back in E; [|solve [eauto with codec]] end.

Lemma codec_allow :
  codec (ZObject [("target", address); ("selectors", ZOptional (ZArray hex))]) allowToJson allowFromJson allowOk.
Proof.
  split.
  - intros a [H1 H2]. apply object_fits; [keys|]. fields; one_fits.
  - intros [t ss] [H1 H2]. unfold allowFromJson, allowToJson. read_fields. f_equal; one_read.
  - intros v w Hw. back_fields Hw. by split.
Qed.
Lemma codec_gas : codec (ZObject [("limit", bigintString); ("refreshIntervalSeconds", ZInt)]) gasToJson gasFromJson budgetOk.
Proof.
  split.
  - intros b [H1 H2]. apply object_fits; [keys|]. fields; one_fits.
  - intros [b r] [H1 H2]. unfold gasFromJson, gasToJson. read_fields. f_equal; one_read.
  - intros v w Hw. back_fields Hw. by split.
Qed.
Lemma codec_budget :
  codec (ZObject [("token", address); ("limit", bigintString); ("refreshIntervalSeconds", ZInt)]) budgetToJson budgetFromJson tokenBudgetOk.
Proof.
  split.
  - intros b (H1 & H2 & H3). apply object_fits; [keys|]. fields; one_fits.
  - intros [t [b r]] (H1 & H2 & H3). unfold budgetFromJson, gasFromJson, budgetToJson. read_fields. do 2 f_equal; one_read.
  - intros v w Hw. back_fields Hw. by split_and!.
Qed.
#[local] Hint Resolve codec_allow codec_gas codec_budget : codec.

Lemma codec_grant : codec grantSchema grantToJson grantFromJson grantOk.
Proof.
  split.
  - intros g (H1 & H2 & H3 & H4). apply object_fits; [keys|]. fields; one_fits.
  - intros [al er ga va] (H1 & H2 & H3 & H4). unfold grantFromJson, grantToJson. read_fields. f_equal; one_read.
  - intros v w Hw. unfold grantSchema in Hw. back_fields Hw. by split_and!.
Qed.
Lemma codec_owner : codec (ZObject [("address", address); ("weight", bigintString)]) ownerToJson ownerFromJson ownerOk.
Proof.
  split.
  - intros o [H1 H2]. apply object_fits; [keys|]. fields; one_fits.
  - intros [a w] [H1 H2]. unfold ownerFromJson, ownerToJson. read_fields. f_equal; one_read.
  - intros v w Hw. back_fields Hw. by split.
Qed.
#[local] Hint Resolve codec_grant codec_owner : codec.

Lemma codec_agent : codec agentSchema agentToJson agentFromJson agentOk.
Proof.
  split.
  - intros a (H1 & H2 & H3). apply object_fits; [keys|]. fields; one_fits.
  - intros [a k g] (H1 & H2 & H3). unfold agentFromJson, agentToJson. read_fields. f_equal; one_read.
  - intros v w Hw. unfold agentSchema in Hw. back_fields Hw. by split_and!.
Qed.
#[local] Hint Resolve codec_agent : codec.

Lemma codec_deployment : codec deploymentSchema deploymentToJson deploymentFromJson deploymentOk.
Proof.
  split.
  - intros d (H1 & H2 & H3 & H4 & H5 & H6 & H7). apply object_fits; [keys|]. fields; one_fits.
  - intros [c t co ow th al ag] (H1 & H2 & H3 & H4 & H5 & H6 & H7). unfold deploymentFromJson, deploymentToJson. read_fields. f_equal; one_read.
  - intros v w Hw. unfold deploymentSchema in Hw. back_fields Hw. by split_and!.
Qed.
#[local] Hint Resolve codec_deployment : codec.

Lemma codec_state : codec stateSchema stateToJson stateFromJson stateOk.
Proof.
  split.
  - intros s [H1 H2]. apply object_fits; [keys|]. fields; first [apply codec_version|one_fits].
  - intros [k ds] [H1 H2]. unfold stateFromJson, stateToJson. read_fields. f_equal; one_read.
  - intros v w Hw. unfold stateSchema in Hw. apply object_back in Hw; [|keys]. rewrite !Forall_cons in Hw. cbn [fst snd] in Hw.
    destruct Hw as (_ & [? Hk] & [? Hd] & _). split; [by apply (cd_back _ _ _ _ (codec_opt _ _ _ _ codec_key ltac:(done)) _ _ Hk)|].
    by apply (cd_back _ _ _ _ (codec_list _ _ _ _ codec_deployment ltac:(done)) _ _ Hd).
Qed.
End codecs.

(** The codec of an object from those of its fields. *)
Ltac codec_object cs :=
  split;
  [ intros a Ha; apply object_fits; [apply (bool_decide_unpack _); vm_compute; reflexivity|];
    repeat (apply Forall2_cons; split; [split; [reflexivity|]|]); [..|by apply Forall2_nil]; cbn [snd fst];
    first [eapply cs | idtac]
  | intros a Ha
  | intros v w Hw; apply object_back in Hw; [|apply (bool_decide_unpack _); vm_compute; reflexivity];
    rewrite !Forall_cons in Hw; cbn [fst snd] in Hw ].

(** ** The round trip of the file *)

Section file.
Context (numberOf : string → jsnum) `{ZodLaws}.

Lemma parse_serialize s : stateOk s → parseState numberOf (serializeState s) = Ok s.
Proof.
  intros Hs. destruct (cd_fits numberOf _ _ _ _ (codec_state numberOf) s Hs) as [Hp Hc _].
  destruct Hp as [?|Hp]; [done|]. destruct (json_reads numberOf _ Hp "" eq_refl) as (t & Ht & _ & _).
  unfold parseState, serializeState. rewrite Ht. change (default "undefined" (Some t)) with t.
  rewrite (json_roundtrip numberOf _ t lineFeed Hp Ht eq_refl), zod_conform, Hc. cbn. f_equal.
  by apply (cd_read numberOf _ _ _ _ (codec_state numberOf)).
Qed.

Lemma parsed_ok text s : parseState numberOf text = Ok s → stateOk s.
Proof.
  unfold parseState. destruct (JSON_parse numberOf text) as [v|]; [|done]. rewrite zod_conform.
  destruct (conform stateSchema v) as [w|] eqn:E; [|done]. intros [= <-]. by apply (cd_back numberOf _ _ _ _ (codec_state numberOf) v).
Qed.

(** C26: the state file. A state in range reads back from what is written for
    it, all of it: the session key, every deployment, its owners, weights and
    grants. And a text that is read at all holds such a state: addresses and
    keys of the right length, weights and limits not negative, known chains; so
    writing what was read and reading again changes nothing. *)
Theorem state_file_roundtrip s :
  (stateOk s → parseState numberOf (serializeState s) = Ok s) ∧
  (∀ text, parseState numberOf text = Ok s → stateOk s ∧ parseState numberOf (serializeState s) = Ok s).
Proof. split; [apply parse_serialize|]. intros text Hs%parsed_ok. split; [done|by apply parse_serialize]. Qed.
End file.

(** ** A zod, and a state *)

#[global] Instance sample_zod : Zod := {| zodParse := conform |}.
#[global] Instance sample_zod_laws : ZodLaws.
Proof. done. Qed.

Definition sample_address (c : string) : string := "0x00000000000000000000000000000000000000" +:+ c.
Definition sample_grant : AgentGrant :=
  {| ag_allow := [(sample_address "c1", Some ["0x12345678"]); (sample_address "c2", None)];
     ag_erc20 := Some [(sample_address "d1", {| bu_limit := 10 ^ 20; bu_refresh := 86400 |})]; ag_gas := None; ag_validUntil := 1800000000 |}.
Definition sample_deployment : StoredDeployment :=
  {| dp_chain := "ARC-TESTNET"; dp_treasury := sample_address "a1"; dp_conduit := sample_address "a2";
     dp_owners := [{| ow_address := sample_address "b1"; ow_weight := 1 |}; {| ow_address := sample_address "b2"; ow_weight := 2 ^ 70 |}];
     dp_threshold := 2; dp_allowlist := []; dp_agent := Some {| sa_address := sample_address "e1"; sa_sessionKey := sample_address "e2"; sa_grant := sample_grant |} |}.
Definition sample_state : AgentState :=
  {| sessionPrivateKey := Some ("0x00000000000000000000000000000000000000000000000000000000000000" +:+ "f1"); deployments := [sample_deployment] |}.

Lemma sample_state_ok : stateOk sample_state.
Proof.
  assert (E : is_ok (parseState JNonInt (serializeState sample_state)) = true) by (vm_compute; reflexivity).
  assert (E' : match parseState JNonInt (serializeState sample_state) with Ok s => s | Throw _ => emptyState end = sample_state)
    by (vm_compute; reflexivity).
  destruct (parseState JNonInt (serializeState sample_state)) as [s|] eqn:Hs; [|discriminate E].
  subst s. exact (parsed_ok JNonInt _ _ Hs).
Qed.

Lemma state_file_roundtrip_witness : parseState JNonInt (serializeState sample_state) = Ok sample_state.
Proof. exact (proj1 (state_file_roundtrip JNonInt sample_state) sample_state_ok). Defined.
