(* ===== verification/AgentContext.v ===== *)
(** * The agent's configuration and session context

    [apps/agent/src]: [config.ts], what is read from the environment, and
    [context.ts], the session: the state file at start, the session key, the
    deployments recorded, the chain a call means. The environment is a function;
    the file is what reading it gives; a write is taken to succeed. Trimming and
    upper case are those of ASCII. The kit is the one the context is given. *)

From S2P Require Import Prelude.
From S2P Require Import Js.
From S2P Require Import Float64.
From S2P Require Import CreJson.
From S2P Require Import CreParse.
From S2P Require Import JsonText.
From S2P Require Import Abi.
From S2P Require Import Coordinator.
From S2P Require Import AgentKit.
From S2P Require Import AgentState.
From S2P Require Import AgentFile.

(** ** config.ts *)

Definition env : Type := string → option string.

Record ProviderConfig : Type := { pv_provider : string; pv_key : string; pv_model : string }.
Record AgentProviderConfig : Type := { pc_primary : ProviderConfig; pc_fallback : option ProviderConfig }.
Definition DEFAULT_ANTHROPIC_MODEL : string := "claude-opus-5".
Definition DEFAULT_OPENAI_MODEL : string := "gpt-5.6-sol".

(** [env.NAME?.trim()], when something is left. *)
Definition trimmed (e : env) (name : string) : option string := truthy (trim <$> e name).

Definition loadProviderConfig (e : env) : result string AgentProviderConfig :=
  let override := trimmed e "LLM_MODEL" in
  let openai model k := {| pv_provider := "openai"; pv_key := k; pv_model := model |} in
  match trimmed e "ANTHROPIC_API_KEY", trimmed e "OPENAI_API_KEY" with
  | Some k, o =>
      mret {| pc_primary := {| pv_provider := "anthropic"; pv_key := k; pv_model := default DEFAULT_ANTHROPIC_MODEL override |};
              pc_fallback := openai DEFAULT_OPENAI_MODEL <$> o |}
  | None, Some k => mret {| pc_primary := openai (default DEFAULT_OPENAI_MODEL override) k; pc_fallback := None |}
  | None, None => Throw "No LLM provider key found. Set ANTHROPIC_API_KEY (preferred) or OPENAI_API_KEY in apps/agent/.env."
  end.

Definition CHAIN_KEYS : list string := ["LOCAL"; "ARC-TESTNET"; "AVAX-FUJI"; "ARB-SEPOLIA"; "BASE-SEPOLIA"; "ARC"; "AVAX"].
Definition ANVIL_OWNER_3 : string := "0x7c852118294e51e653712a81e05800f419141751be58f605c371e15141b007a6".
Definition ANVIL_OWNER_4 : string := "0x47e179ec197488593b187f80a00eb0da91f1b9d0b13f8733639f19c30a34926a".

Definition upper_char (c : ascii) : ascii := if is_lower c then Ascii.ascii_of_nat (Ascii.nat_of_ascii c - 32) else c.
Fixpoint toUpperCase (s : string) : string :=
  match s with EmptyString => EmptyString | String c s => String (upper_char c) (toUpperCase s) end.

Definition nonempty (l : list string) : list string := filter (λ s, s ≠ "") l.

Definition parseChains (raw : option string) : result string (list string) :=
  let keys := nonempty ((λ s, toUpperCase (trim s)) <$> splitComma (default "LOCAL" raw)) in
  let bad := filter (λ k, k ∉ CHAIN_KEYS) keys in
  _ ← throw_if (negb (bool_decide (bad = [])))
        ("AGENT_CHAINS has unknown chain(s) " +:+ joinWith ", " bad +:+ "; known: " +:+ joinWith ", " CHAIN_KEYS);
  _ ← throw_if (bool_decide (keys = [])) "AGENT_CHAINS is empty";
  mret (js_set keys).

Definition parseOwnerKeys (raw : option string) (chains : list string) : result string (list string) :=
  let listed := nonempty (trim <$> splitComma (default "" raw)) in
  if bool_decide (listed = []) then
    _ ← throw_if (negb (forallb (λ c, bool_decide (c = "LOCAL")) chains))
          "TREASURY_OWNER_KEYS is required for non-LOCAL chains (two funded private keys, comma-separated)";
    mret [ANVIL_OWNER_3; ANVIL_OWNER_4]
  else
    _ ← throw_if (negb (forallb (isHexBytes 32) listed)) "TREASURY_OWNER_KEYS entries must be 0x-prefixed 32-byte hex private keys";
    _ ← throw_if (negb (bool_decide (length listed = 2%nat)))
          ("the demo treasury is 2-of-2: TREASURY_OWNER_KEYS needs exactly two keys, got " +:+ pretty (length listed));
    mret listed.

Fixpoint dashToUnderscore (s : string) : string :=
  match s with EmptyString => EmptyString | String c s => String (if Ascii.eqb c "-" then "_" else c)%char (dashToUnderscore s) end.
Definition chainEnvName (prefix chain : string) : string := prefix +:+ "_" +:+ dashToUnderscore chain.

Definition readAddress (e : env) (name : string) : result string (option string) :=
  match trimmed e name with
  | None => mret None
  | Some v => if isHexBytes 20 v then mret (Some v) else Throw (name +:+ " is not an address")
  end.

Record ChainOverrides : Type := { co_conduit : option string; co_router : option string; co_vault : option string }.
Definition loadChainOverrides (e : env) (chain : string) : result string ChainOverrides :=
  conduit ← readAddress e (chainEnvName "AGENT_CONDUIT" chain);
  router ← readAddress e (chainEnvName "AGENT_SWAP_ROUTER" chain);
  vault ← readAddress e (chainEnvName "AGENT_EARN_VAULT" chain);
  mret {| co_conduit := conduit; co_router := router; co_vault := vault |}.

Record KitEnv : Type := {
  ke_clientUrl : option string; ke_clientKey : option string; ke_mockUrl : string; ke_rpcUrls : list (string * string) }.
Definition loadKitEnv (e : env) : KitEnv :=
  {| ke_clientUrl := trimmed e "CIRCLE_CLIENT_URL"; ke_clientKey := trimmed e "CIRCLE_CLIENT_KEY";
     ke_mockUrl := default "http://127.0.0.1:8788/v1/rpc/w3s/buidl" (trimmed e "MOCK_CIRCLE_URL");
     ke_rpcUrls := omap (λ key, (λ url, (key, url)) <$> trimmed e (chainEnvName "RPC_URL" key)) CHAIN_KEYS |}.

Record AgentConfig : Type := {
  cf_provider : AgentProviderConfig; cf_chains : list string; cf_ownerKeys : list string; cf_ownerAddresses : list string;
  cf_sessionKey : option string; cf_kitEnv : KitEnv; cf_overrides : string → result string ChainOverrides }.

(** [privateKeyToAddress] is viem's. *)
Definition loadConfig (privateKeyToAddress : string → result string string) (e : env) : result string AgentConfig :=
  chains ← parseChains (e "AGENT_CHAINS");
  ownerKeys ← parseOwnerKeys (e "TREASURY_OWNER_KEYS") chains;
  let sessionKey := trimmed e "AGENT_SESSION_KEY" in
  _ ← throw_if (match sessionKey with Some k => negb (isHexBytes 32 k) | None => false end)
        "AGENT_SESSION_KEY must be a 0x-prefixed 32-byte hex private key";
  provider ← loadProviderConfig e;
  addresses ← mapM privateKeyToAddress ownerKeys;
  mret {| cf_provider := provider; cf_chains := chains; cf_ownerKeys := ownerKeys; cf_ownerAddresses := addresses;
          cf_sessionKey := sessionKey; cf_kitEnv := loadKitEnv e; cf_overrides := loadChainOverrides e |}.

(** ** context.ts *)

Record TreasuryContext : Type := { cx_config : AgentConfig; cx_state : AgentState; cx_sessionKey : string }.
#[global] Instance eta_context : Eta TreasuryContext :=
  λ c, {| cx_config := cx_config c; cx_state := cx_state c; cx_sessionKey := cx_sessionKey c |}.

Section context.
Context (numberOf : string → jsnum) `{Zod}.

(** The context and the file, when a key had to be stored. [minted] is what
    [generatePrivateKey] would return. *)
Definition createContext (config : AgentConfig) (minted : string) (file : file_read) :
    result state_error (TreasuryContext * file_read) :=
  state ← loadState numberOf file;
  let key := default (default minted (sessionPrivateKey state)) (cf_sessionKey config) in
  if bool_decide (cf_sessionKey config = None) && negb (bool_decide (sessionPrivateKey state = Some key)) then
    let state := state <| sessionPrivateKey := Some key |> in
    mret ({| cx_config := config; cx_state := state; cx_sessionKey := key |}, saveState state)
  else mret ({| cx_config := config; cx_state := state; cx_sessionKey := key |}, file).

Definition recordDeployment (cf : TreasuryContext * file_read) (d : StoredDeployment) : TreasuryContext * file_read :=
  let s := cx_state cf.1 in
  let s := s <| deployments := filter (λ x, dp_chain x ≠ dp_chain d) (deployments s) ++ [d] |> in
  (cf.1 <| cx_state := s |>, saveState s).

Definition requireDeployment (c : TreasuryContext) (key : string) : result string StoredDeployment :=
  match findDeployment (cx_state c) key with
  | Some d => mret d
  | None => Throw ("no treasury on " +:+ key +:+ " yet — run /setup first")
  end.

Definition resolveChain (c : TreasuryContext) (key : option string) : result string string :=
  let chains := cf_chains (cx_config c) in
  match truthy (trim <$> key) with
  | Some k =>
      let k := toUpperCase k in
      _ ← throw_if (negb (bool_decide (k ∈ chains))) (k +:+ " is not in AGENT_CHAINS (" +:+ joinWith ", " chains +:+ ")");
      mret k
  | None =>
      match chains with
      | [k] => mret k
      | _ => Throw ("several chains are configured (" +:+ joinWith ", " chains +:+ "); say which one")
      end
  end.

(** The kit's chain with the overrides of the environment. *)
Definition chainOf (kitChain : string → result string TreasuryChain) (c : TreasuryContext) (key : string) : result string TreasuryChain :=
  base ← kitChain key;
  o ← cf_overrides (cx_config c) key;
  let targets := omap (λ nv, (λ v, (nv.1, v)) <$> truthy nv.2) [("router", co_router o); ("vault", co_vault o)] in
  match truthy (match co_conduit o with Some a => Some a | None => tc_conduit base end) with
  | None => mret (base <| tc_targets := foldl (λ m kv, JsMap.map_set kv.1 kv.2 m) (tc_targets base) targets |>)
  | Some conduit => mret (withConduit base conduit targets)
  end.
Definition contextConduit (kitChain : string → result string TreasuryChain) (c : TreasuryContext) (key : string) : result string string :=
  chain ← chainOf kitChain c key;
  match truthy (tc_conduit chain) with
  | Some a => mret a
  | None => Throw (key +:+ " has no TreasuryConduit address: set AGENT_CONDUIT_" +:+ dashToUnderscore key +:+ " to the deployed conduit")
  end.
End context.
