(* ===== verification/AgentSession.v ===== *)
(** * The agent's session: what holds

    Configuration and context: what the configuration guarantees, and that a
    session started again from its file is the session that was left. *)

From S2P Require Import Prelude.
From S2P Require Import Js.
From S2P Require Import Float64.
From S2P Require Import CreJson.
From S2P Require Import CreParse.
From S2P Require Import JsonText.
From S2P Require Import Abi.
From S2P Require Import Coordinator.
From S2P Require Import JsMap.
From S2P Require Import AgentKit.
From S2P Require Import AgentSafety.
From S2P Require Import AgentState.
From S2P Require Import AgentFile.
From S2P Require Import AgentContext.

(** ** Configuration *)

Lemma parseChains_ok raw chains : parseChains raw = Ok chains → chains ≠ [] ∧ NoDup chains ∧ chains ⊆ CHAIN_KEYS.
Proof.
  unfold parseChains. set (keys := nonempty _). intros Hc. ok_inv. subst chains.
  split_and!; [by rewrite js_set_nil|apply js_set_nodup|]. intros k Hk. rewrite js_set_elem in Hk. destruct (decide (k ∈ CHAIN_KEYS)) as [|Hn]; [done|].
  assert (k ∈ filter (λ k, k ∉ CHAIN_KEYS) keys) as Hin by (by apply list_elem_of_filter).
  rename select (filter _ _ = []) into E. rewrite E in Hin. by apply not_elem_of_nil in Hin.
Qed.

Lemma nonempty_nil l : nonempty l = [] ↔ ∀ s, s ∈ l → s = "".
Proof.
  unfold nonempty. split.
  - intros E s Hs. destruct (decide (s = "")) as [|Hne]; [done|].
    assert (s ∈ filter (λ s, s ≠ "") l) as Hin by (by apply list_elem_of_filter). rewrite E in Hin. by apply elem_of_nil in Hin.
  - intros Hl. destruct (filter _ l) as [|s l'] eqn:E; [done|].
    assert (s ∈ filter (λ s, s ≠ "") l) as [Hne Hs]%list_elem_of_filter by (rewrite E; left). by destruct Hne; apply Hl.
Qed.

(** The keys listed, or the test keys on LOCAL when there are none. *)
Lemma parseOwnerKeys_ok raw chains keys : parseOwnerKeys raw chains = Ok keys →
  length keys = 2%nat ∧ Forall (λ k, isHexBytes 32 k = true) keys ∧
  let entries := splitComma (default "" raw) in
  (keys = filter (λ k, k ≠ "") (trim <$> entries) ∧ (∃ s, s ∈ entries ∧ trim s ≠ "") ∨
   keys = [ANVIL_OWNER_3; ANVIL_OWNER_4] ∧ (∀ s, s ∈ entries → trim s = "") ∧ Forall (λ c, c = "LOCAL") chains).
Proof.
  unfold parseOwnerKeys. case_bool_decide as E; intros Hk; ok_inv; subst keys.
  - split_and!; [done|by repeat constructor|]. right. split; [done|]. rewrite nonempty_nil in E. split.
    + intros s Hs. by apply E, list_elem_of_fmap_2.
    + rewrite forallb_forall in Hr. apply Forall_forall. intros c Hc. by apply list_elem_of_In, Hr, bool_decide_eq_true in Hc.
  - split_and!; [done| |].
    { rewrite forallb_forall in Hr. apply Forall_forall. intros k Hin. by apply Hr, list_elem_of_In. }
    left. split; [done|]. destruct (nonempty (trim <$> splitComma (default "" raw))) as [|k l] eqn:El; [done|].
    assert (k ∈ nonempty (trim <$> splitComma (default "" raw))) as [Hne (s & -> & Hs)%list_elem_of_fmap]%list_elem_of_filter
      by (rewrite El; left). by exists s.
Qed.

(** ** The session *)

Section session.
Context (numberOf : string → jsnum) `{ZodLaws}.
Notation createContext := (createContext numberOf).

(** The file holds the state of the context, and starting from it changes nothing. *)
Record synced (c : TreasuryContext) (file : file_read) : Prop := {
  sy_load : loadState numberOf file = Ok (cx_state c);
  sy_ok : stateOk (cx_state c);
  sy_key minted : cx_sessionKey c = default (default minted (sessionPrivateKey (cx_state c))) (cf_sessionKey (cx_config c));
  sy_stored : cf_sessionKey (cx_config c) = None → sessionPrivateKey (cx_state c) = Some (cx_sessionKey c) }.

Lemma loadState_ok file s : loadState numberOf file = Ok s → stateOk s.
Proof.
  destruct file as [text|code]; [by apply parsed_ok|]. unfold loadState. case_bool_decide; [|done]. intros [= <-]. by split.
Qed.

Lemma createContext_synced config minted file c file' :
  isHexBytes 32 minted = true → createContext config minted file = Ok (c, file') → synced c file' ∧ cx_config c = config.
Proof.
  intros Hm. unfold AgentContext.createContext. intros Hc. ok_inv. rename r into s. assert (stateOk s) as Hs by (by eapply loadState_ok).
  destruct (cf_sessionKey config) as [k|] eqn:Hk.
  - rewrite bool_decide_false in Hc by done. cbn [andb] in Hc. injection Hc as <- <-. split; [|done].
    split; cbn; [done|done|by rewrite Hk|by rewrite Hk].
  - rewrite bool_decide_true in Hc by done. cbn [andb default] in Hc. case_bool_decide as E; cbn [negb] in Hc; injection Hc as <- <-; (split; [|done]).
    + split; cbn; [done|done|intros ?; by rewrite Hk, E|done].
    + assert (stateOk (s <| sessionPrivateKey := Some (default minted (sessionPrivateKey s)) |>)) as Hs'.
      { destruct Hs as [H1 H2]. split; [|done]. cbn. by destruct (sessionPrivateKey s). }
      split; cbn; [by apply parse_serialize|done|intros ?; by rewrite Hk|done].
Qed.

Lemma record_synced c file d : synced c file → deploymentOk d →
  synced (recordDeployment (c, file) d).1 (recordDeployment (c, file) d).2.
Proof.
  intros [S1 [S2 S2'] S3 S4] Hd. assert (stateOk (cx_state (recordDeployment (c, file) d).1)) as Hok.
  { split; [done|]. cbn. apply Forall_app. split; [|by constructor]. apply Forall_forall. intros x [_ Hx]%list_elem_of_filter.
    by eapply Forall_forall in S2'. }
  split; [by apply parse_serialize|done|exact S3|exact S4].
Qed.

Lemma synced_restart c file minted : synced c file → createContext (cx_config c) minted file = Ok (c, file).
Proof.
  intros [S1 _ S3 S4]. unfold AgentContext.createContext. rewrite S1. cbn [mbind result_bind]. rewrite <- S3.
  destruct c as [config s k]. cbn in *. case_bool_decide as E; [|done]. cbn [andb]. by rewrite (S4 E), bool_decide_true.
Qed.

(** The deployment of a chain is the last one recorded for it. *)
Lemma find_record d s chain :
  List.find (λ x, bool_decide (dp_chain x = chain)) (filter (λ x, dp_chain x ≠ dp_chain d) s ++ [d])
  = if decide (dp_chain d = chain) then Some d else List.find (λ x, bool_decide (dp_chain x = chain)) s.
Proof.
  induction s as [|x s IH].
  - cbn. by destruct (decide (dp_chain d = chain)); [rewrite bool_decide_true|rewrite bool_decide_false].
  - rewrite filter_cons. destruct (decide (dp_chain x ≠ dp_chain d)) as [Hx|Hx]; cbn [app List.find]; rewrite IH; try apply dec_stable in Hx;
      destruct (decide (dp_chain d = chain)) as [E|E]; repeat case_bool_decide; congruence.
Qed.

Lemma records_synced ds c file : synced c file → Forall deploymentOk ds →
  let '(c', file') := foldl recordDeployment (c, file) ds in
  synced c' file' ∧ cx_config c' = cx_config c ∧ cx_sessionKey c' = cx_sessionKey c ∧
  ∀ chain, findDeployment (cx_state c') chain
    = match last (filter (λ d, dp_chain d = chain) ds) with Some d => Some d | None => findDeployment (cx_state c) chain end.
Proof.
  revert c file. induction ds as [|d ds IH]; cbn [foldl]; intros c file Hs Hds; [done|]. inversion Hds as [|? ? Hd Hds']; subst.
  specialize (IH _ _ (record_synced _ _ _ Hs Hd) Hds'). destruct (recordDeployment (c, file) d) as [c1 file1] eqn:E1. cbn [fst snd] in IH.
  destruct (foldl recordDeployment (c1, file1) ds) as [c' file']. destruct IH as (I1 & I2 & I3 & I4). injection E1 as <- <-.
  split_and!; [done|done|done|]. intros chain. rewrite I4. unfold findDeployment at 1. cbn [cx_state deployments set]. cbn. rewrite find_record.
  case_decide as E; cbn; [|done]. destruct (filter (λ d0, dp_chain d0 = chain) ds) as [|x xs] eqn:Ex; [by cbn|].
  rewrite !last_cons. by destruct (last xs).
Qed.

(** C27: a session resumes where it was left. Start the session on any file that
    is read (or none), record any deployments, and start it again from the file:
    it is the same context - the state, the session key - and the file is left
    alone, whatever key would be minted now. The deployment the context requires
    for a chain is the last one recorded for it, else the one the file held. *)
Theorem session_resumes config minted file c file1 ds :
  isHexBytes 32 minted = true → createContext config minted file = Ok (c, file1) → Forall deploymentOk ds →
  let '(c', file2) := foldl recordDeployment (c, file1) ds in
  (∀ minted', createContext config minted' file2 = Ok (c', file2)) ∧ cx_sessionKey c' = cx_sessionKey c ∧
  (∀ chain d, last (filter (λ d, dp_chain d = chain) ds) = Some d → requireDeployment c' chain = Ok d) ∧
  (∀ chain, filter (λ d, dp_chain d = chain) ds = [] → requireDeployment c' chain = requireDeployment c chain).
Proof.
  intros Hm Hc Hds. apply createContext_synced in Hc as [Hs <-]; [|done]. pose proof (records_synced ds c file1 Hs Hds) as H1.
  destruct (foldl recordDeployment (c, file1) ds) as [c' file2]. destruct H1 as (I1 & I2 & I3 & I4). unfold requireDeployment. split_and!; [|done|..].
  - intros minted'. rewrite <- I2. by apply synced_restart.
  - intros chain d Hl. by rewrite I4, Hl.
  - intros chain Hl. by rewrite I4, Hl.
Qed.
End session.

(** ** What the configuration guarantees *)

Lemma CHAIN_KEYS_known `{Viem} `{KitLib} k : k ∈ CHAIN_KEYS → ∃ t, getChain k = Ok t.
Proof. intros Hk. repeat (apply elem_of_cons in Hk as [-> |Hk]; [by eexists|]). by apply not_elem_of_nil in Hk. Qed.

Lemma provider_key e p : loadProviderConfig e = Ok p → pv_key (pc_primary p) ≠ "".
Proof.
  unfold loadProviderConfig, trimmed. intros Hp.
  destruct (truthy (trim <$> e "ANTHROPIC_API_KEY")) as [k|] eqn:Ha; [|destruct (truthy (trim <$> e "OPENAI_API_KEY")) as [k|] eqn:Ho; [|done]];
    injection Hp as <-; cbn; [by apply truthy_some in Ha as []|by apply truthy_some in Ho as []].
Qed.

(** C28: a configuration that loads is sound. There are chains, each once and
    each one the kit knows; two owner keys of 32 bytes with their addresses:
    those listed in TREASURY_OWNER_KEYS, trimmed and in order, or, exactly when
    nothing is listed there (it is absent, empty, or blanks and commas), anvil's
    public test keys 3 and 4, and then LOCAL is the only chain; a session key, if
    there is one, of 32 bytes; a model key that is not empty. And the chain a call of the
    session means is one of the configured ones. *)
Theorem config_sound `{Viem} `{KitLib} toAddress e cfg :
  loadConfig toAddress e = Ok cfg →
  (cf_chains cfg ≠ [] ∧ NoDup (cf_chains cfg) ∧ Forall (λ k, ∃ t, getChain k = Ok t) (cf_chains cfg)) ∧
  (length (cf_ownerKeys cfg) = 2%nat ∧ Forall (λ k, isHexBytes 32 k = true) (cf_ownerKeys cfg) ∧
   Forall2 (λ k a, toAddress k = Ok a) (cf_ownerKeys cfg) (cf_ownerAddresses cfg) ∧
   let entries := splitComma (default "" (e "TREASURY_OWNER_KEYS")) in
   (cf_ownerKeys cfg = filter (λ k, k ≠ "") (trim <$> entries) ∧ (∃ s, s ∈ entries ∧ trim s ≠ "") ∨
    cf_ownerKeys cfg = [ANVIL_OWNER_3; ANVIL_OWNER_4] ∧ (∀ s, s ∈ entries → trim s = "") ∧
    Forall (λ c, c = "LOCAL") (cf_chains cfg))) ∧
  optP (λ k, isHexBytes 32 k = true) (cf_sessionKey cfg) ∧ pv_key (pc_primary (cf_provider cfg)) ≠ "" ∧
  (∀ c key k, cx_config c = cfg → resolveChain c key = Ok k → k ∈ cf_chains cfg).
Proof.
  unfold loadConfig. intros Hc. ok_inv. subst cfg. cbn.
  rename select (parseChains _ = _) into H1. rename select (parseOwnerKeys _ _ = _) into H2.
  apply parseChains_ok in H1 as (C1 & C2 & C3). apply parseOwnerKeys_ok in H2 as (O1 & O2 & O3). split_and!.
  all: try done.
  - apply Forall_forall. intros k Hk. by apply CHAIN_KEYS_known, C3.
  - by rename select (mapM _ _ = _) into Hm; apply mapM_ok in Hm.
  - rename select (_ = false) into Hk. destruct (trimmed e "AGENT_SESSION_KEY"); [|done]. by apply negb_false_iff in Hk.
  - by eapply provider_key.
  - intros c key k Hc Hr. unfold resolveChain in Hr. rewrite Hc in Hr. cbn [cf_chains] in Hr.
    destruct (truthy _) as [k'|]; [ok_inv; by subst|]. destruct r as [|k' [|]]; [done| |done]. injection Hr as <-. by left.
Qed.

(** ** Concrete inputs *)

Definition sample_env : env := λ name,
  map_get name [("AGENT_CHAINS", " arc-testnet, LOCAL,local"); ("OPENAI_API_KEY", " k1 ");
                ("TREASURY_OWNER_KEYS", ANVIL_OWNER_4 +:+ "," +:+ ANVIL_OWNER_3)].
Definition sample_toAddress (k : string) : result string string := Ok (String.substring 0 42 k).

Lemma config_sound_witness : ∃ cfg,
  loadConfig sample_toAddress sample_env = Ok cfg ∧ cf_chains cfg = ["ARC-TESTNET"; "LOCAL"] ∧
  length (cf_ownerKeys cfg) = 2%nat ∧ cf_ownerKeys cfg = [ANVIL_OWNER_4; ANVIL_OWNER_3].
Proof.
  assert (E0 : match loadConfig sample_toAddress sample_env with Ok cfg => cf_chains cfg | Throw _ => [] end = ["ARC-TESTNET"; "LOCAL"])
    by (vm_compute; reflexivity).
  destruct (loadConfig sample_toAddress sample_env) as [cfg|e] eqn:E; [|discriminate E0].
  exists cfg. split; [reflexivity|]. split; [exact E0|].
  destruct (@config_sound kit_viem kit_lib sample_toAddress sample_env cfg E) as (_ & (H2 & _ & _ & [[Hk _]|(_ & _ & Hl)]) & _).
  - split; [exact H2|]. etransitivity; [exact Hk|vm_compute; reflexivity].
  - rewrite E0 in Hl. apply Forall_cons in Hl as [F _]. discriminate F.
Defined.

Definition sample_config : AgentConfig :=
  {| cf_provider := {| pc_primary := {| pv_provider := "openai"; pv_key := "k"; pv_model := "m" |}; pc_fallback := None |};
     cf_chains := ["LOCAL"]; cf_ownerKeys := []; cf_ownerAddresses := []; cf_sessionKey := None; cf_kitEnv := loadKitEnv sample_env;
     cf_overrides := loadChainOverrides sample_env |}.

Lemma session_resumes_witness : ∃ c file,
  createContext JNonInt sample_config ANVIL_OWNER_3 (FileError "ENOENT") = Ok (c, file) ∧ cx_sessionKey c = ANVIL_OWNER_3 ∧
  createContext JNonInt sample_config ANVIL_OWNER_4 (foldl recordDeployment (c, file) [sample_deployment]).2
    = Ok (foldl recordDeployment (c, file) [sample_deployment]).
Proof.
  eexists _, _. split; [reflexivity|]. split; [reflexivity|].
  assert (Hd : Forall deploymentOk [sample_deployment]) by exact (proj2 sample_state_ok).
  exact (proj1 (session_resumes JNonInt sample_config ANVIL_OWNER_3 (FileError "ENOENT") _ _ [sample_deployment] eq_refl eq_refl Hd) ANVIL_OWNER_4).
Defined.
